(** * OGRArrowLayer: a shallow embedding of ograrrowlayer.hpp

    Generic Arrow layer code shared by the Arrow/Feather and Parquet drivers
    (ogr/ogrsf_frmts/arrow_common/ograrrowlayer.hpp).  The definitions below
    follow the C++ functions name by name; out-parameters become extra
    results, member variables become fields of explicit state records, and
    diagnostics (CPLError / CPLDebug) are appended to a log.

    Conventions
    - C++ integers are [Z]; where the code relies on a fixed width the
      wrap-around is written out.
    - A finite [double] is the rational ([Q]) it denotes; comparison, min
      and max are exact on them.  The cells of a double array, the values
      handed to the predicate evaluator and the real values of a record
      may also be an infinity or a NaN ([CxxDouble]); coordinates,
      envelopes and the constants of a predicate are finite.
    - The file has two parts: the embedding (definitions only), then the
      lemmas and theorems about it. *)

From Stdlib Require Import ZArith Lia Bool QArith Qminmax Qabs Qround Lqa.
From Stdlib Require Import Strings.Byte.
From stdpp Require Import base option list strings pretty gmap.

#[local] Open Scope string_scope.
#[local] Open Scope list_scope.
#[local] Open Scope Z_scope.

(* ===================================================================== *)
(** * Part I: the embedding *)
(* ===================================================================== *)

(** ** Arrow data types *)

Module arrow.

(** [arrow::Type::type], restricted to the ids the layer switches on. *)
Inductive TypeId : Set :=
| NA | BOOL | UINT8 | INT8 | UINT16 | INT16 | UINT32 | INT32 | UINT64
| INT64 | HALF_FLOAT | FLOAT | DOUBLE | STRING | BINARY
| FIXED_SIZE_BINARY | DATE32 | DATE64 | TIMESTAMP | TIME32 | TIME64
| INTERVAL_MONTHS | INTERVAL_DAY_TIME | DECIMAL128 | DECIMAL256 | LIST
| STRUCT | SPARSE_UNION | DENSE_UNION | DICTIONARY | MAP | EXTENSION
| FIXED_SIZE_LIST | DURATION | LARGE_STRING | LARGE_BINARY | LARGE_LIST
| INTERVAL_MONTH_DAY_NANO | RUN_END_ENCODED | MAX_ID.

#[export] Instance TypeId_eq_dec : EqDecision TypeId.
Proof. solve_decision. Defined.

(** [arrow::DataType].  Parameter-free types are [TPrim id]; the types
    whose parameters the layer reads carry them.  A list type carries the
    name and type of its value field ([value_field()->name()],
    [value_type()]). *)
#[warnings="-register-all"]
Inductive DataType : Set :=
| TPrim (tid : TypeId)
| TFixedSizeBinary (byte_width : Z)
| TTimestamp (timezone : string)
| TDecimal (tid : TypeId) (precision scale : Z)
| TList (value_name : string) (value_type : DataType)
| TLargeList (value_name : string) (value_type : DataType)
| TFixedSizeList (value_name : string) (value_type : DataType)
                 (list_size : Z)
| TMap (key_type item_type : DataType)
| TStruct (children : list (string * DataType * bool))
| TDictionary (index_type value_type : DataType)
| TExtension (storage_type : DataType).

(** [DataType::id()]. *)
Definition id (t : DataType) : TypeId :=
  match t with
  | TPrim i => i
  | TFixedSizeBinary _ => FIXED_SIZE_BINARY
  | TTimestamp _ => TIMESTAMP
  | TDecimal i _ _ => i
  | TList _ _ => LIST
  | TLargeList _ _ => LARGE_LIST
  | TFixedSizeList _ _ _ => FIXED_SIZE_LIST
  | TMap _ _ => MAP
  | TStruct _ => STRUCT
  | TDictionary _ _ => DICTIONARY
  | TExtension _ => EXTENSION
  end.

(** [arrow::Field]: name, type, nullability. *)
Record Field : Set := mkField {
  name : string;
  type : DataType;
  nullable : bool
}.

End arrow.

Import arrow.

(** ** C strings *)

(** [std::string::c_str ()] read as a C string (by [CPLStrdup],
    [OGRFeature::SetField], the constructor of [OGRFieldDefn] and the
    parsers of the OGR core): the characters before the first NUL. *)
Fixpoint c_str (s : string) : string :=
  match s with
  | EmptyString => EmptyString
  | String a rest =>
      if Ascii.eqb a Ascii.zero then EmptyString else String a (c_str rest)
  end.

(** ** OGR geometry types *)

(** Modelled from the spec: [OGRwkbGeometryType] and its helpers
    [OGR_GT_SetModifier], [OGR_GT_HasZ], [OGR_GT_HasM], [wkbFlatten]
    (ogr_core.h, ogrgeometry.cpp) are outside src/.  A geometry type is its
    flat type together with the has-Z and has-M dimensionality flags. *)
Inductive wkbFlatType : Set :=
| wkbUnknown | wkbPoint | wkbLineString | wkbPolygon | wkbMultiPoint
| wkbMultiLineString | wkbMultiPolygon | wkbNone.

#[export] Instance wkbFlatType_eq_dec : EqDecision wkbFlatType.
Proof. solve_decision. Defined.

Record OGRwkbGeometryType : Set := mkGT {
  wkbFlatten : wkbFlatType;
  OGR_GT_HasZ : bool;
  OGR_GT_HasM : bool
}.

Definition OGR_GT_SetModifier (eType : wkbFlatType) (bHasZ bHasM : bool)
  : OGRwkbGeometryType := mkGT eType bHasZ bHasM.

(** [enum class OGRArrowGeomEncoding] (ogr_arrow.h). *)
Inductive OGRArrowGeomEncoding : Set :=
| WKB | WKT | GEOARROW_GENERIC | GEOARROW_POINT | GEOARROW_LINESTRING
| GEOARROW_POLYGON | GEOARROW_MULTIPOINT | GEOARROW_MULTILINESTRING
| GEOARROW_MULTIPOLYGON.

#[export] Instance OGRArrowGeomEncoding_eq_dec :
  EqDecision OGRArrowGeomEncoding.
Proof. solve_decision. Defined.

(** ** Diagnostics *)

(** One entry of the error log: [CPLError (CE_Warning | CE_Failure, ...)]
    or [CPLDebug]; the payload names the field concerned. *)
Inductive Diag : Set :=
| CE_Warning (what : string) (field : string)
| CE_Failure (what : string) (field : string)
| Debug (what : string) (field : string).

(** ** Geometry Encoding Classifier *)

(** [IsPointType]: the two out-parameters are threaded through, so that a
    path which does not assign them returns the caller's values. *)
Definition IsPointType (type : DataType) (bHasZOut bHasMOut : bool)
  : bool * bool * bool :=
  match type with
  | TFixedSizeList osValueFieldName value_type nOutDimensionality =>
      let isDouble := bool_decide (id value_type = DOUBLE) in
      if nOutDimensionality =? 2 then (isDouble, false, false)
      else if nOutDimensionality =? 3 then
        if String.eqb osValueFieldName "xym" then (isDouble, false, true)
        else if String.eqb osValueFieldName "xyz" then (isDouble, true, false)
        else (isDouble, bHasZOut, bHasMOut)
      else if nOutDimensionality =? 4 then (isDouble, true, true)
      else (false, bHasZOut, bHasMOut)
  | _ => (false, bHasZOut, bHasMOut)
  end.

(** [IsListOfPointType]: [nDepth] levels of [LIST] around a point type.
    The recursion is on the type; [nDepth] is decremented as in the code. *)
Fixpoint IsListOfPointType (type : DataType) (nDepth : Z)
         (bHasZOut bHasMOut : bool) : bool * bool * bool :=
  match type with
  | TList _ value_type =>
      if nDepth =? 1 then IsPointType value_type bHasZOut bHasMOut
      else IsListOfPointType value_type (nDepth - 1) bHasZOut bHasMOut
  | _ => (false, bHasZOut, bHasMOut)
  end.

(** Result of [IsValidGeometryEncoding]: the returned flag, the two
    out-parameters and the diagnostics emitted. *)
Record EncodingCheck : Set := mkEncodingCheck {
  ec_ok : bool;
  ec_eGeomTypeOut : OGRwkbGeometryType;
  ec_eEncodingOut : OGRArrowGeomEncoding;
  ec_log : list Diag
}.

Definition geoarrow_case (fieldName : string) (check : bool * bool * bool)
    (flat : wkbFlatType) (enc : OGRArrowGeomEncoding) (msg : string)
    (eEncIn : OGRArrowGeomEncoding) : EncodingCheck :=
  let '(ok, bHasZ, bHasM) := check in
  if negb ok then
    mkEncodingCheck false (mkGT wkbUnknown false false) eEncIn
                    [CE_Warning msg fieldName]
  else
    mkEncodingCheck true (OGR_GT_SetModifier flat bHasZ bHasM) enc [].

(** [OGRArrowLayer::IsValidGeometryEncoding].  [eEncIn] is the value the
    caller's encoding variable holds on entry (left untouched on
    failure); [eGeomTypeOut] is always assigned. *)
Definition IsValidGeometryEncoding (field : Field) (osEncoding : string)
    (eEncIn : OGRArrowGeomEncoding) : EncodingCheck :=
  let fieldName := name field in
  let fieldType :=
    match type field with
    | TExtension storage => storage
    | t => t
    end in
  let fieldTypeId := id fieldType in
  let unknown := mkGT wkbUnknown false false in
  if String.eqb osEncoding "WKT" || String.eqb osEncoding "ogc.wkt"
     || String.eqb osEncoding "geoarrow.wkt" then
    if negb (bool_decide (fieldTypeId = LARGE_STRING))
       && negb (bool_decide (fieldTypeId = STRING)) then
      mkEncodingCheck false unknown eEncIn
        [CE_Warning "Geometry column has a non String type" fieldName]
    else mkEncodingCheck true unknown WKT []
  else if String.eqb osEncoding "WKB" || String.eqb osEncoding "ogc.wkb"
     || String.eqb osEncoding "geoarrow.wkb" then
    if negb (bool_decide (fieldTypeId = LARGE_BINARY))
       && negb (bool_decide (fieldTypeId = BINARY)) then
      mkEncodingCheck false unknown eEncIn
        [CE_Warning "Geometry column has a non Binary type" fieldName]
    else mkEncodingCheck true unknown WKB []
  else
    (* bool bHasZ = false; bool bHasM = false; *)
    let bHasZ := false in
    let bHasM := false in
    if String.eqb osEncoding "geoarrow.point" then
      geoarrow_case fieldName (IsPointType fieldType bHasZ bHasM)
        wkbPoint GEOARROW_POINT "Geometry column is not a point type" eEncIn
    else if String.eqb osEncoding "geoarrow.linestring" then
      geoarrow_case fieldName (IsListOfPointType fieldType 1 bHasZ bHasM)
        wkbLineString GEOARROW_LINESTRING
        "Geometry column is not a list of points" eEncIn
    else if String.eqb osEncoding "geoarrow.polygon" then
      geoarrow_case fieldName (IsListOfPointType fieldType 2 bHasZ bHasM)
        wkbPolygon GEOARROW_POLYGON
        "Geometry column is not a list of lists of points" eEncIn
    else if String.eqb osEncoding "geoarrow.multipoint" then
      geoarrow_case fieldName (IsListOfPointType fieldType 1 bHasZ bHasM)
        wkbMultiPoint GEOARROW_MULTIPOINT
        "Geometry column is not a list of points" eEncIn
    else if String.eqb osEncoding "geoarrow.multilinestring" then
      geoarrow_case fieldName (IsListOfPointType fieldType 2 bHasZ bHasM)
        wkbMultiLineString GEOARROW_MULTILINESTRING
        "Geometry column is not a list of lists of points" eEncIn
    else if String.eqb osEncoding "geoarrow.multipolygon" then
      geoarrow_case fieldName (IsListOfPointType fieldType 3 bHasZ bHasM)
        wkbMultiPolygon GEOARROW_MULTIPOLYGON
        "Geometry column is not a list of lists of lists of points" eEncIn
    else
      mkEncodingCheck false unknown eEncIn
        [CE_Warning "Geometry column uses a unhandled encoding" fieldName].

(** ** Type Mapper *)

(** Modelled from the spec: [OGRFieldType], [OGRFieldSubType] and
    [OGRFieldDefn] (ogr_core.h, ogr_feature.h) are outside src/.  A field
    descriptor has a name, a semantic type and subtype, nullability, width
    and precision, a timezone flag, an alternative name, a comment and an
    optional domain name; its setters store the value given. *)
Inductive OGRFieldType : Set :=
| OFTInteger | OFTIntegerList | OFTReal | OFTRealList | OFTString
| OFTStringList | OFTBinary | OFTDate | OFTTime | OFTDateTime
| OFTInteger64 | OFTInteger64List.

Inductive OGRFieldSubType : Set :=
| OFSTNone | OFSTBoolean | OFSTInt16 | OFSTFloat32 | OFSTJSON | OFSTUUID.

#[export] Instance OGRFieldType_eq_dec : EqDecision OGRFieldType.
Proof. solve_decision. Defined.
#[export] Instance OGRFieldSubType_eq_dec : EqDecision OGRFieldSubType.
Proof. solve_decision. Defined.

Record OGRFieldDefn : Set := mkFieldDefn {
  GetNameRef : string;
  GetType : OGRFieldType;
  GetSubType : OGRFieldSubType;
  GetWidth : Z;
  GetPrecision : Z;
  IsNullable : bool;
  GetTZFlag : Z;
  GetAlternativeNameRef : string;
  GetComment : string;
  GetDomainName : string
}.

(** [OGRFieldDefn (pszName, eType)]: a fresh descriptor. *)
Definition new_OGRFieldDefn (pszName : string) (eType : OGRFieldType)
  : OGRFieldDefn :=
  mkFieldDefn pszName eType OFSTNone 0 0 true 0 "" "" "".

Definition SetType (e : OGRFieldType) (f : OGRFieldDefn) : OGRFieldDefn :=
  mkFieldDefn (GetNameRef f) e (GetSubType f) (GetWidth f) (GetPrecision f)
    (IsNullable f) (GetTZFlag f) (GetAlternativeNameRef f) (GetComment f)
    (GetDomainName f).
Definition SetSubType (e : OGRFieldSubType) (f : OGRFieldDefn)
  : OGRFieldDefn :=
  mkFieldDefn (GetNameRef f) (GetType f) e (GetWidth f) (GetPrecision f)
    (IsNullable f) (GetTZFlag f) (GetAlternativeNameRef f) (GetComment f)
    (GetDomainName f).
Definition SetWidth (w : Z) (f : OGRFieldDefn) : OGRFieldDefn :=
  mkFieldDefn (GetNameRef f) (GetType f) (GetSubType f) w (GetPrecision f)
    (IsNullable f) (GetTZFlag f) (GetAlternativeNameRef f) (GetComment f)
    (GetDomainName f).
Definition SetPrecision (p : Z) (f : OGRFieldDefn) : OGRFieldDefn :=
  mkFieldDefn (GetNameRef f) (GetType f) (GetSubType f) (GetWidth f) p
    (IsNullable f) (GetTZFlag f) (GetAlternativeNameRef f) (GetComment f)
    (GetDomainName f).
Definition SetNullable (b : bool) (f : OGRFieldDefn) : OGRFieldDefn :=
  mkFieldDefn (GetNameRef f) (GetType f) (GetSubType f) (GetWidth f)
    (GetPrecision f) b (GetTZFlag f) (GetAlternativeNameRef f) (GetComment f)
    (GetDomainName f).
Definition SetTZFlag (tz : Z) (f : OGRFieldDefn) : OGRFieldDefn :=
  mkFieldDefn (GetNameRef f) (GetType f) (GetSubType f) (GetWidth f)
    (GetPrecision f) (IsNullable f) tz (GetAlternativeNameRef f)
    (GetComment f) (GetDomainName f).
Definition SetAlternativeName (a : string) (f : OGRFieldDefn)
  : OGRFieldDefn :=
  mkFieldDefn (GetNameRef f) (GetType f) (GetSubType f) (GetWidth f)
    (GetPrecision f) (IsNullable f) (GetTZFlag f) a (GetComment f)
    (GetDomainName f).
Definition SetComment (c : string) (f : OGRFieldDefn) : OGRFieldDefn :=
  mkFieldDefn (GetNameRef f) (GetType f) (GetSubType f) (GetWidth f)
    (GetPrecision f) (IsNullable f) (GetTZFlag f) (GetAlternativeNameRef f)
    c (GetDomainName f).
Definition SetDomainName (d : string) (f : OGRFieldDefn) : OGRFieldDefn :=
  mkFieldDefn (GetNameRef f) (GetType f) (GetSubType f) (GetWidth f)
    (GetPrecision f) (IsNullable f) (GetTZFlag f) (GetAlternativeNameRef f)
    (GetComment f) d.

(** [OGR_TZFLAG_UNKNOWN], [OGR_TZFLAG_UTC] (ogr_core.h). *)
Definition OGR_TZFLAG_UNKNOWN : Z := 0.
Definition OGR_TZFLAG_UTC : Z := 100.

(** [IsIntegerArrowType]. *)
Definition IsIntegerArrowType (typeId : TypeId) : bool :=
  match typeId with
  | INT8 | UINT8 | INT16 | UINT16 | INT32 | UINT32 | INT64 | UINT64 => true
  | _ => false
  end.

(** [IsHandledListOrMapType], with [IsHandledListType] and
    [IsHandledMapType] inlined at their call sites (the three functions are
    mutually recursive on the value type). *)
Fixpoint IsHandledListOrMapType (valueType : DataType) : bool :=
  match valueType with
  | TMap key_type item_type =>
      bool_decide (id key_type = STRING) && IsHandledListOrMapType item_type
  | TList _ value_type | TLargeList _ value_type
  | TFixedSizeList _ value_type _ => IsHandledListOrMapType value_type
  | _ =>
      let itemTypeId := id valueType in
      bool_decide (itemTypeId = BOOL) || IsIntegerArrowType itemTypeId
      || bool_decide (itemTypeId = HALF_FLOAT)
      || bool_decide (itemTypeId = FLOAT)
      || bool_decide (itemTypeId = DOUBLE)
      || bool_decide (itemTypeId = DECIMAL128)
      || bool_decide (itemTypeId = DECIMAL256)
      || bool_decide (itemTypeId = STRING)
      || bool_decide (itemTypeId = LARGE_STRING)
      || bool_decide (itemTypeId = STRUCT)
  end.

Definition IsHandledListType (listType : DataType) : bool :=
  match listType with
  | TList _ value_type | TLargeList _ value_type
  | TFixedSizeList _ value_type _ => IsHandledListOrMapType value_type
  | _ => false
  end.

Definition IsHandledMapType (mapType : DataType) : bool :=
  match mapType with
  | TMap key_type item_type =>
      bool_decide (id key_type = STRING) && IsHandledListOrMapType item_type
  | _ => false
  end.

(** The part of the layer that schema construction writes:
    [m_poFeatureDefn]'s attribute fields, the column path of every field,
    the indices of the bbox.* fields, the registered domains and the
    diagnostics. *)
Record SchemaState : Type := mkSchemaState {
  m_poFeatureDefn_fields : list OGRFieldDefn;
  m_anMapFieldIndexToArrowColumn : list (list Z);
  m_iBBOXMinXField : Z;
  m_iBBOXMinYField : Z;
  m_iBBOXMaxXField : Z;
  m_iBBOXMaxYField : Z;
  m_domains : list (string * Z);
  m_log : list Diag
}.

Definition GetFieldCount (s : SchemaState) : Z :=
  Z.of_nat (length (m_poFeatureDefn_fields s)).

Definition add_log (d : Diag) (s : SchemaState) : SchemaState :=
  mkSchemaState (m_poFeatureDefn_fields s) (m_anMapFieldIndexToArrowColumn s)
    (m_iBBOXMinXField s) (m_iBBOXMinYField s) (m_iBBOXMaxXField s)
    (m_iBBOXMaxYField s) (m_domains s) (m_log s ++ [d]).

(** Downcasts used by the mapper ([static_pointer_cast] after the switch
    on [id()]); on a type of another class they return a default. *)
Definition byte_width (t : DataType) : Z :=
  match t with TFixedSizeBinary w => w | _ => 0 end.
Definition timezone (t : DataType) : string :=
  match t with TTimestamp tz => tz | _ => "" end.
Definition precision (t : DataType) : Z :=
  match t with TDecimal _ p _ => p | _ => 0 end.
Definition scale (t : DataType) : Z :=
  match t with TDecimal _ _ s => s | _ => 0 end.
Definition value_type (t : DataType) : DataType :=
  match t with
  | TList _ v | TLargeList _ v | TFixedSizeList _ v _ => v
  | _ => TPrim NA
  end.

(** Outcome of [MapArrowTypeToOGR]: the returned flag, the by-reference
    arguments [oField], [eType], [eSubType], and the layer state. *)
Record MapResult : Type := mkMapResult {
  bTypeOK : bool;
  mr_eType : OGRFieldType;
  mr_eSubType : OGRFieldSubType;
  mr_oField : OGRFieldDefn;
  mr_state : SchemaState
}.

Section TypeMapper.

(** [OGRTimezoneToTZFlag] (ogr_p.h) is outside src/: taken as a
    parameter. *)
Variable OGRTimezoneToTZFlag : string → bool → Z.

Definition unhandled_type_warning (field : Field) : Diag :=
  CE_Warning "Field of unhandled type ignored" (name field).

(** The [switch (type->id())] of [MapArrowTypeToOGR]: returns
    [bTypeOK], [eType], [eSubType], [oField] and the diagnostics.
    [CPLAssert] is a no-op (release build). *)
Definition MapArrowTypeToOGR_switch (type : DataType) (field : Field)
    (oField : OGRFieldDefn) (eType : OGRFieldType)
    (eSubType : OGRFieldSubType)
  : bool * OGRFieldType * OGRFieldSubType * OGRFieldDefn * list Diag :=
  let keep := (true, eType, eSubType, oField, []) in
  let ok (t : OGRFieldType) (st : OGRFieldSubType) :=
    (true, t, st, oField, @nil Diag) in
  let drop :=
    (false, eType, eSubType, oField, [unhandled_type_warning field]) in
  match id type with
  | NA => keep
  | BOOL => ok OFTInteger OFSTBoolean
  | UINT8 | INT8 | UINT16 => ok OFTInteger eSubType
  | INT16 => ok OFTInteger OFSTInt16
  | UINT32 => ok OFTInteger64 eSubType
  | INT32 => ok OFTInteger eSubType
  | UINT64 => ok OFTReal eSubType
  | INT64 => ok OFTInteger64 eSubType
  | HALF_FLOAT | FLOAT => ok OFTReal OFSTFloat32
  | DOUBLE => ok OFTReal eSubType
  | STRING | LARGE_STRING => ok OFTString eSubType
  | BINARY | LARGE_BINARY => ok OFTBinary eSubType
  | FIXED_SIZE_BINARY =>
      (true, OFTBinary, eSubType, SetWidth (byte_width type) oField, [])
  | DATE32 | DATE64 => ok OFTDate eSubType
  | TIMESTAMP =>
      let osTZ := timezone type in
      let nTZFlag := OGRTimezoneToTZFlag (c_str osTZ) false in
      if (nTZFlag =? OGR_TZFLAG_UNKNOWN) && negb (String.eqb osTZ "") then
        (true, OFTDateTime, eSubType, SetTZFlag OGR_TZFLAG_UTC oField,
         [Debug "Field has unrecognized timezone" (name field)])
      else (true, OFTDateTime, eSubType, SetTZFlag nTZFlag oField, [])
  | TIME32 => ok OFTTime eSubType
  | TIME64 => ok OFTInteger64 eSubType
  | DECIMAL128 | DECIMAL256 =>
      (true, OFTReal, eSubType,
       SetPrecision (scale type) (SetWidth (precision type) oField), [])
  | LIST | FIXED_SIZE_LIST =>
      match id (value_type type) with
      | BOOL => ok OFTIntegerList OFSTBoolean
      | UINT8 | INT8 | UINT16 | INT16 | INT32 => ok OFTIntegerList eSubType
      | UINT32 => ok OFTInteger64List eSubType
      | UINT64 => ok OFTRealList eSubType
      | INT64 => ok OFTInteger64List eSubType
      | HALF_FLOAT | FLOAT => ok OFTRealList OFSTFloat32
      | DOUBLE | DECIMAL128 | DECIMAL256 => ok OFTRealList eSubType
      | STRING | LARGE_STRING => ok OFTStringList eSubType
      | _ => if IsHandledListType type then ok OFTString OFSTJSON else drop
      end
  | MAP => if IsHandledMapType type then ok OFTString OFSTJSON else drop
  | STRUCT => keep
  | INTERVAL_MONTHS | INTERVAL_DAY_TIME | SPARSE_UNION | DENSE_UNION
  | DICTIONARY | EXTENSION | DURATION | LARGE_LIST
  | INTERVAL_MONTH_DAY_NANO | RUN_END_ENCODED | MAX_ID => drop
  end.

(** The merge with the gdal:schema override of the same name, inside
    [if (bTypeOK)]: returns the subtype, the descriptor and the debug
    messages. *)
Definition merge_gdal_schema (poGDALFieldDefn : OGRFieldDefn)
    (fieldName : string) (eType : OGRFieldType)
    (eSubType : OGRFieldSubType) (oField : OGRFieldDefn)
  : OGRFieldSubType * OGRFieldDefn * list Diag :=
  let '(eSubType, dbg) :=
    if bool_decide (GetType poGDALFieldDefn = eType) then
      if bool_decide (eSubType = OFSTNone) then
        (GetSubType poGDALFieldDefn, [])
      else if bool_decide (eSubType ≠ GetSubType poGDALFieldDefn) then
        (eSubType, [Debug "Field subtype differs from gdal:schema" fieldName])
      else (eSubType, [])
    else (eSubType, [Debug "Field type differs from gdal:schema" fieldName])
  in
  let oField :=
    if GetWidth poGDALFieldDefn >? 0
    then SetWidth (GetWidth poGDALFieldDefn) oField else oField in
  let oField :=
    if GetPrecision poGDALFieldDefn >? 0
    then SetPrecision (GetPrecision poGDALFieldDefn) oField else oField in
  let oField :=
    if negb (String.eqb (GetAlternativeNameRef poGDALFieldDefn) "")
    then SetAlternativeName (GetAlternativeNameRef poGDALFieldDefn) oField
    else oField in
  let oField :=
    if negb (String.eqb (GetComment poGDALFieldDefn) "")
    then SetComment (GetComment poGDALFieldDefn) oField else oField in
  (eSubType, oField, dbg).

(** [OGRArrowLayer::MapArrowTypeToOGR]. *)
Definition MapArrowTypeToOGR (type : DataType) (field : Field)
    (oField : OGRFieldDefn) (eType : OGRFieldType)
    (eSubType : OGRFieldSubType) (path : list Z)
    (oMapFieldNameToGDALSchemaFieldDefn : gmap string OGRFieldDefn)
    (s : SchemaState) : MapResult :=
  let '(ok, eType, eSubType, oField, diags) :=
    MapArrowTypeToOGR_switch type field oField eType eSubType in
  if negb ok then
    mkMapResult false eType eSubType oField
      (mkSchemaState (m_poFeatureDefn_fields s)
         (m_anMapFieldIndexToArrowColumn s) (m_iBBOXMinXField s)
         (m_iBBOXMinYField s) (m_iBBOXMaxXField s) (m_iBBOXMaxYField s)
         (m_domains s) (m_log s ++ diags))
  else
    let oField := SetType eType oField in
    let '(eSubType, oField, dbg) :=
      match oMapFieldNameToGDALSchemaFieldDefn !! name field with
      | Some poGDALFieldDefn =>
          merge_gdal_schema poGDALFieldDefn (name field) eType eSubType
            oField
      | None => (eSubType, oField, [])
      end in
    let oField := SetSubType eSubType oField in
    let oField := SetNullable (nullable field) oField in
    let n := GetFieldCount s in
    let isDouble := bool_decide (id type = DOUBLE) in
    let named (k : string) := isDouble && String.eqb (name field) k in
    let minx := if named "bbox.minx" then n else m_iBBOXMinXField s in
    let miny :=
      if named "bbox.minx" then m_iBBOXMinYField s
      else if named "bbox.miny" then n else m_iBBOXMinYField s in
    let maxx :=
      if named "bbox.minx" || named "bbox.miny" then m_iBBOXMaxXField s
      else if named "bbox.maxx" then n else m_iBBOXMaxXField s in
    let maxy :=
      if named "bbox.minx" || named "bbox.miny" || named "bbox.maxx"
      then m_iBBOXMaxYField s
      else if named "bbox.maxy" then n else m_iBBOXMaxYField s in
    mkMapResult true eType eSubType oField
      (mkSchemaState (m_poFeatureDefn_fields s ++ [oField])
         (m_anMapFieldIndexToArrowColumn s ++ [path])
         minx miny maxx maxy (m_domains s) (m_log s ++ diags ++ dbg)).

(** [OGRArrowLayer::CreateFieldFromSchema], on the name, type and
    nullability of [field].  [RegisterDomainName] (dataset, outside
    src/) records the domain name with the index of the field.
    [Field::Flatten ()] (Arrow) names a struct member
    "parent.member" and makes it nullable when the parent is. *)
Fixpoint CreateFieldFromSchema (fname : string) (ftype : DataType)
    (fnullable : bool) (path : list Z)
    (overrides : gmap string OGRFieldDefn) (s : SchemaState)
  : SchemaState :=
  let field := mkField fname ftype fnullable in
  let oField := new_OGRFieldDefn (c_str fname) OFTString in
  let map_scalar (type : DataType) (oField : OGRFieldDefn)
      (s : SchemaState) :=
    mr_state (MapArrowTypeToOGR type field oField OFTString OFSTNone path
                overrides s) in
  match ftype with
  | TStruct children =>
      (fix subfields (cs : list (string * DataType * bool)) (j : Z)
           (s : SchemaState) : SchemaState :=
         match cs with
         | [] => s
         | (cname, ctype, cnullable) :: cs =>
             subfields cs (j + 1)
               (CreateFieldFromSchema (fname +:+ "." +:+ cname) ctype
                  (cnullable || fnullable) (path ++ [j]) overrides s)
         end) children 0 s
  | TDictionary indexType valueType =>
      if bool_decide (length path = 1%nat) then
        if bool_decide (id valueType = STRING)
           && IsIntegerArrowType (id indexType) then
          let osDomainName := fname +:+ "Domain" in
          let s :=
            mkSchemaState (m_poFeatureDefn_fields s)
              (m_anMapFieldIndexToArrowColumn s) (m_iBBOXMinXField s)
              (m_iBBOXMinYField s) (m_iBBOXMaxXField s)
              (m_iBBOXMaxYField s)
              (m_domains s ++ [(osDomainName, GetFieldCount s)])
              (m_log s) in
          map_scalar indexType (SetDomainName osDomainName oField) s
        else s
      else map_scalar ftype oField s
  | _ => map_scalar ftype oField s
  end.


End TypeMapper.

(** *** The reference table of the specification *)



Definition empty_schema : SchemaState :=
  mkSchemaState [] [] (-1) (-1) (-1) (-1) [] [].


(** ** Doubles *)

(** A [double] (IEEE 754 binary64): a finite value, as the rational it
    denotes, an infinity or a NaN. *)
Inductive CxxDouble : Set :=
| Finite (q : Q)
| Infinity (negative : bool)
| NaN.

(** The order of two doubles as the built-in operators see it; [None]
    when one of them is a NaN (the operands are unordered). *)
Definition double_compare (a b : CxxDouble) : option comparison :=
  match a, b with
  | NaN, _ | _, NaN => None
  | Finite x, Finite y => Some (Qcompare x y)
  | Infinity s, Infinity s' =>
      Some (if s then if s' then Eq else Lt else if s' then Gt else Eq)
  | Infinity s, Finite _ => Some (if s then Lt else Gt)
  | Finite _, Infinity s => Some (if s then Gt else Lt)
  end.

(** 2 to the power [k], for an exponent of either sign. *)
Definition pow2 (k : Z) : Q :=
  if 0 <=? k then inject_Z (2 ^ k) else / inject_Z (2 ^ (- k)).

(** The exponent of the leading bit of the positive quotient [n / d]: the
    greatest [k] with 2^k <= n / d. *)
Definition ilog2 (n d : Z) : Z :=
  let k := Z.log2 n - Z.log2 d in
  if d * 2 ^ Z.max 0 k <=? n * 2 ^ Z.max 0 (- k) then k else k - 1.

(** The rounding of the IEEE 754 arithmetic (conversions, [+], [/]) to a
    format with a mantissa of [prec] bits, 53 for [double] and 24 for
    [float]: the nearest value of the format, ties to the even mantissa.
    The exponent is not bounded: the results the layer rounds are within
    the range of the normal numbers of the format. *)
Definition round_binary (prec : Z) (q : Q) : Q :=
  let n := Z.abs (Qnum q) in
  let d := Zpos (Qden q) in
  if n =? 0 then 0%Q
  else
    let s := ilog2 n d - prec + 1 in
    let N := n * 2 ^ Z.max 0 (- s) in
    let D := d * 2 ^ Z.max 0 s in
    let f := N / D in
    let r := N mod D in
    let f := if (D <? 2 * r) || ((2 * r =? D) && Z.odd f) then f + 1
             else f in
    Qred (inject_Z (Z.sgn (Qnum q) * f) * pow2 s).

(** [static_cast<double>] of a 64-bit integer (signed or unsigned).  The
    integers of magnitude below 2^53, all the 32-bit ones among them, are
    kept. *)
Definition round_to_double (z : Z) : Q := round_binary 53 (inject_Z z).

(** The finite value of a double; 0 for an infinity or a NaN. *)
Definition finite_value (d : CxxDouble) : Q :=
  match d with Finite q => q | _ => 0%Q end.

(** ** Arrow arrays and record batches *)

(** [arrow::Array] and its subclasses, as far as the layer reads them: the
    type id, the validity bitmap (empty when the array has none) and the
    values.  List arrays hold their offsets buffer and child array
    ([ListArray]) or the fixed list size and child array
    ([FixedSizeListArray]).  Array slicing offsets are zero. *)
Inductive Array : Type :=
| mkArray (type_id : TypeId) (validity : list bool) (data : ArrayData)
with ArrayData : Type :=
| DNone
| DInt (ivalues : list Z)
| DDouble (dvalues : list CxxDouble)
| DString (svalues : list string)
| DBinary (bvalues : list (list Byte.byte))
| DList (offsets : list Z) (child : Array)
| DFixedSizeList (list_size : Z) (child : Array)
| DStruct (fields : list Array)
| DDictionary (indices : Array).

Definition type_id (a : Array) : TypeId :=
  match a with mkArray t _ _ => t end.
Definition array_validity (a : Array) : list bool :=
  match a with mkArray _ v _ => v end.
Definition array_data (a : Array) : ArrayData :=
  match a with mkArray _ _ d => d end.

(** [Array::IsNull (i)]: the validity bit of row [i] is cleared.  Reading
    outside the buffers is undefined in C++; the accessors below are total
    and return a default there. *)
Definition IsNull (a : Array) (i : Z) : bool :=
  match array_validity a !! Z.to_nat i with
  | Some false => true
  | _ => false
  end.

Definition empty_array : Array := mkArray NA [] DNone.

(** [ListArray::values ()], [FixedSizeListArray::values ()]. *)
Definition values (a : Array) : Array :=
  match array_data a with
  | DList _ c | DFixedSizeList _ c => c
  | _ => empty_array
  end.

(** [ListArray::value_offset (i)] and [value_length (i)]. *)
Definition value_offset (a : Array) (i : Z) : Z :=
  match array_data a with
  | DList offs _ => nth (Z.to_nat i) offs 0
  | _ => 0
  end.
Definition value_length (a : Array) (i : Z) : Z :=
  value_offset a (i + 1) - value_offset a i.

(** [DoubleArray::Value (i)]: the cell, which may be an infinity or a
    NaN. *)
Definition Value_ieee (a : Array) (i : Z) : CxxDouble :=
  match array_data a with
  | DDouble vs => nth (Z.to_nat i) vs (Finite 0)
  | _ => Finite 0
  end.

(** [DoubleArray::Value (i)] and [raw_values ()[i]] where the layer reads
    a coordinate or a bound of a bounding box: the finite value of the
    cell. *)
Definition Value_double (a : Array) (i : Z) : Q :=
  finite_value (Value_ieee a i).

(** [NumericArray<T>::Value (i)] for the integer and boolean types. *)
Definition Value_int (a : Array) (i : Z) : Z :=
  match array_data a with
  | DInt vs => nth (Z.to_nat i) vs 0
  | _ => 0
  end.

(** [StringArray::GetValue (i, &len)] / [GetString (i)]. *)
Definition GetString (a : Array) (i : Z) : string :=
  match array_data a with
  | DString vs => nth (Z.to_nat i) vs ""
  | _ => ""
  end.

(** [BinaryArray::GetValue (i, &len)]. *)
Definition GetValue (a : Array) (i : Z) : list Byte.byte :=
  match array_data a with
  | DBinary vs => nth (Z.to_nat i) vs []
  | _ => []
  end.

(** [arrow::RecordBatch]: [num_rows ()] and [columns ()]. *)
Record RecordBatch : Type := mkBatch {
  num_rows : Z;
  columns : list Array
}.

(** [m_poBatchColumns[iCol]]. *)
Definition column (cols : list Array) (iCol : Z) : Array :=
  nth (Z.to_nat iCol) cols empty_array.

(** ** OGR envelopes and geometries *)

(** Modelled from the spec: [OGREnvelope] (ogr_core.h) is outside src/.  A
    default-constructed envelope is uninitialised ([EnvNone]: its bounds
    are +inf / -inf, so that merging into it yields the other operand and
    nothing intersects it); [Merge] takes the componentwise min / max. *)
Inductive OGREnvelope : Set :=
| EnvNone
| Env (MinX MaxX MinY MaxY : Q).

Definition IsInit (e : OGREnvelope) : bool :=
  match e with EnvNone => false | Env _ _ _ _ => true end.

Definition Merge (e o : OGREnvelope) : OGREnvelope :=
  match e, o with
  | EnvNone, _ => o
  | _, EnvNone => e
  | Env a b c d, Env a' b' c' d' =>
      Env (Qmin a a') (Qmax b b') (Qmin c c') (Qmax d d')
  end.

(** [OGREnvelope::Merge (dfX, dfY)]. *)
Definition MergeXY (e : OGREnvelope) (dfX dfY : Q) : OGREnvelope :=
  Merge e (Env dfX dfX dfY dfY).

(** [OGREnvelope::Intersects (other)]. *)
Definition Intersects (e o : OGREnvelope) : bool :=
  match e, o with
  | Env a b c d, Env a' b' c' d' =>
      Qle_bool a b' && Qle_bool a' b && Qle_bool c d' && Qle_bool c' d
  | _, _ => false
  end.

(** C++ [operator==] on envelopes: numeric equality of the four bounds. *)
Definition Env_eq (e o : OGREnvelope) : Prop :=
  match e, o with
  | EnvNone, EnvNone => True
  | Env a b c d, Env a' b' c' d' =>
      (a == a' ∧ b == b' ∧ c == c' ∧ d == d')%Q
  | _, _ => False
  end.

(** Modelled from the spec: the OGR geometry classes ([OGRPoint],
    [OGRLineString], [OGRLinearRing], [OGRPolygon], [OGRMultiPoint],
    [OGRMultiLineString], [OGRMultiPolygon]; ogr_geometry.h) are outside
    src/.  A geometry value is its class, its 3D and measured flags, its
    own vertices (points and curves) and its parts (rings of a polygon,
    members of a collection).  A newly constructed geometry is empty, 2D
    and not measured.  [set3D] and [setMeasured] set the flag on the
    geometry and on all its parts.  Adding a part first homogenizes the
    dimensionality of container and part (whichever has Z or M gives it to
    the other).  A geometry is empty when it has no vertex and all its
    parts are empty.  Setting a vertex with a Z (resp. M) value makes the
    curve 3D (resp. measured).  The envelope of a geometry merges the
    vertices of all its non-empty parts. *)
Inductive GeomClass : Set :=
| POINT | LINESTRING | LINEARRING | POLYGON | MULTIPOINT
| MULTILINESTRING | MULTIPOLYGON.

Record Vertex : Set := mkVertex {
  vx : Q; vy : Q; vz : Q; vm : Q
}.

#[warnings="-register-all"]
Inductive OGRGeometry : Type :=
| mkGeom (class : GeomClass) (flag3D flagM : bool)
         (vertices : list Vertex) (parts : list OGRGeometry).

Definition geom_class (g : OGRGeometry) : GeomClass :=
  match g with mkGeom c _ _ _ _ => c end.
Definition Is3D (g : OGRGeometry) : bool :=
  match g with mkGeom _ z _ _ _ => z end.
Definition IsMeasured (g : OGRGeometry) : bool :=
  match g with mkGeom _ _ m _ _ => m end.

(** [new OGRLineString ()], [new OGRPolygon ()], ... *)
Definition new_geom (c : GeomClass) : OGRGeometry :=
  mkGeom c false false [] [].

Fixpoint IsEmpty (g : OGRGeometry) : bool :=
  match g with
  | mkGeom _ _ _ vs ps =>
      match vs with [] => forallb IsEmpty ps | _ => false end
  end.

Fixpoint set3D (b : bool) (g : OGRGeometry) : OGRGeometry :=
  match g with
  | mkGeom c _ m vs ps => mkGeom c b m vs (List.map (set3D b) ps)
  end.

Fixpoint setMeasured (b : bool) (g : OGRGeometry) : OGRGeometry :=
  match g with
  | mkGeom c z _ vs ps => mkGeom c z b vs (List.map (setMeasured b) ps)
  end.

(** [OGRGeometry::HomogenizeDimensionalityWith (poOtherGeom)]: returns the
    updated receiver and the updated argument. *)
Definition HomogenizeDimensionalityWith (this other : OGRGeometry)
  : OGRGeometry * OGRGeometry :=
  let this := if Is3D other && negb (Is3D this) then set3D true this
              else this in
  let this := if IsMeasured other && negb (IsMeasured this)
              then setMeasured true this else this in
  let other := if negb (Is3D other) && Is3D this then set3D true other
               else other in
  let other := if negb (IsMeasured other) && IsMeasured this
               then setMeasured true other else other in
  (this, other).

(** [OGRPolygon::addRingDirectly], [OGRGeometryCollection::
    addGeometryDirectly]: homogenize, then append the part. *)
Definition addPartDirectly (this part : OGRGeometry) : OGRGeometry :=
  let '(this, part) := HomogenizeDimensionalityWith this part in
  match this with
  | mkGeom c z m vs ps => mkGeom c z m vs (ps ++ [part])
  end.
Definition addRingDirectly := addPartDirectly.
Definition addGeometryDirectly := addPartDirectly.

(** [OGRSimpleCurve::setPoints (n, paoPoints)] (2D bulk copy),
    [setNumPoints (n, FALSE)], [setPoint (k, x, y, z)],
    [setPoint (k, x, y, z, m)], [setPointM (k, x, y, m)]. *)
Definition setPoints (g : OGRGeometry) (pts : list (Q * Q)) : OGRGeometry :=
  match g with
  | mkGeom c _ m _ ps =>
      mkGeom c false m (List.map (λ p, mkVertex (fst p) (snd p) 0 0) pts) ps
  end.
Definition setNumPoints (g : OGRGeometry) (n : Z) : OGRGeometry :=
  match g with
  | mkGeom c z m vs ps =>
      mkGeom c z m
        (take (Z.to_nat n) vs
         ++ replicate (Z.to_nat n - length vs)%nat (mkVertex 0 0 0 0)) ps
  end.
Definition setPoint_at (g : OGRGeometry) (k : Z) (v : Vertex)
    (makes3D makesM : bool) : OGRGeometry :=
  match g with
  | mkGeom c z m vs ps =>
      mkGeom c (z || makes3D) (m || makesM) (<[Z.to_nat k := v]> vs) ps
  end.
Definition setPointXYZ (g : OGRGeometry) (k : Z) (x y z : Q) :=
  setPoint_at g k (mkVertex x y z 0) true false.
Definition setPointXYZM (g : OGRGeometry) (k : Z) (x y z m : Q) :=
  setPoint_at g k (mkVertex x y z m) true true.
Definition setPointM (g : OGRGeometry) (k : Z) (x y m : Q) :=
  setPoint_at g k (mkVertex x y 0 m) false true.

(** [new OGRPoint (x, y)], [(x, y, z)], [(x, y, z, m)],
    [OGRPoint::createXYM]. *)
Definition OGRPoint_xy (x y : Q) : OGRGeometry :=
  mkGeom POINT false false [mkVertex x y 0 0] [].
Definition OGRPoint_xyz (x y z : Q) : OGRGeometry :=
  mkGeom POINT true false [mkVertex x y z 0] [].
Definition OGRPoint_xyzm (x y z m : Q) : OGRGeometry :=
  mkGeom POINT true true [mkVertex x y z m] [].
Definition OGRPoint_createXYM (x y m : Q) : OGRGeometry :=
  mkGeom POINT false true [mkVertex x y 0 m] [].

(** All vertices of a geometry, parts included, in storage order. *)
Fixpoint all_vertices (g : OGRGeometry) : list Vertex :=
  match g with
  | mkGeom _ _ _ vs ps => vs ++ flat_map all_vertices ps
  end.

(** [OGRGeometry::getEnvelope]: the bounds of all the vertices; the
    all-zero envelope on an empty geometry. *)
Definition getEnvelope (g : OGRGeometry) : OGREnvelope :=
  match all_vertices g with
  | [] => Env 0 0 0 0
  | vs => foldl (λ e v, MergeXY e (vx v) (vy v)) EnvNone vs
  end.

(** ** SQL expression trees *)

(** Modelled from the spec: [swq_expr_node] (ogr_swq.h) is outside src/.
    A node is a constant (with the type tag and the integer, floating or
    string payload the parser filled in), a column reference (with the
    index of the field) or an operation applied to sub-expressions.
    [SWQ_ISNOTNULL] is the layer's own operation code
    ([#define SWQ_ISNOTNULL (-SWQ_ISNULL)]). *)
Inductive swq_op : Set :=
| SWQ_OR | SWQ_AND | SWQ_NOT | SWQ_EQ | SWQ_NE | SWQ_GE | SWQ_LE | SWQ_LT
| SWQ_GT | SWQ_LIKE | SWQ_ILIKE | SWQ_ISNULL | SWQ_IN | SWQ_BETWEEN
| SWQ_ADD | SWQ_SUBTRACT | SWQ_MULTIPLY | SWQ_DIVIDE | SWQ_MODULUS
| SWQ_CONCAT | SWQ_CAST | SWQ_ISNOTNULL.

#[export] Instance swq_op_eq_dec : EqDecision swq_op.
Proof. solve_decision. Defined.

Inductive swq_field_type : Set :=
| SWQ_INTEGER | SWQ_INTEGER64 | SWQ_FLOAT | SWQ_STRING | SWQ_BOOLEAN
| SWQ_DATE | SWQ_TIME | SWQ_TIMESTAMP | SWQ_GEOMETRY | SWQ_NULL | SWQ_OTHER.

#[export] Instance swq_field_type_eq_dec : EqDecision swq_field_type.
Proof. solve_decision. Defined.

#[warnings="-register-all"]
Inductive swq_expr_node : Type :=
| SNT_CONSTANT (field_type : swq_field_type) (int_value : Z)
               (float_value : Q) (string_value : string)
| SNT_COLUMN (field_index : Z)
| SNT_OPERATION (nOperation : swq_op) (papoSubExpr : list swq_expr_node).

(** [SPF_FID]: offset of the FID pseudo-field past the regular fields. *)
Definition SPF_FID : Z := 0.

(** ** Externals *)

(** Functions of the OGR core and of the C++ library that the layer calls
    and that are outside src/: taken as parameters.
    - [createFromWkb], [createFromWkt] ([OGRGeometryFactory]) and
      [OGRWKBGetBoundingBox] (ogr_wkb.h) return [None] on failure;
    - [ReplaceBetweenByGEAndLERecurse] ([swq_expr_node]) rewrites the tree
      in place;
    - [to_string_double] is [std::to_string (double)]. *)
Record OGRCore : Type := mkOGRCore {
  createFromWkb : list Byte.byte → option OGRGeometry;
  createFromWkt : string → option OGRGeometry;
  OGRWKBGetBoundingBox : list Byte.byte → option OGREnvelope;
  ReplaceBetweenByGEAndLERecurse : swq_expr_node → swq_expr_node;
  to_string_double : CxxDouble → string
}.

(** ** Geometry Codec *)

Definition INT_MAX : Z := 2147483647.


(** [OGRGeomFieldDefn]: name, declared geometry type, ignored flag. *)
Record OGRGeomFieldDefn : Set := mkGeomFieldDefn {
  gfd_name : string;
  gfd_type : OGRwkbGeometryType;
  gfd_ignored : bool
}.

(** [SetPointsOfLine<bHasZ, bHasM, nDim>]. *)
Definition SetPointsOfLine (bHasZ bHasM : bool) (nDim : Z)
    (poLS : OGRGeometry) (pointValues : Array) (pointOffset numPoints : Z)
  : OGRGeometry :=
  if negb bHasZ && negb bHasM then
    setPoints poLS
      (List.map (λ k, (Value_double pointValues (pointOffset + 2 * k),
                       Value_double pointValues (pointOffset + 2 * k + 1)))
                (seqZ 0 numPoints))
  else
    foldl (λ ls k,
             let v i := Value_double pointValues (pointOffset + nDim * k + i)
             in
             if bHasZ then
               if bHasM then setPointXYZM ls k (v 0) (v 1) (v 2) (v 3)
               else setPointXYZ ls k (v 0) (v 1) (v 2)
             else setPointM ls k (v 0) (v 1) (v 2))
          (setNumPoints poLS numPoints) (seqZ 0 numPoints).

(** [GetSetPointsOfLine (bHasZ, bHasM)]: picks the instantiation. *)
Definition GetSetPointsOfLine (bHasZ bHasM : bool)
  : OGRGeometry → Array → Z → Z → OGRGeometry :=
  if bHasZ && bHasM then SetPointsOfLine true true 4
  else if bHasZ then SetPointsOfLine true false 3
  else if bHasM then SetPointsOfLine false true 3
  else SetPointsOfLine false false 2.

(** The [CreatePoint] lambda of [ReadGeometry]. *)
Definition CreatePoint (bHasZ bHasM : bool) (pointValues : Array)
    (pointOffset : Z) : OGRGeometry :=
  let v i := Value_double pointValues (pointOffset + i) in
  if bHasZ then
    if bHasM then OGRPoint_xyzm (v 0) (v 1) (v 2) (v 3)
    else OGRPoint_xyz (v 0) (v 1) (v 2)
  else if bHasM then OGRPoint_createXYM (v 0) (v 1) (v 2)
  else OGRPoint_xy (v 0) (v 1).

(** The trailing [if (poGeometry->IsEmpty ()) { set3D; setMeasured }]. *)
Definition flag_if_empty (bHasZ bHasM : bool) (g : OGRGeometry)
  : OGRGeometry :=
  if IsEmpty g then setMeasured bHasM (set3D bHasZ g) else g.

(** One curve (ring or line string) of a two- or three-level encoding:
    [new OGRLinearRing (); if (nPoints) setPointsFun (...)]. *)
Definition read_curve (c : GeomClass) (bHasZ bHasM : bool) (nDim : Z)
    (listOfRingsValues pointValues : Array) (iRing : Z) : OGRGeometry :=
  let nPoints := value_length listOfRingsValues iRing in
  let nPointOffset := value_offset listOfRingsValues iRing * nDim in
  let poRing := new_geom c in
  if nPoints =? 0 then poRing
  else GetSetPointsOfLine bHasZ bHasM poRing pointValues nPointOffset
         nPoints.

(** [OGRArrowLayer::ReadGeometry], given the field definition and the
    encoding of geometry field [iGeomField].  [nullptr] is [None]. *)
Definition ReadGeometry (core : OGRCore) (poGeomFieldDefn : OGRGeomFieldDefn)
    (eEncoding : OGRArrowGeomEncoding) (array : Array) (nIdxInBatch : Z)
  : option OGRGeometry :=
  if IsNull array nIdxInBatch then None
  else
    let eGeomType := gfd_type poGeomFieldDefn in
    let bHasZ := OGR_GT_HasZ eGeomType in
    let bHasM := OGR_GT_HasM eGeomType in
    let nDim := 2 + (if bHasZ then 1 else 0) + (if bHasM then 1 else 0) in
    match eEncoding with
    | WKB =>
        let data := GetValue array nIdxInBatch in
        if bool_decide (type_id array = BINARY) then createFromWkb core data
        else if Z.of_nat (length data) >? INT_MAX then None
        else createFromWkb core data
    | WKT => createFromWkt core (c_str (GetString array nIdxInBatch))
    | GEOARROW_GENERIC => None
    | GEOARROW_POINT =>
        let pointValues := values array in
        if negb (IsNull pointValues (nDim * nIdxInBatch)) then
          Some (CreatePoint bHasZ bHasM pointValues (nDim * nIdxInBatch))
        else None
    | GEOARROW_LINESTRING =>
        let pointValues := values (values array) in
        let nPoints := value_length array nIdxInBatch in
        let nPointOffset := value_offset array nIdxInBatch * nDim in
        let poLineString := new_geom LINESTRING in
        if negb (nPoints =? 0) then
          Some (GetSetPointsOfLine bHasZ bHasM poLineString pointValues
                  nPointOffset nPoints)
        else Some (setMeasured bHasM (set3D bHasZ poLineString))
    | GEOARROW_POLYGON =>
        let listOfRingsValues := values array in
        let pointValues := values (values listOfRingsValues) in
        let nRings := value_length array nIdxInBatch in
        let nRingOffset := value_offset array nIdxInBatch in
        let poPoly :=
          foldl (λ poly k,
                   addRingDirectly poly
                     (read_curve LINEARRING bHasZ bHasM nDim
                        listOfRingsValues pointValues (nRingOffset + k)))
                (new_geom POLYGON) (seqZ 0 nRings) in
        Some (flag_if_empty bHasZ bHasM poPoly)
    | GEOARROW_MULTIPOINT =>
        let pointValues := values (values array) in
        let nPoints := value_length array nIdxInBatch in
        let nPointOffset := value_offset array nIdxInBatch * nDim in
        let poMultiPoint :=
          foldl (λ mp k,
                   addGeometryDirectly mp
                     (CreatePoint bHasZ bHasM pointValues
                        (nPointOffset + k * nDim)))
                (new_geom MULTIPOINT) (seqZ 0 nPoints) in
        Some (flag_if_empty bHasZ bHasM poMultiPoint)
    | GEOARROW_MULTILINESTRING =>
        let listOfStringsValues := values array in
        let pointValues := values (values listOfStringsValues) in
        let nStrings := value_length array nIdxInBatch in
        let nRingOffset := value_offset array nIdxInBatch in
        let poMLS :=
          foldl (λ mls k,
                   addGeometryDirectly mls
                     (read_curve LINESTRING bHasZ bHasM nDim
                        listOfStringsValues pointValues (nRingOffset + k)))
                (new_geom MULTILINESTRING) (seqZ 0 nStrings) in
        Some (flag_if_empty bHasZ bHasM poMLS)
    | GEOARROW_MULTIPOLYGON =>
        let listOfPartsValues := values array in
        let listOfRingsValues := values listOfPartsValues in
        let pointValues := values (values listOfRingsValues) in
        let nParts := value_length array nIdxInBatch in
        let nPartOffset := value_offset array nIdxInBatch in
        let poMP :=
          foldl (λ mp j,
                   let nRings := value_length listOfPartsValues
                                   (nPartOffset + j) in
                   let nRingOffset := value_offset listOfPartsValues
                                        (nPartOffset + j) in
                   let poPoly :=
                     foldl (λ poly k,
                              addRingDirectly poly
                                (read_curve LINEARRING bHasZ bHasM nDim
                                   listOfRingsValues pointValues
                                   (nRingOffset + k)))
                           (new_geom POLYGON) (seqZ 0 nRings) in
                   addGeometryDirectly mp poPoly)
                (new_geom MULTIPOLYGON) (seqZ 0 nParts) in
        Some (flag_if_empty bHasZ bHasM poMP)
    end.

(** ** Predicate Compiler *)

(** [OGRArrowLayer::Constraint] (ogr_arrow.h).  The [OGRField] union
    [sValue] is split into its four members; a default-constructed
    constraint has [eType = Integer] and zeroed values. *)
Inductive ConstraintType : Set :=
| CT_Integer | CT_Integer64 | CT_Real | CT_String.

Record Constraint : Set := mkConstraint {
  iField : Z;
  iArrayIdx : Z;
  nOperation : swq_op;
  eType : ConstraintType;
  sValue_Integer : Z;
  sValue_Integer64 : Z;
  sValue_Real : Q;
  sValue_String : string;
  osValue : string
}.

(** Two's complement wrap-around to [w] bits. *)
Definition wrap (w : Z) (z : Z) : Z :=
  (z + 2 ^ (w - 1)) mod 2 ^ w - 2 ^ (w - 1).

(** [static_cast<int> (double)] and [static_cast<GIntBig> (double)]:
    truncation toward zero (undefined in C++ when the result does not fit;
    the model wraps). *)
Definition Qtrunc (q : Q) : Z := Z.quot (Qnum q) (Zpos (Qden q)).
Definition double_to_int (q : Q) : Z := wrap 32 (Qtrunc q).
Definition double_to_int64 (q : Q) : Z := wrap 64 (Qtrunc q).

(** [std::to_string] on [int] and [GIntBig]: the decimal digits. *)
Definition to_string_Z (z : Z) : string := pretty z.

(** [GetColumnSubNode]: the operand that is a column, with its position
    (the code later compares the pointer with [papoSubExpr[0]]). *)
Definition is_column (n : swq_expr_node) : bool :=
  match n with SNT_COLUMN _ => true | _ => false end.
Definition is_constant (n : swq_expr_node) : bool :=
  match n with SNT_CONSTANT _ _ _ _ => true | _ => false end.

Definition GetColumnSubNode (poNode : swq_expr_node)
  : option (Z * swq_expr_node) :=
  match poNode with
  | SNT_OPERATION _ [a; b] =>
      if is_column a then Some (0, a)
      else if is_column b then Some (1, b)
      else None
  | _ => None
  end.

(** [GetConstantSubNode]: the second operand is tried first. *)
Definition GetConstantSubNode (poNode : swq_expr_node)
  : option swq_expr_node :=
  match poNode with
  | SNT_OPERATION _ [a; b] =>
      if is_constant b then Some b
      else if is_constant a then Some a
      else None
  | _ => None
  end.

(** [IsComparisonOp]. *)
Definition IsComparisonOp (op : swq_op) : bool :=
  match op with
  | SWQ_EQ | SWQ_NE | SWQ_LT | SWQ_LE | SWQ_GT | SWQ_GE => true
  | _ => false
  end.

Definition node_field_index (n : swq_expr_node) : Z :=
  match n with SNT_COLUMN i => i | _ => -1 end.

Section PredicateCompiler.

Variable core : OGRCore.

(** [FillTargetValueFromSrcExpr]: [None] is [return false]. *)
Definition FillTargetValueFromSrcExpr (poFieldDefn : OGRFieldDefn)
    (psConstraint : Constraint) (poSrcValue : swq_expr_node)
  : option Constraint :=
  match poSrcValue with
  | SNT_CONSTANT field_type int_value float_value string_value =>
      let c := psConstraint in
      match GetType poFieldDefn with
      | OFTInteger =>
          let v := if bool_decide (field_type = SWQ_FLOAT)
                   then double_to_int float_value
                   else wrap 32 int_value in
          Some (mkConstraint (iField c) (iArrayIdx c) (nOperation c)
                  CT_Integer v (sValue_Integer64 c) (sValue_Real c)
                  (sValue_String c) (to_string_Z v))
      | OFTInteger64 =>
          let v := if bool_decide (field_type = SWQ_FLOAT)
                   then double_to_int64 float_value
                   else int_value in
          Some (mkConstraint (iField c) (iArrayIdx c) (nOperation c)
                  CT_Integer64 (sValue_Integer c) v (sValue_Real c)
                  (sValue_String c) (to_string_Z v))
      | OFTReal =>
          Some (mkConstraint (iField c) (iArrayIdx c) (nOperation c)
                  CT_Real (sValue_Integer c) (sValue_Integer64 c)
                  float_value (sValue_String c)
                  (to_string_double core (Finite float_value)))
      | OFTString =>
          Some (mkConstraint (iField c) (iArrayIdx c) (nOperation c)
                  CT_String (sValue_Integer c) (sValue_Integer64 c)
                  (sValue_Real c) string_value string_value)
      | _ => None
      end
  | _ => None
  end.

(** A default-constructed [Constraint] with [iField] and [nOperation]
    assigned. *)
Definition new_Constraint (field : Z) (op : swq_op) : Constraint :=
  mkConstraint field (-1) op CT_Integer 0 0 0 "" "".

(** The operator stored for "constant op column". *)
Definition reverse_operator (op : swq_op) : swq_op :=
  match op with
  | SWQ_LE => SWQ_GE
  | SWQ_LT => SWQ_GT
  | SWQ_GE => SWQ_LE
  | SWQ_GT => SWQ_LT
  | other => other
  end.

(** [OGRArrowLayer::ExploreExprNode]: returns the constraints appended
    to [m_asAttributeFilterConstraints], in order.  [fields] are the
    attribute fields of [m_poFeatureDefn], [osFIDColumn] is
    [m_osFIDColumn]. *)
Fixpoint ExploreExprNode (fields : list OGRFieldDefn)
    (osFIDColumn : string) (poNode : swq_expr_node) : list Constraint :=
  let nFieldCount := Z.of_nat (length fields) in
  match poNode with
  | SNT_OPERATION SWQ_AND [a; b] =>
      ExploreExprNode fields osFIDColumn a
      ++ ExploreExprNode fields osFIDColumn b
  | SNT_OPERATION op [_; _] =>
      if IsComparisonOp op then
        match GetColumnSubNode poNode, GetConstantSubNode poNode with
        | Some (pos, poColumn), Some poValue =>
            let idx := node_field_index poColumn in
            if (idx <? nFieldCount) || (idx =? nFieldCount + SPF_FID) then
              let poFieldDefn :=
                if idx =? nFieldCount + SPF_FID
                then new_OGRFieldDefn (c_str osFIDColumn) OFTInteger64
                else nth (Z.to_nat idx) fields
                       (new_OGRFieldDefn "" OFTString) in
              let constraint := new_Constraint idx op in
              match FillTargetValueFromSrcExpr poFieldDefn constraint
                      poValue with
              | Some c =>
                  let op' := if pos =? 0 then op else reverse_operator op in
                  [mkConstraint (iField c) (iArrayIdx c) op' (eType c)
                     (sValue_Integer c) (sValue_Integer64 c)
                     (sValue_Real c) (sValue_String c) (osValue c)]
              | None => []
              end
            else []
        | _, _ => []
        end
      else []
  | SNT_OPERATION SWQ_ISNULL [SNT_COLUMN idx] =>
      if idx <? nFieldCount then [new_Constraint idx SWQ_ISNULL] else []
  | SNT_OPERATION SWQ_NOT [SNT_OPERATION SWQ_ISNULL [SNT_COLUMN idx]] =>
      if idx <? nFieldCount then [new_Constraint idx SWQ_ISNOTNULL] else []
  | _ => []
  end.

End PredicateCompiler.

(** ** Predicate Evaluator *)

(** [CompareGeneric<T, U>::get]: the six comparisons of the C++ built-in
    operators, given the three-way comparison [cmp] of the (promoted)
    operand types.  Any other operation hits [CPLAssert (false)] and
    returns true. *)
Definition CompareGeneric {A B : Type} (cmp : A → B → comparison)
    (op : swq_op) (val1 : A) (val2 : B) : bool :=
  match op with
  | SWQ_LE => match cmp val1 val2 with Gt => false | _ => true end
  | SWQ_LT => match cmp val1 val2 with Lt => true | _ => false end
  | SWQ_NE => match cmp val1 val2 with Eq => false | _ => true end
  | SWQ_EQ => match cmp val1 val2 with Eq => true | _ => false end
  | SWQ_GE => match cmp val1 val2 with Lt => false | _ => true end
  | SWQ_GT => match cmp val1 val2 with Gt => true | _ => false end
  | _ => true
  end.

(** [CompareGeneric<double, double>::get]: the same six comparisons on
    doubles.  When an operand is a NaN, [!=] is true and the five others
    are false. *)
Definition CompareGeneric_double (op : swq_op) (val1 val2 : CxxDouble)
  : bool :=
  let r := double_compare val1 val2 in
  match op with
  | SWQ_LE => match r with Some Lt | Some Eq => true | _ => false end
  | SWQ_LT => match r with Some Lt => true | _ => false end
  | SWQ_NE => match r with Some Eq => false | _ => true end
  | SWQ_EQ => match r with Some Eq => true | _ => false end
  | SWQ_GE => match r with Some Gt | Some Eq => true | _ => false end
  | SWQ_GT => match r with Some Gt => true | _ => false end
  | _ => true
  end.

(** The value handed to [ConstraintEvaluator<T>], tagged with [T]. *)
Inductive CxxValue : Set :=
| V_int (v : Z)
| V_GIntBig (v : Z)
| V_double (v : CxxDouble).

(** [static_cast<double> (value)]; also the conversion of an integer
    operand compared with a double ([Compare<double, GIntBig>],
    [Compare<double, int>]). *)
Definition to_double (v : CxxValue) : CxxDouble :=
  match v with
  | V_int z | V_GIntBig z => Finite (round_to_double z)
  | V_double d => d
  end.

(** [CompareStr]: [val1] is the [StringView] into the column buffer. *)
Definition CompareStr (op : swq_op) (val1 : string) (val2 : string) : bool :=
  if bool_decide (op = SWQ_EQ) then String.eqb val1 val2
  else
    let cmpRes := String.compare val2 val1 in
    match op with
    | SWQ_LE => match cmpRes with Lt => false | _ => true end
    | SWQ_LT => match cmpRes with Gt => true | _ => false end
    | SWQ_NE => match cmpRes with Eq => false | _ => true end
    | SWQ_GE => match cmpRes with Gt => false | _ => true end
    | SWQ_GT => match cmpRes with Lt => true | _ => false end
    | _ => true
    end.

Section PredicateEvaluator.

Variable core : OGRCore.

(** [std::to_string (value)]. *)
Definition to_string_value (v : CxxValue) : string :=
  match v with
  | V_int z | V_GIntBig z => to_string_Z z
  | V_double d => to_string_double core d
  end.

(** [ConstraintEvaluator<T> (constraint, value)] with the [Compare<T, U>]
    specialisations: integers compare as integers, anything involving a
    double compares as doubles. *)
Definition ConstraintEvaluator (constraint : Constraint) (value : CxxValue)
  : bool :=
  let op := nOperation constraint in
  let against_integer (c : Z) :=
    match value with
    | V_int z | V_GIntBig z => CompareGeneric Z.compare op z c
    | V_double d =>
        CompareGeneric_double op d (Finite (round_to_double c))
    end in
  match eType constraint with
  | CT_Integer => against_integer (sValue_Integer constraint)
  | CT_Integer64 => against_integer (sValue_Integer64 constraint)
  | CT_Real =>
      CompareGeneric_double op (to_double value)
        (Finite (sValue_Real constraint))
  | CT_String =>
      CompareGeneric String.compare op (to_string_value value)
        (osValue constraint)
  end.

(** [ConstraintEvaluator (constraint, const StringView &)]. *)
Definition ConstraintEvaluator_str (constraint : Constraint)
    (value : string) : bool :=
  CompareStr (nOperation constraint) value (osValue constraint).

(** The [switch (array->type_id ())] of
    [SkipToNextFeatureDueToAttributeFilter]: does the non-null cell of row
    [nIdx] satisfy the constraint?  Decimal arrays hold the parsed
    [CPLAtof (FormatValue ())] values.  Types without a case are not
    evaluated ([break]). *)
Definition evaluate_cell (constraint : Constraint) (array : Array)
    (nIdx : Z) : bool :=
  match type_id array with
  | BOOL | UINT8 | INT8 | UINT16 | INT16 | INT32 =>
      ConstraintEvaluator constraint (V_int (Value_int array nIdx))
  | UINT32 | INT64 =>
      ConstraintEvaluator constraint (V_GIntBig (Value_int array nIdx))
  | UINT64 =>
      ConstraintEvaluator constraint
        (V_double (Finite (round_to_double (Value_int array nIdx))))
  | HALF_FLOAT | FLOAT | DOUBLE | DECIMAL128 | DECIMAL256 =>
      ConstraintEvaluator constraint (V_double (Value_ieee array nIdx))
  | STRING => ConstraintEvaluator_str constraint (GetString array nIdx)
  | _ => true
  end.

(** [OGRArrowLayer::SkipToNextFeatureDueToAttributeFilter]: true when
    some constraint rejects the current row. *)
Fixpoint SkipToNextFeatureDueToAttributeFilter
    (nFieldCount : Z) (osFIDColumn : string)
    (poBatchColumns : list Array) (nFeatureIdx nIdxInBatch : Z)
    (constraints : list Constraint) : bool :=
  match constraints with
  | [] => false
  | constraint :: rest =>
      let continue_ :=
        SkipToNextFeatureDueToAttributeFilter nFieldCount osFIDColumn
          poBatchColumns nFeatureIdx nIdxInBatch rest in
      if iArrayIdx constraint <? 0 then
        if (iField constraint =? nFieldCount + SPF_FID)
           && String.eqb osFIDColumn "" then
          if negb (ConstraintEvaluator constraint (V_GIntBig nFeatureIdx))
          then true else continue_
        else continue_
      else
        let array := column poBatchColumns (iArrayIdx constraint) in
        let bIsNull := IsNull array nIdxInBatch in
        if bool_decide (nOperation constraint = SWQ_ISNULL) then
          if bIsNull then continue_ else true
        else if bool_decide (nOperation constraint = SWQ_ISNOTNULL) then
          if negb bIsNull then continue_ else true
        else if bIsNull then true
        else if negb (evaluate_cell constraint array nIdxInBatch) then true
        else continue_
  end.

End PredicateEvaluator.

(** ** Layer state *)

(** What is fixed once the layer is open and the ignored-field list is
    set: the attribute schema ([SchemaState]), the geometry fields with
    their encodings and columns, the FID column, the ignored-field maps,
    the per-column "bbox" member of the geo metadata
    ([m_oMapGeometryColumns]), two configuration options, the answer of
    the driver's [CanRunNonForcedGetExtent], and the record batches of the
    dataset (read through [ReadNextBatch]). *)
Record LayerDefn : Type := mkLayerDefn {
  ld_schema : SchemaState;
  ld_geomfields : list OGRGeomFieldDefn;
  m_aeGeomEncoding : list OGRArrowGeomEncoding;
  m_anMapGeomFieldIndexToArrowColumn : list Z;
  m_iFIDArrowColumn : Z;
  m_osFIDColumn : string;
  m_bIgnoredFields : bool;
  m_anMapFieldIndexToArrayIndex : list Z;
  m_anMapGeomFieldIndexToArrayIndex : list Z;
  m_nRequestedFIDColumn : Z;
  m_oMapGeometryColumns : gmap string (list Q);
  cfg_USE_BBOX : bool;
  cfg_OPTIMIZED_ATTRIBUTE_FILTER : bool;
  CanRunNonForcedGetExtent : bool;
  ds_batches : list RecordBatch
}.

Definition GetGeomFieldCount (L : LayerDefn) : Z :=
  Z.of_nat (length (ld_geomfields L)).

Definition GetGeomFieldDefn (L : LayerDefn) (i : Z) : OGRGeomFieldDefn :=
  nth (Z.to_nat i) (ld_geomfields L)
      (mkGeomFieldDefn "" (mkGT wkbUnknown false false) false).

Definition GetFieldDefn (L : LayerDefn) (i : Z) : OGRFieldDefn :=
  nth (Z.to_nat i) (m_poFeatureDefn_fields (ld_schema L))
      (new_OGRFieldDefn "" OFTString).

Definition GeomEncoding (L : LayerDefn) (i : Z) : OGRArrowGeomEncoding :=
  nth (Z.to_nat i) (m_aeGeomEncoding L) GEOARROW_GENERIC.

(** Element [i] of a vector of indices. *)
Definition at_ (v : list Z) (i : Z) : Z := nth (Z.to_nat i) v (-1).

(** [m_anMapFieldIndexToArrowColumn[i]]. *)
Definition field_path (L : LayerDefn) (i : Z) : list Z :=
  nth (Z.to_nat i) (m_anMapFieldIndexToArrowColumn (ld_schema L)) [].

(** [m_bIgnoredFields ? m_anMapGeomFieldIndexToArrayIndex[i]
                      : m_anMapGeomFieldIndexToArrowColumn[i]]. *)
Definition geom_column (L : LayerDefn) (i : Z) : Z :=
  if m_bIgnoredFields L then at_ (m_anMapGeomFieldIndexToArrayIndex L) i
  else at_ (m_anMapGeomFieldIndexToArrowColumn L) i.

(** The attribute and spatial filters installed on the layer. *)
Record Filters : Type := mkFilters {
  m_poAttrQuery : option swq_expr_node;
  m_asAttributeFilterConstraints : list Constraint;
  m_poFilterGeom : option OGRGeometry;
  m_sFilterEnvelope : OGREnvelope;
  m_iGeomFieldFilter : Z;
  m_bSpatialFilterIntersectsLayerExtent : bool
}.

Definition no_filter : Filters :=
  mkFilters None [] None EnvNone 0 true.

(** The batch cursor: end-of-stream flag, global row counter, row index
    within the batch, batch number, the current batch with its columns,
    and the direct pointers [SetBatch] caches for the spatial fast path. *)
Record Cursor : Type := mkCursor {
  m_bEOF : bool;
  m_nFeatureIdx : Z;
  m_nIdxInBatch : Z;
  m_iRecordBatch : Z;
  m_poBatch : option RecordBatch;
  m_poBatchColumns : list Array;
  m_poArrayWKB : option Array;
  m_poArrayWKBLarge : option Array;
  m_poArrayBBOX : option Array;
  m_poArrayMinX : option Array;
  m_poArrayMinY : option Array;
  m_poArrayMaxX : option Array;
  m_poArrayMaxY : option Array
}.

(** The cursor of a freshly opened layer. *)
Definition initial_cursor : Cursor :=
  mkCursor false 0 0 (-1) None [] None None None None None None None.

(** Assignments to the cursor's scalar members. *)
Definition with_position (c : Cursor) (bEOF : bool)
    (nFeatureIdx nIdxInBatch iRecordBatch : Z) : Cursor :=
  mkCursor bEOF nFeatureIdx nIdxInBatch iRecordBatch (m_poBatch c)
    (m_poBatchColumns c) (m_poArrayWKB c) (m_poArrayWKBLarge c)
    (m_poArrayBBOX c) (m_poArrayMinX c) (m_poArrayMinY c) (m_poArrayMaxX c)
    (m_poArrayMaxY c).

Definition set_EOF (c : Cursor) (b : bool) : Cursor :=
  with_position c b (m_nFeatureIdx c) (m_nIdxInBatch c) (m_iRecordBatch c).

(** [m_nFeatureIdx++; m_nIdxInBatch++;]. *)
Definition next_row (c : Cursor) : Cursor :=
  with_position c (m_bEOF c) (m_nFeatureIdx c + 1) (m_nIdxInBatch c + 1)
    (m_iRecordBatch c).

(** [m_poBatch->num_rows ()]. *)
Definition batch_rows (c : Cursor) : Z :=
  match m_poBatch c with Some b => num_rows b | None => 0 end.

(** [StructArray::fields ()]. *)
Definition struct_fields (a : Array) : list Array :=
  match array_data a with DStruct fs => fs | _ => [] end.

(** The [while (array->type_id () == STRUCT)] descent along the rest of a
    column path. *)
Fixpoint descend_struct (array : Array) (path : list Z) : Array :=
  match path with
  | [] => array
  | iArrowSubcol :: rest =>
      if bool_decide (type_id array = STRUCT)
      then descend_struct (column (struct_fields array) iArrowSubcol) rest
      else array
  end.

(** ** Batch Cursor *)

(** The [GetArray] lambda of [SetBatch]: the double array of bbox field
    [idx], and the top-level struct array it was found in (identified by
    its column number, which is what the pointer comparison of the code
    distinguishes). *)
Definition GetArray (L : LayerDefn) (cols : list Array) (idx : Z)
  : option Array * option Z :=
  if m_bIgnoredFields L then
    let arrayIdx := at_ (m_anMapFieldIndexToArrayIndex L) idx in
    if arrayIdx <? 0 then (None, None)
    else (Some (column cols arrayIdx), None)
  else
    match field_path L idx with
    | [] => (Some empty_array, None)
    | c0 :: rest =>
        let array := column cols c0 in
        (Some (descend_struct array rest),
         if bool_decide (type_id array = STRUCT) then Some c0 else None)
    end.

(** [OGRArrowLayer::SetBatch]. *)
Definition SetBatch (L : LayerDefn) (F : Filters) (c : Cursor)
    (poBatch : option RecordBatch) : Cursor :=
  let cols := match poBatch with Some b => columns b | None => [] end in
  let base :=
    mkCursor (m_bEOF c) (m_nFeatureIdx c) (m_nIdxInBatch c)
      (m_iRecordBatch c) poBatch cols None None None None None None None in
  match poBatch, m_poFilterGeom F with
  | Some _, Some _ =>
      let iCol := geom_column L (m_iGeomFieldFilter F) in
      if (0 <=? iCol)
         && bool_decide (GeomEncoding L (m_iGeomFieldFilter F) = WKB) then
        let poArrayWKB := column cols iCol in
        let small := bool_decide (type_id poArrayWKB = BINARY) in
        let wkb := if small then Some poArrayWKB else None in
        let wkbLarge := if small then None else Some poArrayWKB in
        let S := ld_schema L in
        if (0 <=? m_iBBOXMinXField S) && (0 <=? m_iBBOXMinYField S)
           && (0 <=? m_iBBOXMaxXField S) && (0 <=? m_iBBOXMaxYField S)
           && cfg_USE_BBOX L then
          let '(minx, sMinX) := GetArray L cols (m_iBBOXMinXField S) in
          let '(miny, sMinY) := GetArray L cols (m_iBBOXMinYField S) in
          let '(maxx, sMaxX) := GetArray L cols (m_iBBOXMaxXField S) in
          let '(maxy, sMaxY) := GetArray L cols (m_iBBOXMaxYField S) in
          let bbox :=
            if bool_decide (sMinX ≠ sMinY) || bool_decide (sMinX ≠ sMaxX)
               || bool_decide (sMinX ≠ sMaxY) then None
            else column cols <$> sMinX in
          match minx, miny, maxx, maxy with
          | Some _, Some _, Some _, Some _ =>
              mkCursor (m_bEOF c) (m_nFeatureIdx c) (m_nIdxInBatch c)
                (m_iRecordBatch c) poBatch cols wkb wkbLarge bbox
                minx miny maxx maxy
          | _, _, _, _ =>
              mkCursor (m_bEOF c) (m_nFeatureIdx c) (m_nIdxInBatch c)
                (m_iRecordBatch c) poBatch cols wkb wkbLarge None
                None None None None
          end
        else
          mkCursor (m_bEOF c) (m_nFeatureIdx c) (m_nIdxInBatch c)
            (m_iRecordBatch c) poBatch cols wkb wkbLarge None
            None None None None
      else base
  | _, _ => base
  end.

(** [OGRArrowLayer::ResetReading]. *)
Definition ResetReading (c : Cursor) : Cursor :=
  if m_iRecordBatch c =? 0 then
    with_position c false 0 0 (m_iRecordBatch c)
  else
    mkCursor false 0 0 (-1) None [] (m_poArrayWKB c) (m_poArrayWKBLarge c)
      (m_poArrayBBOX c) (m_poArrayMinX c) (m_poArrayMinY c)
      (m_poArrayMaxX c) (m_poArrayMaxY c).

(** Modelled from the spec: [ReadNextBatch] is implemented by the drivers,
    outside src/.  It pulls the next physical batch of the dataset and
    installs it with [SetBatch], at row 0; an empty pull (no batch left)
    returns false. *)
Definition ReadNextBatch (L : LayerDefn) (F : Filters) (c : Cursor)
  : bool * Cursor :=
  let i := m_iRecordBatch c + 1 in
  let c := with_position c (m_bEOF c) (m_nFeatureIdx c) (m_nIdxInBatch c) i in
  if i <? 0 then (false, c)
  else
    match ds_batches L !! Z.to_nat i with
    | Some b =>
        (true,
         SetBatch L F (with_position c (m_bEOF c) (m_nFeatureIdx c) 0 i)
           (Some b))
    | None => (false, c)
    end.

(** Modelled from the spec: [InvalidateCachedBatches] is implemented by
    the drivers, outside src/.  It forgets the batches read so far, so
    that reading starts again from the first physical batch. *)
Definition InvalidateCachedBatches (c : Cursor) : Cursor :=
  ResetReading
    (with_position c (m_bEOF c) (m_nFeatureIdx c) (m_nIdxInBatch c) (-1)).

(** [m_bEOF = !ReadNextBatch ();]. *)
Definition read_next_or_EOF (L : LayerDefn) (F : Filters) (c : Cursor)
  : Cursor :=
  let '(ok, c) := ReadNextBatch L F c in set_EOF c (negb ok).

(** ** Full decode of a row *)

(** Modelled from the spec: [OGRFeature] (ogr_feature.h) is outside src/.
    A record carries an identifier ([OGRNullFID] when unset), one value
    per attribute field and one optional geometry per geometry field.
    Values of the date, time, list, map and other compound types are not
    interpreted here ([F_Opaque]). *)
Inductive OGRFieldValue : Type :=
| F_Unset
| F_Null
| F_Integer (v : Z)
| F_Integer64 (v : Z)
| F_Real (v : CxxDouble)
| F_String (v : string)
| F_Binary (v : list Byte.byte)
| F_Opaque.

Record OGRFeature : Type := mkFeature {
  GetFID : Z;
  feature_fields : list OGRFieldValue;
  feature_geoms : list (option OGRGeometry)
}.

Definition OGRNullFID : Z := -1.

Definition SetFID (f : OGRFeature) (fid : Z) : OGRFeature :=
  mkFeature fid (feature_fields f) (feature_geoms f).

(** [DictionaryArray::indices ()]. *)
Definition dictionary_indices (a : Array) : Array :=
  match array_data a with DDictionary i => i | _ => empty_array end.

(** The value [ReadFeature] stores for a non-null cell, by array type. *)
Definition read_cell (array : Array) (nIdxInBatch : Z) : OGRFieldValue :=
  match type_id array with
  | NA => F_Unset
  | BOOL | UINT8 | INT8 | UINT16 | INT16 | INT32 =>
      F_Integer (Value_int array nIdxInBatch)
  | UINT32 | INT64 | TIME64 => F_Integer64 (Value_int array nIdxInBatch)
  | UINT64 =>
      F_Real (Finite (round_to_double (Value_int array nIdxInBatch)))
  | HALF_FLOAT | FLOAT | DOUBLE | DECIMAL128 | DECIMAL256 =>
      F_Real (Value_ieee array nIdxInBatch)
  | STRING | LARGE_STRING =>
      F_String (c_str (GetString array nIdxInBatch))
  | BINARY | FIXED_SIZE_BINARY => F_Binary (GetValue array nIdxInBatch)
  | LARGE_BINARY =>
      let data := GetValue array nIdxInBatch in
      if Z.of_nat (length data) <=? INT_MAX then F_Binary data else F_Unset
  | DATE32 | DATE64 | TIMESTAMP | TIME32 | LIST | FIXED_SIZE_LIST | MAP =>
      F_Opaque
  | _ => F_Unset
  end.

(** One attribute field of [ReadFeature]. *)
Definition read_field (L : LayerDefn) (poColumnArrays : list Array)
    (nIdxInBatch : Z) (i : Z) : OGRFieldValue :=
  let iCol := if m_bIgnoredFields L
              then at_ (m_anMapFieldIndexToArrayIndex L) i
              else hd (-1) (field_path L i) in
  if m_bIgnoredFields L && (iCol <? 0) then F_Unset
  else
    let array := column poColumnArrays iCol in
    if IsNull array nIdxInBatch then F_Null
    else
      (* descent through struct arrays, stopping at a null sub-array *)
      let fix descend (array : Array) (path : list Z) : option Array :=
        if bool_decide (type_id array = STRUCT) then
          match path with
          | [] => Some array
          | iArrowSubcol :: rest =>
              let sub := column (struct_fields array) iArrowSubcol in
              if IsNull sub nIdxInBatch then None else descend sub rest
          end
        else Some array in
      match descend array (tail (field_path L i)) with
      | None => F_Null
      | Some array =>
          if bool_decide (type_id array = DICTIONARY) then
            let indices := dictionary_indices array in
            if IsNull indices nIdxInBatch then F_Null
            else read_cell indices nIdxInBatch
          else read_cell array nIdxInBatch
      end.

(** Modelled from the spec: [OGRGeometryFactory::forceToMultiLineString]
    and [forceToMultiPolygon] are outside src/; a line string (polygon) is
    promoted to the multi-form holding it as its only part. *)
Definition forceToMulti (c : GeomClass) (g : OGRGeometry) : OGRGeometry :=
  mkGeom c (Is3D g) (IsMeasured g) [] [g].

Definition flat_of_class (c : GeomClass) : wkbFlatType :=
  match c with
  | POINT => wkbPoint
  | LINESTRING | LINEARRING => wkbLineString
  | POLYGON => wkbPolygon
  | MULTIPOINT => wkbMultiPoint
  | MULTILINESTRING => wkbMultiLineString
  | MULTIPOLYGON => wkbMultiPolygon
  end.

(** One geometry field of [ReadFeature]: decode, then normalise to the
    declared type. *)
Definition read_geom_field (core : OGRCore) (L : LayerDefn)
    (poColumnArrays : list Array) (nIdxInBatch : Z) (i : Z)
  : option OGRGeometry :=
  let iCol := geom_column L i in
  if m_bIgnoredFields L && (iCol <? 0) then None
  else
    let array := column poColumnArrays iCol in
    let poGeomFieldDefn := GetGeomFieldDefn L i in
    match ReadGeometry core poGeomFieldDefn (GeomEncoding L i) array
            nIdxInBatch with
    | None => None
    | Some poGeometry =>
        let declared := wkbFlatten (gfd_type poGeomFieldDefn) in
        let actual := flat_of_class (geom_class poGeometry) in
        let poGeometry :=
          if bool_decide (actual = wkbLineString)
             && bool_decide (declared = wkbMultiLineString)
          then forceToMulti MULTILINESTRING poGeometry
          else if bool_decide (actual = wkbPolygon)
                  && bool_decide (declared = wkbMultiPolygon)
          then forceToMulti MULTIPOLYGON poGeometry
          else poGeometry in
        Some (if OGR_GT_HasZ (gfd_type poGeomFieldDefn)
                 && negb (Is3D poGeometry)
              then set3D true poGeometry else poGeometry)
    end.

(** [OGRArrowLayer::ReadFeature]. *)
Definition ReadFeature (core : OGRCore) (L : LayerDefn) (nIdxInBatch : Z)
    (poColumnArrays : list Array) : OGRFeature :=
  let fid :=
    if 0 <=? m_iFIDArrowColumn L then
      let iCol := if m_bIgnoredFields L then m_nRequestedFIDColumn L
                  else m_iFIDArrowColumn L in
      let array := column poColumnArrays iCol in
      if negb (IsNull array nIdxInBatch)
         && (bool_decide (type_id array = INT64)
             || bool_decide (type_id array = INT32))
      then Value_int array nIdxInBatch else OGRNullFID
    else OGRNullFID in
  mkFeature fid
    (List.map (read_field L poColumnArrays nIdxInBatch)
       (seqZ 0 (GetFieldCount (ld_schema L))))
    (List.map (read_geom_field core L poColumnArrays nIdxInBatch)
       (seqZ 0 (GetGeomFieldCount L))).

(** ** Row iteration *)

(** The bounding-box pass over a GeoArrow multipolygon cell, shared by
    [GetNextRawFeature] and [GetExtent]: the points of the first ring of
    every part are merged into [env] ("for bounding box, only the first
    ring matters"). *)
Definition merge_first_rings (nDim : Z) (listOfPartsArray : Array)
    (nIdx : Z) (env : OGREnvelope) : OGREnvelope :=
  let listOfPartsValues := values listOfPartsArray in
  let listOfRingsValues := values listOfPartsValues in
  let pointValues := values (values listOfRingsValues) in
  let nParts := value_length listOfPartsArray nIdx in
  let nPartOffset := value_offset listOfPartsArray nIdx in
  foldl (λ env j,
           let nRings := value_length listOfPartsValues (nPartOffset + j) in
           let nRingOffset :=
             value_offset listOfPartsValues (nPartOffset + j) in
           if 1 <=? nRings then
             let nPoints := value_length listOfRingsValues nRingOffset in
             let nPointOffset :=
               value_offset listOfRingsValues nRingOffset * nDim in
             foldl (λ env l,
                      MergeXY env
                        (Value_double pointValues (nPointOffset + nDim * l))
                        (Value_double pointValues
                           (nPointOffset + nDim * l + 1)))
                   env (seqZ 0 nPoints)
           else env)
        env (seqZ 0 nParts).

(** [nDim] of a geometry field: 2, plus one for Z, plus one for M. *)
Definition geom_nDim (g : OGRGeomFieldDefn) : Z :=
  2 + (if OGR_GT_HasZ (gfd_type g) then 1 else 0)
    + (if OGR_GT_HasM (gfd_type g) then 1 else 0).

(** How a [while (true)] row loop ends: by [break] on the current row, by
    [return nullptr] at end of data, or not at all within the given number
    of iterations. *)
Inductive LoopExit : Type :=
| Break (c : Cursor)
| ReturnNull (c : Cursor)
| OutOfFuel.

Section RowIteration.

Variable core : OGRCore.
Variable L : LayerDefn.
Variable F : Filters.

(** [!m_asAttributeFilterConstraints.empty () &&
     !SkipToNextFeatureDueToAttributeFilter ()]. *)
Definition passes_constraints (c : Cursor) : bool :=
  negb (SkipToNextFeatureDueToAttributeFilter core
          (GetFieldCount (ld_schema L)) (m_osFIDColumn L)
          (m_poBatchColumns c) (m_nFeatureIdx c) (m_nIdxInBatch c)
          (m_asAttributeFilterConstraints F)).

Definition constraints_nonempty_and_pass (c : Cursor) : bool :=
  negb (bool_decide (m_asAttributeFilterConstraints F = []))
  && passes_constraints c.

(** The [else if (m_poArrayWKB) ... else ...] arms of the WKB loop: the
    row is skipped when its WKB bounding box is available and misses the
    filter envelope. *)
Definition skip_by_WKB_bbox (c : Cursor) : bool :=
  let i := m_nIdxInBatch c in
  match m_poArrayWKB c, m_poArrayWKBLarge c with
  | Some a, _ =>
      match OGRWKBGetBoundingBox core (GetValue a i) with
      | Some sEnvelope => negb (Intersects (m_sFilterEnvelope F) sEnvelope)
      | None => false
      end
  | None, Some a =>
      let data := GetValue a i in
      if Z.of_nat (length data) <? INT_MAX then
        match OGRWKBGetBoundingBox core data with
        | Some sEnvelope =>
            negb (Intersects (m_sFilterEnvelope F) sEnvelope)
        | None => false
        end
      else false
  | None, None => false
  end.

(** [bSkipToNextFeature] of the WKB loop. *)
Definition bSkipToNextFeature_WKB (c : Cursor) : bool :=
  let i := m_nIdxInBatch c in
  let is_null (o : option Array) :=
    match o with Some a => IsNull a i | None => false end in
  let get (o : option Array) :=
    match o with Some a => Value_double a i | None => 0%Q end in
  if is_null (m_poArrayWKB c) || is_null (m_poArrayWKBLarge c) then true
  else if bool_decide (is_Some (m_poArrayMinX c))
          && negb (is_null (m_poArrayBBOX c))
          && negb (is_null (m_poArrayMinX c)) then
    negb (Intersects (m_sFilterEnvelope F)
            (Env (get (m_poArrayMinX c)) (get (m_poArrayMaxX c))
                 (get (m_poArrayMinY c)) (get (m_poArrayMaxY c))))
  else skip_by_WKB_bbox c.

(** Exit test of the WKB loop: [if (!bSkipToNextFeature) break;
    if (!constraints.empty () && !SkipToNext... ()) break;]. *)
Definition breaks_WKB (c : Cursor) : bool :=
  if negb (bSkipToNextFeature_WKB c) then true
  else constraints_nonempty_and_pass c.

(** Exit test of the GeoArrow multipolygon loop. *)
Definition breaks_multipolygon (iCol : Z) (c : Cursor) : bool :=
  let listOfPartsArray := column (m_poBatchColumns c) iCol in
  let i := m_nIdxInBatch c in
  let nDim := geom_nDim (GetGeomFieldDefn L (m_iGeomFieldFilter F)) in
  if negb (IsNull listOfPartsArray i)
     && negb (value_length listOfPartsArray i =? 0)
     && Intersects (m_sFilterEnvelope F)
          (merge_first_rings nDim listOfPartsArray i EnvNone)
  then true
  else constraints_nonempty_and_pass c.

(** Exit test of the loop for the other encodings. *)
Definition breaks_generic (iCol : Z) (c : Cursor) : bool :=
  let array := column (m_poBatchColumns c) iCol in
  let bSkipToNextFeature :=
    match ReadGeometry core (GetGeomFieldDefn L (m_iGeomFieldFilter F))
            (GeomEncoding L (m_iGeomFieldFilter F)) array
            (m_nIdxInBatch c) with
    | None => true
    | Some poGeometry =>
        if IsEmpty poGeometry then true
        else negb (Intersects (m_sFilterEnvelope F)
                     (getEnvelope poGeometry))
    end in
  if negb bSkipToNextFeature then true
  else constraints_nonempty_and_pass c.

(** The common shape of the four loops: test the current row, else
    advance, pulling the next batch at the end of the current one. *)
Fixpoint skip_loop (breaks : Cursor → bool) (fuel : nat) (c : Cursor)
  : LoopExit :=
  match fuel with
  | O => OutOfFuel
  | S fuel =>
      if breaks c then Break c
      else
        let c := next_row c in
        if m_nIdxInBatch c =? batch_rows c then
          let c := read_next_or_EOF L F c in
          if m_bEOF c then ReturnNull c else skip_loop breaks fuel c
        else skip_loop breaks fuel c
  end.

End RowIteration.

(** Enough iterations for any row loop over the dataset: every iteration
    moves to the next row or to the next batch. *)
Definition loop_fuel (L : LayerDefn) : nat :=
  S (length (ds_batches L)
     + Z.to_nat (foldr (λ b acc, Z.max 0 (num_rows b) + acc) 0
                   (ds_batches L))).

(** Outcome of [GetNextRawFeature]: a decoded record, [nullptr], or no
    return. *)
Inductive RawResult : Type :=
| RawFeature (f : OGRFeature) (c : Cursor)
| RawNull (c : Cursor)
| RawDiverges.

(** [OGRArrowLayer::GetNextRawFeature]. *)
Definition GetNextRawFeature (core : OGRCore) (L : LayerDefn) (F : Filters)
    (c : Cursor) : RawResult :=
  if m_bEOF c || negb (m_bSpatialFilterIntersectsLayerExtent F) then
    RawNull c
  else
    let c :=
      if negb (bool_decide (is_Some (m_poBatch c)))
         || (m_nIdxInBatch c =? batch_rows c)
      then read_next_or_EOF L F c else c in
    if m_bEOF c then RawNull c
    else
      let iCol := geom_column L (m_iGeomFieldFilter F) in
      let eEncoding := GeomEncoding L (m_iGeomFieldFilter F) in
      let loop breaks := skip_loop L F breaks (loop_fuel L) c in
      let exit :=
        match m_poFilterGeom F with
        | Some _ =>
            if (0 <=? iCol) && bool_decide (eEncoding = WKB) then
              loop (breaks_WKB core L F)
            else if (0 <=? iCol)
                    && bool_decide (eEncoding = GEOARROW_MULTIPOLYGON) then
              loop (breaks_multipolygon core L F iCol)
            else if 0 <=? iCol then loop (breaks_generic core L F iCol)
            else Break c
        | None =>
            if negb (bool_decide (m_asAttributeFilterConstraints F = []))
            then loop (passes_constraints core L F)
            else Break c
        end in
      match exit with
      | Break c =>
          let poFeature :=
            ReadFeature core L (m_nIdxInBatch c) (m_poBatchColumns c) in
          let poFeature :=
            if m_iFIDArrowColumn L <? 0
            then SetFID poFeature (m_nFeatureIdx c) else poFeature in
          RawFeature poFeature (next_row c)
      | ReturnNull c => RawNull c
      | OutOfFuel => RawDiverges
      end.

(** ** Filters *)

(** The mutable state of an open layer: filters, cursor and the extent
    cache [m_oMapExtents], keyed by geometry field index. *)
Record LayerState : Type := mkLayerState {
  ls_filters : Filters;
  ls_cursor : Cursor;
  m_oMapExtents : gmap Z OGREnvelope
}.

Definition initial_state : LayerState :=
  mkLayerState no_filter initial_cursor ∅.

Definition set_iArrayIdx (c : Constraint) (idx : Z) : Constraint :=
  mkConstraint (iField c) idx (nOperation c) (eType c) (sValue_Integer c)
    (sValue_Integer64 c) (sValue_Real c) (sValue_String c) (osValue c).

(** [OGRArrowLayer::ComputeConstraintsArrayIdx] (diagnostics omitted).
    Note the early [return] when the FID is requested through the row
    counter while fields are ignored. *)
Fixpoint ComputeConstraintsArrayIdx (L : LayerDefn)
    (constraints : list Constraint) : list Constraint :=
  match constraints with
  | [] => []
  | constraint :: rest =>
      let isFID :=
        iField constraint =? GetFieldCount (ld_schema L) + SPF_FID in
      if m_bIgnoredFields L then
        if isFID then
          let constraint := set_iArrayIdx constraint (m_nRequestedFIDColumn L)
          in
          if (iArrayIdx constraint <? 0) && String.eqb (m_osFIDColumn L) ""
          then constraint :: rest
          else constraint :: ComputeConstraintsArrayIdx L rest
        else
          set_iArrayIdx constraint
            (at_ (m_anMapFieldIndexToArrayIndex L) (iField constraint))
          :: ComputeConstraintsArrayIdx L rest
      else
        (if isFID then set_iArrayIdx constraint (m_iFIDArrowColumn L)
         else set_iArrayIdx constraint
                (hd (-1) (field_path L (iField constraint))))
        :: ComputeConstraintsArrayIdx L rest
  end.

(** The constraint at which the loop of [ComputeConstraintsArrayIdx]
    returns: a constraint on the identifier, when fields are ignored and
    the identifier is read from the row counter (no identifier column is
    requested and the identifier has no name). *)
Definition stops_reindexing (L : LayerDefn) (constraint : Constraint)
  : bool :=
  m_bIgnoredFields L
  && (iField constraint =? GetFieldCount (ld_schema L) + SPF_FID)
  && (m_nRequestedFIDColumn L <? 0)
  && String.eqb (m_osFIDColumn L) "".

(** The argument of [SetAttributeFilter] after parsing by the base layer:
    no filter, a predicate tree, or a string that does not parse. *)
Inductive AttributeFilter : Type :=
| FilterNull
| FilterExpr (poNode : swq_expr_node)
| FilterInvalid.

Inductive OGRErr : Set := OGRERR_NONE | OGRERR_FAILURE.

(** [OGRArrowLayer::SetAttributeFilter].  Modelled from the spec for the
    base-class call [OGRLayer::SetAttributeFilter] (outside src/): it
    installs the parsed predicate as [m_poAttrQuery] (none on a null
    filter or on a parse error, which is returned) and rewinds. *)
Definition SetAttributeFilter (core : OGRCore) (L : LayerDefn)
    (pszFilter : AttributeFilter) (s : LayerState) : OGRErr * LayerState :=
  let F := ls_filters s in
  (* m_asAttributeFilterConstraints.clear (); *)
  let c := if bool_decide (is_Some (m_poAttrQuery F))
           then InvalidateCachedBatches (ls_cursor s) else ls_cursor s in
  let query := match pszFilter with FilterExpr n => Some n | _ => None end in
  let c := ResetReading c in
  let mk cs := mkFilters query cs (m_poFilterGeom F) (m_sFilterEnvelope F)
                 (m_iGeomFieldFilter F)
                 (m_bSpatialFilterIntersectsLayerExtent F) in
  match pszFilter with
  | FilterInvalid =>
      (OGRERR_FAILURE, mkLayerState (mk []) c (m_oMapExtents s))
  | FilterNull => (OGRERR_NONE, mkLayerState (mk []) c (m_oMapExtents s))
  | FilterExpr poNode =>
      if cfg_OPTIMIZED_ATTRIBUTE_FILTER L then
        let poNode := ReplaceBetweenByGEAndLERecurse core poNode in
        let cs :=
          ComputeConstraintsArrayIdx L
            (ExploreExprNode core (m_poFeatureDefn_fields (ld_schema L))
               (m_osFIDColumn L) poNode) in
        (OGRERR_NONE,
         mkLayerState
           (mkFilters (Some poNode) cs (m_poFilterGeom F)
              (m_sFilterEnvelope F) (m_iGeomFieldFilter F)
              (m_bSpatialFilterIntersectsLayerExtent F))
           c (m_oMapExtents s))
      else (OGRERR_NONE, mkLayerState (mk []) c (m_oMapExtents s))
  end.

(** [OGRArrowLayer::GetExtentFromMetadata] on the "bbox" array of the
    column definition: [None] is [OGRERR_FAILURE]. *)
Definition GetExtentFromMetadata (oBBox : list Q) : option OGREnvelope :=
  match oBBox with
  | [b0; b1; b2; b3] =>
      if Qle_bool b0 b2 then Some (Env b0 b2 b1 b3) else None
  | [b0; b1; _; b3; b4; _] =>
      if Qle_bool b0 b3 then Some (Env b0 b3 b1 b4) else None
  | _ => None
  end.

(** [OGRArrowLayer::FastGetExtent]: the cached extent, else the extent of
    the metadata; [None] is [return false]. *)
Definition FastGetExtent (L : LayerDefn) (s : LayerState) (iGeomField : Z)
  : option OGREnvelope :=
  match m_oMapExtents s !! iGeomField with
  | Some e => Some e
  | None =>
      let pszGeomFieldName := gfd_name (GetGeomFieldDefn L iGeomField) in
      match m_oMapGeometryColumns L !! pszGeomFieldName with
      | Some oBBox =>
          if cfg_USE_BBOX L then GetExtentFromMetadata oBBox else None
      | None => None
      end
  end.

(** Modelled from the spec: [OGRLayer::InstallFilter] (outside src/)
    stores the filter geometry and its envelope and reports whether the
    filter changed. *)
Definition InstallFilter (F : Filters) (poGeomIn : option OGRGeometry)
  : bool * Filters :=
  match m_poFilterGeom F, poGeomIn with
  | None, None => (false, F)
  | _, _ =>
      (true,
       mkFilters (m_poAttrQuery F) (m_asAttributeFilterConstraints F)
         poGeomIn
         (match poGeomIn with
          | Some g => getEnvelope g
          | None => m_sFilterEnvelope F
          end)
         (m_iGeomFieldFilter F) (m_bSpatialFilterIntersectsLayerExtent F))
  end.

(** [OGRArrowLayer::SetSpatialFilter (iGeomField, poGeomIn)]. *)
Definition SetSpatialFilter (L : LayerDefn) (iGeomField : Z)
    (poGeomIn : option OGRGeometry) (s : LayerState) : LayerState :=
  let n := GetGeomFieldCount L in
  if (iGeomField <? 0)
     || ((n <=? iGeomField)
         && negb ((iGeomField =? 0)
                  && negb (bool_decide (is_Some poGeomIn)))) then s
  else
    let F := ls_filters s in
    let c := if bool_decide (is_Some (m_poFilterGeom F))
             then InvalidateCachedBatches (ls_cursor s) else ls_cursor s in
    let with_flag (F : Filters) (iField : Z) (b : bool) :=
      mkFilters (m_poAttrQuery F) (m_asAttributeFilterConstraints F)
        (m_poFilterGeom F) (m_sFilterEnvelope F) iField b in
    let F := with_flag F (m_iGeomFieldFilter F) true in
    let '(F, c) :=
      if iGeomField <? n then
        let F := with_flag F iGeomField true in
        let '(changed, F) := InstallFilter F poGeomIn in
        let c := if changed then ResetReading c else c in
        match m_poFilterGeom F, FastGetExtent L s iGeomField with
        | Some _, Some sLayerExtent =>
            (with_flag F iGeomField
               (Intersects (m_sFilterEnvelope F) sLayerExtent), c)
        | _, _ => (F, c)
        end
      else (F, c) in
    mkLayerState F (SetBatch L F c (m_poBatch c)) (m_oMapExtents s).

(** ** Extent *)

(** Outcome of [GetExtent]: [OGRERR_NONE] with the extent written to
    [*psExtent], [OGRERR_FAILURE], or no return. *)
Inductive ExtentResult : Type :=
| ExtentOK (psExtent : OGREnvelope) (s : LayerState)
| ExtentFailure (s : LayerState)
| ExtentDiverges.

(** Methods of the base class [OGRLayer] that the layer calls and that are
    outside src/: taken as parameters.  [GetExtentInternal] is the generic
    extent computation; it may move the cursor. *)
Record OGRLayerBase : Type := mkOGRLayerBase {
  GetExtentInternal :
    LayerDefn → Filters → Cursor → Z → bool → option OGREnvelope * Cursor
}.

Section Extent.

Variable core : OGRCore.
Variable base : OGRLayerBase.
Variable L : LayerDefn.

(** Body of the WKB extent loop for the current row. *)
Definition merge_row_WKB (iCol : Z) (c : Cursor) (psExtent : OGREnvelope)
  : OGREnvelope :=
  let array := column (m_poBatchColumns c) iCol in
  let i := m_nIdxInBatch c in
  if negb (IsNull array i) then
    let data := GetValue array i in
    if bool_decide (type_id array = BINARY)
       || (Z.of_nat (length data) <? INT_MAX) then
      match OGRWKBGetBoundingBox core data with
      | Some sEnvelope => Merge psExtent sEnvelope
      | None => psExtent
      end
    else psExtent
  else psExtent.

(** Body of the GeoArrow multipolygon extent loop for the current row. *)
Definition merge_row_multipolygon (iGeomField iCol : Z) (c : Cursor)
    (psExtent : OGREnvelope) : OGREnvelope :=
  let listOfPartsArray := column (m_poBatchColumns c) iCol in
  let i := m_nIdxInBatch c in
  if negb (IsNull listOfPartsArray i) then
    merge_first_rings (geom_nDim (GetGeomFieldDefn L iGeomField))
      listOfPartsArray i psExtent
  else psExtent.

(** The [while (true)] of the two fast passes: merge the current row,
    advance, and at the end of the last batch rewind and return.  The
    active filters [F] are only handed to [ReadNextBatch]. *)
Fixpoint extent_loop (F : Filters)
    (merge_row : Cursor → OGREnvelope → OGREnvelope) (fuel : nat)
    (c : Cursor) (psExtent : OGREnvelope) : option (OGREnvelope * Cursor) :=
  match fuel with
  | O => None
  | S fuel =>
      let psExtent := merge_row c psExtent in
      let c := next_row c in
      if m_nIdxInBatch c =? batch_rows c then
        let c := read_next_or_EOF L F c in
        if m_bEOF c then Some (psExtent, ResetReading c)
        else extent_loop F merge_row fuel c psExtent
      else extent_loop F merge_row fuel c psExtent
  end.

(** The fast pass, from [ResetReading ()] to the final [return]. *)
Definition fast_extent_pass
    (merge_row : Cursor → OGREnvelope → OGREnvelope) (iGeomField : Z)
    (s : LayerState) : ExtentResult :=
  let F := ls_filters s in
  let c := ResetReading (ls_cursor s) in
  let c := if bool_decide (is_Some (m_poBatch c)) then c
           else read_next_or_EOF L F c in
  if m_bEOF c then ExtentFailure (mkLayerState F c (m_oMapExtents s))
  else
    match extent_loop F merge_row (loop_fuel L) c EnvNone with
    | None => ExtentDiverges
    | Some (psExtent, c) =>
        if IsInit psExtent then
          ExtentOK psExtent
            (mkLayerState F c (<[iGeomField := psExtent]> (m_oMapExtents s)))
        else ExtentFailure (mkLayerState F c (m_oMapExtents s))
    end.

(** [OGRArrowLayer::GetExtent (iGeomField, psExtent, bForce)]. *)
Definition GetExtent (iGeomField : Z) (bForce : bool) (s : LayerState)
  : ExtentResult :=
  if (iGeomField <? 0) || (GetGeomFieldCount L <=? iGeomField) then
    ExtentFailure s
  else
    match FastGetExtent L s iGeomField with
    | Some e => ExtentOK e s
    | None =>
        if negb bForce && negb (CanRunNonForcedGetExtent L) then
          ExtentFailure s
        else
          let iCol := geom_column L iGeomField in
          if iCol <? 0 then ExtentFailure s
          else
            match GeomEncoding L iGeomField with
            | WKB => fast_extent_pass (merge_row_WKB iCol) iGeomField s
            | GEOARROW_MULTIPOLYGON =>
                fast_extent_pass (merge_row_multipolygon iGeomField iCol)
                  iGeomField s
            | _ =>
                let '(r, c) :=
                  GetExtentInternal base L (ls_filters s) (ls_cursor s)
                    iGeomField bForce in
                let s := mkLayerState (ls_filters s) c (m_oMapExtents s) in
                match r with
                | Some e => ExtentOK e s
                | None => ExtentFailure s
                end
            end
    end.

End Extent.

(** Two cursors at the same row of the same batch; they may differ in the
    arrays [SetBatch] caches for the spatial filter. *)
Definition same_rows (c1 c2 : Cursor) : Prop :=
  m_bEOF c1 = m_bEOF c2
  ∧ m_nFeatureIdx c1 = m_nFeatureIdx c2
  ∧ m_nIdxInBatch c1 = m_nIdxInBatch c2
  ∧ m_iRecordBatch c1 = m_iRecordBatch c2
  ∧ m_poBatch c1 = m_poBatch c2
  ∧ m_poBatchColumns c1 = m_poBatchColumns c2.

(** The extent a call of [GetExtent] hands back, if any. *)
Definition extent_of (r : ExtentResult) : option OGREnvelope :=
  match r with
  | ExtentOK psExtent _ => Some psExtent
  | ExtentFailure _ | ExtentDiverges => None
  end.

(** ** Reference: the extent by full decoding (from the specification)

    The definitions of this section follow the words of the
    specification: the extent obtained by fully decoding each geometry
    (visiting all rings) and merging the per-geometry envelopes. *)

(** The geometry of row [nIdx] fully decoded and its envelope merged into
    [env]; a null or empty geometry contributes nothing. *)
Definition merge_row_full_decode (core : OGRCore) (L : LayerDefn)
    (iGeomField : Z) (cols : list Array) (nIdx : Z) (env : OGREnvelope)
  : OGREnvelope :=
  match ReadGeometry core (GetGeomFieldDefn L iGeomField)
          (GeomEncoding L iGeomField)
          (column cols (geom_column L iGeomField)) nIdx with
  | Some poGeometry =>
      if IsEmpty poGeometry then env
      else Merge env (getEnvelope poGeometry)
  | None => env
  end.

(** A function of the rows applied to every row of every batch, in
    order. *)
Definition over_all_rows
    (row : list Array → Z → OGREnvelope → OGREnvelope)
    (batches : list RecordBatch) (env : OGREnvelope) : OGREnvelope :=
  foldl (λ env b,
           foldl (λ env i, row (columns b) i env) env
                 (seqZ 0 (num_rows b)))
        env batches.

Definition extent_by_full_decode (core : OGRCore) (L : LayerDefn)
    (iGeomField : Z) : OGREnvelope :=
  over_all_rows (merge_row_full_decode core L iGeomField) (ds_batches L)
    EnvNone.





(** The agreement of the bounding-box parser and of the decoder of the
    OGR core on the bytes of a cell, which [ReadGeometry] asserts in its
    [DEBUG_ReadWKBBoundingBox] build: when the decoder yields a non-empty
    geometry, the box read from the bytes is the envelope of that
    geometry; when it fails or yields an empty geometry, no box is
    read. *)
Definition wkb_box_is_envelope (core : OGRCore) (data : list Byte.byte)
  : Prop :=
  match OGRWKBGetBoundingBox core data, createFromWkb core data with
  | Some sEnvelope, Some poGeometry =>
      IsEmpty poGeometry = false
      ∧ Env_eq sEnvelope (getEnvelope poGeometry)
  | None, Some poGeometry => IsEmpty poGeometry = true
  | None, None => True
  | Some _, None => False
  end.


(** What the fast WKB pass merges for one row: the box that
    [OGRWKBGetBoundingBox] reads from a non-null cell, which in a column
    that is not of type BINARY must be shorter than [INT_MAX] bytes. *)
Definition merge_row_WKB_box (core : OGRCore) (L : LayerDefn)
    (iGeomField : Z) (cols : list Array) (nIdx : Z) (env : OGREnvelope)
  : OGREnvelope :=
  let array := column cols (geom_column L iGeomField) in
  if negb (IsNull array nIdx) then
    let data := GetValue array nIdx in
    if bool_decide (type_id array = BINARY)
       || (Z.of_nat (length data) <? INT_MAX) then
      match OGRWKBGetBoundingBox core data with
      | Some sEnvelope => Merge env sEnvelope
      | None => env
      end
    else env
  else env.




(** The rows of the batches, counted as [loop_fuel] counts them. *)
Definition total_rows (batches : list RecordBatch) : Z :=
  foldr (λ b acc, Z.max 0 (num_rows b) + acc) 0 batches.

(** A cursor of the layer: while the first batch is current
    ([m_iRecordBatch == 0], the case in which [ResetReading] keeps the
    batch), it holds that batch and its columns. *)
Definition cursor_ok (L : LayerDefn) (c : Cursor) : Prop :=
  m_iRecordBatch c = 0 →
  ∃ b, ds_batches L !! 0%nat = Some b
       ∧ m_poBatch c = Some b ∧ m_poBatchColumns c = columns b.

(** ** WKT to WKB re-encoding on export *)

(** [struct ArrowArray] of the Arrow C data interface, for the arrays the
    exporter touches: length, null count, offset, the validity bitmap
    ([buffers[0]], bytes, absent when null), the offsets ([buffers[1]]),
    the data bytes ([buffers[2]]) and the children. *)
#[warnings="-register-all"]
Inductive ArrowArray : Type :=
| mkArrowArray (aa_length aa_null_count aa_offset : Z)
    (aa_validity : option (list Z)) (aa_offsets : list Z)
    (aa_data : list Byte.byte) (aa_children : list ArrowArray).

Definition aa_length (a : ArrowArray) : Z :=
  match a with mkArrowArray n _ _ _ _ _ _ => n end.
Definition aa_null_count (a : ArrowArray) : Z :=
  match a with mkArrowArray _ n _ _ _ _ _ => n end.
Definition aa_offset (a : ArrowArray) : Z :=
  match a with mkArrowArray _ _ n _ _ _ _ => n end.
Definition aa_validity (a : ArrowArray) : option (list Z) :=
  match a with mkArrowArray _ _ _ v _ _ _ => v end.
Definition aa_offsets (a : ArrowArray) : list Z :=
  match a with mkArrowArray _ _ _ _ o _ _ => o end.
Definition aa_data (a : ArrowArray) : list Byte.byte :=
  match a with mkArrowArray _ _ _ _ _ d _ => d end.
Definition aa_children (a : ArrowArray) : list ArrowArray :=
  match a with mkArrowArray _ _ _ _ _ _ c => c end.

(** [size_t] arithmetic (64 bits, unsigned). *)
Definition size_t (z : Z) : Z := z mod 2 ^ 64.

Definition MAX_SIZE_SINT32 : Z := 2147483647.

(** Modelled from the spec: [OGRAppendBuffer] (ogr_wkb.h) is outside src/.
    It is a growable output buffer with a capacity and a size;
    [GetPtrForNewBytes (n)] makes room for [n] more bytes, growing the
    buffer through the virtual [Grow] when they do not fit, and fails when
    [Grow] fails.  The buffer content is the list of bytes written. *)
Record OGRAppendBuffer : Set := mkAppendBuffer {
  m_nCapacity : Z;
  m_nSize : Z;
  m_pRawBuffer : list Byte.byte
}.

Definition GetSize (b : OGRAppendBuffer) : Z := m_nSize b.

(** Why the build of a WKB array stopped: [CPLError "Too large WKT
    content"] in [Grow], a failed allocation, or a WKT text that the
    translator rejects. *)
Inductive BuildError : Set :=
| TooLargeWKTContent
| AllocationFailed
| InvalidWKT.

Section WKTToWKB.

(** [VSI_MALLOC_ALIGNED_AUTO_VERBOSE (n)]: whether the allocation of [n]
    bytes succeeds is decided by the environment. *)
Variable malloc_ok : Z → bool.

(** [OGRWKTToWKBTranslator::TranslateWKT] (ogr_wkb.h) is outside src/:
    for a WKT text and the [bCanAlterByteAfter] flag, the byte chunks it
    appends through [GetPtrForNewBytes], or [None] when the text does
    not parse. *)
Variable TranslateWKT_chunks :
  list Byte.byte → bool → option (list (list Byte.byte)).

(** [OGRArrowLayerAppendBuffer::Grow (nItemSize)]: [inl] is
    [return false], with the reason. *)
Definition Grow (b : OGRAppendBuffer) (nItemSize : Z)
  : BuildError + OGRAppendBuffer :=
  if nItemSize >? size_t (MAX_SIZE_SINT32 - m_nSize b) then
    inl TooLargeWKTContent
  else
    let nNewCapacity := size_t (m_nSize b + nItemSize) in
    let nDoubleCapacity :=
      Z.min MAX_SIZE_SINT32 (size_t (2 * m_nCapacity b)) in
    let nNewCapacity :=
      if nNewCapacity <? nDoubleCapacity then nDoubleCapacity
      else nNewCapacity in
    if negb (malloc_ok nNewCapacity) then inl AllocationFailed
    else inr (mkAppendBuffer nNewCapacity (m_nSize b) (m_pRawBuffer b)).

(** [OGRAppendBuffer::GetPtrForNewBytes (nItemSize)] followed by the
    write of the [nItemSize] bytes [item]. *)
Definition append_bytes (b : OGRAppendBuffer) (item : list Byte.byte)
  : BuildError + OGRAppendBuffer :=
  let nItemSize := Z.of_nat (length item) in
  let grown :=
    if nItemSize >? size_t (m_nCapacity b - m_nSize b)
    then Grow b nItemSize else inr b in
  match grown with
  | inl e => inl e
  | inr b =>
      inr (mkAppendBuffer (m_nCapacity b) (size_t (m_nSize b + nItemSize))
             (m_pRawBuffer b ++ item))
  end.

(** The appends of one translation, in order, stopping at the first
    failure. *)
Fixpoint append_chunks (b : OGRAppendBuffer)
    (chunks : list (list Byte.byte)) : BuildError + OGRAppendBuffer :=
  match chunks with
  | [] => inr b
  | item :: rest =>
      match append_bytes b item with
      | inl e => inl e
      | inr b => append_chunks b rest
      end
  end.

(** [TranslateWKT]: [inl] is the return value [(size_t) -1]. *)
Definition TranslateWKT (b : OGRAppendBuffer) (wkt : list Byte.byte)
    (bCanAlterByteAfter : bool) : BuildError + OGRAppendBuffer :=
  match TranslateWKT_chunks wkt bCanAlterByteAfter with
  | None => inl InvalidWKT
  | Some chunks => append_chunks b chunks
  end.

(** Bit [i] of a validity bitmap. *)
Definition bitmap_bit (bytes : list Z) (i : Z) : bool :=
  Z.testbit (nth (Z.to_nat (i / 8)) bytes 0) (i mod 8).

(** The validity bitmap of the target: a copy of the first
    [(nLength + 7) / 8] bytes when the source offset is zero, else the
    bits re-based bit by bit into zeroed bytes. *)
Definition copy_validity (sourceNull : list Z) (nOffset nLength : Z)
  : list Z :=
  let nBytes := (nLength + 7) / 8 in
  if nOffset =? 0 then
    List.map (λ k, nth (Z.to_nat k) sourceNull 0) (seqZ 0 nBytes)
  else
    List.map
      (λ k,
         foldl (λ byte j,
                  let i := 8 * k + j in
                  if (i <? nLength) && bitmap_bit sourceNull (i + nOffset)
                  then Z.lor byte (Z.shiftl 1 j) else byte)
               0 (seqZ 0 8))
      (seqZ 0 nBytes).

(** The WKT text of row [i]: bytes [sourceOffsets[i]] to
    [sourceOffsets[i + 1]] of the data buffer. *)
Definition source_cell (sourceOffsets : list Z)
    (sourceBytes : list Byte.byte) (i : Z) : list Byte.byte :=
  let lo := nth (Z.to_nat i) sourceOffsets 0 in
  let hi := nth (Z.to_nat (i + 1)) sourceOffsets 0 in
  take (Z.to_nat (hi - lo)) (drop (Z.to_nat lo) sourceBytes).

(** The row loop of [CreateWKBArrayFromWKTArray]: returns the target
    offsets written so far (in order) and the buffer, or the failure of
    a translation. *)
Fixpoint translate_rows (targetNull : option (list Z))
    (sourceOffsets : list Z) (sourceBytes : list Byte.byte) (nLength : Z)
    (rows : list Z) (targetOffsets : list Z) (b : OGRAppendBuffer)
  : BuildError + (list Z * OGRAppendBuffer) :=
  match rows with
  | [] => inr (targetOffsets, b)
  | i :: rest =>
      let targetOffsets := targetOffsets ++ [GetSize b mod 2 ^ 32] in
      let is_null :=
        match targetNull with
        | Some bits => negb (bitmap_bit bits i)
        | None => false
        end in
      if is_null then
        translate_rows targetNull sourceOffsets sourceBytes nLength rest
          targetOffsets b
      else
        match TranslateWKT b (source_cell sourceOffsets sourceBytes i)
                (nth (Z.to_nat (i + 1)) sourceOffsets 0
                 <? nth (Z.to_nat nLength) sourceOffsets 0) with
        | inl e => inl e
        | inr b =>
            translate_rows targetNull sourceOffsets sourceBytes nLength
              rest targetOffsets b
        end
  end.

(** [nInitialCapacity] of [CreateWKBArrayFromWKTArray]. *)
Definition initial_capacity (nLength : Z) : Z :=
  Z.min INT_MAX (size_t (100 * nLength)) mod 2 ^ 32.

(** [OGRArrowLayer::CreateWKBArrayFromWKTArray<SourceOffset>]: [inl] is
    [return nullptr] (the target array has been released), with the
    reason; [inr] carries the target array and the final state of the
    append buffer. *)
Definition CreateWKBArrayFromWKTArray (sourceArray : ArrowArray)
  : BuildError + (ArrowArray * OGRAppendBuffer) :=
  let nLength := size_t (aa_length sourceArray) in
  let nOffset := size_t (aa_offset sourceArray) in
  let wants_validity :=
    negb (aa_null_count sourceArray =? 0)
    && bool_decide (is_Some (aa_validity sourceArray)) in
  let targetNull :=
    if wants_validity && malloc_ok ((nLength + 7) / 8) then
      Some (copy_validity (default [] (aa_validity sourceArray))
              nOffset nLength)
    else None in
  let buffer1_ok := malloc_ok (4 * (1 + nLength)) in
  let nInitialCapacity := initial_capacity nLength in
  let buffer2_ok := malloc_ok nInitialCapacity in
  if (wants_validity && negb (bool_decide (is_Some targetNull)))
     || negb buffer1_ok || negb buffer2_ok then inl AllocationFailed
  else
    let oOGRAppendBuffer := mkAppendBuffer nInitialCapacity 0 [] in
    let sourceOffsets := drop (Z.to_nat nOffset) (aa_offsets sourceArray) in
    match translate_rows targetNull sourceOffsets (aa_data sourceArray)
            nLength (seqZ 0 nLength) [] oOGRAppendBuffer with
    | inl e => inl e
    | inr (targetOffsets, b) =>
        inr (mkArrowArray nLength
               (if bool_decide (is_Some targetNull)
                then aa_null_count sourceArray else 0)
               0 targetNull
               (targetOffsets ++ [GetSize b mod 2 ^ 32])
               (m_pRawBuffer b) [],
             b)
    end.

End WKTToWKB.

(** ** Zero-Copy Exporter *)

(** Outcome of [GetNextArrowArray]: [return 0] with a batch in
    [*out_array]; [return 0] with [*out_array] zero-initialised (end of
    data); [return EIO]; [return ENOMEM] with [*out_array] released and
    zeroed; delegation to the base implementation; or no return. *)
Inductive ArrowStreamResult : Type :=
| Ret_array (out_array : ArrowArray) (c : Cursor)
| Ret_terminal (c : Cursor)
| Ret_EIO (c : Cursor)
| Ret_ENOMEM (c : Cursor)
| Ret_base
| Ret_diverges.

Section ArrowExport.

Variable malloc_ok : Z → bool.
Variable TranslateWKT_chunks :
  list Byte.byte → bool → option (list (list Byte.byte)).

(** [arrow::ExportRecordBatch] (Arrow C++ library): the exported struct
    array, one child per column, or [None] when the status is not OK. *)
Variable ExportRecordBatch : RecordBatch → option ArrowArray.

(** [OGRLayer::PostFilterArrowArray] (base class, outside src/): filters
    the rows of the array in place, given the active filters and the
    [BASE_SEQUENTIAL_FID] option. *)
Variable PostFilterArrowArray :
  Filters → option Z → ArrowArray → ArrowArray.

Variable L : LayerDefn.

(** The stream option [GEOMETRY_ENCODING] equals "WKB". *)
Variable bGeometryEncodingWKB : bool.

Definition set_child (a : ArrowArray) (n : Z) (child : ArrowArray)
  : ArrowArray :=
  match a with
  | mkArrowArray len nc off v o d children =>
      mkArrowArray len nc off v o d (<[Z.to_nat n := child]> children)
  end.

Definition empty_ArrowArray : ArrowArray :=
  mkArrowArray 0 0 0 None [] [] [].

(** The [for] over the geometry fields of [GetNextArrowArray]: every
    non-ignored WKT column is replaced by a freshly built WKB column;
    [None] is the [ENOMEM] path. *)
Fixpoint reencode_geometries (fields : list Z) (out_array : ArrowArray)
  : option ArrowArray :=
  match fields with
  | [] => Some out_array
  | i :: rest =>
      if negb (gfd_ignored (GetGeomFieldDefn L i))
         && bool_decide (GeomEncoding L i = WKT) then
        let nArrayIdx := geom_column L i in
        let sourceArray :=
          nth (Z.to_nat nArrayIdx) (aa_children out_array)
              empty_ArrowArray in
        match CreateWKBArrayFromWKTArray malloc_ok TranslateWKT_chunks
                sourceArray with
        | inr (targetArray, _) =>
            reencode_geometries rest
              (set_child out_array nArrayIdx targetArray)
        | inl _ => None
        end
      else reencode_geometries rest out_array
  end.

(** [m_poAttrQuery || m_poFilterGeom]. *)
Definition filter_active (F : Filters) : bool :=
  bool_decide (is_Some (m_poAttrQuery F))
  || bool_decide (is_Some (m_poFilterGeom F)).

(** The [while (true)] of [GetNextArrowArray]. *)
Fixpoint GetNextArrowArray_loop (F : Filters) (fuel : nat) (c : Cursor)
  : ArrowStreamResult :=
  match fuel with
  | O => Ret_diverges
  | S fuel =>
      if m_bEOF c then Ret_terminal c
      else
        let need_batch :=
          negb (bool_decide (is_Some (m_poBatch c)))
          || (m_nIdxInBatch c =? batch_rows c) in
        let '(ok, c) :=
          if need_batch then ReadNextBatch L F c else (true, c) in
        if negb ok then
          let c := if filter_active F then InvalidateCachedBatches c
                   else c in
          Ret_terminal (set_EOF c true)
        else
          let batch := default (mkBatch 0 []) (m_poBatch c) in
          let status := ExportRecordBatch batch in
          let c := with_position c (m_bEOF c) (m_nFeatureIdx c)
                     (num_rows batch) (m_iRecordBatch c) in
          match status with
          | None => Ret_EIO c
          | Some out_array =>
              let converted :=
                if bGeometryEncodingWKB then
                  reencode_geometries (seqZ 0 (GetGeomFieldCount L))
                    out_array
                else Some out_array in
              match converted with
              | None => Ret_ENOMEM c
              | Some out_array =>
                  let nFeatureIdxCur := m_nFeatureIdx c in
                  let c := with_position c (m_bEOF c)
                             (m_nFeatureIdx c + m_nIdxInBatch c)
                             (m_nIdxInBatch c) (m_iRecordBatch c) in
                  if filter_active F then
                    let out_array :=
                      PostFilterArrowArray F
                        (if m_iFIDArrowColumn L <? 0
                         then Some nFeatureIdxCur else None)
                        out_array in
                    if aa_length out_array =? 0 then
                      GetNextArrowArray_loop F fuel c
                    else Ret_array out_array c
                  else Ret_array out_array c
              end
          end
  end.

(** What one iteration of the loop builds from the batch [batch] when the
    global row counter is [nFeatureIdxCur] and a filter is active: the
    exported array, with its WKT columns re-encoded, post-filtered.  [None]
    stands for the two error returns. *)
Definition filtered_export (F : Filters) (nFeatureIdxCur : Z)
    (batch : RecordBatch) : option ArrowArray :=
  match ExportRecordBatch batch with
  | None => None
  | Some out_array =>
      let converted :=
        if bGeometryEncodingWKB then
          reencode_geometries (seqZ 0 (GetGeomFieldCount L)) out_array
        else Some out_array in
      match converted with
      | None => None
      | Some out_array =>
          Some (PostFilterArrowArray F
                  (if m_iFIDArrowColumn L <? 0
                   then Some nFeatureIdxCur else None)
                  out_array)
      end
  end.

(** No row of the batch survives the filter. *)
Definition filtered_to_nothing (F : Filters) (nb : Z * RecordBatch) : Prop :=
  ∃ a, filtered_export F nb.1 nb.2 = Some a ∧ aa_length a = 0.

(** [pending] starts with batches of which no row survives, followed by a
    batch satisfying [P]. *)
Definition first_surviving (F : Filters) (pending : list (Z * RecordBatch))
    (P : Z → RecordBatch → Prop) : Prop :=
  ∃ skipped n b later,
    pending = skipped ++ (n, b) :: later
    ∧ Forall (filtered_to_nothing F) skipped
    ∧ P n b.

(** What a result of the export loop says about the batches that were
    pending when it was called. *)
Definition export_outcome (F : Filters) (pending : list (Z * RecordBatch))
    (r : ArrowStreamResult) : Prop :=
  match r with
  | Ret_terminal c' =>
      m_bEOF c' = true ∧ Forall (filtered_to_nothing F) pending
  | Ret_array a _ =>
      aa_length a ≠ 0
      ∧ first_surviving F pending (λ n b, filtered_export F n b = Some a)
  | Ret_EIO _ | Ret_ENOMEM _ =>
      first_surviving F pending (λ n b, filtered_export F n b = None)
  | Ret_base | Ret_diverges => False
  end.

(** [OGRArrowLayer::GetNextArrowArray]. *)
Definition GetNextArrowArray (bUseRecordBatchBaseImplementation : bool)
    (F : Filters) (c : Cursor) : ArrowStreamResult :=
  if bUseRecordBatchBaseImplementation then Ret_base
  else GetNextArrowArray_loop F (S (S (length (ds_batches L)))) c.

End ArrowExport.

(** The batches the export loop still has to go through from cursor [c]:
    the current batch unless it was consumed ([m_poBatch == nullptr ||
    m_nIdxInBatch == m_poBatch->num_rows ()]), then the physical batches
    [ReadNextBatch] has not pulled yet. *)
Definition pending_batches (L : LayerDefn) (c : Cursor)
  : list RecordBatch :=
  match m_poBatch c with
  | Some b => if m_nIdxInBatch c =? num_rows b then [] else [b]
  | None => []
  end ++ drop (Z.to_nat (m_iRecordBatch c + 1)) (ds_batches L).

(** Consecutive batches with the value [m_nFeatureIdx] has when each is
    exported: it grows by the row count of every exported batch. *)
Fixpoint with_base_ids (nFeatureIdx : Z) (batches : list RecordBatch)
  : list (Z * RecordBatch) :=
  match batches with
  | [] => []
  | b :: rest =>
      (nFeatureIdx, b) :: with_base_ids (nFeatureIdx + num_rows b) rest
  end.

(** ** Reference semantics of comparisons (from the specification) *)

(** The values a comparison of the predicate tree relates: integers, reals
    and strings. *)
Inductive SqlValue : Set :=
| SqlInt (z : Z)
| SqlReal (d : CxxDouble)
| SqlString (s : string).

(** The outcome of comparing two values: one of the three orders, or
    unordered (a NaN is involved). *)
Inductive Ordering : Set :=
| Ordered (r : comparison)
| Unordered.

Definition ordering_of (r : option comparison) : Ordering :=
  match r with Some r => Ordered r | None => Unordered end.

(** Comparison of two SQL values: numbers compare as numbers (an integer
    against a real is promoted to the floating type), strings as strings;
    a number and a string do not compare. *)
Definition sql_compare (a b : SqlValue) : option Ordering :=
  match a, b with
  | SqlInt x, SqlInt y => Some (Ordered (x ?= y))
  | SqlInt x, SqlReal y =>
      Some (ordering_of (double_compare (Finite (round_to_double x)) y))
  | SqlReal x, SqlInt y =>
      Some (ordering_of (double_compare x (Finite (round_to_double y))))
  | SqlReal x, SqlReal y => Some (ordering_of (double_compare x y))
  | SqlString x, SqlString y => Some (Ordered (String.compare x y))
  | _, _ => None
  end.

(** Truth value of a comparison operator on the outcome of the three-way
    comparison of its operands. *)
Definition comparison_holds (op : swq_op) (r : comparison) : option bool :=
  match op, r with
  | SWQ_EQ, Eq | SWQ_NE, Lt | SWQ_NE, Gt | SWQ_LT, Lt | SWQ_LE, Lt
  | SWQ_LE, Eq | SWQ_GT, Gt | SWQ_GE, Gt | SWQ_GE, Eq => Some true
  | (SWQ_EQ | SWQ_NE | SWQ_LT | SWQ_LE | SWQ_GT | SWQ_GE), _ => Some false
  | _, _ => None
  end.

(** On unordered operands [<>] holds and the five other comparisons do
    not. *)
Definition ordering_holds (op : swq_op) (o : Ordering) : option bool :=
  match o with
  | Ordered r => comparison_holds op r
  | Unordered =>
      match op with
      | SWQ_NE => Some true
      | SWQ_EQ | SWQ_LT | SWQ_LE | SWQ_GT | SWQ_GE => Some false
      | _ => None
      end
  end.

(** Truth value of [lhs op rhs] for the six comparison operators. *)
Definition sql_holds (op : swq_op) (lhs rhs : SqlValue) : option bool :=
  match sql_compare lhs rhs with
  | None => None
  | Some o => ordering_holds op o
  end.

(** The operator mirrored as the specification says: LE with GE, LT with
    GT, and = and <> unchanged. *)
Definition mirrored (op : swq_op) : swq_op :=
  match op with
  | SWQ_LE => SWQ_GE
  | SWQ_GE => SWQ_LE
  | SWQ_LT => SWQ_GT
  | SWQ_GT => SWQ_LT
  | other => other
  end.

(** The literal of a constant node, as written in the predicate. *)
Definition literal_value (n : swq_expr_node) : option SqlValue :=
  match n with
  | SNT_CONSTANT SWQ_INTEGER i _ _ | SNT_CONSTANT SWQ_INTEGER64 i _ _ =>
      Some (SqlInt i)
  | SNT_CONSTANT SWQ_FLOAT _ f _ => Some (SqlReal (Finite f))
  | SNT_CONSTANT SWQ_STRING _ _ s => Some (SqlString s)
  | _ => None
  end.

(** The literal a constraint holds after coercion to the field's type. *)
Definition constraint_literal (c : Constraint) : SqlValue :=
  match eType c with
  | CT_Integer => SqlInt (sValue_Integer c)
  | CT_Integer64 => SqlInt (sValue_Integer64 c)
  | CT_Real => SqlReal (Finite (sValue_Real c))
  | CT_String => SqlString (sValue_String c)
  end.

(** The SQL value of a column value handed to the evaluator. *)
Definition sql_of_value (v : CxxValue) : SqlValue :=
  match v with
  | V_int z | V_GIntBig z => SqlInt z
  | V_double d => SqlReal d
  end.

(** The field a column reference of the predicate tree designates: a
    regular attribute field, or the identifier pseudo-field (a 64-bit
    integer) just past them. *)
Definition referenced_field (fields : list OGRFieldDefn)
    (osFIDColumn : string) (idx : Z) : option OGRFieldDefn :=
  if idx =? Z.of_nat (length fields) + SPF_FID then
    Some (new_OGRFieldDefn (c_str osFIDColumn) OFTInteger64)
  else if 0 <=? idx then fields !! Z.to_nat idx
  else None.

(** The constant of a node coerced to the type of the field, as the
    specification says: an integer field truncates a floating literal (and
    keeps the low 32 bits), a 64-bit integer field truncates it to 64
    bits, a real field copies the floating value of the node and a string
    field its string value. *)
Definition coerced_literal (t : OGRFieldType) (lit : swq_expr_node)
  : option SqlValue :=
  match lit with
  | SNT_CONSTANT ft iv fv sv =>
      match t with
      | OFTInteger =>
          Some (SqlInt (if bool_decide (ft = SWQ_FLOAT)
                        then wrap 32 (Qtrunc fv) else wrap 32 iv))
      | OFTInteger64 =>
          Some (SqlInt (if bool_decide (ft = SWQ_FLOAT)
                        then wrap 64 (Qtrunc fv) else iv))
      | OFTReal => Some (SqlReal (Finite fv))
      | OFTString => Some (SqlString sv)
      | _ => None
      end
  | _ => None
  end.

(** The field types whose literals can be coerced into a constraint. *)
Definition is_pushable_type (t : OGRFieldType) : bool :=
  match t with
  | OFTInteger | OFTInteger64 | OFTReal | OFTString => true
  | _ => false
  end.

(** A binary node with the column at position [pos] (0: left operand, 1:
    right operand) and the constant at the other. *)
Definition comparison_node (op : swq_op) (pos : Z) (idx : Z)
    (lit : swq_expr_node) : swq_expr_node :=
  SNT_OPERATION op
    (if pos =? 0 then [SNT_COLUMN idx; lit] else [lit; SNT_COLUMN idx]).

(** The comparison of the node on the column value [v], with the operands
    in the order of the node and the constant read as [lit]. *)
Definition node_holds (op : swq_op) (pos : Z) (v lit : SqlValue)
  : option bool :=
  if pos =? 0 then sql_holds op v lit else sql_holds op lit v.

(** ** A reference OGR core for the scenarios *)

(** Little-endian unsigned integer held by a list of bytes. *)
Fixpoint le_uint (bytes : list Byte.byte) : Z :=
  match bytes with
  | [] => 0
  | b :: rest => Z.of_N (Byte.to_N b) + 256 * le_uint rest
  end.

(** The finite IEEE 754 binary64 value of a 64-bit pattern, as a reduced
    rational; [None] on infinities and NaN. *)
Definition double_of_bits (bits : Z) : option Q :=
  let sign := Z.testbit bits 63 in
  let e := Z.land (Z.shiftr bits 52) 2047 in
  let m := Z.land bits (2 ^ 52 - 1) in
  if e =? 2047 then None
  else
    let mant := if e =? 0 then m else 2 ^ 52 + m in
    let ex := (if e =? 0 then 1 else e) - 1075 in
    let mag := if 0 <=? ex then inject_Z (mant * 2 ^ ex)
               else Qmake mant (Z.to_pos (2 ^ (- ex))) in
    Some (Qred (if sign then Qopp mag else mag)).

(** Modelled from the spec: [OGRGeometryFactory::createFromWkb] is outside
    src/; "a full parse follows the standard well-known-binary grammar".
    Only the geometry of the scenarios is parsed here, a little-endian 2D
    point (byte order 1, type 1, then X and Y as binary64); any other
    input is rejected. *)
Definition wkb_point (data : list Byte.byte) : option (Q * Q) :=
  if bool_decide (length data = 21%nat)
     && (le_uint (take 1 data) =? 1)
     && (le_uint (take 4 (drop 1 data)) =? 1) then
    match double_of_bits (le_uint (take 8 (drop 5 data))),
          double_of_bits (le_uint (take 8 (drop 13 data))) with
    | Some x, Some y => Some (x, y)
    | _, _ => None
    end
  else None.

Definition point_createFromWkb (data : list Byte.byte)
  : option OGRGeometry :=
  match wkb_point data with
  | Some (x, y) => Some (OGRPoint_xy x y)
  | None => None
  end.

(** Modelled from the spec: [OGRWKBGetBoundingBox], on the same inputs:
    the envelope of the point. *)
Definition point_OGRWKBGetBoundingBox (data : list Byte.byte)
  : option OGREnvelope :=
  match wkb_point data with
  | Some (x, y) => Some (Env x x y y)
  | None => None
  end.

(** Modelled from the spec: [swq_expr_node::ReplaceBetweenByGEAndLERecurse]
    is outside src/; every [x BETWEEN lo AND hi] becomes
    [x >= lo AND x <= hi]. *)
Fixpoint between_to_GE_and_LE (n : swq_expr_node) : swq_expr_node :=
  match n with
  | SNT_OPERATION SWQ_BETWEEN [x; lo; hi] =>
      SNT_OPERATION SWQ_AND
        [SNT_OPERATION SWQ_GE [x; lo]; SNT_OPERATION SWQ_LE [x; hi]]
  | SNT_OPERATION SWQ_BETWEEN _ => n
  | SNT_OPERATION op subs =>
      SNT_OPERATION op (List.map between_to_GE_and_LE subs)
  | other => other
  end.

(** The externals used by the concrete scenarios.  WKT parsing and the
    printing of doubles are not exercised by them. *)
Definition scenario_core : OGRCore :=
  mkOGRCore point_createFromWkb (λ _, None) point_OGRWKBGetBoundingBox
            between_to_GE_and_LE (λ _, "").

(** ** Reference definitions for the WKT to WKB re-encoding *)

(** The invariant of the append buffer: the size does not exceed the
    capacity, which does not exceed [MAX_SIZE_SINT32] (2^31 - 1); the
    content holds [m_nSize] bytes. *)
Definition buffer_ok (b : OGRAppendBuffer) : Prop :=
  0 ≤ m_nSize b ∧ m_nSize b ≤ m_nCapacity b
  ∧ m_nCapacity b ≤ MAX_SIZE_SINT32
  ∧ Z.of_nat (length (m_pRawBuffer b)) = m_nSize b.

(** The complete translation of the rows [rows] of a WKT array: the WKB
    bytes of every non-null row, in row order; [None] when the text of a
    non-null row does not parse. *)
Fixpoint complete_translation
    (chunks_of : list Byte.byte → bool → option (list (list Byte.byte)))
    (targetNull : option (list Z)) (sourceOffsets : list Z)
    (sourceBytes : list Byte.byte) (nLength : Z) (rows : list Z)
  : option (list Byte.byte) :=
  match rows with
  | [] => Some []
  | i :: rest =>
      let tail_ :=
        complete_translation chunks_of targetNull sourceOffsets sourceBytes
          nLength rest in
      let is_null :=
        match targetNull with
        | Some bits => negb (Z.testbit (nth (Z.to_nat (i / 8)) bits 0)
                                       (i mod 8))
        | None => false
        end in
      if is_null then tail_
      else
        match chunks_of (take (Z.to_nat (nth (Z.to_nat (i + 1))
                                              sourceOffsets 0
                                         - nth (Z.to_nat i) sourceOffsets 0))
                              (drop (Z.to_nat (nth (Z.to_nat i)
                                                   sourceOffsets 0))
                                    sourceBytes))
                        (nth (Z.to_nat (i + 1)) sourceOffsets 0
                         <? nth (Z.to_nat nLength) sourceOffsets 0),
              tail_ with
        | Some chunks, Some bytes => Some (concat chunks ++ bytes)
        | _, _ => None
        end
  end.

(** Every offset of an offsets buffer is a valid signed 32-bit offset. *)
Definition offsets_in_range (offs : list Z) : Prop :=
  Forall (λ o, 0 ≤ o ≤ MAX_SIZE_SINT32) offs.

(** ** Reference definitions for the geometry codec *)

(** The cell of row [i] of a non-point GeoArrow encoding holds a
    zero-length list: at the outermost level, or, below a non-empty outer
    list, at the next level for each of its elements, and so on down to
    the lists of points. *)
Definition zero_length_cell (eEncoding : OGRArrowGeomEncoding)
    (array : Array) (i : Z) : bool :=
  let n := value_length array i in
  let off := value_offset array i in
  match eEncoding with
  | GEOARROW_LINESTRING | GEOARROW_MULTIPOINT => n =? 0
  | GEOARROW_POLYGON | GEOARROW_MULTILINESTRING =>
      (0 <=? n)
      && forallb (λ k, value_length (values array) (off + k) =? 0)
                 (seqZ 0 n)
  | GEOARROW_MULTIPOLYGON =>
      (0 <=? n)
      && forallb
           (λ j,
              let nRings := value_length (values array) (off + j) in
              let nRingOffset := value_offset (values array) (off + j) in
              (0 <=? nRings)
              && forallb
                   (λ k, value_length (values (values array))
                           (nRingOffset + k) =? 0)
                   (seqZ 0 nRings))
           (seqZ 0 n)
  | _ => false
  end.

(** An empty geometry that is neither 3D nor measured, as a constructor
    leaves it. *)
Definition blank (g : OGRGeometry) : Prop :=
  Is3D g = false ∧ IsMeasured g = false ∧ IsEmpty g = true.

(** ** The caller's read loop *)

(** The records returned by successive calls of [GetNextRawFeature], until
    it returns [nullptr] (at most [n] calls). *)
Fixpoint read_features (core : OGRCore) (L : LayerDefn) (F : Filters)
    (n : nat) (c : Cursor) : list OGRFeature :=
  match n with
  | O => []
  | S n =>
      match GetNextRawFeature core L F c with
      | RawFeature f c => f :: read_features core L F n c
      | _ => []
      end
  end.

(** ** Concrete inputs *)


(** A GeoArrow polygon column (XYZ) with one row: a polygon made of one
    ring with no point. *)
Definition polygon_with_empty_ring : Array :=
  mkArray LIST []
    (DList [0; 1]
       (mkArray LIST []
          (DList [0; 0]
             (mkArray FIXED_SIZE_LIST []
                (DFixedSizeList 3 (mkArray DOUBLE [] (DDouble []))))))).

Definition polygonZ_field : OGRGeomFieldDefn :=
  mkGeomFieldDefn "geometry" (mkGT wkbPolygon true false) false.

(** *** The scenario of the specification

    A batch with 3 rows, one string field "name" with the values "a",
    null, "c" and one WKB point geometry field with the points (1 2),
    (3 4), (5 6); no identifier column. *)
Definition wkb_point_1_2 : list Byte.byte :=
  [x01; x01; x00; x00; x00;
   x00; x00; x00; x00; x00; x00; xf0; x3f;
   x00; x00; x00; x00; x00; x00; x00; x40].
Definition wkb_point_3_4 : list Byte.byte :=
  [x01; x01; x00; x00; x00;
   x00; x00; x00; x00; x00; x00; x08; x40;
   x00; x00; x00; x00; x00; x00; x10; x40].
Definition wkb_point_5_6 : list Byte.byte :=
  [x01; x01; x00; x00; x00;
   x00; x00; x00; x00; x00; x00; x14; x40;
   x00; x00; x00; x00; x00; x00; x18; x40].

Definition scenario_batch : RecordBatch :=
  mkBatch 3
    [mkArray STRING [true; false; true] (DString ["a"; ""; "c"]);
     mkArray BINARY []
       (DBinary [wkb_point_1_2; wkb_point_3_4; wkb_point_5_6])].

(** The attribute schema is the one the Type Mapper builds for the string
    column. *)
Definition scenario_schema : SchemaState :=
  CreateFieldFromSchema (λ _ _, OGR_TZFLAG_UNKNOWN) "name" (TPrim STRING)
    true [0] ∅ empty_schema.

Definition scenario_layer : LayerDefn :=
  mkLayerDefn scenario_schema
    [mkGeomFieldDefn "geometry" (mkGT wkbPoint false false) false]
    [WKB] [1] (-1) "" false [] [] (-1) ∅ true true false [scenario_batch].

(** [name <> 'a']. *)
Definition name_ne_a : swq_expr_node :=
  SNT_OPERATION SWQ_NE [SNT_COLUMN 0; SNT_CONSTANT SWQ_STRING 0 0 "a"].

(** The records read after [SetAttributeFilter ("name <> 'a'")] on the
    freshly opened layer. *)
(** The state of the scenario layer after the attribute filter is set. *)
Definition scenario_state : LayerState :=
  snd (SetAttributeFilter scenario_core scenario_layer (FilterExpr name_ne_a)
         initial_state).

Definition scenario_records : list OGRFeature :=
  read_features scenario_core scenario_layer (ls_filters scenario_state)
    10 (ls_cursor scenario_state).

(** The cursor on the scenario batch, at row [i]. *)
Definition scenario_cursor_at (F : Filters) (i : Z) : Cursor :=
  let c := snd (ReadNextBatch scenario_layer F initial_cursor) in
  with_position c false i i 0.

(** *** The scenario with a spatial filter added

    The filter geometry is the box from (0 1) to (2 3): of the three
    points only (1 2) lies in it. *)
Definition filter_box : OGRGeometry :=
  mkGeom POLYGON false false []
    [mkGeom LINEARRING false false
       [mkVertex 0 1 0 0; mkVertex 2 1 0 0; mkVertex 2 3 0 0;
        mkVertex 0 3 0 0; mkVertex 0 1 0 0] []].

Definition both_filters_state : LayerState :=
  SetSpatialFilter scenario_layer 0 (Some filter_box) scenario_state.

Definition spatial_only_state : LayerState :=
  SetSpatialFilter scenario_layer 0 (Some filter_box) initial_state.

Definition spatial_only_records : list OGRFeature :=
  read_features scenario_core scenario_layer (ls_filters spatial_only_state)
    10 (ls_cursor spatial_only_state).

(** The three records of the scenario batch, fully decoded. *)
Definition record_a : OGRFeature :=
  mkFeature 0 [F_String "a"] [Some (OGRPoint_xy 1 2)].

Definition record_c : OGRFeature :=
  mkFeature 2 [F_String "c"] [Some (OGRPoint_xy 5 6)].

(** Does row [i] of the scenario batch fail the spatial test, and does it
    fail the attribute constraints, under the filters [F]? *)
Definition row_fails_spatial (F : Filters) (i : Z) : bool :=
  bSkipToNextFeature_WKB scenario_core F (scenario_cursor_at F i).

Definition row_fails_attributes (F : Filters) (i : Z) : bool :=
  negb (passes_constraints scenario_core scenario_layer F
          (scenario_cursor_at F i)).

Definition both_filters_records : list OGRFeature :=
  read_features scenario_core scenario_layer (ls_filters both_filters_state)
    10 (ls_cursor both_filters_state).

(** *** A layer of two batches for the batch export

    The first batch has one row, the second is the scenario batch.  The
    export keeps the row count only; the post-filter empties the arrays of
    fewer than two rows. *)
Definition single_row_batch : RecordBatch :=
  mkBatch 1 [mkArray STRING [] (DString ["a"]);
             mkArray BINARY [] (DBinary [wkb_point_1_2])].

Definition two_batch_layer : LayerDefn :=
  mkLayerDefn scenario_schema
    [mkGeomFieldDefn "geometry" (mkGT wkbPoint false false) false]
    [WKB] [1] (-1) "" false [] [] (-1) ∅ true true false
    [single_row_batch; scenario_batch].

Definition export_row_count (b : RecordBatch) : option ArrowArray :=
  Some (mkArrowArray (num_rows b) 0 0 None [] [] []).

Definition drop_short_arrays (F : Filters) (base : option Z)
    (a : ArrowArray) : ArrowArray :=
  if aa_length a <? 2 then mkArrowArray 0 0 0 None [] [] [] else a.

(** *** A layer of GeoArrow points

    The points (1 2), (3 4), (5 6) as a fixed-size list of two doubles,
    and a base layer whose generic extent computation answers the box
    [e]. *)
Definition geoarrow_point_batch : RecordBatch :=
  mkBatch 3
    [mkArray STRING [true; false; true] (DString ["a"; ""; "c"]);
     mkArray FIXED_SIZE_LIST []
       (DFixedSizeList 2
          (mkArray DOUBLE []
             (DDouble (Finite <$> [1; 2; 3; 4; 5; 6]%Q))))].

Definition geoarrow_point_layer : LayerDefn :=
  mkLayerDefn scenario_schema
    [mkGeomFieldDefn "geometry" (mkGT wkbPoint false false) false]
    [GEOARROW_POINT] [1] (-1) "" false [] [] (-1) ∅ true true false
    [geoarrow_point_batch].

Definition constant_base (e : OGREnvelope) : OGRLayerBase :=
  mkOGRLayerBase (λ _ _ c _ _, (Some e, c)).

(** *** A layer of GeoArrow multipolygons

    One batch of one row: a multipolygon of one part, whose outer ring is
    the square from (0 0) to (10 10) and whose second ring is the triangle
    (2 2), (4 2), (4 4).  In the second layer the second ring, the
    triangle (12 2), (20 2), (20 4), lies outside the first. *)
Definition multipolygon_array (second_ring : list Q) : Array :=
  mkArray LIST []
    (DList [0; 1]
       (mkArray LIST []
          (DList [0; 2]
             (mkArray LIST []
                (DList [0; 5; 9]
                   (mkArray FIXED_SIZE_LIST []
                      (DFixedSizeList 2
                         (mkArray DOUBLE []
                            (DDouble
                               (Finite
                                <$> [0; 0; 10; 0; 10; 10; 0; 10; 0; 0]%Q
                                    ++ second_ring)))))))))).

Definition multipolygon_layer (second_ring : list Q) : LayerDefn :=
  mkLayerDefn empty_schema
    [mkGeomFieldDefn "geometry" (mkGT wkbMultiPolygon false false) false]
    [GEOARROW_MULTIPOLYGON] [0] (-1) "" false [] [] (-1) ∅ true true false
    [mkBatch 1 [multipolygon_array second_ring]].

Definition ring_outside : list Q := [12; 2; 20; 2; 20; 4; 12; 2]%Q.

(** *** A layer with one large-binary WKB cell

    Modelled from the spec: a decoder and a bounding-box parser of the
    well-known-binary grammar that read the geometry at the head of the
    bytes and leave the bytes that follow it unread; as in the scenario,
    only a little-endian 2D point is parsed. *)
Definition prefix_core : OGRCore :=
  mkOGRCore (λ data, point_createFromWkb (take 21 data)) (λ _, None)
            (λ data, point_OGRWKBGetBoundingBox (take 21 data))
            between_to_GE_and_LE (λ _, "").

(** The point (1 2) followed by zero bytes up to a length of [INT_MAX]
    bytes. *)
Definition cell_of_INT_MAX_bytes : list Byte.byte :=
  wkb_point_1_2 ++ replicate (Z.to_nat (INT_MAX - 21)) x00.

(** A layer of one batch of one row, whose geometry column is a
    large-binary WKB column holding [data]. *)
Definition large_binary_layer (data : list Byte.byte) : LayerDefn :=
  mkLayerDefn empty_schema
    [mkGeomFieldDefn "geometry" (mkGT wkbPoint false false) false]
    [WKB] [0] (-1) "" false [] [] (-1) ∅ true true false
    [mkBatch 1 [mkArray LARGE_BINARY [] (DBinary [data])]].

(** ** Constraints: auxiliary constructions *)

(** The constraint [c] with its operation replaced. *)
Definition with_operation (c : Constraint) (op : swq_op) : Constraint :=
  mkConstraint (iField c) (iArrayIdx c) op (eType c) (sValue_Integer c)
    (sValue_Integer64 c) (sValue_Real c) (sValue_String c) (osValue c).

(** What [ComputeConstraintsArrayIdx] leaves alone: everything but
    [iArrayIdx]. *)
Definition constraint_body (c : Constraint)
  : Z * swq_op * ConstraintType * Z * Z * Q * string * string :=
  (iField c, nOperation c, eType c, sValue_Integer c, sValue_Integer64 c,
   sValue_Real c, sValue_String c, osValue c).

(** The operations a constraint built by the compiler can carry. *)
Definition is_constraint_operation (op : swq_op) : bool :=
  IsComparisonOp op
  || bool_decide (op = SWQ_ISNULL) || bool_decide (op = SWQ_ISNOTNULL).

(** The scenario layer with its attribute field ignored: the batches hold
    the geometry column only. *)
Definition geometry_only_layer : LayerDefn :=
  mkLayerDefn scenario_schema
    [mkGeomFieldDefn "geometry" (mkGT wkbPoint false false) false]
    [WKB] [1] (-1) "" true [-1] [0] (-1) ∅ true true false
    [mkBatch 3 [mkArray BINARY []
                  (DBinary [wkb_point_1_2; wkb_point_3_4; wkb_point_5_6])]].

(** ** Reference: the rows of a dataset *)

(** A row: its global index (the value of [m_nFeatureIdx] when the cursor
    is on it), its index in its batch, and the columns of its batch. *)
Definition Row : Type := Z * Z * list Array.

(** [n] consecutive rows of batch [b], from the row of index
    [nIdxInBatch], the first one having the global index [nFeatureIdx]. *)
Definition rows_from (nFeatureIdx : Z) (b : RecordBatch) (nIdxInBatch n : Z)
  : list Row :=
  List.map (λ k, (nFeatureIdx + k, nIdxInBatch + k, columns b)) (seqZ 0 n).

(** All the rows of consecutive batches, in order. *)
Definition all_rows (nFeatureIdx : Z) (batches : list RecordBatch)
  : list Row :=
  flat_map (λ nb : Z * RecordBatch, rows_from nb.1 nb.2 0 (num_rows nb.2))
           (with_base_ids nFeatureIdx batches).

(** The record [GetNextRawFeature] builds when it stops on a row:
    [ReadFeature], then [SetFID (m_nFeatureIdx)] when there is no FID
    column. *)
Definition decode_row (core : OGRCore) (L : LayerDefn) (r : Row)
  : OGRFeature :=
  let '(nFeatureIdx, nIdxInBatch, cols) := r in
  let poFeature := ReadFeature core L nIdxInBatch cols in
  if m_iFIDArrowColumn L <? 0 then SetFID poFeature nFeatureIdx
  else poFeature.

(** The row passes the attribute constraints of the filters. *)
Definition row_passes (core : OGRCore) (L : LayerDefn) (F : Filters)
    (r : Row) : bool :=
  let '(nFeatureIdx, nIdxInBatch, cols) := r in
  negb (SkipToNextFeatureDueToAttributeFilter core
          (GetFieldCount (ld_schema L)) (m_osFIDColumn L) cols nFeatureIdx
          nIdxInBatch (m_asAttributeFilterConstraints F)).

(** The cursor is on a row of a batch of the dataset, [rem] being that row
    and all the rows after it. *)
Definition positioned (L : LayerDefn) (c : Cursor) (rem : list Row)
  : Prop :=
  ∃ (b : RecordBatch) (n : Z),
    m_bEOF c = false
    ∧ m_poBatch c = Some b
    ∧ m_poBatchColumns c = columns b
    ∧ 0 < n
    ∧ m_nIdxInBatch c + n = num_rows b
    ∧ -1 ≤ m_iRecordBatch c
    ∧ Forall (λ b, 0 < num_rows b)
        (drop (Z.to_nat (m_iRecordBatch c + 1)) (ds_batches L))
    ∧ rem = rows_from (m_nFeatureIdx c) b (m_nIdxInBatch c) n
            ++ all_rows (m_nFeatureIdx c + n)
                 (drop (Z.to_nat (m_iRecordBatch c + 1)) (ds_batches L))
    ∧ (length rem < loop_fuel L)%nat.

(** The test at the head of [GetNextRawFeature] and of every loop step:
    [if (m_poBatch == nullptr || m_nIdxInBatch == m_poBatch->num_rows ())
    m_bEOF = !ReadNextBatch ();]. *)
Definition pull_if_needed (L : LayerDefn) (F : Filters) (c : Cursor)
  : Cursor :=
  if negb (bool_decide (is_Some (m_poBatch c)))
     || (m_nIdxInBatch c =? batch_rows c)
  then read_next_or_EOF L F c else c.

(** The cursor is between two calls: rewound, or just past the row
    returned last; [rem] are the rows not visited yet. *)
Definition between_rows (L : LayerDefn) (F : Filters) (c : Cursor)
    (rem : list Row) : Prop :=
  m_bEOF c = false
  ∧ ((rem = [] ∧ m_bEOF (pull_if_needed L F c) = true)
     ∨ positioned L (pull_if_needed L F c) rem).

(** ** Geometry type of a column, from its content *)

#[export] Instance OGRwkbGeometryType_eq_dec : EqDecision OGRwkbGeometryType.
Proof. solve_decision. Defined.

(** The geometry types [wkbNone] and [wkbUnknown], without modifiers. *)
Definition wkbNone_type : OGRwkbGeometryType := mkGT wkbNone false false.
Definition wkbUnknown_type : OGRwkbGeometryType :=
  mkGT wkbUnknown false false.

(** The [if (eThisGeomType != wkbNone) { ... }] block of
    [ComputeGeometryColumnTypeProcessBatch]: the column type after a row of
    type [eThisGeomType]; [None] is [return wkbUnknown]. *)
Definition merge_row_type (eGeomType eThisGeomType : OGRwkbGeometryType)
  : option OGRwkbGeometryType :=
  let bZ := OGR_GT_HasZ eThisGeomType || OGR_GT_HasZ eGeomType in
  let bM := OGR_GT_HasM eThisGeomType || OGR_GT_HasM eGeomType in
  let this := wkbFlatten eThisGeomType in
  let cur := wkbFlatten eGeomType in
  let merged : option OGRwkbGeometryType :=
    if bool_decide (eGeomType = wkbNone_type) then Some eThisGeomType
    else if bool_decide (this = cur) then Some eGeomType
    else if bool_decide (this = wkbMultiLineString)
            && bool_decide (cur = wkbLineString)
         then Some (OGR_GT_SetModifier wkbMultiLineString bZ bM)
    else if bool_decide (this = wkbLineString)
            && bool_decide (cur = wkbMultiLineString)
         then Some eGeomType
    else if bool_decide (this = wkbMultiPolygon)
            && bool_decide (cur = wkbPolygon)
         then Some (OGR_GT_SetModifier wkbMultiPolygon bZ bM)
    else if bool_decide (this = wkbPolygon)
            && bool_decide (cur = wkbMultiPolygon)
         then Some eGeomType
    else None in
  match merged with
  | Some eGeomType =>
      Some (OGR_GT_SetModifier (wkbFlatten eGeomType)
              (OGR_GT_HasZ eThisGeomType || OGR_GT_HasZ eGeomType)
              (OGR_GT_HasM eThisGeomType || OGR_GT_HasM eGeomType))
  | None => None
  end.

(** [BinaryArray::GetValue (i, &out_length)] on an array reached through a
    dynamic cast to [BinaryArray]: the bytes of the value, also when the
    array is a string array. *)
Definition GetValue_bytes (a : Array) (i : Z) : list Byte.byte :=
  match array_data a with
  | DBinary vs => nth (Z.to_nat i) vs []
  | DString vs => String.list_byte_of_string (nth (Z.to_nat i) vs "")
  | _ => []
  end.

Section GeometryColumnType.

(** [OGRReadWKBGeometryType (data, wkbVariantIso, &eType)] and
    [OGRReadWKTGeometryType (pszWKT, &eType)] (OGR core, outside src/): the
    type written to the out-parameter, which the caller initialises to
    [wkbNone]. *)
Variable OGRReadWKBGeometryType : list Byte.byte → OGRwkbGeometryType.
Variable OGRReadWKTGeometryType : string → OGRwkbGeometryType.

(** The type read from row [i], [wkbNone] when nothing can be read.  In
    Arrow, [StringArray] derives from [BinaryArray] and [LargeStringArray]
    from [LargeBinaryArray], so that the dynamic casts to the binary
    classes succeed on string arrays too. *)
Definition row_geometry_type (eEncoding : OGRArrowGeomEncoding)
    (array : Array) (i : Z) : OGRwkbGeometryType :=
  let of_type t := bool_decide (type_id array = t) in
  if bool_decide (eEncoding = WKB)
     && (of_type BINARY || of_type STRING
         || of_type LARGE_BINARY || of_type LARGE_STRING) then
    let data := GetValue_bytes array i in
    if 5 <=? Z.of_nat (length data) then OGRReadWKBGeometryType data
    else wkbNone_type
  else if bool_decide (eEncoding = WKT)
          && (of_type STRING || of_type LARGE_STRING) then
    let osWKT := GetString array i in
    if negb (String.eqb osWKT "") then OGRReadWKTGeometryType (c_str osWKT)
    else wkbNone_type
  else wkbNone_type.

(** The [for] loop over the rows; [None] is the early
    [return wkbUnknown]. *)
Fixpoint process_rows (eEncoding : OGRArrowGeomEncoding) (array : Array)
    (rows : list Z) (eGeomType : OGRwkbGeometryType)
  : option OGRwkbGeometryType :=
  match rows with
  | [] => Some eGeomType
  | i :: rest =>
      if negb (IsNull array i) then
        let eThisGeomType := row_geometry_type eEncoding array i in
        if bool_decide (eThisGeomType ≠ wkbNone_type) then
          match merge_row_type eGeomType eThisGeomType with
          | Some eGeomType => process_rows eEncoding array rest eGeomType
          | None => None
          end
        else process_rows eEncoding array rest eGeomType
      else process_rows eEncoding array rest eGeomType
  end.

(** [OGRArrowLayer::ComputeGeometryColumnTypeProcessBatch]. *)
Definition ComputeGeometryColumnTypeProcessBatch (L : LayerDefn)
    (poBatch : RecordBatch) (iGeomCol iBatchCol : Z)
    (eGeomType : OGRwkbGeometryType) : OGRwkbGeometryType :=
  let array := column (columns poBatch) iBatchCol in
  match process_rows (GeomEncoding L iGeomCol) array
          (seqZ 0 (num_rows poBatch)) eGeomType with
  | Some eGeomType => eGeomType
  | None => wkbUnknown_type
  end.

End GeometryColumnType.

(** The types read from the rows of a column, in row order: null rows and
    rows whose type cannot be read are left out. *)
Definition readable_types
    (readWKB : list Byte.byte → OGRwkbGeometryType)
    (readWKT : string → OGRwkbGeometryType)
    (eEncoding : OGRArrowGeomEncoding) (array : Array) (rows : list Z)
  : list OGRwkbGeometryType :=
  List.filter (λ t, bool_decide (t ≠ wkbNone_type))
    (List.map (row_geometry_type readWKB readWKT eEncoding array)
       (List.filter (λ i, negb (IsNull array i)) rows)).

(** The column type after rows of the given types: [merge_row_type]
    folded, stopping at the first conflict. *)
Fixpoint merge_types (types : list OGRwkbGeometryType)
    (eGeomType : OGRwkbGeometryType) : option OGRwkbGeometryType :=
  match types with
  | [] => Some eGeomType
  | t :: rest =>
      match merge_row_type eGeomType t with
      | Some eGeomType => merge_types rest eGeomType
      | None => None
      end
  end.

(** A type as the readers of the OGR core produce it, or as a column type
    already computed: not [wkbNone] with a modifier, which is no value of
    the enumeration. *)
Definition proper_type (t : OGRwkbGeometryType) : Prop :=
  wkbFlatten t = wkbNone → t = wkbNone_type.

(** A column of flat type [b] holds a geometry of flat type [a]: the same
    type, or the single geometry of a multi-geometry column. *)
Definition held_by (a b : wkbFlatType) : Prop :=
  a = b ∨ (a = wkbLineString ∧ b = wkbMultiLineString)
  ∨ (a = wkbPolygon ∧ b = wkbMultiPolygon).

(** A reader of the geometry type of a WKB value for the witnesses below:
    it tells two-dimensional points, line strings and multi line strings
    by the first byte of the little-endian type code, and reads nothing
    else. *)
Definition sample_wkb_type (data : list Byte.byte) : OGRwkbGeometryType :=
  match data with
  | _ :: x01 :: _ => mkGT wkbPoint false false
  | _ :: x02 :: _ => mkGT wkbLineString false false
  | _ :: x05 :: _ => mkGT wkbMultiLineString false false
  | _ => wkbNone_type
  end.

(** Empty line string and empty multi line string, little-endian WKB. *)
Definition wkb_empty_linestring : list Byte.byte :=
  [x01; x02; x00; x00; x00; x00; x00; x00; x00].
Definition wkb_empty_multilinestring : list Byte.byte :=
  [x01; x05; x00; x00; x00; x00; x00; x00; x00].

(** Two batches of one WKB column with the same rows in a different order:
    a line string, a null row and a multi line string. *)
Definition lines_batch : RecordBatch :=
  mkBatch 3 [mkArray BINARY [true; false; true]
               (DBinary [wkb_empty_linestring; [];
                         wkb_empty_multilinestring])].
Definition lines_batch_reordered : RecordBatch :=
  mkBatch 3 [mkArray BINARY [true; true; false]
               (DBinary [wkb_empty_multilinestring; wkb_empty_linestring;
                         []])].

(** ** Coded field domains *)

(** [OGRCodedValue] and [OGRCodedFieldDomain] (ogr_core.h,
    ogr_feature.h): name, description, field type and subtype, and the
    enumeration of (code, value) pairs. *)
Record OGRCodedValue : Set := mkCodedValue {
  pszCode : string;
  pszValue : string
}.

Record OGRCodedFieldDomain : Set := mkCodedFieldDomain {
  domain_name : string;
  domain_description : string;
  domain_field_type : OGRFieldType;
  domain_field_subtype : OGRFieldSubType;
  domain_enumeration : list OGRCodedValue
}.

(** [StringArray::length ()]. *)
Definition string_array_length (a : Array) : Z :=
  match array_data a with
  | DString vs => Z.of_nat (length vs)
  | _ => 0
  end.

Section Domains.

(** [DictionaryArray::dictionary ()]: the array of the dictionary's
    values, which the array model does not hold. *)
Variable dictionary : Array → Array.

(** [OGRArrowLayer::BuildDomainFromBatch]; the index type is the type of
    the array of indices. *)
Definition BuildDomainFromBatch (osDomainName : string)
    (poBatch : RecordBatch) (iCol : Z) : OGRCodedFieldDomain :=
  let array := column (columns poBatch) iCol in
  let dict := dictionary array in
  let indexTypeId := type_id (dictionary_indices array) in
  let eType :=
    if bool_decide (indexTypeId = UINT32)
       || bool_decide (indexTypeId = UINT64)
       || bool_decide (indexTypeId = INT64)
    then OFTInteger64 else OFTInteger in
  let asValues :=
    flat_map (λ i, if negb (IsNull dict i)
                   then [mkCodedValue (to_string_Z i)
                           (c_str (GetString dict i))]
                   else [])
      (seqZ 0 (string_array_length dict)) in
  mkCodedFieldDomain osDomainName "" eType OFSTNone asValues.

End Domains.

(** ** Choice of the Arrow stream implementation, capabilities *)

(** [OLCStringsAsUTF8], [OLCFastGetArrowStream], [OLCFastGetExtent]
    (ogr_core.h). *)
Definition OLCStringsAsUTF8 : string := "StringsAsUTF8".
Definition OLCFastGetArrowStream : string := "FastGetArrowStream".
Definition OLCFastGetExtent : string := "FastGetExtent".

Section ArrowStreamChoice.

(** [EQUAL (a, b)] (cpl_port.h): case-insensitive string equality. *)
Variable EQUAL : string → string → bool.
(** [m_poFeatureDefn->GetFieldDefn (i)->IsIgnored ()]. *)
Variable IsIgnored : Z → bool.
(** [CPLTestBool (CPLGetConfigOption ("OGR_ARROW_STREAM_BASE_IMPL",
    "NO"))]. *)
Variable cfg_OGR_ARROW_STREAM_BASE_IMPL : bool.
(** [m_aosArrowArrayStreamOptions.FetchNameValueDef ("GEOMETRY_ENCODING",
    "")]. *)
Variable pszReqGeomEncoding : string.
(** [GetArrowSchemaInternal (psSchema) == 0 &&
    CanPostFilterArrowArray (psSchema)] on the cached schema. *)
Variable bCanPostFilter : bool.

(** The loop over the geometry fields: some field that is not ignored is
    neither WKB nor WKT. *)
Definition incompatible_geometry_encoding (L : LayerDefn) : bool :=
  existsb (λ i, negb (gfd_ignored (GetGeomFieldDefn L i))
                && bool_decide (GeomEncoding L i ≠ WKB)
                && bool_decide (GeomEncoding L i ≠ WKT))
    (seqZ 0 (GetGeomFieldCount L)).

(** The loop over [m_anMapFieldIndexToArrowColumn] with the vector
    [ignoredState]; [true] is the early [return true]. *)
Fixpoint inconsistent_ignore_state (L : LayerDefn) (fields : list Z)
    (ignoredState : list Z) : bool :=
  match fields with
  | [] => false
  | i :: rest =>
      let nArrowCol := at_ (field_path L i) 0 in
      let ignoredState :=
        if Z.of_nat (length ignoredState) <=? nArrowCol
        then resize (Z.to_nat (nArrowCol + 1)) (-1) ignoredState
        else ignoredState in
      let bIsIgnored := IsIgnored i in
      if at_ ignoredState nArrowCol <? 0 then
        inconsistent_ignore_state L rest
          (<[Z.to_nat nArrowCol := Z.b2z bIsIgnored]> ignoredState)
      else if negb (at_ ignoredState nArrowCol =? Z.b2z bIsIgnored) then
        true
      else inconsistent_ignore_state L rest ignoredState
  end.

(** [OGRArrowLayer::UseRecordBatchBaseImplementation]. *)
Definition UseRecordBatchBaseImplementation (L : LayerDefn) (F : Filters)
  : bool :=
  if cfg_OGR_ARROW_STREAM_BASE_IMPL then true
  else if EQUAL pszReqGeomEncoding "WKB"
          && incompatible_geometry_encoding L then true
  else
    let nFields :=
      length (m_anMapFieldIndexToArrowColumn (ld_schema L)) in
    if m_bIgnoredFields L
       && inconsistent_ignore_state L (seqZ 0 (Z.of_nat nFields))
            (replicate nFields (-1)) then true
    else if (bool_decide (is_Some (m_poAttrQuery F))
             || bool_decide (is_Some (m_poFilterGeom F)))
            && negb bCanPostFilter then true
    else false.

(** [OGRArrowLayer::TestCapability]. *)
Definition TestCapability (L : LayerDefn) (s : LayerState)
    (pszCap : string) : bool :=
  if EQUAL pszCap OLCStringsAsUTF8 then true
  else if EQUAL pszCap OLCFastGetArrowStream
          && negb (UseRecordBatchBaseImplementation L (ls_filters s))
       then true
  else if EQUAL pszCap OLCFastGetExtent then
    forallb (λ i, bool_decide (is_Some (FastGetExtent L s i)))
      (seqZ 0 (GetGeomFieldCount L))
  else false.

End ArrowStreamChoice.

(** A layer of two attribute fields read from the two children of one
    struct column (column 0) and a WKB geometry column, with a cached
    extent. *)
Definition struct_fields_layer : LayerDefn :=
  mkLayerDefn
    (mkSchemaState
       [new_OGRFieldDefn "s.a" OFTString; new_OGRFieldDefn "s.b" OFTString]
       [[0; 0]; [0; 1]] (-1) (-1) (-1) (-1) [] [])
    [mkGeomFieldDefn "geometry" (mkGT wkbPoint false false) false]
    [WKB] [1] (-1) "" true [0; 1] [2] (-1) ∅ true true false [].

Definition cached_extent_state : LayerState :=
  mkLayerState no_filter initial_cursor (<[0 := Env 1 5 2 6]> ∅).

(** ** The caller's loop over the Arrow stream *)

Section ArrowStream.

Variable malloc_ok : Z → bool.
Variable TranslateWKT_chunks :
  list Byte.byte → bool → option (list (list Byte.byte)).
Variable ExportRecordBatch : RecordBatch → option ArrowArray.
Variable PostFilterArrowArray :
  Filters → option Z → ArrowArray → ArrowArray.
Variable L : LayerDefn.
Variable bGeometryEncodingWKB : bool.

(** The arrays returned by successive calls of [GetNextArrowArray] of the
    layer's own implementation, until the call that returns the
    zero-initialised array or an error (at most [n] calls). *)
Fixpoint read_arrays (F : Filters) (n : nat) (c : Cursor)
  : list ArrowArray :=
  match n with
  | O => []
  | S n =>
      match GetNextArrowArray malloc_ok TranslateWKT_chunks
              ExportRecordBatch PostFilterArrowArray L bGeometryEncodingWKB
              false F c with
      | Ret_array out_array c => out_array :: read_arrays F n c
      | _ => []
      end
  end.

(** What the loop builds from a batch when no filter is installed: the
    exported array with its WKT columns re-encoded; [None] stands for the
    two error returns. *)
Definition plain_export (batch : RecordBatch) : option ArrowArray :=
  match ExportRecordBatch batch with
  | None => None
  | Some out_array =>
      if bGeometryEncodingWKB then
        reencode_geometries malloc_ok TranslateWKT_chunks L
          (seqZ 0 (GetGeomFieldCount L)) out_array
      else Some out_array
  end.

(** The exports of the batches, in order, up to the first that fails. *)
Fixpoint exports_until_error (batches : list RecordBatch)
  : list ArrowArray :=
  match batches with
  | [] => []
  | b :: batches =>
      match plain_export b with
      | Some a => a :: exports_until_error batches
      | None => []
      end
  end.

End ArrowStream.

(** An export that hands over the columns of a batch as childless arrays
    of the batch's length. *)
Definition sample_export (b : RecordBatch) : option ArrowArray :=
  Some (mkArrowArray (num_rows b) 0 0 None [] []
          (List.map (λ _, mkArrowArray (num_rows b) 0 0 None [] [] [])
             (columns b))).

(** ** Rows kept by the spatial filter, GeoArrow encodings *)

(** A cursor standing on the row [r]. *)
Definition cursor_on (r : Row) : Cursor :=
  mkCursor false r.1.1 r.1.2 (-1) None r.2
    None None None None None None None.

(** The exit test of the row loop of [GetNextRawFeature] on the row [r],
    for a spatial filter on a geometry column that is not WKB. *)
Definition row_kept (core : OGRCore) (L : LayerDefn) (F : Filters)
    (r : Row) : bool :=
  let iCol := geom_column L (m_iGeomFieldFilter F) in
  if bool_decide (GeomEncoding L (m_iGeomFieldFilter F)
                  = GEOARROW_MULTIPOLYGON)
  then breaks_multipolygon core L F iCol (cursor_on r)
  else breaks_generic core L F iCol (cursor_on r).

(** The point geometry filter of the witness: the box of the point
    (3 4). *)
Definition filter_point_3_4 : Filters :=
  mkFilters None [] (Some (OGRPoint_xy 3 4)) (Env 3 3 4 4) 0 true.

(** ** Reference definitions for the rows of the re-encoded array *)

(** The WKB bytes of row [i] of the target array: none for a null row,
    else the chunks the translator appends for the WKT text of the row;
    [None] when the translator rejects the text. *)
Definition row_translation
    (chunks_of : list Byte.byte → bool → option (list (list Byte.byte)))
    (targetNull : option (list Z)) (sourceOffsets : list Z)
    (sourceBytes : list Byte.byte) (nLength : Z) (i : Z)
  : option (list Byte.byte) :=
  let is_null :=
    match targetNull with
    | Some bits => negb (bitmap_bit bits i)
    | None => false
    end in
  if is_null then Some []
  else
    match chunks_of (source_cell sourceOffsets sourceBytes i)
            (nth (Z.to_nat (i + 1)) sourceOffsets 0
             <? nth (Z.to_nat nLength) sourceOffsets 0) with
    | Some chunks => Some (concat chunks)
    | None => None
    end.

(** The start offsets of cells laid out one after the other from offset
    [start]. *)
Fixpoint cell_starts (start : Z) (cells : list (list Byte.byte))
  : list Z :=
  match cells with
  | [] => []
  | cell :: cells =>
      start :: cell_starts (start + Z.of_nat (length cell)) cells
  end.

(** A WKT array of three rows, the second null, and a translator for the
    witness below that writes a one-byte header and then the text. *)
Definition wkt_source_array : ArrowArray :=
  mkArrowArray 3 1 0 (Some [5]) [0; 1; 1; 3] [x41; x42; x43] [].

Definition header_and_text (wkt : list Byte.byte) (_ : bool)
  : option (list (list Byte.byte)) :=
  Some [[x01]; wkt].

Definition wkb_target_array : ArrowArray :=
  mkArrowArray 3 1 0 (Some [5]) [0; 2; 2; 5] [x01; x41; x01; x42; x43] [].

(** ** Consistency of the attribute schema *)

(** The index [idx] of a bbox field, when set, is the index of a field of
    type Real with the name [fieldName]. *)
Definition bbox_field_ok (s : SchemaState) (idx : Z) (fieldName : string)
  : Prop :=
  0 ≤ idx →
  ∃ f, m_poFeatureDefn_fields s !! Z.to_nat idx = Some f
       ∧ GetNameRef f = fieldName ∧ GetType f = OFTReal.

(** The attribute fields and the tables that describe them agree: every
    field has its path to an Arrow column, every registered domain names
    the field that carries it, and the bbox indices point at the bbox
    fields. *)
Definition schema_consistent (s : SchemaState) : Prop :=
  length (m_poFeatureDefn_fields s)
  = length (m_anMapFieldIndexToArrowColumn s)
  ∧ Forall (λ d : string * Z,
              0 ≤ d.2
              ∧ ∃ f, m_poFeatureDefn_fields s !! Z.to_nat d.2 = Some f
                     ∧ GetDomainName f = d.1)
      (m_domains s)
  ∧ bbox_field_ok s (m_iBBOXMinXField s) "bbox.minx"
  ∧ bbox_field_ok s (m_iBBOXMinYField s) "bbox.miny"
  ∧ bbox_field_ok s (m_iBBOXMaxXField s) "bbox.maxx"
  ∧ bbox_field_ok s (m_iBBOXMaxYField s) "bbox.maxy".

(** What a call adds to the schema: fields appended after the existing
    ones, each with a path below [path]. *)
Definition schema_extended (path : list Z) (s s' : SchemaState) : Prop :=
  ∃ fields paths,
    m_poFeatureDefn_fields s' = m_poFeatureDefn_fields s ++ fields
    ∧ m_anMapFieldIndexToArrowColumn s'
      = m_anMapFieldIndexToArrowColumn s ++ paths
    ∧ length fields = length paths
    ∧ Forall (λ p, path `prefix_of` p) paths.

(** ** Reference: the points of a GeoArrow cell *)




(** ** Reference: the shape of a GeoArrow column type *)

(** The number of list levels around the points of a GeoArrow encoding. *)
Definition list_levels (eEncoding : OGRArrowGeomEncoding) : option nat :=
  match eEncoding with
  | GEOARROW_POINT => Some 0%nat
  | GEOARROW_LINESTRING | GEOARROW_MULTIPOINT => Some 1%nat
  | GEOARROW_POLYGON | GEOARROW_MULTILINESTRING => Some 2%nat
  | GEOARROW_MULTIPOLYGON => Some 3%nat
  | _ => None
  end.

(** The flat geometry type of a GeoArrow encoding. *)
Definition flat_of_encoding (eEncoding : OGRArrowGeomEncoding)
  : wkbFlatType :=
  match eEncoding with
  | GEOARROW_POINT => wkbPoint
  | GEOARROW_LINESTRING => wkbLineString
  | GEOARROW_POLYGON => wkbPolygon
  | GEOARROW_MULTIPOINT => wkbMultiPoint
  | GEOARROW_MULTILINESTRING => wkbMultiLineString
  | GEOARROW_MULTIPOLYGON => wkbMultiPolygon
  | _ => wkbUnknown
  end.

(** The type found under [n] levels of variable-size lists. *)
Fixpoint under_lists (n : nat) (t : DataType) : option DataType :=
  match n with
  | O => Some t
  | S n =>
      match t with
      | TList _ value_type => under_lists n value_type
      | _ => None
      end
  end.

(** The storage type of a field: the type itself, or what an extension
    type wraps. *)
Definition storage_type_of (field : Field) : DataType :=
  match type field with
  | TExtension storage => storage
  | t => t
  end.

(** ** The exported Arrow schema *)

(** [struct ArrowSchema] of a column, as far as the layer reads it: name,
    format string, whether [metadata] is set, and whether the struct has
    been released. *)
Record ArrowSchemaChild : Set := mkSchemaChild {
  sc_name : string;
  sc_format : string;
  sc_metadata : bool;
  sc_released : bool
}.

(** The parent [struct ArrowSchema]: [n_children], the array [children]
    of pointers, and the child structs they point to.  A pointer is the
    index of a struct in [as_objects]; [children[j] = children[i]] copies
    a pointer, [*(children[j]) = *poSchema] overwrites the struct
    pointed to. *)
Record ArrowSchema : Set := mkArrowSchema {
  as_n_children : Z;
  as_children : list Z;
  as_objects : list ArrowSchemaChild
}.

Definition released_child : ArrowSchemaChild := mkSchemaChild "" "" false true.

(** [out_schema->children[k]] and [*(out_schema->children[k])]. *)
Definition child_ptr (s : ArrowSchema) (k : Z) : Z :=
  nth (Z.to_nat k) (as_children s) 0.
Definition object_at (s : ArrowSchema) (p : Z) : ArrowSchemaChild :=
  nth (Z.to_nat p) (as_objects s) released_child.
Definition child_at (s : ArrowSchema) (k : Z) : ArrowSchemaChild :=
  object_at s (child_ptr s k).

(** [out_schema->children[j] = out_schema->children[i]]. *)
Definition copy_child_ptr (s : ArrowSchema) (j i : Z) : ArrowSchema :=
  mkArrowSchema (as_n_children s)
    (<[Z.to_nat j := child_ptr s i]> (as_children s)) (as_objects s).

(** [*(out_schema->children[j]) = *poSchema]. *)
Definition write_child (s : ArrowSchema) (j : Z) (c : ArrowSchemaChild)
  : ArrowSchema :=
  mkArrowSchema (as_n_children s) (as_children s)
    (<[Z.to_nat (child_ptr s j) := c]> (as_objects s)).

(** [out_schema->children[i]->release (out_schema->children[i])]. *)
Definition release_child (s : ArrowSchema) (i : Z) : ArrowSchema :=
  mkArrowSchema (as_n_children s) (as_children s)
    (alter (λ c, mkSchemaChild (sc_name c) (sc_format c) (sc_metadata c)
                   true)
       (Z.to_nat (child_ptr s i)) (as_objects s)).

Definition set_n_children (s : ArrowSchema) (n : Z) : ArrowSchema :=
  mkArrowSchema n (as_children s) (as_objects s).

(** The local [struct FieldDesc] of [GetArrowSchemaInternal]. *)
Record FieldDesc : Set := mkFieldDesc {
  bIsRegularField : bool;
  nIdx : Z
}.

Definition desc_at (fieldDesc : list FieldDesc) (i : Z) : FieldDesc :=
  nth (Z.to_nat i) fieldDesc (mkFieldDesc false (-1)).

(** [EIO] (errno.h). *)
Definition EIO : Z := 5.

Section ArrowSchemaExport.

(** [EQUAL (a, b)] (cpl_port.h): case-insensitive string equality. *)
Variable EQUAL : string → string → bool.
(** [m_poFeatureDefn->GetFieldDefn (i)->IsIgnored ()]. *)
Variable IsIgnored : Z → bool.
(** The stream options [GEOMETRY_ENCODING] (the empty string when absent)
    and [GEOMETRY_METADATA_ENCODING] ([None] when absent). *)
Variable pszReqGeomEncoding : string.
Variable pszGeometryMetadataEncoding : option string.
(** [EXTENSION_NAME_OGC_WKB], [EXTENSION_NAME_GEOARROW_WKB]
    (ogr_recordbatch.h). *)
Variable EXTENSION_NAME_OGC_WKB : string.
Variable EXTENSION_NAME_GEOARROW_WKB : string.
(** [arrow::ExportSchema] applied to [m_poSchema]: the child structs of
    the exported schema, one per column, or [None] when the status is not
    OK. *)
Variable ExportSchema : option (list ArrowSchemaChild).
(** [OGRLayer::CreateSchemaForWKBGeometryColumn (poGeomFieldDefn,
    pszArrowFormat, pszExtensionName)] (base class, outside src/). *)
Variable CreateSchemaForWKBGeometryColumn :
  OGRGeomFieldDefn → string → string → ArrowSchemaChild.

Variable L : LayerDefn.

(** The two loops that fill [fieldDesc]: for each Arrow column, the first
    attribute field read from it, else the geometry field read from
    it. *)
Definition describe_columns (n_children : Z) : list FieldDesc :=
  let fieldDesc := replicate (Z.to_nat n_children) (mkFieldDesc false (-1)) in
  let fieldDesc :=
    foldl (λ fieldDesc i,
             let nArrowCol := at_ (field_path L i) 0 in
             if nIdx (desc_at fieldDesc nArrowCol) <? 0 then
               <[Z.to_nat nArrowCol := mkFieldDesc true i]> fieldDesc
             else fieldDesc)
          fieldDesc
          (seqZ 0 (Z.of_nat (length (m_anMapFieldIndexToArrowColumn
                                       (ld_schema L))))) in
  foldl (λ fieldDesc i,
           let nArrowCol := at_ (m_anMapGeomFieldIndexToArrowColumn L) i in
           <[Z.to_nat nArrowCol := mkFieldDesc false i]> fieldDesc)
        fieldDesc
        (seqZ 0 (Z.of_nat (length (m_anMapGeomFieldIndexToArrowColumn L)))).

(** The choice of [pszExtensionName], with the warning on an unsupported
    [GEOMETRY_METADATA_ENCODING]. *)
Definition extension_name : string * list Diag :=
  if EQUAL pszReqGeomEncoding "WKB" || EQUAL pszReqGeomEncoding "" then
    match pszGeometryMetadataEncoding with
    | Some enc =>
        if EQUAL enc "OGC" then (EXTENSION_NAME_OGC_WKB, [])
        else if EQUAL enc "GEOARROW" then (EXTENSION_NAME_GEOARROW_WKB, [])
        else (EXTENSION_NAME_OGC_WKB,
              [CE_Warning "Unsupported GEOMETRY_METADATA_ENCODING value"
                 enc])
    | None => (EXTENSION_NAME_OGC_WKB, [])
    end
  else (EXTENSION_NAME_OGC_WKB, []).

(** The body of the main loop for a geometry column that is not ignored:
    the child is moved to position [j], or replaced by a WKB schema. *)
Definition keep_geometry_child (pszExtensionName : string)
    (iGeomField : Z) (i j : Z) (s : ArrowSchema) : ArrowSchema :=
  let poGeomFieldDefn := GetGeomFieldDefn L iGeomField in
  let s :=
    if EQUAL pszReqGeomEncoding "WKB" then
      if bool_decide (GeomEncoding L iGeomField = WKT) then
        let poSchema :=
          CreateSchemaForWKBGeometryColumn poGeomFieldDefn "z"
            pszExtensionName in
        write_child (release_child s i) j poSchema
      else if bool_decide (GeomEncoding L iGeomField ≠ WKB) then s
      else copy_child_ptr s j i
    else copy_child_ptr s j i in
  if EQUAL pszReqGeomEncoding "WKB" || EQUAL pszReqGeomEncoding "" then
    let pszFormat := sc_format (child_at s j) in
    if bool_decide (GeomEncoding L iGeomField = WKB)
       && negb (sc_metadata (child_at s j))
       && (String.eqb pszFormat "z" || String.eqb pszFormat "Z") then
      let poSchema :=
        CreateSchemaForWKBGeometryColumn poGeomFieldDefn pszFormat
          pszExtensionName in
      write_child (release_child s i) j poSchema
    else s
  else s.

(** The main loop over the columns [i], with the write position [j]:
    returns the code, the final [j], the schema and the errors logged. *)
Fixpoint remove_ignored_children (fieldDesc : list FieldDesc)
    (pszExtensionName : string) (columns : list Z) (j : Z)
    (s : ArrowSchema) : Z * Z * ArrowSchema * list Diag :=
  match columns with
  | [] => (0, j, s, [])
  | i :: rest =>
      let d := desc_at fieldDesc i in
      if nIdx d <? 0 then
        if m_iFIDArrowColumn L =? i then
          remove_ignored_children fieldDesc pszExtensionName rest (j + 1) s
        else
          let '(j, s) :=
            foldl (λ js i, (js.1 + 1, copy_child_ptr js.2 js.1 i))
                  (j, s) (i :: rest) in
          (EIO, j, s, [CE_Failure "fieldDesc[i].nIdx < 0 not expected" ""])
      else
        let bIsIgnored :=
          if bIsRegularField d then IsIgnored (nIdx d)
          else gfd_ignored (GetGeomFieldDefn L (nIdx d)) in
        if bIsIgnored then
          remove_ignored_children fieldDesc pszExtensionName rest j
            (release_child s i)
        else
          let s :=
            if negb (bIsRegularField d) then
              keep_geometry_child pszExtensionName (nIdx d) i j s
            else copy_child_ptr s j i in
          remove_ignored_children fieldDesc pszExtensionName rest (j + 1) s
  end.

(** [OGRArrowLayer::GetArrowSchemaInternal]: the return code, the schema
    written to [out_schema] (none when the export failed) and the
    diagnostics.  [OverrideArrowRelease] replaces the release callback of
    the parent and leaves the children as they are. *)
Definition GetArrowSchemaInternal
  : Z * option ArrowSchema * list Diag :=
  match ExportSchema with
  | None => (EIO, None, [CE_Failure "ExportSchema() failed" ""])
  | Some exported =>
      let n_children := Z.of_nat (length exported) in
      let out_schema :=
        mkArrowSchema n_children (seqZ 0 n_children) exported in
      let fieldDesc := describe_columns n_children in
      let '(pszExtensionName, warnings) := extension_name in
      let '(ret, j, out_schema, errors) :=
        remove_ignored_children fieldDesc pszExtensionName
          (seqZ 0 n_children) 0 out_schema in
      (ret, Some (set_n_children out_schema j), warnings ++ errors)
  end.

(** The children of the schema handed out: [children[0]] to
    [children[n_children - 1]], dereferenced. *)
Definition exported_children (s : ArrowSchema) : list ArrowSchemaChild :=
  List.map (child_at s) (seqZ 0 (as_n_children s)).

(** What column [i] contributes to the schema handed out: nothing when
    the field read from it is ignored; else its exported child, replaced
    by a WKB schema for a WKT geometry column when WKB is requested, and
    for a WKB geometry column of format "z" or "Z" that has no
    metadata. *)
Definition expected_child (fieldDesc : list FieldDesc)
    (pszExtensionName : string) (exported : list ArrowSchemaChild)
    (i : Z) : option ArrowSchemaChild :=
  let d := desc_at fieldDesc i in
  let original := nth (Z.to_nat i) exported released_child in
  if nIdx d <? 0 then Some original
  else if bIsRegularField d then
    if IsIgnored (nIdx d) then None else Some original
  else
    let poGeomFieldDefn := GetGeomFieldDefn L (nIdx d) in
    if gfd_ignored poGeomFieldDefn then None
    else
      let child :=
        if EQUAL pszReqGeomEncoding "WKB"
           && bool_decide (GeomEncoding L (nIdx d) = WKT)
        then CreateSchemaForWKBGeometryColumn poGeomFieldDefn "z"
               pszExtensionName
        else original in
      Some (if (EQUAL pszReqGeomEncoding "WKB"
                || EQUAL pszReqGeomEncoding "")
               && bool_decide (GeomEncoding L (nIdx d) = WKB)
               && negb (sc_metadata child)
               && (String.eqb (sc_format child) "z"
                   || String.eqb (sc_format child) "Z")
            then CreateSchemaForWKBGeometryColumn poGeomFieldDefn
                   (sc_format child) pszExtensionName
            else child).

(** Column [i] is handled in place: the code advances [j] without copying
    a pointer (the FID column), or writes through [children[j]] before
    setting it (a geometry column that is not WKB when WKB is
    requested). *)
Definition handled_in_place (fieldDesc : list FieldDesc) (i : Z) : bool :=
  let d := desc_at fieldDesc i in
  if nIdx d <? 0 then true
  else
    negb (bIsRegularField d)
    && negb (gfd_ignored (GetGeomFieldDefn L (nIdx d)))
    && EQUAL pszReqGeomEncoding "WKB"
    && bool_decide (GeomEncoding L (nIdx d) ≠ WKB).

(** The state of the main loop before column [i], with write position
    [j]: the columns from [i] on are untouched, and the first [j] children
    are what the columns before [i] contribute, through pointers to
    structs of columns before [i]. *)
Definition export_loop_inv (fieldDesc : list FieldDesc)
    (pszExtensionName : string) (exported : list ArrowSchemaChild)
    (i j : Z) (s : ArrowSchema) : Prop :=
  let n := Z.of_nat (length exported) in
  0 ≤ j ≤ i ∧ i ≤ n
  ∧ length (as_children s) = length exported
  ∧ length (as_objects s) = length exported
  ∧ (∀ k, i ≤ k < n →
          child_ptr s k = k
          ∧ object_at s k = nth (Z.to_nat k) exported released_child)
  ∧ List.map (child_at s) (seqZ 0 j)
    = omap (expected_child fieldDesc pszExtensionName exported) (seqZ 0 i)
  ∧ (∀ k, 0 ≤ k < j → 0 ≤ child_ptr s k < i)
  ∧ ((∀ k, 0 ≤ k < i →
           is_Some (expected_child fieldDesc pszExtensionName exported k)) →
     j = i).

End ArrowSchemaExport.
(** A layer of two string columns and a WKT geometry column, the children
    of its exported schema, and a stand-in for the schema of a WKB
    geometry column (binary format, extension metadata set). *)
Definition wkt_geometry_layer : LayerDefn :=
  mkLayerDefn
    (mkSchemaState
       [new_OGRFieldDefn "a" OFTString; new_OGRFieldDefn "b" OFTString]
       [[0]; [1]] (-1) (-1) (-1) (-1) [] [])
    [mkGeomFieldDefn "geometry" (mkGT wkbPoint false false) false]
    [WKT] [2] (-1) "" false [] [] (-1) ∅ true true false [].

Definition three_columns : list ArrowSchemaChild :=
  [mkSchemaChild "a" "u" false false; mkSchemaChild "b" "u" false false;
   mkSchemaChild "geometry" "u" false false].

Definition sample_wkb_schema (poGeomFieldDefn : OGRGeomFieldDefn)
    (pszArrowFormat pszExtensionName : string) : ArrowSchemaChild :=
  mkSchemaChild (gfd_name poGeomFieldDefn) pszArrowFormat true false.

(** ** Timestamps *)

(** [arrow::TimeUnit::type]. *)
Inductive TimeUnit : Set := SECOND | MILLI | MICRO | NANO.

(** [struct tm], the fields read by the layer. *)
Record tm : Set := mk_tm {
  tm_year : Z; tm_mon : Z; tm_mday : Z;
  tm_hour : Z; tm_min : Z; tm_sec : Z
}.

(** The [Date] member of [OGRField] (ogr_core.h); [Second] is a
    [float]. *)
Record OGRFieldDate : Set := mkFieldDate {
  Date_Year : Z; Date_Month : Z; Date_Day : Z;
  Date_Hour : Z; Date_Minute : Z; Date_TZFlag : Z;
  Date_Second : Q
}.

(** [OGR_TZFLAG_MIXED_TZ] (ogr_core.h). *)
Definition OGR_TZFLAG_MIXED_TZ : Z := 2.

(** The number of units of a timestamp in a second. *)
Definition units_per_second (unit : TimeUnit) : Z :=
  match unit with
  | SECOND => 1
  | MILLI => 1000
  | MICRO => 1000 * 1000
  | NANO => 1000 * 1000 * 1000
  end.

Section Timestamps.

(** [CPLUnixTimeToYMDHMS] (cpl_time.h) is outside src/. *)
Variable CPLUnixTimeToYMDHMS : Z → tm.

(** [OGRArrowLayer::TimestampToOGR].  The C++ operators [/] and [%] on
    integers truncate toward zero ([Z.quot], [Z.rem]); the division by
    [1e3], [1e6] or [1e9] and the sum of the seconds are operations on
    [double], rounded to 53 bits, and [static_cast<float>] rounds to 24
    bits; the casts to [GInt16] and [GByte] wrap; the sums on [int64_t]
    are taken not to overflow. *)
Definition TimestampToOGR (timestamp : Z) (unit : TimeUnit) (nTZFlag : Z)
  : OGRFieldDate :=
  let '(floatingPart, timestamp) :=
    match unit with
    | MILLI =>
        (round_binary 53 (inject_Z (Z.rem timestamp 1000) / 1000),
         Z.quot timestamp 1000)
    | MICRO =>
        (round_binary 53
           (inject_Z (Z.rem timestamp (1000 * 1000)) / 1000000),
         Z.quot timestamp (1000 * 1000))
    | NANO =>
        (round_binary 53
           (inject_Z (Z.rem timestamp (1000 * 1000 * 1000)) / 1000000000),
         Z.quot timestamp (1000 * 1000 * 1000))
    | SECOND => (0%Q, timestamp)
    end in
  let timestamp :=
    if nTZFlag >? OGR_TZFLAG_MIXED_TZ then
      let TZOffset := (nTZFlag - OGR_TZFLAG_UTC) * 15 in
      timestamp + TZOffset * 60
    else timestamp in
  let dt := CPLUnixTimeToYMDHMS timestamp in
  mkFieldDate (wrap 16 (tm_year dt + 1900)) ((tm_mon dt + 1) mod 256)
    (tm_mday dt mod 256) (tm_hour dt mod 256) (tm_min dt mod 256)
    (nTZFlag mod 256)
    (round_binary 24 (round_binary 53 (inject_Z (tm_sec dt) + floatingPart))).

End Timestamps.

(** A stand-in for [CPLUnixTimeToYMDHMS] that only fills the seconds. *)
Definition seconds_only (t : Z) : tm := mk_tm 70 0 1 0 0 (t mod 60).

(** ** Rows kept by the spatial filter, WKB encoding *)

(** The arrays [SetBatch] caches for the spatial filter. *)
Definition cached_arrays (c : Cursor)
  : option Array * option Array * option Array * option Array
    * option Array * option Array * option Array :=
  (m_poArrayWKB c, m_poArrayWKBLarge c, m_poArrayBBOX c, m_poArrayMinX c,
   m_poArrayMinY c, m_poArrayMaxX c, m_poArrayMaxY c).

(** The cached arrays of the cursor are those [SetBatch] installs for its
    batch under the filters [F]: the state every call of [SetBatch]
    leaves, until the filters change. *)
Definition cache_ok (L : LayerDefn) (F : Filters) (c : Cursor) : Prop :=
  cached_arrays c = cached_arrays (SetBatch L F c (m_poBatch c)).

(** The exit test of the WKB row loop of [GetNextRawFeature] on the row
    [r], with the arrays [SetBatch] caches for the columns of the row. *)
Definition row_kept_WKB (core : OGRCore) (L : LayerDefn) (F : Filters)
    (r : Row) : bool :=
  breaks_WKB core L F
    (SetBatch L F (cursor_on r) (Some (mkBatch 0 r.2))).

(* END OF PART I *)

(* ===================================================================== *)
(** * Part II: properties *)
(* ===================================================================== *)

(** ** Geometry Encoding Classifier *)

Example IsPointType_xyz :
  IsPointType (TFixedSizeList "xyz" (TPrim DOUBLE) 3) false false
  = (true, true, false).
Proof. reflexivity. Qed.

Example IsPointType_xym :
  IsPointType (TFixedSizeList "xym" (TPrim DOUBLE) 3) false false
  = (true, false, true).
Proof. reflexivity. Qed.

Example IsPointType_five :
  IsPointType (TFixedSizeList "xy" (TPrim DOUBLE) 5) true true
  = (false, true, true).
Proof. reflexivity. Qed.

Lemma IsPointType_dim3_other (vname : string) (z m : bool) :
  vname ≠ "xyz" → vname ≠ "xym" →
  IsPointType (TFixedSizeList vname (TPrim DOUBLE) 3) z m = (true, z, m).
Proof.
  intros Hz Hm. unfold IsPointType. cbn [Z.eqb Pos.eqb].
  apply String.eqb_neq in Hz, Hm. rewrite Hz, Hm. reflexivity.
Qed.

(** C10.  A fixed-size list of 3 doubles whose value field is named
    neither "xyz" nor "xym" is accepted by the point-shape classifier; the
    has-Z / has-M outputs keep the value the caller initialised them with,
    and since [IsValidGeometryEncoding] initialises both to false, a
    "geoarrow.point" field of that shape is classified as a plain 2D point
    ([wkbPoint], no Z, no M) with encoding [GEOARROW_POINT], without any
    diagnostic. *)
Theorem C10_point3_unnamed_is_2D
    (vname fname : string) (nul : bool) (z m : bool)
    (eEncIn : OGRArrowGeomEncoding) :
  vname ≠ "xyz" → vname ≠ "xym" →
  let t := TFixedSizeList vname (TPrim DOUBLE) 3 in
  IsPointType t z m = (true, z, m)
  ∧ IsValidGeometryEncoding (mkField fname t nul) "geoarrow.point" eEncIn
    = mkEncodingCheck true (mkGT wkbPoint false false) GEOARROW_POINT [].
Proof.
  intros Hz Hm t. split.
  - apply IsPointType_dim3_other; assumption.
  - unfold IsValidGeometryEncoding. cbn -[IsPointType].
    unfold t. rewrite IsPointType_dim3_other by assumption. reflexivity.
Qed.

Lemma C10_point3_unnamed_is_2D_witness :
  IsPointType (TFixedSizeList "xyw" (TPrim DOUBLE) 3) false false
  = (true, false, false)
  ∧ IsValidGeometryEncoding
      (mkField "geometry" (TFixedSizeList "xyw" (TPrim DOUBLE) 3) true)
      "geoarrow.point" WKB
    = mkEncodingCheck true (mkGT wkbPoint false false) GEOARROW_POINT [].
Proof.
  apply (C10_point3_unnamed_is_2D "xyw" "geometry" true false false WKB);
    discriminate.
Defined.

(** ** Type Mapper *)

Section TypeMapperProperties.

Variable tzflag : string → bool → Z.






End TypeMapperProperties.



(** ** Predicate Compiler *)

Lemma CompareGeneric_holds {A B : Type} (cmp : A → B → comparison)
    (op : swq_op) (a : A) (b : B) :
  IsComparisonOp op = true →
  comparison_holds op (cmp a b) = Some (CompareGeneric cmp op a b).
Proof.
  destruct op; try discriminate; intros _; cbn; destruct (cmp a b);
    reflexivity.
Qed.

Lemma CompareGeneric_double_holds (op : swq_op) (a b : CxxDouble) :
  IsComparisonOp op = true →
  ordering_holds op (ordering_of (double_compare a b))
  = Some (CompareGeneric_double op a b).
Proof.
  destruct op; try discriminate; intros _; unfold CompareGeneric_double;
    destruct (double_compare a b) as [[]|]; reflexivity.
Qed.

Lemma comparison_holds_mirrored (op : swq_op) (r : comparison) :
  comparison_holds op (CompOpp r) = comparison_holds (mirrored op) r.
Proof. destruct op, r; reflexivity. Qed.

(** Swapping two doubles reverses their order; unordered operands stay
    unordered. *)
Lemma double_compare_antisym (a b : CxxDouble) :
  double_compare b a = CompOpp <$> double_compare a b.
Proof.
  destruct a as [x|[]|], b as [y|[]|]; cbn; try reflexivity.
  rewrite <- (Qcompare_antisym x y). reflexivity.
Qed.

Lemma ordering_holds_swap (op : swq_op) (a b : CxxDouble) :
  ordering_holds op (ordering_of (double_compare a b))
  = ordering_holds (mirrored op) (ordering_of (double_compare b a)).
Proof.
  rewrite (double_compare_antisym a b).
  destruct (double_compare a b) as [r|]; cbn.
  - rewrite <- comparison_holds_mirrored.
    destruct r; reflexivity.
  - destruct op; reflexivity.
Qed.

Lemma reverse_operator_mirrored (op : swq_op) :
  reverse_operator op = mirrored op.
Proof. destruct op; reflexivity. Qed.

Lemma mirrored_comparison (op : swq_op) :
  IsComparisonOp (mirrored op) = IsComparisonOp op.
Proof. destruct op; reflexivity. Qed.

Lemma Ascii_compare_refl (a : Ascii.ascii) : Ascii.compare a a = Eq.
Proof. unfold Ascii.compare. apply N.compare_refl. Qed.

Lemma String_compare_refl (x : string) : String.compare x x = Eq.
Proof.
  induction x as [|a x IH]; cbn; [reflexivity|].
  rewrite Ascii_compare_refl. exact IH.
Qed.

Lemma String_eqb_compare (x y : string) :
  String.eqb x y = match String.compare x y with Eq => true | _ => false end.
Proof.
  destruct (String.eqb_spec x y) as [->|Hne].
  - rewrite String_compare_refl. reflexivity.
  - destruct (String.compare x y) eqn:Hc; try reflexivity.
    apply String.compare_eq_iff in Hc. contradiction.
Qed.

(** [CompareStr (op, val1, val2)] is [val1 op val2] on strings. *)
Lemma CompareStr_holds (op : swq_op) (val1 val2 : string) :
  IsComparisonOp op = true →
  comparison_holds op (String.compare val1 val2)
  = Some (CompareStr op val1 val2).
Proof.
  intros Hop. unfold CompareStr.
  rewrite (String.compare_antisym val2 val1), String_eqb_compare.
  destruct op; try discriminate; cbn;
    destruct (String.compare val1 val2); reflexivity.
Qed.

Section PredicateCompilerProperties.

Variable core : OGRCore.

(** Where the compiler looks up the field of a valid column reference. *)
Lemma referenced_field_lookup (fields : list OGRFieldDefn) (fid : string)
    (idx : Z) (fd : OGRFieldDefn) :
  0 ≤ idx →
  referenced_field fields fid idx = Some fd →
  ((idx <? Z.of_nat (length fields))
   || (idx =? Z.of_nat (length fields) + SPF_FID)) = true
  ∧ (if idx =? Z.of_nat (length fields) + SPF_FID
     then new_OGRFieldDefn (c_str fid) OFTInteger64
     else nth (Z.to_nat idx) fields (new_OGRFieldDefn "" OFTString)) = fd.
Proof.
  intros Hpos. unfold referenced_field.
  destruct (idx =? Z.of_nat (length fields) + SPF_FID) eqn:Hfid.
  - intros [= <-]. rewrite orb_true_r. auto.
  - destruct (0 <=? idx) eqn:Hle; [|discriminate]. intros Hl.
    split.
    + apply lookup_lt_Some in Hl. rewrite orb_false_r.
      apply Z.ltb_lt. lia.
    + apply nth_lookup_Some with (d := new_OGRFieldDefn "" OFTString) in Hl.
      exact Hl.
Qed.

Lemma referenced_field_none (fields : list OGRFieldDefn) (fid : string)
    (idx : Z) :
  0 ≤ idx →
  referenced_field fields fid idx = None →
  ((idx <? Z.of_nat (length fields))
   || (idx =? Z.of_nat (length fields) + SPF_FID)) = false.
Proof.
  intros Hpos. unfold referenced_field.
  destruct (idx =? Z.of_nat (length fields) + SPF_FID) eqn:Hfid;
    [discriminate|].
  destruct (0 <=? idx) eqn:Hle; [|apply Z.leb_gt in Hle; lia].
  intros Hl. apply lookup_ge_None in Hl. rewrite orb_false_r.
  apply Z.ltb_ge. lia.
Qed.

(** The compiler on a comparison node with one column and one constant:
    the coerced constraint with the operator kept or reversed, or
    nothing. *)
Lemma ExploreExprNode_comparison (fields : list OGRFieldDefn) (fid : string)
    (op : swq_op) (pos idx : Z) (ft : swq_field_type) (iv : Z) (fv : Q)
    (sv : string) :
  IsComparisonOp op = true →
  let lit := SNT_CONSTANT ft iv fv sv in
  ExploreExprNode core fields fid (comparison_node op pos idx lit)
  = if (idx <? Z.of_nat (length fields))
       || (idx =? Z.of_nat (length fields) + SPF_FID) then
      match FillTargetValueFromSrcExpr core
              (if idx =? Z.of_nat (length fields) + SPF_FID
               then new_OGRFieldDefn (c_str fid) OFTInteger64
               else nth (Z.to_nat idx) fields (new_OGRFieldDefn "" OFTString))
              (new_Constraint idx op) lit with
      | Some c =>
          [mkConstraint (iField c) (iArrayIdx c)
             (if pos =? 0 then op else reverse_operator op) (eType c)
             (sValue_Integer c) (sValue_Integer64 c) (sValue_Real c)
             (sValue_String c) (osValue c)]
      | None => []
      end
    else [].
Proof.
  intros Hop lit. unfold comparison_node.
  destruct (pos =? 0); destruct op; try discriminate; reflexivity.
Qed.


(** Evaluating a numeric constraint is the comparison of the column value
    with the coerced literal, operands as stored. *)
Lemma ConstraintEvaluator_holds (c : Constraint) (v : CxxValue) :
  IsComparisonOp (nOperation c) = true →
  eType c ≠ CT_String →
  Some (ConstraintEvaluator core c v)
  = sql_holds (nOperation c) (sql_of_value v) (constraint_literal c).
Proof.
  intros Hop Hty. unfold ConstraintEvaluator, sql_holds, constraint_literal.
  destruct (eType c); try contradiction; destruct v; cbn;
    symmetry;
    first [apply CompareGeneric_holds; assumption
          |apply CompareGeneric_double_holds; assumption].
Qed.

Lemma ConstraintEvaluator_str_holds (c : Constraint) (value : string) :
  IsComparisonOp (nOperation c) = true →
  eType c = CT_String →
  osValue c = sValue_String c →
  Some (ConstraintEvaluator_str c value)
  = sql_holds (nOperation c) (SqlString value) (constraint_literal c).
Proof.
  intros Hop Hty Hos. unfold ConstraintEvaluator_str, sql_holds,
    constraint_literal. rewrite Hty, Hos. cbn. symmetry.
  apply CompareStr_holds; assumption.
Qed.

(** Swapping the operands of a comparison mirrors its operator. *)
Lemma sql_holds_swap (op : swq_op) (a b : SqlValue) :
  sql_holds op a b = sql_holds (mirrored op) b a.
Proof.
  unfold sql_holds, sql_compare.
  destruct a as [x|x|x], b as [y|y|y]; try reflexivity;
    try apply ordering_holds_swap.
  - cbn. rewrite (Z.compare_antisym y x). apply comparison_holds_mirrored.
  - cbn. rewrite (String.compare_antisym x y).
    apply comparison_holds_mirrored.
Qed.

Lemma mirrored_involutive (op : swq_op) : mirrored (mirrored op) = op.
Proof. destruct op; reflexivity. Qed.


(** C6 (as amended).  When the compiler visits a binary comparison node
    with a plain column on one side and a constant on the other, it emits
    exactly one Constraint if the column designates a regular field or
    the identifier pseudo-field whose type is integer, 64-bit integer,
    real or string, and none otherwise.  The Constraint holds the constant
    of the node coerced to the type of the field.  It keeps the operator
    when the column is the left operand and holds the mirrored operator
    (LE with GE, LT with GT, = and <> unchanged) when it is the right
    operand, so that evaluating it against the column value (with the
    numeric evaluator on a field that is not a string, with the
    string-view evaluator on a string field) is the comparison of the node
    taken with the coerced constant. *)
Theorem C6_comparison_node_pushdown (fields : list OGRFieldDefn)
    (fid : string) (op : swq_op) (pos idx : Z) (ft : swq_field_type)
    (iv : Z) (fv : Q) (sv : string) :
  IsComparisonOp op = true →
  0 ≤ idx →
  let lit := SNT_CONSTANT ft iv fv sv in
  let emitted :=
    ExploreExprNode core fields fid (comparison_node op pos idx lit) in
  match referenced_field fields fid idx with
  | Some fd =>
      if is_pushable_type (GetType fd) then
        ∃ c coerced,
          emitted = [c]
          ∧ iField c = idx
          ∧ nOperation c = (if pos =? 0 then op else mirrored op)
          ∧ coerced_literal (GetType fd) lit = Some coerced
          ∧ constraint_literal c = coerced
          ∧ (GetType fd ≠ OFTString →
             ∀ v, Some (ConstraintEvaluator core c v)
                  = node_holds op pos (sql_of_value v) coerced)
          ∧ (GetType fd = OFTString →
             ∀ value, Some (ConstraintEvaluator_str c value)
                      = node_holds op pos (SqlString value) coerced)
      else emitted = []
  | None => emitted = []
  end.
Proof.
  intros Hop Hidx lit emitted. subst emitted lit.
  rewrite ExploreExprNode_comparison by assumption.
  destruct (referenced_field fields fid idx) as [fd|] eqn:Href.
  - destruct (referenced_field_lookup _ _ _ _ Hidx Href) as [-> ->].
    assert (Hop' : IsComparisonOp (if pos =? 0 then op else mirrored op)
                   = true).
    { destruct (pos =? 0); [|rewrite mirrored_comparison]; assumption. }
    assert (Hswap : ∀ a b,
               sql_holds (if pos =? 0 then op else mirrored op) a b
               = node_holds op pos a b).
    { intros a b. unfold node_holds. destruct (pos =? 0); [reflexivity|].
      symmetry. apply sql_holds_swap. }
    rewrite reverse_operator_mirrored.
    unfold FillTargetValueFromSrcExpr, coerced_literal.
    destruct (GetType fd) eqn:Hfd;
      cbn -[ConstraintEvaluator ConstraintEvaluator_str];
      try reflexivity;
      (eexists; eexists; split; [reflexivity|];
       split; [reflexivity|]; split; [reflexivity|];
       split; [reflexivity|]; split; [reflexivity|]; split;
       [ intros Hty v;
         first [ exfalso; apply Hty; reflexivity
               | rewrite <- Hswap; apply ConstraintEvaluator_holds;
                 [exact Hop'|discriminate] ]
       | intros Hty value;
         first [ discriminate Hty
               | rewrite <- Hswap; apply ConstraintEvaluator_str_holds;
                 [exact Hop'|reflexivity|reflexivity] ] ]).
  - rewrite (referenced_field_none _ _ _ Hidx Href). reflexivity.
Qed.

End PredicateCompilerProperties.

(** The compiler descends through conjunctions and through nothing
    else. *)
Lemma ExploreExprNode_and (core : OGRCore) (fields : list OGRFieldDefn)
    (fid : string) (a b : swq_expr_node) :
  ExploreExprNode core fields fid (SNT_OPERATION SWQ_AND [a; b])
  = ExploreExprNode core fields fid a ++ ExploreExprNode core fields fid b.
Proof. reflexivity. Qed.

Lemma ExploreExprNode_or (core : OGRCore) (fields : list OGRFieldDefn)
    (fid : string) (subs : list swq_expr_node) :
  ExploreExprNode core fields fid (SNT_OPERATION SWQ_OR subs) = [].
Proof. destruct subs as [|a [|b [|c subs]]]; reflexivity. Qed.

Lemma C6_comparison_node_pushdown_witness :
  IsComparisonOp SWQ_LE = true
  ∧ 0 ≤ 0
  ∧ ∃ c, ExploreExprNode scenario_core [new_OGRFieldDefn "n" OFTInteger] ""
           (comparison_node SWQ_LE 1 0 (SNT_CONSTANT SWQ_INTEGER 5 0 ""))
         = [c]
         ∧ nOperation c = SWQ_GE
         ∧ constraint_literal c = SqlInt 5
         ∧ ConstraintEvaluator scenario_core c (V_int 7) = true
         ∧ ConstraintEvaluator scenario_core c (V_int 4) = false.
Proof.
  split; [reflexivity|]. split; [lia|].
  pose proof (C6_comparison_node_pushdown scenario_core
                [new_OGRFieldDefn "n" OFTInteger] "" SWQ_LE 1 0
                SWQ_INTEGER 5 0 "" eq_refl ltac:(lia)) as H.
  cbn in H. destruct H as (c & coerced & Hc & _ & Hop & Hco & Hlit & _).
  exists c. split; [exact Hc|]. split; [exact Hop|].
  injection Hc as <-. repeat split; reflexivity.
Defined.

(** C6, counterexample.  (1) [d = '2020/01/01'] on a date field: one
    operand is a column, the other a constant, and no Constraint is
    emitted.  (2) [n < 2.5] on an integer field: the Constraint emitted
    rejects the value 2, which the comparison as written accepts.
    (3) The comparisons under an OR are not compiled. *)
Lemma C6_counterexample :
  ExploreExprNode scenario_core [new_OGRFieldDefn "d" OFTDate] ""
    (comparison_node SWQ_EQ 0 0 (SNT_CONSTANT SWQ_STRING 0 0 "2020/01/01"))
  = []
  ∧ (let lit := SNT_CONSTANT SWQ_FLOAT 0 (5 # 2) "" in
     ∃ c, ExploreExprNode scenario_core [new_OGRFieldDefn "n" OFTInteger] ""
            (comparison_node SWQ_LT 0 0 lit) = [c]
          ∧ ConstraintEvaluator scenario_core c (V_int 2) = false
          ∧ (literal_value lit ≫= node_holds SWQ_LT 0 (SqlInt 2))
            = Some true)
  ∧ ExploreExprNode scenario_core [new_OGRFieldDefn "n" OFTInteger] ""
      (SNT_OPERATION SWQ_OR
         [comparison_node SWQ_EQ 0 0 (SNT_CONSTANT SWQ_INTEGER 1 0 "");
          comparison_node SWQ_EQ 0 0 (SNT_CONSTANT SWQ_INTEGER 2 0 "")])
    = [].
Proof.
  split; [reflexivity|]. split; [|reflexivity].
  cbv zeta. eexists. split; [reflexivity|]. split; reflexivity.
Qed.

(** ** WKT to WKB re-encoding *)

Section WKTToWKBProperties.

Variable malloc_ok : Z → bool.
Variable TranslateWKT_chunks :
  list Byte.byte → bool → option (list (list Byte.byte)).

Lemma size_t_small (z : Z) : 0 ≤ z < 2 ^ 64 → size_t z = z.
Proof. intros H. unfold size_t. apply Z.mod_small. exact H. Qed.

(** [Grow] fails exactly when the item would push the total past the cap
    or the allocation fails; otherwise the new capacity is the doubled
    capacity capped at the maximum, or the size needed if that is more. *)
Lemma Grow_spec (b : OGRAppendBuffer) (nItemSize : Z) :
  buffer_ok b → 0 ≤ nItemSize →
  Grow malloc_ok b nItemSize
  = if MAX_SIZE_SINT32 <? m_nSize b + nItemSize then inl TooLargeWKTContent
    else
      let nNewCapacity :=
        Z.max (m_nSize b + nItemSize)
              (Z.min MAX_SIZE_SINT32 (2 * m_nCapacity b)) in
      if malloc_ok nNewCapacity
      then inr (mkAppendBuffer nNewCapacity (m_nSize b) (m_pRawBuffer b))
      else inl AllocationFailed.
Proof.
  unfold buffer_ok, MAX_SIZE_SINT32. intros (Hs & Hsc & Hc & _) Hn.
  unfold Grow, MAX_SIZE_SINT32.
  rewrite (size_t_small (2147483647 - m_nSize b)) by lia.
  destruct (2147483647 <? m_nSize b + nItemSize) eqn:Hbig.
  - apply Z.ltb_lt in Hbig.
    destruct (Z.gtb_spec nItemSize (2147483647 - m_nSize b)); [|lia].
    reflexivity.
  - apply Z.ltb_ge in Hbig.
    destruct (Z.gtb_spec nItemSize (2147483647 - m_nSize b)); [lia|].
    rewrite (size_t_small (m_nSize b + nItemSize)) by lia.
    rewrite (size_t_small (2 * m_nCapacity b)) by lia.
    cbv zeta.
    destruct (m_nSize b + nItemSize <? Z.min 2147483647 (2 * m_nCapacity b))
      eqn:Hlt.
    + apply Z.ltb_lt in Hlt. rewrite Z.max_r by lia.
      destruct (malloc_ok _); reflexivity.
    + apply Z.ltb_ge in Hlt. rewrite Z.max_l by lia.
      destruct (malloc_ok _); reflexivity.
Qed.

(** An append keeps the invariant; it fails with "Too large WKT content"
    exactly when the total would exceed the cap. *)
Lemma append_bytes_spec (b : OGRAppendBuffer) (item : list Byte.byte) :
  buffer_ok b →
  match append_bytes malloc_ok b item with
  | inr b' =>
      buffer_ok b'
      ∧ m_nSize b' = m_nSize b + Z.of_nat (length item)
      ∧ m_pRawBuffer b' = m_pRawBuffer b ++ item
  | inl TooLargeWKTContent =>
      MAX_SIZE_SINT32 < m_nSize b + Z.of_nat (length item)
  | inl AllocationFailed =>
      m_nSize b + Z.of_nat (length item) ≤ MAX_SIZE_SINT32
      ∧ m_nCapacity b < m_nSize b + Z.of_nat (length item)
  | inl InvalidWKT => False
  end.
Proof.
  intros Hok. pose proof Hok as (Hs & Hsc & Hc & Hlen).
  unfold append_bytes. set (n := Z.of_nat (length item)).
  assert (Hn : 0 ≤ n) by (subst n; lia).
  unfold MAX_SIZE_SINT32 in *.
  rewrite (size_t_small (m_nCapacity b - m_nSize b)) by lia.
  destruct (Z.gtb_spec n (m_nCapacity b - m_nSize b)) as [Hgt|Hle].
  - rewrite (Grow_spec b n Hok Hn). unfold MAX_SIZE_SINT32.
    destruct (2147483647 <? m_nSize b + n) eqn:Hbig.
    + apply Z.ltb_lt in Hbig. exact Hbig.
    + apply Z.ltb_ge in Hbig. cbv zeta.
      destruct (malloc_ok _) eqn:Hm; [|lia].
      cbn. rewrite (size_t_small (m_nSize b + n)) by lia.
      unfold buffer_ok, MAX_SIZE_SINT32. cbn. rewrite length_app.
      repeat split; lia.
  - cbn. rewrite (size_t_small (m_nSize b + n)) by lia.
    unfold buffer_ok, MAX_SIZE_SINT32. cbn. rewrite length_app.
    repeat split; lia.
Qed.

Lemma append_chunks_spec (chunks : list (list Byte.byte))
    (b : OGRAppendBuffer) :
  buffer_ok b →
  match append_chunks malloc_ok b chunks with
  | inr b' =>
      buffer_ok b' ∧ m_pRawBuffer b' = m_pRawBuffer b ++ concat chunks
  | inl InvalidWKT => False
  | inl _ => True
  end.
Proof.
  revert b. induction chunks as [|item chunks IH]; intros b Hok; cbn.
  - rewrite app_nil_r. auto.
  - pose proof (append_bytes_spec b item Hok) as Ha.
    destruct (append_bytes malloc_ok b item) as [[]|b1]; auto.
    destruct Ha as (Hok1 & _ & Hc1).
    specialize (IH b1 Hok1).
    destruct (append_chunks malloc_ok b1 chunks) as [[]|b2]; auto.
    destruct IH as (Hok2 & Hc2). split; [exact Hok2|].
    rewrite Hc2, Hc1, <- app_assoc. reflexivity.
Qed.

Lemma GetSize_in_range (b : OGRAppendBuffer) :
  buffer_ok b →
  GetSize b mod 2 ^ 32 = m_nSize b ∧ 0 ≤ m_nSize b ≤ MAX_SIZE_SINT32.
Proof.
  unfold buffer_ok, GetSize, MAX_SIZE_SINT32. intros (Hs & Hsc & Hc & _).
  split; [|lia]. apply Z.mod_small. lia.
Qed.

(** The row loop: on success the buffer is still within bounds, every
    offset written is within bounds, and the bytes appended are the
    complete translation of the rows. *)
Lemma translate_rows_spec (targetNull : option (list Z))
    (sourceOffsets : list Z) (sourceBytes : list Byte.byte) (nLength : Z)
    (rows : list Z) (targetOffsets : list Z) (b : OGRAppendBuffer) :
  buffer_ok b → offsets_in_range targetOffsets →
  match translate_rows malloc_ok TranslateWKT_chunks targetNull sourceOffsets
          sourceBytes nLength rows targetOffsets b with
  | inr (targetOffsets', b') =>
      buffer_ok b' ∧ offsets_in_range targetOffsets'
      ∧ length targetOffsets' = (length targetOffsets + length rows)%nat
      ∧ ∃ bytes,
          complete_translation TranslateWKT_chunks targetNull sourceOffsets
            sourceBytes nLength rows = Some bytes
          ∧ m_pRawBuffer b' = m_pRawBuffer b ++ bytes
  | inl _ => True
  end.
Proof.
  revert targetOffsets b.
  induction rows as [|i rows IH]; intros targetOffsets b Hok Hoffs; cbn.
  - split; [exact Hok|]. split; [exact Hoffs|]. split; [lia|].
    exists []. rewrite app_nil_r. auto.
  - assert (Hoffs' : offsets_in_range
                       (targetOffsets ++ [GetSize b mod 2 ^ 32])).
    { apply Forall_app. split; [exact Hoffs|]. constructor; [|constructor].
      destruct (GetSize_in_range b Hok) as [-> H]. exact H. }
    unfold bitmap_bit.
    destruct (match targetNull with
              | Some bits =>
                  negb (Z.testbit (nth (Z.to_nat (i / 8)) bits 0) (i mod 8))
              | None => false
              end).
    + specialize (IH _ b Hok Hoffs').
      destruct (translate_rows _ _ _ _ _ _ _ _ _) as [e|[offs' b']];
        [exact I|].
      destruct IH as (Hok' & Ho' & Hl' & bytes & Hb & Hc).
      split; [exact Hok'|]. split; [exact Ho'|].
      split; [rewrite Hl', length_app; cbn; lia|].
      exists bytes. auto.
    + unfold TranslateWKT, source_cell.
      destruct (TranslateWKT_chunks _ _) as [chunks|]; [|exact I].
      pose proof (append_chunks_spec chunks b Hok) as Ha.
      destruct (append_chunks malloc_ok b chunks) as [e|b1]; [exact I|].
      destruct Ha as (Hok1 & Hc1).
      specialize (IH _ b1 Hok1 Hoffs').
      destruct (translate_rows _ _ _ _ _ _ _ _ _) as [e|[offs' b']];
        [exact I|].
      destruct IH as (Hok' & Ho' & Hl' & bytes & Hb & Hc).
      split; [exact Hok'|]. split; [exact Ho'|].
      split; [rewrite Hl', length_app; cbn; lia|].
      exists (concat chunks ++ bytes). rewrite Hb.
      split; [reflexivity|]. rewrite Hc, Hc1, <- app_assoc. reflexivity.
Qed.

Lemma initial_capacity_in_range (nLength : Z) :
  0 ≤ initial_capacity nLength ≤ MAX_SIZE_SINT32.
Proof.
  unfold initial_capacity, size_t, INT_MAX, MAX_SIZE_SINT32.
  pose proof (Z.mod_pos_bound (100 * nLength) (2 ^ 64) ltac:(lia)).
  rewrite Z.mod_small; lia.
Qed.

(** The build of a WKB array: when it returns an array, the buffer never
    left its bounds, all offsets are within bounds and the data is the
    complete translation of all the rows. *)
Lemma CreateWKBArrayFromWKTArray_spec (sourceArray : ArrowArray) :
  match CreateWKBArrayFromWKTArray malloc_ok TranslateWKT_chunks
          sourceArray with
  | inr (targetArray, b) =>
      let nLength := size_t (aa_length sourceArray) in
      buffer_ok b
      ∧ aa_length targetArray = nLength
      ∧ offsets_in_range (aa_offsets targetArray)
      ∧ aa_data targetArray = m_pRawBuffer b
      ∧ complete_translation TranslateWKT_chunks (aa_validity targetArray)
          (drop (Z.to_nat (size_t (aa_offset sourceArray)))
                (aa_offsets sourceArray))
          (aa_data sourceArray) nLength (seqZ 0 nLength)
        = Some (aa_data targetArray)
  | inl _ => True
  end.
Proof.
  unfold CreateWKBArrayFromWKTArray.
  set (nLength := size_t (aa_length sourceArray)).
  match goal with
  | |- context [translate_rows _ _ ?tn] => set (targetNull := tn)
  end.
  destruct (_ || _ || _); [exact I|].
  assert (Hok0 : buffer_ok (mkAppendBuffer (initial_capacity nLength) 0 [])).
  { pose proof (initial_capacity_in_range nLength).
    unfold buffer_ok; cbn. lia. }
  pose proof (translate_rows_spec targetNull
                (drop (Z.to_nat (size_t (aa_offset sourceArray)))
                      (aa_offsets sourceArray))
                (aa_data sourceArray) nLength (seqZ 0 nLength) [] _ Hok0
                ltac:(constructor)) as H.
  destruct (translate_rows _ _ _ _ _ _ _ _ _) as [e|[offs b]]; [exact I|].
  destruct H as (Hok & Hoffs & _ & bytes & Hb & Hc).
  cbn in Hc. subst bytes. cbn.
  split; [exact Hok|]. split; [reflexivity|].
  split; [|split; [reflexivity|exact Hb]].
  apply Forall_app. split; [exact Hoffs|].
  constructor; [|constructor].
  destruct (GetSize_in_range b Hok) as [-> H]. exact H.
Qed.

End WKTToWKBProperties.

(** ** Zero-Copy Exporter *)

Section ExportProperties.

Variable malloc_ok : Z → bool.
Variable TranslateWKT_chunks :
  list Byte.byte → bool → option (list (list Byte.byte)).
Variable ExportRecordBatch : RecordBatch → option ArrowArray.
Variable PostFilterArrowArray : Filters → option Z → ArrowArray → ArrowArray.
Variable L : LayerDefn.
Variable bGeometryEncodingWKB : bool.

(** A failed build of any WKB column aborts the re-encoding of the
    batch. *)
Lemma reencode_geometries_abort (pre rest : list Z) (i : Z)
    (out_array mid : ArrowArray) (e : BuildError) :
  reencode_geometries malloc_ok TranslateWKT_chunks L pre out_array
  = Some mid →
  gfd_ignored (GetGeomFieldDefn L i) = false →
  GeomEncoding L i = WKT →
  CreateWKBArrayFromWKTArray malloc_ok TranslateWKT_chunks
    (nth (Z.to_nat (geom_column L i)) (aa_children mid) empty_ArrowArray)
  = inl e →
  reencode_geometries malloc_ok TranslateWKT_chunks L (pre ++ i :: rest)
    out_array = None.
Proof.
  intros Hpre Hign Henc Hfail. revert out_array Hpre.
  induction pre as [|j pre IH]; intros out_array Hpre; cbn in *.
  - assert (out_array = mid) as -> by congruence.
    rewrite Hign, Henc. cbn.
    rewrite bool_decide_true by reflexivity. rewrite Hfail. reflexivity.
  - destruct (negb (gfd_ignored (GetGeomFieldDefn L j))
              && bool_decide (GeomEncoding L j = WKT)).
    + match type of Hpre with
      | match ?x with _ => _ end = _ => destruct x as [?|[t ?]]
      end; [discriminate|]. apply IH. exact Hpre.
    + apply IH. exact Hpre.
Qed.

(** When the re-encoding of the exported batch fails, the stream call
    returns ENOMEM, with the output array released and zeroed. *)
Lemma GetNextArrowArray_loop_ENOMEM (F : Filters) (fuel : nat) (c : Cursor)
    (batch : RecordBatch) (out_array : ArrowArray) :
  m_bEOF c = false →
  m_poBatch c = Some batch →
  m_nIdxInBatch c ≠ num_rows batch →
  ExportRecordBatch batch = Some out_array →
  bGeometryEncodingWKB = true →
  reencode_geometries malloc_ok TranslateWKT_chunks L
    (seqZ 0 (GetGeomFieldCount L)) out_array = None →
  GetNextArrowArray_loop malloc_ok TranslateWKT_chunks ExportRecordBatch
    PostFilterArrowArray L bGeometryEncodingWKB F (S fuel) c
  = Ret_ENOMEM (with_position c false (m_nFeatureIdx c) (num_rows batch)
                  (m_iRecordBatch c)).
Proof.
  intros Heof Hb Hidx Hexp Hwkb Hre. cbn [GetNextArrowArray_loop].
  rewrite Heof. unfold batch_rows. rewrite Hb.
  rewrite bool_decide_true by eauto.
  destruct (Z.eqb_spec (m_nIdxInBatch c) (num_rows batch)); [contradiction|].
  cbn [negb orb]. rewrite Hb. cbn -[reencode_geometries].
  rewrite Hexp, Hwkb, Hre, Heof. reflexivity.
Qed.

(** C9.  During the WKT to WKB re-encoding the append buffer stays within
    2^31 - 1 bytes: (1) [Grow] refuses, with the error "Too large WKT
    content", exactly the items that would push the size past the cap,
    and otherwise allocates the doubled capacity capped at the maximum
    (or the size needed, when that is larger), which never exceeds the
    cap; (2) an append keeps size <= capacity <= 2^31 - 1 and fails with
    that error exactly when the total would exceed the cap; (3) an array
    is returned only after the complete translation of all its rows, with
    the buffer and all offsets within the cap: any failed allocation,
    append or translation makes the build return null; (4) a failed build
    aborts the re-encoding of the batch and (5) the stream call then
    returns ENOMEM with no array. *)
Theorem C9_wkb_buffer_bounded_and_build_aborts :
  (∀ (b : OGRAppendBuffer) (nItemSize : Z),
      buffer_ok b → 0 ≤ nItemSize →
      let nNewCapacity :=
        Z.max (m_nSize b + nItemSize)
              (Z.min MAX_SIZE_SINT32 (2 * m_nCapacity b)) in
      Grow malloc_ok b nItemSize
      = (if MAX_SIZE_SINT32 <? m_nSize b + nItemSize
         then inl TooLargeWKTContent
         else if malloc_ok nNewCapacity
              then inr (mkAppendBuffer nNewCapacity (m_nSize b)
                          (m_pRawBuffer b))
              else inl AllocationFailed)
      ∧ (m_nSize b + nItemSize ≤ MAX_SIZE_SINT32 →
         Z.min MAX_SIZE_SINT32 (2 * m_nCapacity b) ≤ nNewCapacity
         ∧ m_nSize b + nItemSize ≤ nNewCapacity
         ∧ nNewCapacity ≤ MAX_SIZE_SINT32))
  ∧ (∀ (b : OGRAppendBuffer) (item : list Byte.byte),
        buffer_ok b →
        match append_bytes malloc_ok b item with
        | inr b' =>
            buffer_ok b'
            ∧ m_nSize b' = m_nSize b + Z.of_nat (length item)
            ∧ m_pRawBuffer b' = m_pRawBuffer b ++ item
        | inl TooLargeWKTContent =>
            MAX_SIZE_SINT32 < m_nSize b + Z.of_nat (length item)
        | inl AllocationFailed =>
            m_nSize b + Z.of_nat (length item) ≤ MAX_SIZE_SINT32
            ∧ m_nCapacity b < m_nSize b + Z.of_nat (length item)
        | inl InvalidWKT => False
        end)
  ∧ (∀ sourceArray : ArrowArray,
        match CreateWKBArrayFromWKTArray malloc_ok TranslateWKT_chunks
                sourceArray with
        | inr (targetArray, b) =>
            let nLength := size_t (aa_length sourceArray) in
            buffer_ok b
            ∧ aa_length targetArray = nLength
            ∧ offsets_in_range (aa_offsets targetArray)
            ∧ aa_data targetArray = m_pRawBuffer b
            ∧ complete_translation TranslateWKT_chunks
                (aa_validity targetArray)
                (drop (Z.to_nat (size_t (aa_offset sourceArray)))
                      (aa_offsets sourceArray))
                (aa_data sourceArray) nLength (seqZ 0 nLength)
              = Some (aa_data targetArray)
        | inl _ => True
        end)
  ∧ (∀ (pre rest : list Z) (i : Z) (out_array mid : ArrowArray)
       (e : BuildError),
        reencode_geometries malloc_ok TranslateWKT_chunks L pre out_array
        = Some mid →
        gfd_ignored (GetGeomFieldDefn L i) = false →
        GeomEncoding L i = WKT →
        CreateWKBArrayFromWKTArray malloc_ok TranslateWKT_chunks
          (nth (Z.to_nat (geom_column L i)) (aa_children mid)
               empty_ArrowArray) = inl e →
        reencode_geometries malloc_ok TranslateWKT_chunks L
          (pre ++ i :: rest) out_array = None)
  ∧ (∀ (F : Filters) (fuel : nat) (c : Cursor) (batch : RecordBatch)
       (out_array : ArrowArray),
        m_bEOF c = false →
        m_poBatch c = Some batch →
        m_nIdxInBatch c ≠ num_rows batch →
        ExportRecordBatch batch = Some out_array →
        bGeometryEncodingWKB = true →
        reencode_geometries malloc_ok TranslateWKT_chunks L
          (seqZ 0 (GetGeomFieldCount L)) out_array = None →
        GetNextArrowArray_loop malloc_ok TranslateWKT_chunks
          ExportRecordBatch PostFilterArrowArray L bGeometryEncodingWKB F
          (S fuel) c
        = Ret_ENOMEM (with_position c false (m_nFeatureIdx c)
                        (num_rows batch) (m_iRecordBatch c))).
Proof.
  split; [|split; [|split; [|split]]].
  - intros b n Hok Hn nNewCapacity. split.
    + apply Grow_spec; assumption.
    + subst nNewCapacity. lia.
  - apply append_bytes_spec.
  - apply CreateWKBArrayFromWKTArray_spec.
  - apply reencode_geometries_abort.
  - apply GetNextArrowArray_loop_ENOMEM.
Qed.

End ExportProperties.

Lemma C9_wkb_buffer_bounded_and_build_aborts_witness :
  buffer_ok (mkAppendBuffer 4 2 [x00; x01])
  ∧ 0 ≤ 3
  ∧ Grow (λ _, true) (mkAppendBuffer 4 2 [x00; x01]) 3
    = inr (mkAppendBuffer 8 2 [x00; x01])
  ∧ 8 ≤ MAX_SIZE_SINT32.
Proof.
  assert (Hok : buffer_ok (mkAppendBuffer 4 2 [x00; x01]))
    by (unfold buffer_ok, MAX_SIZE_SINT32; cbn; lia).
  assert (Hitem : 0 ≤ 3) by lia.
  split; [exact Hok|]. split; [exact Hitem|].
  destruct (C9_wkb_buffer_bounded_and_build_aborts (λ _, true)
              (λ _ _, None) export_row_count drop_short_arrays
              scenario_layer true) as [HGrow _].
  destruct (HGrow (mkAppendBuffer 4 2 [x00; x01]) 3 Hok Hitem)
    as [Heq Hbound].
  split; [rewrite Heq; reflexivity|].
  apply Hbound. cbn. unfold MAX_SIZE_SINT32. lia.
Defined.

(** ** Geometry Codec *)

(** Induction on geometries, with the hypothesis on all the parts. *)
Lemma OGRGeometry_parts_ind (P : OGRGeometry → Prop) :
  (∀ c z m vs ps, Forall P ps → P (mkGeom c z m vs ps)) →
  ∀ g, P g.
Proof.
  intros H. fix IH 1. intros [c z m vs ps]. apply H.
  induction ps as [|p ps IHps]; constructor; [apply IH|exact IHps].
Qed.

Lemma forallb_map_ext {A : Type} (f g : A → bool) (h : A → A)
    (l : list A) :
  Forall (λ x, f (h x) = g x) l → forallb f (List.map h l) = forallb g l.
Proof.
  induction 1 as [|x l Hx _ IH]; cbn; [reflexivity|]. rewrite Hx, IH.
  reflexivity.
Qed.

Lemma IsEmpty_set3D (b : bool) (g : OGRGeometry) :
  IsEmpty (set3D b g) = IsEmpty g.
Proof.
  induction g as [c z m vs ps IH] using OGRGeometry_parts_ind. cbn.
  destruct vs; [|reflexivity]. apply forallb_map_ext. exact IH.
Qed.

Lemma IsEmpty_setMeasured (b : bool) (g : OGRGeometry) :
  IsEmpty (setMeasured b g) = IsEmpty g.
Proof.
  induction g as [c z m vs ps IH] using OGRGeometry_parts_ind. cbn.
  destruct vs; [|reflexivity]. apply forallb_map_ext. exact IH.
Qed.

Lemma flags_after_set (z m : bool) (g : OGRGeometry) :
  Is3D (setMeasured m (set3D z g)) = z
  ∧ IsMeasured (setMeasured m (set3D z g)) = m
  ∧ IsEmpty (setMeasured m (set3D z g)) = IsEmpty g.
Proof.
  split; [|split].
  - destruct g; reflexivity.
  - destruct g; reflexivity.
  - rewrite IsEmpty_setMeasured, IsEmpty_set3D. reflexivity.
Qed.

Lemma blank_new_geom (c : GeomClass) : blank (new_geom c).
Proof. repeat split. Qed.

(** Adding a blank part to a blank container leaves it blank. *)
Lemma blank_addPartDirectly (this part : OGRGeometry) :
  blank this → blank part → blank (addPartDirectly this part).
Proof.
  intros (Hz & Hm & He) (Hz' & Hm' & He').
  destruct this as [c z m vs ps], part as [c' z' m' vs' ps'].
  cbn in Hz, Hm, Hz', Hm'. subst z m z' m'.
  unfold addPartDirectly, HomogenizeDimensionalityWith. cbn [Is3D IsMeasured
    negb andb].
  set (part := mkGeom c' false false vs' ps') in *.
  repeat split. cbn [IsEmpty] in *. destruct vs; [|discriminate].
  rewrite forallb_app, He. cbn [forallb]. rewrite He'. reflexivity.
Qed.

Lemma blank_fold_parts (f : Z → OGRGeometry) (l : list Z)
    (init : OGRGeometry) :
  blank init → Forall (λ k, blank (f k)) l →
  blank (foldl (λ acc k, addPartDirectly acc (f k)) init l).
Proof.
  intros Hinit Hl. revert init Hinit.
  induction Hl as [|k l Hk _ IH]; intros init Hinit; cbn; [exact Hinit|].
  apply IH. apply blank_addPartDirectly; assumption.
Qed.

(** The final flagging of an empty geometry. *)
Lemma flag_if_empty_blank (z m : bool) (g : OGRGeometry) :
  blank g →
  IsEmpty (flag_if_empty z m g) = true
  ∧ Is3D (flag_if_empty z m g) = z
  ∧ IsMeasured (flag_if_empty z m g) = m.
Proof.
  intros (_ & _ & He). unfold flag_if_empty. rewrite He.
  destruct (flags_after_set z m g) as (H1 & H2 & H3).
  rewrite H1, H2, H3. auto.
Qed.

Lemma read_curve_zero_length (c : GeomClass) (z m : bool) (nDim : Z)
    (rings points : Array) (iRing : Z) :
  value_length rings iRing = 0 →
  read_curve c z m nDim rings points iRing = new_geom c.
Proof. intros H. unfold read_curve. rewrite H. reflexivity. Qed.

Lemma forallb_seqZ_Forall (f : Z → bool) (P : Z → Prop) (n : Z) :
  (∀ k, f k = true → P k) →
  forallb f (seqZ 0 n) = true → Forall P (seqZ 0 n).
Proof.
  intros Hf H. apply Forall_forall. intros k Hk.
  apply Hf. rewrite forallb_forall in H. apply H.
  apply list_elem_of_In. exact Hk.
Qed.

(** C5.  For each of the five list-based GeoArrow encodings, decoding a
    non-null cell that holds a zero-length list, at whichever nesting
    level, returns a geometry (never null, and the decoder has no error
    path there) that is empty and whose 3D and measured flags are the
    has-Z and has-M flags of the declared field type. *)
Theorem C5_zero_length_list_decodes_to_flagged_empty (core : OGRCore)
    (poGeomFieldDefn : OGRGeomFieldDefn) (eEncoding : OGRArrowGeomEncoding)
    (array : Array) (nIdxInBatch : Z) :
  IsNull array nIdxInBatch = false →
  zero_length_cell eEncoding array nIdxInBatch = true →
  ∃ poGeometry,
    ReadGeometry core poGeomFieldDefn eEncoding array nIdxInBatch
    = Some poGeometry
    ∧ IsEmpty poGeometry = true
    ∧ Is3D poGeometry = OGR_GT_HasZ (gfd_type poGeomFieldDefn)
    ∧ IsMeasured poGeometry = OGR_GT_HasM (gfd_type poGeomFieldDefn).
Proof.
  intros Hnull Hzero. unfold ReadGeometry. rewrite Hnull.
  set (z := OGR_GT_HasZ (gfd_type poGeomFieldDefn)).
  set (m := OGR_GT_HasM (gfd_type poGeomFieldDefn)).
  cbv zeta.
  destruct eEncoding; try discriminate; cbn in Hzero.
  - (* GEOARROW_LINESTRING *)
    rewrite Hzero. cbn. eexists. split; [reflexivity|]. cbn. auto.
  - (* GEOARROW_POLYGON *)
    apply andb_true_iff in Hzero as [_ Hrings].
    eexists. split; [reflexivity|].
    apply flag_if_empty_blank.
    apply (blank_fold_parts
             (λ k, read_curve LINEARRING z m _ _ _ (_ + k)));
      [apply blank_new_geom|].
    revert Hrings. apply forallb_seqZ_Forall. intros k Hk.
    rewrite read_curve_zero_length by (apply Z.eqb_eq; exact Hk).
    apply blank_new_geom.
  - (* GEOARROW_MULTIPOINT *)
    apply Z.eqb_eq in Hzero. rewrite Hzero. cbn.
    eexists. split; [reflexivity|].
    apply flag_if_empty_blank. apply blank_new_geom.
  - (* GEOARROW_MULTILINESTRING *)
    apply andb_true_iff in Hzero as [_ Hrings].
    eexists. split; [reflexivity|].
    apply flag_if_empty_blank.
    apply (blank_fold_parts
             (λ k, read_curve LINESTRING z m _ _ _ (_ + k)));
      [apply blank_new_geom|].
    revert Hrings. apply forallb_seqZ_Forall. intros k Hk.
    rewrite read_curve_zero_length by (apply Z.eqb_eq; exact Hk).
    apply blank_new_geom.
  - (* GEOARROW_MULTIPOLYGON *)
    apply andb_true_iff in Hzero as [_ Hparts].
    eexists. split; [reflexivity|].
    apply flag_if_empty_blank.
    apply (blank_fold_parts
             (λ j, foldl (λ poly k,
                            addRingDirectly poly
                              (read_curve LINEARRING z m _ _ _ (_ + k)))
                         (new_geom POLYGON) (seqZ 0 _)));
      [apply blank_new_geom|].
    revert Hparts. apply forallb_seqZ_Forall. intros j Hj.
    apply andb_true_iff in Hj as [_ Hrings].
    apply (blank_fold_parts
             (λ k, read_curve LINEARRING z m _ _ _ (_ + k)));
      [apply blank_new_geom|].
    revert Hrings. apply forallb_seqZ_Forall. intros k Hk.
    rewrite read_curve_zero_length by (apply Z.eqb_eq; exact Hk).
    apply blank_new_geom.
Qed.

Lemma C5_zero_length_list_decodes_to_flagged_empty_witness :
  IsNull polygon_with_empty_ring 0 = false
  ∧ zero_length_cell GEOARROW_POLYGON polygon_with_empty_ring 0 = true
  ∧ ∃ poGeometry,
      ReadGeometry scenario_core polygonZ_field GEOARROW_POLYGON
        polygon_with_empty_ring 0 = Some poGeometry
      ∧ IsEmpty poGeometry = true
      ∧ Is3D poGeometry = true
      ∧ IsMeasured poGeometry = false.
Proof.
  split; [reflexivity|]. split; [reflexivity|].
  apply (C5_zero_length_list_decodes_to_flagged_empty scenario_core
           polygonZ_field GEOARROW_POLYGON polygon_with_empty_ring 0);
    reflexivity.
Defined.

Example ReadGeometry_polygon_with_empty_ring :
  ReadGeometry scenario_core polygonZ_field GEOARROW_POLYGON
    polygon_with_empty_ring 0
  = Some (mkGeom POLYGON true false []
            [mkGeom LINEARRING true false [] []]).
Proof. reflexivity. Qed.


(** * Row iteration under filters *)

(** A null cell fails every comparison constraint: the guard
    [else if (bIsNull) return true;] comes before any evaluation. *)
Lemma null_cell_fails_comparison (core : OGRCore) (nFieldCount : Z)
    (osFIDColumn : string) (cols : list Array) (nFeatureIdx nIdx : Z)
    (c : Constraint) (rest : list Constraint) :
  0 <= iArrayIdx c →
  nOperation c ≠ SWQ_ISNULL →
  nOperation c ≠ SWQ_ISNOTNULL →
  IsNull (column cols (iArrayIdx c)) nIdx = true →
  SkipToNextFeatureDueToAttributeFilter core nFieldCount osFIDColumn cols
    nFeatureIdx nIdx (c :: rest) = true.
Proof.
  intros Hidx Hnull Hnotnull Hcell. cbn [SkipToNextFeatureDueToAttributeFilter].
  destruct (Z.ltb_spec (iArrayIdx c) 0) as [?|_]; [lia|].
  rewrite !bool_decide_eq_false_2 by assumption.
  now rewrite Hcell.
Qed.

(** The exit test of the WKB loop holds exactly when the row passes the
    spatial test, or fails it and passes non-empty attribute constraints. *)
Lemma breaks_WKB_disjunction (core : OGRCore) (L : LayerDefn) (F : Filters)
    (c : Cursor) :
  breaks_WKB core L F c
  = negb (bSkipToNextFeature_WKB core F c)
    || constraints_nonempty_and_pass core L F c.
Proof. unfold breaks_WKB. now destruct (bSkipToNextFeature_WKB core F c). Qed.

(** C2 (as amended).  On the batch of three rows with names "a", null, "c"
    and WKB points (1 2), (3 4), (5 6), the filter [name != 'a'] compiles
    to one string constraint on column 0; the constraint rejects row 1
    (equal to 'a') and the null-valued row 2, and accepts row 3; iterating
    yields exactly one record, row 3, with name "c" and the point (5 6). *)
Theorem C2_name_ne_a_yields_the_c_row :
  let F := ls_filters scenario_state in
  m_asAttributeFilterConstraints F
    = [mkConstraint 0 0 SWQ_NE CT_String 0 0 0 "a" "a"]
  ∧ List.map (row_fails_attributes F) [0; 1; 2] = [true; true; false]
  ∧ scenario_records = [record_c].
Proof.
  cbv zeta. split; [|split].
  - vm_compute. reflexivity.
  - vm_compute. reflexivity.
  - vm_compute. reflexivity.
Qed.

(** C2, as stated, fails: the iteration under [name != 'a'] does not yield
    two records, and the null-valued row 2 (feature id 1) is not among the
    records it yields. *)
Lemma C2_counterexample_null_row_skipped :
  length scenario_records ≠ 2%nat
  ∧ ¬ In 1 (List.map GetFID scenario_records).
Proof.
  split.
  - vm_compute. discriminate.
  - vm_compute. intros [H|[]]. discriminate H.
Qed.

(** C1: evaluation on the scenario batch with the filter [name != 'a'] and
    the spatial filter box from (0 1) to (2 3), both active.  Row 1 passes
    the spatial test and fails the attribute test, row 2 fails both, row 3
    fails the spatial test and passes the attribute test: no row passes
    both.  Iterating nevertheless decodes rows 1 and 3 into records; with
    the attribute filter alone row 1 is skipped, with the spatial filter
    alone row 3 is skipped. *)
Theorem C1_rows_failing_one_test_are_decoded :
  let F := ls_filters both_filters_state in
  is_Some (m_poFilterGeom F)
  ∧ m_asAttributeFilterConstraints F ≠ []
  ∧ List.map (row_fails_spatial F) [0; 1; 2] = [false; true; true]
  ∧ List.map (row_fails_attributes F) [0; 1; 2] = [true; true; false]
  ∧ both_filters_records = [record_a; record_c]
  ∧ scenario_records = [record_c]
  ∧ spatial_only_records = [record_a].
Proof.
  cbv zeta. split_and!.
  - vm_compute. eauto.
  - vm_compute. discriminate.
  - vm_compute. reflexivity.
  - vm_compute. reflexivity.
  - vm_compute. reflexivity.
  - vm_compute. reflexivity.
  - vm_compute. reflexivity.
Qed.

(** * Batch export under filters *)

Lemma SetBatch_position (L : LayerDefn) (F : Filters) (c : Cursor)
    (b : RecordBatch) :
  let c' := SetBatch L F c (Some b) in
  m_bEOF c' = m_bEOF c ∧ m_nFeatureIdx c' = m_nFeatureIdx c
  ∧ m_nIdxInBatch c' = m_nIdxInBatch c
  ∧ m_iRecordBatch c' = m_iRecordBatch c ∧ m_poBatch c' = Some b.
Proof. unfold SetBatch. repeat case_match; cbn; auto. Qed.

(** A pull succeeds exactly when a physical batch is left; it installs
    that batch and moves the batch counter. *)
Lemma ReadNextBatch_pull (L : LayerDefn) (F : Filters) (c : Cursor) :
  -1 ≤ m_iRecordBatch c →
  match ds_batches L !! Z.to_nat (m_iRecordBatch c + 1) with
  | Some b =>
      ∃ c', ReadNextBatch L F c = (true, c')
            ∧ m_bEOF c' = m_bEOF c ∧ m_nFeatureIdx c' = m_nFeatureIdx c
            ∧ m_iRecordBatch c' = m_iRecordBatch c + 1
            ∧ m_poBatch c' = Some b
  | None => ∃ c', ReadNextBatch L F c = (false, c')
  end.
Proof.
  intros Hrb. unfold ReadNextBatch.
  destruct (Z.ltb_spec (m_iRecordBatch c + 1) 0) as [?|_]; [lia|].
  cbn. destruct (ds_batches L !! Z.to_nat (m_iRecordBatch c + 1)) as [b|].
  - eexists. split; [reflexivity|].
    pose proof (SetBatch_position L F
                  (with_position
                     (with_position c (m_bEOF c) (m_nFeatureIdx c)
                        (m_nIdxInBatch c) (m_iRecordBatch c + 1))
                     (m_bEOF c) (m_nFeatureIdx c) 0 (m_iRecordBatch c + 1))
                  b) as H.
    cbn in H. cbn. tauto.
  - eexists. reflexivity.
Qed.

Section ExportLoopProperties.

Variable malloc_ok : Z → bool.
Variable TranslateWKT_chunks :
  list Byte.byte → bool → option (list (list Byte.byte)).
Variable ExportRecordBatch : RecordBatch → option ArrowArray.
Variable PostFilterArrowArray : Filters → option Z → ArrowArray → ArrowArray.
Variable L : LayerDefn.
Variable bGeometryEncodingWKB : bool.
Variable F : Filters.
Hypothesis Hfilter : filter_active F = true.

(** One iteration on the batch [b] installed in [c1]: an error return when
    the export or the re-encoding fails; the next iteration, from the end
    of [b], when no row survives the filter; the filtered array
    otherwise. *)
Lemma GetNextArrowArray_loop_step (fuel : nat) (c c1 : Cursor)
    (b : RecordBatch) :
  m_bEOF c = false →
  (if negb (bool_decide (is_Some (m_poBatch c)))
      || (m_nIdxInBatch c =? batch_rows c)
   then ReadNextBatch L F c else (true, c)) = (true, c1) →
  m_poBatch c1 = Some b →
  m_bEOF c1 = false →
  let loop :=
    GetNextArrowArray_loop malloc_ok TranslateWKT_chunks ExportRecordBatch
      PostFilterArrowArray L bGeometryEncodingWKB F in
  let c2 := with_position c1 false (m_nFeatureIdx c1 + num_rows b)
              (num_rows b) (m_iRecordBatch c1) in
  match filtered_export malloc_ok TranslateWKT_chunks ExportRecordBatch
          PostFilterArrowArray L bGeometryEncodingWKB F (m_nFeatureIdx c1) b
  with
  | None => (∃ c', loop (S fuel) c = Ret_EIO c')
            ∨ (∃ c', loop (S fuel) c = Ret_ENOMEM c')
  | Some a =>
      if aa_length a =? 0 then loop (S fuel) c = loop fuel c2
      else loop (S fuel) c = Ret_array a c2
  end.
Proof.
  intros Heof Hpull Hb Heof1. cbv zeta. cbn [GetNextArrowArray_loop].
  rewrite Heof, Hpull. cbn [negb]. rewrite Hb. cbn [default].
  unfold filtered_export. cbn -[reencode_geometries Z.add].
  rewrite Hfilter, Heof1.
  destruct (ExportRecordBatch b) as [out_array|]; [|left; eauto].
  destruct (if bGeometryEncodingWKB then _ else _) as [converted|];
    [|right; eauto].
  destruct (aa_length _ =? 0); reflexivity.
Qed.

Lemma first_surviving_cons (nb : Z * RecordBatch)
    (pending : list (Z * RecordBatch)) (P : Z → RecordBatch → Prop) :
  filtered_to_nothing malloc_ok TranslateWKT_chunks ExportRecordBatch
    PostFilterArrowArray L bGeometryEncodingWKB F nb →
  first_surviving malloc_ok TranslateWKT_chunks ExportRecordBatch
    PostFilterArrowArray L bGeometryEncodingWKB F pending P →
  first_surviving malloc_ok TranslateWKT_chunks ExportRecordBatch
    PostFilterArrowArray L bGeometryEncodingWKB F (nb :: pending) P.
Proof.
  intros Hnb (skipped & n & b & later & -> & Hskipped & HP).
  exists (nb :: skipped), n, b, later. split_and!; auto.
Qed.

Lemma first_surviving_head (n : Z) (b : RecordBatch)
    (later : list (Z * RecordBatch)) (P : Z → RecordBatch → Prop) :
  P n b →
  first_surviving malloc_ok TranslateWKT_chunks ExportRecordBatch
    PostFilterArrowArray L bGeometryEncodingWKB F ((n, b) :: later) P.
Proof. intros HP. exists [], n, b, later. split_and!; auto. Qed.

(** The first pending batch is the one the iteration works on: the
    current batch when rows of it are left, else the batch the pull
    installs. *)
Lemma first_pending_batch (c : Cursor) (b : RecordBatch)
    (rest : list RecordBatch) :
  -1 ≤ m_iRecordBatch c →
  pending_batches L c = b :: rest →
  ∃ c1,
    (if negb (bool_decide (is_Some (m_poBatch c)))
        || (m_nIdxInBatch c =? batch_rows c)
     then ReadNextBatch L F c else (true, c)) = (true, c1)
    ∧ m_poBatch c1 = Some b
    ∧ m_bEOF c1 = m_bEOF c
    ∧ m_nFeatureIdx c1 = m_nFeatureIdx c
    ∧ -1 ≤ m_iRecordBatch c1
    ∧ drop (Z.to_nat (m_iRecordBatch c1 + 1)) (ds_batches L) = rest.
Proof.
  intros Hrb Hpending.
  assert (Hpull : drop (Z.to_nat (m_iRecordBatch c + 1)) (ds_batches L)
                  = b :: rest →
                  ∃ c1, ReadNextBatch L F c = (true, c1)
                        ∧ m_poBatch c1 = Some b
                        ∧ m_bEOF c1 = m_bEOF c
                        ∧ m_nFeatureIdx c1 = m_nFeatureIdx c
                        ∧ -1 ≤ m_iRecordBatch c1
                        ∧ drop (Z.to_nat (m_iRecordBatch c1 + 1))
                            (ds_batches L) = rest).
  { intros Hdrop.
    assert (Hlookup : ds_batches L !! Z.to_nat (m_iRecordBatch c + 1)
                      = Some b).
    { rewrite <- (Nat.add_0_r (Z.to_nat _)), <- lookup_drop, Hdrop.
      reflexivity. }
    pose proof (ReadNextBatch_pull L F c Hrb) as Hread.
    rewrite Hlookup in Hread.
    destruct Hread as (c1 & Hread & Heof & Hidx & Hrb1 & Hb).
    exists c1. split_and!; auto; [lia|].
    rewrite Hrb1.
    replace (Z.to_nat (m_iRecordBatch c + 1 + 1))
      with (S (Z.to_nat (m_iRecordBatch c + 1))) by lia.
    rewrite (drop_S _ _ _ Hlookup) in Hdrop. congruence. }
  unfold pending_batches, batch_rows in *.
  destruct (m_poBatch c) as [b'|] eqn:Hb'.
  - rewrite bool_decide_true by eauto. cbn [negb orb].
    destruct (m_nIdxInBatch c =? num_rows b').
    + apply Hpull. exact Hpending.
    + injection Hpending as -> Hdrop. exists c. split_and!; auto.
  - rewrite bool_decide_false by (intros [? ?]; discriminate).
    cbn [negb orb]. apply Hpull. exact Hpending.
Qed.

(** With no pending batch the iteration pulls, finds the source exhausted
    and returns the terminal result. *)
Lemma no_pending_batch (fuel : nat) (c : Cursor) :
  m_bEOF c = false →
  -1 ≤ m_iRecordBatch c →
  pending_batches L c = [] →
  ∃ c', GetNextArrowArray_loop malloc_ok TranslateWKT_chunks
          ExportRecordBatch PostFilterArrowArray L bGeometryEncodingWKB F
          (S fuel) c = Ret_terminal c'
        ∧ m_bEOF c' = true.
Proof.
  intros Heof Hrb Hpending. unfold pending_batches in Hpending.
  apply app_eq_nil in Hpending as [Hcur Hdrop].
  assert (Hlookup : ds_batches L !! Z.to_nat (m_iRecordBatch c + 1) = None).
  { rewrite <- (Nat.add_0_r (Z.to_nat _)), <- lookup_drop, Hdrop.
    reflexivity. }
  pose proof (ReadNextBatch_pull L F c Hrb) as Hread.
  rewrite Hlookup in Hread. destruct Hread as [c' Hread].
  assert (Hneed : negb (bool_decide (is_Some (m_poBatch c)))
                  || (m_nIdxInBatch c =? batch_rows c) = true).
  { unfold batch_rows. destruct (m_poBatch c) as [b'|].
    - rewrite bool_decide_true by eauto.
      destruct (m_nIdxInBatch c =? num_rows b'); [reflexivity|discriminate].
    - rewrite bool_decide_false by (intros [? ?]; discriminate).
      reflexivity. }
  cbn [GetNextArrowArray_loop]. rewrite Heof, Hneed, Hread. cbn [negb].
  eexists. split; reflexivity.
Qed.

(** The export loop, by induction on the pending batches. *)
Lemma GetNextArrowArray_loop_outcome (pending : list RecordBatch) :
  ∀ (fuel : nat) (c : Cursor),
    m_bEOF c = false →
    -1 ≤ m_iRecordBatch c →
    pending_batches L c = pending →
    (length pending < fuel)%nat →
    export_outcome malloc_ok TranslateWKT_chunks ExportRecordBatch
      PostFilterArrowArray L bGeometryEncodingWKB F
      (with_base_ids (m_nFeatureIdx c) pending)
      (GetNextArrowArray_loop malloc_ok TranslateWKT_chunks
         ExportRecordBatch PostFilterArrowArray L bGeometryEncodingWKB F
         fuel c).
Proof.
  induction pending as [|b rest IH]; intros fuel c Heof Hrb Hpending Hfuel;
    (destruct fuel as [|fuel]; [cbn in Hfuel; lia|]).
  - destruct (no_pending_batch fuel c Heof Hrb Hpending) as (c' & -> & Hc').
    cbn. auto.
  - destruct (first_pending_batch c b rest Hrb Hpending)
      as (c1 & Hpull & Hb & Heof1 & Hidx & Hrb1 & Hdrop).
    rewrite Heof in Heof1.
    pose proof (GetNextArrowArray_loop_step fuel c c1 b Heof Hpull Hb Heof1)
      as Hstep.
    cbv zeta in Hstep. rewrite Hidx in Hstep. cbn [with_base_ids].
    destruct (filtered_export _ _ _ _ _ _ _ _ b) as [a|] eqn:Ha.
    + destruct (Z.eqb_spec (aa_length a) 0) as [Hzero|Hrows].
      * rewrite Hstep.
        match goal with
        | |- context [GetNextArrowArray_loop _ _ _ _ _ _ _ fuel ?c2] =>
            specialize (IH fuel c2)
        end.
        cbn in IH. unfold pending_batches in IH. cbn in IH.
        rewrite Hb, Z.eqb_refl, Hdrop in IH. cbn in IH, Hfuel.
        specialize (IH eq_refl Hrb1 eq_refl ltac:(lia)).
        assert (Hb0 : filtered_to_nothing malloc_ok TranslateWKT_chunks
                        ExportRecordBatch PostFilterArrowArray L
                        bGeometryEncodingWKB F (m_nFeatureIdx c, b))
          by (exists a; auto).
        destruct (GetNextArrowArray_loop _ _ _ _ _ _ _ fuel _);
          cbn in IH |- *; try exact IH.
        -- destruct IH as [Hrows Hfirst]. split; [exact Hrows|].
           apply first_surviving_cons; assumption.
        -- destruct IH as [Hc' Hall]. split; [exact Hc'|].
           constructor; assumption.
        -- apply first_surviving_cons; assumption.
        -- apply first_surviving_cons; assumption.
      * rewrite Hstep. cbn. split; [exact Hrows|].
        apply first_surviving_head. exact Ha.
    + destruct Hstep as [[c' ->]|[c' ->]]; cbn;
        apply first_surviving_head; exact Ha.
Qed.

(** C8.  While a predicate or spatial filter is active, a call of the
    batch export on a layer not at end of data goes through the pending
    batches (the current one if rows of it are left, then the physical
    batches not pulled yet) in order.  It returns an array only with a
    non-zero row count: the filtered export of the first pending batch
    that keeps a row, every batch before it having been filtered to zero
    rows and passed over.  It returns the terminal zero-initialised array
    if and only if every pending batch was pulled and filtered to zero
    rows, that is, when the source is exhausted.  An error return stems
    from the first batch not passed over; the call always returns. *)
Theorem C8_empty_filtered_batch_pulls_next (c : Cursor) :
  m_bEOF c = false →
  -1 ≤ m_iRecordBatch c →
  let filtered :=
    filtered_export malloc_ok TranslateWKT_chunks ExportRecordBatch
      PostFilterArrowArray L bGeometryEncodingWKB F in
  let empty (nb : Z * RecordBatch) :=
    ∃ a, filtered nb.1 nb.2 = Some a ∧ aa_length a = 0 in
  let pending := with_base_ids (m_nFeatureIdx c) (pending_batches L c) in
  let result :=
    GetNextArrowArray malloc_ok TranslateWKT_chunks ExportRecordBatch
      PostFilterArrowArray L bGeometryEncodingWKB false F c in
  match result with
  | Ret_terminal c' => m_bEOF c' = true ∧ Forall empty pending
  | Ret_array a _ =>
      aa_length a ≠ 0
      ∧ ∃ skipped n b later,
          pending = skipped ++ (n, b) :: later
          ∧ Forall empty skipped ∧ filtered n b = Some a
  | Ret_EIO _ | Ret_ENOMEM _ =>
      ∃ skipped n b later,
        pending = skipped ++ (n, b) :: later
        ∧ Forall empty skipped ∧ filtered n b = None
  | Ret_base | Ret_diverges => False
  end
  ∧ (Forall empty pending ↔ ∃ c', result = Ret_terminal c').
Proof.
  intros Heof Hrb. cbv zeta.
  pose proof (GetNextArrowArray_loop_outcome (pending_batches L c)
                (S (S (length (ds_batches L)))) c Heof Hrb eq_refl) as H.
  unfold GetNextArrowArray. cbn [negb].
  assert (Hfuel : (length (pending_batches L c)
                   < S (S (length (ds_batches L))))%nat).
  { unfold pending_batches. rewrite length_app, length_drop.
    destruct (m_poBatch c) as [b|]; [destruct (_ =? _)|]; cbn; lia. }
  specialize (H Hfuel).
  unfold export_outcome, first_surviving, filtered_to_nothing in H.
  split; [exact H|].
  assert (Hkeeps :
    ∀ (o : option ArrowArray),
      (∀ a, o = Some a → aa_length a ≠ 0) →
      (∃ skipped n b later,
          with_base_ids (m_nFeatureIdx c) (pending_batches L c)
          = skipped ++ (n, b) :: later
          ∧ Forall (λ nb, ∃ a,
                      filtered_export malloc_ok TranslateWKT_chunks
                        ExportRecordBatch PostFilterArrowArray L
                        bGeometryEncodingWKB F nb.1 nb.2 = Some a
                      ∧ aa_length a = 0) skipped
          ∧ filtered_export malloc_ok TranslateWKT_chunks ExportRecordBatch
              PostFilterArrowArray L bGeometryEncodingWKB F n b = o) →
      Forall (λ nb, ∃ a,
                filtered_export malloc_ok TranslateWKT_chunks
                  ExportRecordBatch PostFilterArrowArray L
                  bGeometryEncodingWKB F nb.1 nb.2 = Some a
                ∧ aa_length a = 0)
        (with_base_ids (m_nFeatureIdx c) (pending_batches L c)) →
      False).
  { intros o Ho (skipped & n & b & later & -> & _ & Hb) Hall.
    apply Forall_app in Hall as [_ Hall].
    apply Forall_cons in Hall as [(a & Ha & Hzero) _]. cbn in Ha.
    rewrite Hb in Ha. exact (Ho a Ha Hzero). }
  split.
  - intros Hall.
    destruct (GetNextArrowArray_loop _ _ _ _ _ _ _ _ _) as [a ?|c'|?|?| |];
      try contradiction.
    + destruct H as [Hrows Hfirst]. exfalso.
      apply (Hkeeps (Some a)); [congruence|exact Hfirst|exact Hall].
    + eauto.
    + exfalso. apply (Hkeeps None); [discriminate|exact H|exact Hall].
    + exfalso. apply (Hkeeps None); [discriminate|exact H|exact Hall].
  - intros [c' Hc']. rewrite Hc' in H. exact (proj2 H).
Qed.

End ExportLoopProperties.

Lemma C8_empty_filtered_batch_pulls_next_witness :
  filter_active (ls_filters scenario_state) = true
  ∧ m_bEOF initial_cursor = false
  ∧ -1 ≤ m_iRecordBatch initial_cursor
  ∧ ∃ a c',
      GetNextArrowArray (λ _, true) (λ _ _, None) export_row_count
        drop_short_arrays two_batch_layer false false
        (ls_filters scenario_state) initial_cursor = Ret_array a c'
      ∧ aa_length a ≠ 0
      ∧ m_iRecordBatch c' = 1.
Proof.
  split; [reflexivity|]. split; [reflexivity|]. split; [cbn; lia|].
  pose proof (C8_empty_filtered_batch_pulls_next (λ _, true) (λ _ _, None)
                export_row_count drop_short_arrays two_batch_layer false
                (ls_filters scenario_state) eq_refl initial_cursor
                eq_refl ltac:(cbn; lia)) as [H _].
  cbv zeta in H.
  destruct (GetNextArrowArray _ _ _ _ _ _ _ _ _) as [a c'| | | | |] eqn:Hr;
    try discriminate Hr.
  exists a, c'. split; [reflexivity|]. split; [exact (proj1 H)|].
  injection Hr as _ <-. reflexivity.
Defined.

(** * The extent cache *)

Lemma SetBatch_rows (L : LayerDefn) (F : Filters) (c : Cursor)
    (poBatch : option RecordBatch) :
  let c' := SetBatch L F c poBatch in
  m_bEOF c' = m_bEOF c ∧ m_nFeatureIdx c' = m_nFeatureIdx c
  ∧ m_nIdxInBatch c' = m_nIdxInBatch c
  ∧ m_iRecordBatch c' = m_iRecordBatch c ∧ m_poBatch c' = poBatch
  ∧ m_poBatchColumns c'
    = match poBatch with Some b => columns b | None => [] end.
Proof. unfold SetBatch. repeat case_match; cbn; auto 10. Qed.

Lemma SetBatch_same_rows (L : LayerDefn) (F1 F2 : Filters) (c1 c2 : Cursor)
    (poBatch : option RecordBatch) :
  same_rows c1 c2 →
  same_rows (SetBatch L F1 c1 poBatch) (SetBatch L F2 c2 poBatch).
Proof.
  intros (H1 & H2 & H3 & H4 & _ & _).
  pose proof (SetBatch_rows L F1 c1 poBatch) as (? & ? & ? & ? & ? & ?).
  pose proof (SetBatch_rows L F2 c2 poBatch) as (? & ? & ? & ? & ? & ?).
  unfold same_rows. split_and!; congruence.
Qed.

(** The filters do not influence which batch a pull installs. *)
Lemma ReadNextBatch_same_rows (L : LayerDefn) (F1 F2 : Filters)
    (c1 c2 : Cursor) :
  same_rows c1 c2 →
  (ReadNextBatch L F1 c1).1 = (ReadNextBatch L F2 c2).1
  ∧ same_rows (ReadNextBatch L F1 c1).2 (ReadNextBatch L F2 c2).2.
Proof.
  intros Hsame. pose proof Hsame as (H1 & H2 & H3 & H4 & H5 & H6).
  unfold ReadNextBatch. rewrite <- H4.
  destruct (m_iRecordBatch c1 + 1 <? 0).
  - split; [reflexivity|]. unfold same_rows. cbn. split_and!; congruence.
  - destruct (ds_batches L !! Z.to_nat (m_iRecordBatch c1 + 1)) as [b|].
    + split; [reflexivity|]. cbn [snd]. apply SetBatch_same_rows.
      unfold same_rows. cbn. split_and!; congruence.
    + split; [reflexivity|]. unfold same_rows. cbn. split_and!; congruence.
Qed.

Lemma read_next_or_EOF_same_rows (L : LayerDefn) (F1 F2 : Filters)
    (c1 c2 : Cursor) :
  same_rows c1 c2 →
  same_rows (read_next_or_EOF L F1 c1) (read_next_or_EOF L F2 c2).
Proof.
  intros Hsame.
  destruct (ReadNextBatch_same_rows L F1 F2 c1 c2 Hsame) as [Hok Hc].
  unfold read_next_or_EOF.
  destruct (ReadNextBatch L F1 c1) as [ok1 c1'],
           (ReadNextBatch L F2 c2) as [ok2 c2'].
  cbn in Hok, Hc. subst ok2. destruct Hc as (? & ? & ? & ? & ? & ?).
  unfold same_rows. cbn. split_and!; congruence.
Qed.

Lemma ResetReading_same_rows (c1 c2 : Cursor) :
  same_rows c1 c2 → same_rows (ResetReading c1) (ResetReading c2).
Proof.
  intros (? & ? & ? & H4 & ? & ?). unfold ResetReading. rewrite <- H4.
  destruct (m_iRecordBatch c1 =? 0); unfold same_rows; cbn;
    split_and!; congruence.
Qed.

Lemma next_row_same_rows (c1 c2 : Cursor) :
  same_rows c1 c2 → same_rows (next_row c1) (next_row c2).
Proof.
  intros (? & ? & ? & ? & ? & ?). unfold same_rows. cbn.
  split_and!; congruence.
Qed.

Lemma same_rows_refl (c : Cursor) : same_rows c c.
Proof. unfold same_rows. auto 10. Qed.

Section ExtentProperties.

Variable core : OGRCore.
Variable base : OGRLayerBase.
Variable L : LayerDefn.

(** The scan visits the same rows and merges the same boxes whatever the
    active filters. *)
Lemma extent_loop_same_rows (F1 F2 : Filters)
    (merge_row : Cursor → OGREnvelope → OGREnvelope) :
  (∀ c1 c2 e, same_rows c1 c2 → merge_row c1 e = merge_row c2 e) →
  ∀ (fuel : nat) (c1 c2 : Cursor) (e : OGREnvelope),
    same_rows c1 c2 →
    match extent_loop L F1 merge_row fuel c1 e,
          extent_loop L F2 merge_row fuel c2 e with
    | Some (e1, c1'), Some (e2, c2') => e1 = e2 ∧ same_rows c1' c2'
    | None, None => True
    | _, _ => False
    end.
Proof.
  intros Hmerge. induction fuel as [|fuel IH]; intros c1 c2 e Hsame;
    [exact I|].
  cbn [extent_loop]. rewrite (Hmerge c1 c2 e Hsame).
  pose proof (next_row_same_rows c1 c2 Hsame) as Hnext.
  pose proof (read_next_or_EOF_same_rows L F1 F2 _ _ Hnext) as Hread.
  assert (Hrows : (m_nIdxInBatch (next_row c1) =? batch_rows (next_row c1))
                  = (m_nIdxInBatch (next_row c2) =? batch_rows (next_row c2))).
  { destruct Hnext as (_ & _ & Hidx & _ & Hb & _). unfold batch_rows.
    now rewrite Hidx, Hb. }
  rewrite <- Hrows. destruct (_ =? _).
  - assert (Heof : m_bEOF (read_next_or_EOF L F1 (next_row c1))
                   = m_bEOF (read_next_or_EOF L F2 (next_row c2)))
      by apply Hread.
    rewrite <- Heof. destruct (m_bEOF _).
    + split; [reflexivity|]. apply ResetReading_same_rows, Hread.
    + apply IH, Hread.
  - apply IH, Hnext.
Qed.

Lemma merge_row_WKB_same_rows (iCol : Z) (c1 c2 : Cursor)
    (e : OGREnvelope) :
  same_rows c1 c2 → merge_row_WKB core iCol c1 e = merge_row_WKB core iCol c2 e.
Proof.
  intros (_ & _ & Hidx & _ & _ & Hcols). unfold merge_row_WKB.
  now rewrite Hidx, Hcols.
Qed.

Lemma merge_row_multipolygon_same_rows (iGeomField iCol : Z)
    (c1 c2 : Cursor) (e : OGREnvelope) :
  same_rows c1 c2 →
  merge_row_multipolygon L iGeomField iCol c1 e
  = merge_row_multipolygon L iGeomField iCol c2 e.
Proof.
  intros (_ & _ & Hidx & _ & _ & Hcols). unfold merge_row_multipolygon.
  now rewrite Hidx, Hcols.
Qed.

(** The fast pass hands back the same extent whatever the filters, and
    stores what it hands back. *)
Lemma fast_extent_pass_filters
    (merge_row : Cursor → OGREnvelope → OGREnvelope) (iGeomField : Z)
    (s : LayerState) (F : Filters) :
  (∀ c1 c2 e, same_rows c1 c2 → merge_row c1 e = merge_row c2 e) →
  extent_of (fast_extent_pass L merge_row iGeomField
               (mkLayerState F (ls_cursor s) (m_oMapExtents s)))
  = extent_of (fast_extent_pass L merge_row iGeomField s).
Proof.
  intros Hmerge. unfold fast_extent_pass. cbn [ls_filters ls_cursor].
  set (c0 := ResetReading (ls_cursor s)).
  assert (Hstart :
    same_rows
      (if bool_decide (is_Some (m_poBatch c0)) then c0
       else read_next_or_EOF L F c0)
      (if bool_decide (is_Some (m_poBatch c0)) then c0
       else read_next_or_EOF L (ls_filters s) c0)).
  { destruct (bool_decide _); [apply same_rows_refl|].
    apply read_next_or_EOF_same_rows, same_rows_refl. }
  revert Hstart. generalize (if bool_decide (is_Some (m_poBatch c0)) then c0
                             else read_next_or_EOF L F c0).
  generalize (if bool_decide (is_Some (m_poBatch c0)) then c0
              else read_next_or_EOF L (ls_filters s) c0).
  intros c2 c1 Hsame. pose proof Hsame as (Heof & _).
  rewrite <- Heof. destruct (m_bEOF c1); [reflexivity|].
  pose proof (extent_loop_same_rows F (ls_filters s) merge_row Hmerge
                (loop_fuel L) c1 c2 EnvNone Hsame) as Hloop.
  destruct (extent_loop L F _ _ c1 _) as [[e1 c1']|],
           (extent_loop L (ls_filters s) _ _ c2 _) as [[e2 c2']|];
    try contradiction; [|reflexivity].
  destruct Hloop as [-> _]. destruct (IsInit e2); reflexivity.
Qed.

Lemma fast_extent_pass_stores
    (merge_row : Cursor → OGREnvelope → OGREnvelope) (iGeomField : Z)
    (s s' : LayerState) (e : OGREnvelope) :
  fast_extent_pass L merge_row iGeomField s = ExtentOK e s' →
  m_oMapExtents s' = <[iGeomField := e]> (m_oMapExtents s).
Proof.
  unfold fast_extent_pass. intros H.
  destruct (m_bEOF _); [discriminate|].
  destruct (extent_loop _ _ _ _ _ _) as [[e' c']|]; [|discriminate].
  destruct (IsInit e'); [|discriminate].
  injection H as <- <-. reflexivity.
Qed.

Lemma SetAttributeFilter_keeps_extents (pszFilter : AttributeFilter)
    (t : LayerState) :
  m_oMapExtents (SetAttributeFilter core L pszFilter t).2 = m_oMapExtents t.
Proof. unfold SetAttributeFilter. repeat case_match; reflexivity. Qed.

Lemma SetSpatialFilter_keeps_extents (i : Z) (poGeomIn : option OGRGeometry)
    (t : LayerState) :
  m_oMapExtents (SetSpatialFilter L i poGeomIn t) = m_oMapExtents t.
Proof. unfold SetSpatialFilter. repeat case_match; reflexivity. Qed.

(** C7 (as amended).  An extent computed by the WKB or GeoArrow
    multipolygon scan (no cached and no metadata extent being available)
    is stored in the per-geometry-field cache [m_oMapExtents]; the scan
    hands back the same extent whatever filters are active; setting the
    attribute filter or the spatial filter leaves the cache as it is; and
    every later request on a state holding the cached extent returns it
    unchanged, leaving the state as it is.  For every other encoding, a
    request that neither the cache nor the metadata answers is handed to
    [GetExtentInternal] of the base layer, whose answer is returned; the
    cache is left as it was, so that the next request is handed to the
    base layer again. *)
Theorem C7_scanned_extent_is_cached (iGeomField : Z) (bForce : bool)
    (s s' : LayerState) (e : OGREnvelope) :
  (GeomEncoding L iGeomField = WKB
   ∨ GeomEncoding L iGeomField = GEOARROW_MULTIPOLYGON →
   FastGetExtent L s iGeomField = None →
   GetExtent core base L iGeomField bForce s = ExtentOK e s' →
   m_oMapExtents s' !! iGeomField = Some e
   ∧ (∀ F : Filters,
         extent_of (GetExtent core base L iGeomField bForce
                      (mkLayerState F (ls_cursor s) (m_oMapExtents s)))
         = Some e)
   ∧ (∀ (t : LayerState) (pszFilter : AttributeFilter) (i : Z)
        (poGeomIn : option OGRGeometry),
         m_oMapExtents (SetAttributeFilter core L pszFilter t).2
         = m_oMapExtents t
         ∧ m_oMapExtents (SetSpatialFilter L i poGeomIn t) = m_oMapExtents t)
   ∧ (∀ (t : LayerState) (bForce' : bool),
         m_oMapExtents t !! iGeomField = Some e →
         FastGetExtent L t iGeomField = Some e
         ∧ GetExtent core base L iGeomField bForce' t = ExtentOK e t))
  ∧ (GeomEncoding L iGeomField ≠ WKB →
     GeomEncoding L iGeomField ≠ GEOARROW_MULTIPOLYGON →
     ∀ t : LayerState,
       FastGetExtent L t iGeomField = None →
       let generic :=
         GetExtentInternal base L (ls_filters t) (ls_cursor t) iGeomField
           bForce in
       let t' := mkLayerState (ls_filters t) generic.2 (m_oMapExtents t) in
       (0 ≤ iGeomField < GetGeomFieldCount L →
        bForce = true ∨ CanRunNonForcedGetExtent L = true →
        0 ≤ geom_column L iGeomField →
        GetExtent core base L iGeomField bForce t
        = match generic.1 with
          | Some e' => ExtentOK e' t'
          | None => ExtentFailure t'
          end)
       ∧ FastGetExtent L t' iGeomField = None
       ∧ (∀ e' t'',
            GetExtent core base L iGeomField bForce t = ExtentOK e' t'' →
            m_oMapExtents t'' = m_oMapExtents t
            ∧ generic.1 = Some e')).
Proof.
  split.
  { intros Henc Hfast Hrun. unfold GetExtent in Hrun.
  destruct ((iGeomField <? 0) || (GetGeomFieldCount L <=? iGeomField))
    eqn:Hrange; [discriminate|].
  rewrite Hfast in Hrun.
  destruct (negb bForce && negb (CanRunNonForcedGetExtent L)) eqn:Hforce;
    [discriminate|].
  destruct (geom_column L iGeomField <? 0) eqn:Hcol; [discriminate|].
  assert (Hpass :
    ∃ merge_row,
      (∀ c1 c2 e, same_rows c1 c2 → merge_row c1 e = merge_row c2 e)
      ∧ fast_extent_pass L merge_row iGeomField s = ExtentOK e s'
      ∧ ∀ t, FastGetExtent L t iGeomField = None →
             GetExtent core base L iGeomField bForce t
             = fast_extent_pass L merge_row iGeomField t).
  { destruct Henc as [Henc|Henc]; rewrite Henc in Hrun.
    - exists (merge_row_WKB core (geom_column L iGeomField)).
      split; [intros; now apply merge_row_WKB_same_rows|].
      split; [exact Hrun|]. intros t Ht. unfold GetExtent.
      now rewrite Hrange, Ht, Hforce, Hcol, Henc.
    - exists (merge_row_multipolygon L iGeomField
                (geom_column L iGeomField)).
      split; [intros; now apply merge_row_multipolygon_same_rows|].
      split; [exact Hrun|]. intros t Ht. unfold GetExtent.
      now rewrite Hrange, Ht, Hforce, Hcol, Henc. }
  destruct Hpass as (merge_row & Hmerge & Hscan & Hget).
  split_and!.
  - rewrite (fast_extent_pass_stores merge_row iGeomField s s' e Hscan).
    apply lookup_insert_eq.
  - intros F. rewrite Hget by exact Hfast.
    rewrite (fast_extent_pass_filters merge_row iGeomField s F Hmerge).
    now rewrite Hscan.
  - intros t pszFilter i poGeomIn. split.
    + apply SetAttributeFilter_keeps_extents.
    + apply SetSpatialFilter_keeps_extents.
  - intros t bForce' Hcached.
    assert (Ht : FastGetExtent L t iGeomField = Some e)
      by (unfold FastGetExtent; now rewrite Hcached).
    split; [exact Ht|]. unfold GetExtent. now rewrite Hrange, Ht. }
  intros HnotWKB Hnotmulti t Hfast generic t'.
  assert (Hgeneric :
    ∀ r, (match GeomEncoding L iGeomField with
          | WKB =>
              fast_extent_pass L
                (merge_row_WKB core (geom_column L iGeomField)) iGeomField t
          | GEOARROW_MULTIPOLYGON =>
              fast_extent_pass L
                (merge_row_multipolygon L iGeomField
                   (geom_column L iGeomField)) iGeomField t
          | _ => r
          end) = r).
  { intros r. destruct (GeomEncoding L iGeomField); try reflexivity;
      contradiction. }
  split_and!.
  - intros Hrange Hforce Hcol. unfold GetExtent.
    replace ((iGeomField <? 0) || (GetGeomFieldCount L <=? iGeomField))
      with false by (symmetry; apply orb_false_iff; lia).
    rewrite Hfast.
    replace (negb bForce && negb (CanRunNonForcedGetExtent L)) with false
      by (destruct Hforce as [-> | ->];
          [reflexivity|now rewrite andb_false_r]).
    replace (geom_column L iGeomField <? 0) with false by lia.
    rewrite Hgeneric. subst t' generic.
    destruct (GetExtentInternal base L _ _ _ _) as [[e'|] c]; reflexivity.
  - subst t'. unfold FastGetExtent in *. cbn [m_oMapExtents]. exact Hfast.
  - intros e' t'' Hrun. unfold GetExtent in Hrun.
    destruct ((iGeomField <? 0) || (GetGeomFieldCount L <=? iGeomField));
      [discriminate|].
    rewrite Hfast in Hrun.
    destruct (negb bForce && negb (CanRunNonForcedGetExtent L));
      [discriminate|].
    destruct (geom_column L iGeomField <? 0); [discriminate|].
    rewrite Hgeneric in Hrun. subst generic.
    destruct (GetExtentInternal base L _ _ _ _) as [[e''|] c];
      [|discriminate].
    injection Hrun as <- <-. split; reflexivity.
Qed.

End ExtentProperties.

Lemma C7_scanned_extent_is_cached_witness :
  (GeomEncoding scenario_layer 0 = WKB
   ∨ GeomEncoding scenario_layer 0 = GEOARROW_MULTIPOLYGON)
  ∧ FastGetExtent scenario_layer initial_state 0 = None
  ∧ (∃ s',
      GetExtent scenario_core (constant_base EnvNone) scenario_layer 0 true
        initial_state = ExtentOK (Env 1 5 2 6) s'
      ∧ m_oMapExtents s' !! 0 = Some (Env 1 5 2 6))
  ∧ GeomEncoding geoarrow_point_layer 0 ≠ WKB
  ∧ GeomEncoding geoarrow_point_layer 0 ≠ GEOARROW_MULTIPOLYGON
  ∧ FastGetExtent geoarrow_point_layer initial_state 0 = None
  ∧ ∃ t',
      GetExtent scenario_core (constant_base (Env 1 5 2 6))
        geoarrow_point_layer 0 true initial_state = ExtentOK (Env 1 5 2 6) t'
      ∧ m_oMapExtents t' = m_oMapExtents initial_state.
Proof.
  split; [left; reflexivity|]. split; [reflexivity|].
  assert (H : ∃ s',
             GetExtent scenario_core (constant_base EnvNone) scenario_layer
               0 true initial_state = ExtentOK (Env 1 5 2 6) s')
    by (eexists; vm_compute; reflexivity).
  destruct H as [s' H]. split.
  { exists s'. split; [exact H|].
    exact (proj1 (proj1 (C7_scanned_extent_is_cached scenario_core
                           (constant_base EnvNone) scenario_layer 0 true
                           initial_state s' (Env 1 5 2 6))
                    (or_introl eq_refl) eq_refl H)). }
  split; [discriminate|]. split; [discriminate|]. split; [reflexivity|].
  destruct (proj2 (C7_scanned_extent_is_cached scenario_core
                     (constant_base (Env 1 5 2 6)) geoarrow_point_layer 0
                     true initial_state initial_state EnvNone)
              ltac:(cbn; discriminate) ltac:(cbn; discriminate)
              initial_state eq_refl)
    as (Hrun & _ & Hkeep).
  eexists. split.
  - apply Hrun; [vm_compute; split; [discriminate|reflexivity]
                |left; reflexivity|vm_compute; discriminate].
  - reflexivity.
Defined.

(** C7, as stated, fails: on a layer of GeoArrow points the extent is
    computed by the generic method of the base layer and handed back, and
    nothing is stored in the cache; a later request is answered by the
    base layer again. *)
Lemma C7_counterexample_generic_extent_not_cached :
  ∃ s',
    GetExtent scenario_core (constant_base (Env 1 5 2 6))
      geoarrow_point_layer 0 true initial_state = ExtentOK (Env 1 5 2 6) s'
    ∧ m_oMapExtents s' !! 0 = None
    ∧ GetExtent scenario_core (constant_base (Env 0 9 0 9))
        geoarrow_point_layer 0 true s' = ExtentOK (Env 0 9 0 9) s'.
Proof.
  eexists. split; [vm_compute; reflexivity|]. split; reflexivity.
Qed.

(** * The fast extent pass and the full decode *)

(** ** Envelopes *)













(** ** The vertices of a decoded geometry *)









(** ** The points of a decoded ring *)






(** ** One multipolygon row: first rings against all rings *)







(** ** The scan visits every row of every batch *)

Lemma total_rows_nonneg (batches : list RecordBatch) :
  0 ≤ total_rows batches.
Proof.
  unfold total_rows. induction batches as [|b l IH]; cbn [foldr]; lia.
Qed.

(** What a pull installs: the next batch of the dataset and its columns,
    at row 0. *)
Lemma ReadNextBatch_installs (L : LayerDefn) (F : Filters) (c : Cursor) :
  -1 ≤ m_iRecordBatch c →
  match ds_batches L !! Z.to_nat (m_iRecordBatch c + 1) with
  | Some b =>
      let c' := read_next_or_EOF L F c in
      m_bEOF c' = false ∧ m_nIdxInBatch c' = 0
      ∧ m_iRecordBatch c' = m_iRecordBatch c + 1
      ∧ m_poBatch c' = Some b ∧ m_poBatchColumns c' = columns b
  | None => m_bEOF (read_next_or_EOF L F c) = true
  end.
Proof.
  intros Hrb. unfold read_next_or_EOF, ReadNextBatch.
  destruct (Z.ltb_spec (m_iRecordBatch c + 1) 0) as [?|_]; [lia|].
  destruct (ds_batches L !! Z.to_nat (m_iRecordBatch c + 1)) as [b|];
    [|reflexivity].
  cbv zeta.
  pose proof (SetBatch_rows L F
                (with_position
                   (with_position c (m_bEOF c) (m_nFeatureIdx c)
                      (m_nIdxInBatch c) (m_iRecordBatch c + 1))
                   (m_bEOF c) (m_nFeatureIdx c) 0 (m_iRecordBatch c + 1))
                (Some b)) as H.
  cbn in H. cbn. tauto.
Qed.

Section ScanProperties.

Variable L : LayerDefn.
Variable F : Filters.
Variable merge_row : Cursor → OGREnvelope → OGREnvelope.
Variable row : list Array → Z → OGREnvelope → OGREnvelope.
Hypothesis Hrow :
  ∀ c e, merge_row c e = row (m_poBatchColumns c) (m_nIdxInBatch c) e.

(** The rows left in the current batch: after them the scan pulls the
    next batch. *)
Lemma extent_loop_rest_of_batch (n : nat) :
  ∀ (fuel : nat) (c : Cursor) (b : RecordBatch) (e : OGREnvelope),
    m_poBatch c = Some b →
    m_nIdxInBatch c + Z.of_nat (S n) = num_rows b →
    ∃ cN,
      m_poBatch cN = Some b
      ∧ m_iRecordBatch cN = m_iRecordBatch c
      ∧ extent_loop L F merge_row (S n + fuel) c e
        = let e' := foldl (λ e i, row (m_poBatchColumns c) i e) e
                          (seqZ (m_nIdxInBatch c) (Z.of_nat (S n))) in
          let c' := read_next_or_EOF L F cN in
          if m_bEOF c' then Some (e', ResetReading c')
          else extent_loop L F merge_row fuel c' e'.
Proof.
  induction n as [|n IH]; intros fuel c b e Hb Hrows.
  - exists (next_row c). split; [exact Hb|]. split; [reflexivity|].
    cbn [Nat.add extent_loop]. unfold batch_rows. cbn [next_row m_poBatch
      with_position m_nIdxInBatch]. rewrite Hb.
    destruct (Z.eqb_spec (m_nIdxInBatch c + 1) (num_rows b)) as [_|?];
      [|lia].
    rewrite Hrow, seqZ_cons, seqZ_nil by lia. reflexivity.
  - destruct (IH fuel (next_row c) b
                (row (m_poBatchColumns c) (m_nIdxInBatch c) e) Hb)
      as (cN & HbN & HrbN & Hloop).
    { cbn. lia. }
    exists cN. split; [exact HbN|]. split; [exact HrbN|].
    change (S (S n) + fuel)%nat with (S (S n + fuel)).
    cbn [extent_loop]. unfold batch_rows at 1. cbn [next_row m_poBatch
      with_position m_nIdxInBatch]. rewrite Hb.
    destruct (Z.eqb_spec (m_nIdxInBatch c + 1) (num_rows b)) as [?|_];
      [lia|].
    rewrite Hrow. rewrite Hloop. cbv zeta.
    rewrite (seqZ_cons (m_nIdxInBatch c) (Z.of_nat (S (S n)))) by lia.
    cbn [foldl next_row with_position m_poBatchColumns m_nIdxInBatch].
    replace (Z.pred (Z.of_nat (S (S n)))) with (Z.of_nat (S n)) by lia.
    replace (Z.succ (m_nIdxInBatch c)) with (m_nIdxInBatch c + 1) by lia.
    reflexivity.
Qed.

(** From a row of a batch, the scan goes through the rest of that batch
    and through every batch not pulled yet, and returns. *)
Lemma extent_loop_over_all_rows (rest : list RecordBatch) :
  ∀ (fuel n : nat) (c : Cursor) (b : RecordBatch) (e : OGREnvelope),
    m_poBatch c = Some b →
    m_poBatchColumns c = columns b →
    -1 ≤ m_iRecordBatch c →
    drop (Z.to_nat (m_iRecordBatch c + 1)) (ds_batches L) = rest →
    Forall (λ b, 0 < num_rows b) rest →
    m_nIdxInBatch c + Z.of_nat (S n) = num_rows b →
    Z.of_nat (S n) + total_rows rest ≤ Z.of_nat fuel →
    ∃ c',
      extent_loop L F merge_row fuel c e
      = Some (over_all_rows row rest
                (foldl (λ e i, row (columns b) i e) e
                       (seqZ (m_nIdxInBatch c) (Z.of_nat (S n)))),
              c').
Proof.
  induction rest as [|b' rest IH];
    intros fuel n c b e Hb Hcols Hrb Hdrop Hpos Hrows Hfuel.
  - pose proof (total_rows_nonneg []) as Hnn.
    replace fuel with (S n + (fuel - S n))%nat by (cbn in Hfuel; lia).
    destruct (extent_loop_rest_of_batch n (fuel - S n) c b e Hb Hrows)
      as (cN & HbN & HrbN & ->).
    cbv zeta. rewrite Hcols.
    pose proof (ReadNextBatch_installs L F cN ltac:(lia)) as Hpull.
    rewrite HrbN in Hpull.
    assert (Hlookup : ds_batches L !! Z.to_nat (m_iRecordBatch c + 1)
                      = None).
    { rewrite <- (Nat.add_0_r (Z.to_nat _)), <- lookup_drop, Hdrop.
      reflexivity. }
    rewrite Hlookup in Hpull. rewrite Hpull. eexists. reflexivity.
  - apply Forall_cons in Hpos as [Hpos' Hpos].
    assert (Hmax : Z.max 0 (num_rows b') = num_rows b') by lia.
    pose proof (total_rows_nonneg rest) as Hnn.
    cbn [total_rows foldr] in Hfuel. fold (total_rows rest) in Hfuel.
    replace fuel with (S n + (fuel - S n))%nat by lia.
    destruct (extent_loop_rest_of_batch n (fuel - S n) c b e Hb Hrows)
      as (cN & HbN & HrbN & ->).
    cbv zeta. rewrite Hcols.
    pose proof (ReadNextBatch_installs L F cN ltac:(lia)) as Hpull.
    rewrite HrbN in Hpull.
    assert (Hlookup : ds_batches L !! Z.to_nat (m_iRecordBatch c + 1)
                      = Some b').
    { rewrite <- (Nat.add_0_r (Z.to_nat _)), <- lookup_drop, Hdrop.
      reflexivity. }
    rewrite Hlookup in Hpull. cbv zeta in Hpull.
    destruct Hpull as (Heof & Hidx & Hrb' & Hb' & Hcols').
    rewrite Heof.
    destruct (IH (fuel - S n)%nat (Z.to_nat (num_rows b') - 1)%nat
                (read_next_or_EOF L F cN) b'
                (foldl (λ e i, row (columns b) i e) e
                       (seqZ (m_nIdxInBatch c) (Z.of_nat (S n))))
                Hb' Hcols') as [c' Hc'].
    + lia.
    + rewrite Hrb'.
      replace (Z.to_nat (m_iRecordBatch c + 1 + 1))
        with (S (Z.to_nat (m_iRecordBatch c + 1))) by lia.
      rewrite (drop_S _ _ _ Hlookup) in Hdrop. congruence.
    + exact Hpos.
    + rewrite Hidx. lia.
    + lia.
    + exists c'. rewrite Hc', Hidx. cbn [over_all_rows foldl].
      replace (Z.of_nat (S (Z.to_nat (num_rows b') - 1)))
        with (num_rows b') by lia.
      reflexivity.
Qed.

(** From the first row of the first batch the scan goes through the whole
    dataset within [loop_fuel] iterations. *)
Lemma extent_loop_from_first_batch (c : Cursor) (b0 : RecordBatch)
    (rest : list RecordBatch) :
  ds_batches L = b0 :: rest →
  Forall (λ b, 0 < num_rows b) (ds_batches L) →
  m_poBatch c = Some b0 →
  m_poBatchColumns c = columns b0 →
  m_iRecordBatch c = 0 →
  m_nIdxInBatch c = 0 →
  ∃ c',
    extent_loop L F merge_row (loop_fuel L) c EnvNone
    = Some (over_all_rows row (ds_batches L) EnvNone, c').
Proof.
  intros Hds Hpos Hb Hcols Hrb Hidx. rewrite Hds in Hpos.
  apply Forall_cons in Hpos as [Hpos0 Hpos].
  pose proof (total_rows_nonneg rest) as Hnn.
  destruct (extent_loop_over_all_rows rest (loop_fuel L)
              (Z.to_nat (num_rows b0) - 1) c b0 EnvNone Hb Hcols)
    as [c' Hc'].
  - lia.
  - rewrite Hrb, Hds. reflexivity.
  - exact Hpos.
  - rewrite Hidx. lia.
  - unfold loop_fuel. rewrite Hds. cbn [foldr length].
    fold (total_rows rest). lia.
  - exists c'. rewrite Hc', Hidx, Hds. cbn [over_all_rows foldl].
    replace (Z.of_nat (S (Z.to_nat (num_rows b0) - 1)))
      with (num_rows b0) by lia.
    reflexivity.
Qed.

End ScanProperties.

(** The fast pass returns, with the merge of every row of every batch. *)
Lemma fast_extent_pass_over_all_rows (L : LayerDefn)
    (merge_row : Cursor → OGREnvelope → OGREnvelope)
    (row : list Array → Z → OGREnvelope → OGREnvelope)
    (iGeomField : Z) (s : LayerState) :
  (∀ c e, merge_row c e = row (m_poBatchColumns c) (m_nIdxInBatch c) e) →
  Forall (λ b, 0 < num_rows b) (ds_batches L) →
  cursor_ok L (ls_cursor s) →
  let e := over_all_rows row (ds_batches L) EnvNone in
  match fast_extent_pass L merge_row iGeomField s with
  | ExtentOK e' _ => e' = e ∧ IsInit e = true
  | ExtentFailure _ => IsInit e = false
  | ExtentDiverges => False
  end.
Proof.
  intros Hrow Hpos Hok. cbv zeta. unfold fast_extent_pass.
  set (F := ls_filters s).
  assert (Hstart :
    let c0 := ResetReading (ls_cursor s) in
    let c := if bool_decide (is_Some (m_poBatch c0)) then c0
             else read_next_or_EOF L F c0 in
    (m_bEOF c = true ∧ ds_batches L = [])
    ∨ (m_bEOF c = false
       ∧ ∃ b0 rest, ds_batches L = b0 :: rest
                    ∧ m_poBatch c = Some b0
                    ∧ m_poBatchColumns c = columns b0
                    ∧ m_iRecordBatch c = 0 ∧ m_nIdxInBatch c = 0)).
  { cbv zeta. unfold ResetReading.
    destruct (Z.eqb_spec (m_iRecordBatch (ls_cursor s)) 0) as [Hrb|Hrb].
    - destruct (Hok Hrb) as (b0 & Hb0 & Hb & Hcols).
      cbn [with_position m_poBatch]. rewrite Hb.
      rewrite bool_decide_true by eauto. right. split; [reflexivity|].
      destruct (ds_batches L) as [|b rest]; [discriminate|].
      injection Hb0 as ->. exists b0, rest. cbn. auto.
    - cbn [m_poBatch].
      rewrite bool_decide_false by (intros [? ?]; discriminate).
      match goal with
      | |- context [read_next_or_EOF L F ?c0] =>
          pose proof (ReadNextBatch_installs L F c0 ltac:(cbn; lia)) as H
      end.
      cbn [m_iRecordBatch] in H. change (Z.to_nat (-1 + 1)) with 0%nat in H.
      destruct (ds_batches L) as [|b0 rest]; cbn [lookup list_lookup] in H.
      + left. auto.
      + right. cbv zeta in H. destruct H as (? & ? & ? & ? & ?).
        split; [assumption|]. exists b0, rest. auto. }
  cbv zeta in Hstart.
  destruct Hstart as [[Heof Hds]|[Heof (b0 & rest & Hds & Hb & Hc & Hrb & Hi)]];
    rewrite Heof.
  - rewrite Hds. reflexivity.
  - destruct (extent_loop_from_first_batch L F merge_row row Hrow _ b0 rest
                Hds Hpos Hb Hc Hrb Hi) as [c' ->].
    destruct (IsInit _) eqn:Hinit; auto.
Qed.

(** ** The rows of the two fast passes against the full decode *)




(** The fast pass of [GetExtent] on a WKB or GeoArrow multipolygon layer
    returns, with the merge over all the rows of what it merges for one
    row. *)
Lemma GetExtent_over_all_rows (core : OGRCore) (base : OGRLayerBase)
    (L : LayerDefn) (iGeomField : Z) (s : LayerState)
    (row : list Array → Z → OGREnvelope → OGREnvelope) :
  0 ≤ iGeomField < GetGeomFieldCount L →
  FastGetExtent L s iGeomField = None →
  0 ≤ geom_column L iGeomField →
  Forall (λ b, 0 < num_rows b) (ds_batches L) →
  cursor_ok L (ls_cursor s) →
  (GeomEncoding L iGeomField = WKB
   ∧ row = merge_row_WKB_box core L iGeomField)
  ∨ (GeomEncoding L iGeomField = GEOARROW_MULTIPOLYGON
     ∧ row = λ cols i e,
               if negb (IsNull (column cols (geom_column L iGeomField)) i)
               then merge_first_rings
                      (geom_nDim (GetGeomFieldDefn L iGeomField))
                      (column cols (geom_column L iGeomField)) i e
               else e) →
  let e := over_all_rows row (ds_batches L) EnvNone in
  match GetExtent core base L iGeomField true s with
  | ExtentOK e' _ => e' = e ∧ IsInit e = true
  | ExtentFailure _ => IsInit e = false
  | ExtentDiverges => False
  end.
Proof.
  intros Hrange Hfast Hcol Hpos Hok Henc. unfold GetExtent.
  destruct (Z.ltb_spec iGeomField 0) as [?|_]; [lia|].
  destruct (Z.leb_spec (GetGeomFieldCount L) iGeomField) as [?|_]; [lia|].
  cbn [orb negb andb]. rewrite Hfast.
  destruct (Z.ltb_spec (geom_column L iGeomField) 0) as [?|_]; [lia|].
  destruct Henc as [[-> ->]|[-> ->]];
    apply fast_extent_pass_over_all_rows; auto.
Qed.

(** A large-binary cell of exactly [INT_MAX] bytes that decodes to a
    non-empty geometry: the fast pass skips it and finds no extent, the
    full decode merges its envelope. *)
Lemma large_cell_skipped_by_fast_pass (core : OGRCore) (base : OGRLayerBase)
    (data : list Byte.byte) (g : OGRGeometry) :
  Z.of_nat (length data) = INT_MAX →
  createFromWkb core data = Some g →
  IsEmpty g = false →
  extent_of (GetExtent core base (large_binary_layer data) 0 true
               initial_state) = None
  ∧ extent_by_full_decode core (large_binary_layer data) 0
    = Merge EnvNone (getEnvelope g).
Proof.
  intros Hlen Hdecode Hne. split.
  - assert (Hok : cursor_ok (large_binary_layer data)
                    (ls_cursor initial_state))
      by (intros H; discriminate H).
    pose proof (GetExtent_over_all_rows core base (large_binary_layer data)
                  0 initial_state
                  (merge_row_WKB_box core (large_binary_layer data) 0)
                  ltac:(split; [lia|reflexivity]) eq_refl
                  ltac:(vm_compute; discriminate)
                  ltac:(repeat constructor) Hok
                  (or_introl (conj eq_refl eq_refl))) as Hscan.
    cbv zeta in Hscan.
    assert (Hrows :
      over_all_rows (merge_row_WKB_box core (large_binary_layer data) 0)
        (ds_batches (large_binary_layer data)) EnvNone = EnvNone).
    { change (over_all_rows
                (merge_row_WKB_box core (large_binary_layer data) 0)
                (ds_batches (large_binary_layer data)) EnvNone)
        with (if Z.of_nat (length data) <? INT_MAX
              then match OGRWKBGetBoundingBox core data with
                   | Some sEnvelope => Merge EnvNone sEnvelope
                   | None => EnvNone
                   end
              else EnvNone).
      rewrite Hlen. reflexivity. }
    rewrite Hrows in Hscan.
    destruct (GetExtent _ _ _ _ _ _) as [e' ?|?|]; cbn in *;
      [destruct Hscan; discriminate|reflexivity|contradiction].
  - change (extent_by_full_decode core (large_binary_layer data) 0)
      with (match (if Z.of_nat (length data) >? INT_MAX then None
                   else createFromWkb core data) with
            | Some poGeometry =>
                if IsEmpty poGeometry then EnvNone
                else Merge EnvNone (getEnvelope poGeometry)
            | None => EnvNone
            end).
    destruct (Z.gtb_spec (Z.of_nat (length data)) INT_MAX) as [Hgt|_];
      [lia|].
    rewrite Hdecode, Hne. reflexivity.
Qed.

(** C4: evaluation on a layer whose WKB column, of type large binary,
    holds one cell of exactly [INT_MAX] bytes, the point (1 2) followed by
    zero bytes, with a decoder and a bounding-box parser that agree on
    every byte string.  The fast pass reads a cell of a large-binary
    column only when it is shorter than [INT_MAX] bytes, [ReadGeometry]
    decodes every cell of at most [INT_MAX] bytes: the fast pass finds no
    extent, the full decode gives the box of the point.  (The layer has
    no polygon, so that the hypothesis on the holes holds.) *)
Theorem C4_cell_of_INT_MAX_bytes_is_not_scanned :
  let L := large_binary_layer cell_of_INT_MAX_bytes in
  Z.of_nat (length cell_of_INT_MAX_bytes) = INT_MAX
  ∧ (∀ data, wkb_box_is_envelope prefix_core data)
  ∧ GeomEncoding L 0 = WKB
  ∧ extent_of (GetExtent prefix_core (constant_base EnvNone) L 0 true
                 initial_state) = None
  ∧ extent_by_full_decode prefix_core L 0 = Env 1 1 2 2.
Proof.
  cbv zeta.
  assert (Hlen : Z.of_nat (length cell_of_INT_MAX_bytes) = INT_MAX).
  { unfold cell_of_INT_MAX_bytes.
    rewrite length_app, length_replicate, Nat2Z.inj_add, Z2Nat.id
      by (unfold INT_MAX; lia).
    change (length wkb_point_1_2) with 21%nat. unfold INT_MAX. lia. }
  assert (Hdecode : createFromWkb prefix_core cell_of_INT_MAX_bytes
                    = Some (OGRPoint_xy 1 2)).
  { unfold prefix_core, cell_of_INT_MAX_bytes. cbn [createFromWkb].
    rewrite (take_app_length' wkb_point_1_2 _ 21) by reflexivity.
    vm_compute. reflexivity. }
  split; [exact Hlen|]. split.
  { intros data. unfold wkb_box_is_envelope, prefix_core.
    cbn [createFromWkb OGRWKBGetBoundingBox].
    unfold point_createFromWkb, point_OGRWKBGetBoundingBox.
    destruct (wkb_point (take 21 data)) as [[x y]|]; [|exact I].
    split; [reflexivity|]. cbn. repeat split; reflexivity. }
  split; [reflexivity|].
  destruct (large_cell_skipped_by_fast_pass prefix_core
              (constant_base EnvNone) cell_of_INT_MAX_bytes
              (OGRPoint_xy 1 2) Hlen Hdecode eq_refl) as [Hfast Hfull].
  split; [exact Hfast|]. rewrite Hfull. reflexivity.
Qed.

(* ===================================================================== *)
(** * Part III: further properties of the code *)
(* ===================================================================== *)

(** ** Predicate Evaluator *)

(** X1. [ConstraintEvaluator]: on the same constraint and value, [<>] is
    the negation of [=].  Unless the value is a NaN compared as a number,
    [>=] is the negation of [<] and [>] of [<=]; a NaN compared as a
    number satisfies [<>] and none of the five other comparisons.  The
    string-view evaluator has the three complements on every string. *)
Theorem ConstraintEvaluator_complementary (core : OGRCore) (c : Constraint)
    (v : CxxValue) (s : string) :
  let eval op := ConstraintEvaluator core (with_operation c op) v in
  let eval_str op := ConstraintEvaluator_str (with_operation c op) s in
  eval SWQ_NE = negb (eval SWQ_EQ)
  ∧ (v ≠ V_double NaN ∨ eType c = CT_String →
     eval SWQ_GE = negb (eval SWQ_LT) ∧ eval SWQ_GT = negb (eval SWQ_LE))
  ∧ (v = V_double NaN → eType c ≠ CT_String →
     eval SWQ_NE = true ∧ eval SWQ_EQ = false ∧ eval SWQ_LT = false
     ∧ eval SWQ_LE = false ∧ eval SWQ_GE = false ∧ eval SWQ_GT = false)
  ∧ eval_str SWQ_NE = negb (eval_str SWQ_EQ)
  ∧ eval_str SWQ_GE = negb (eval_str SWQ_LT)
  ∧ eval_str SWQ_GT = negb (eval_str SWQ_LE).
Proof.
  cbv zeta. unfold ConstraintEvaluator, ConstraintEvaluator_str, CompareStr.
  cbn [nOperation eType with_operation sValue_Integer sValue_Integer64
       sValue_Real osValue].
  rewrite !bool_decide_false by discriminate.
  rewrite bool_decide_true by reflexivity.
  rewrite String_eqb_compare, (String.compare_antisym (osValue c) s).
  assert (Hordered : ∀ d q, d ≠ NaN →
             ∃ r, double_compare d (Finite q) = Some r).
  { intros [x|[]|] q Hd; cbn; eauto. contradiction. }
  split_and!.
  - unfold CompareGeneric_double.
    destruct (eType c), v as [z|z|d]; cbn -[round_to_double double_compare];
      first [ now destruct (double_compare _ _) as [[]|]
            | now destruct (_ ?= _)%Z
            | now destruct (String.compare _ _) ].
  - intros Hv. unfold CompareGeneric_double.
    destruct (eType c) eqn:Hty, v as [z|z|d];
      cbn -[round_to_double double_compare];
      try (first [ now destruct (_ ?= _)%Z
                 | now destruct (String.compare _ _) ]);
      match goal with
      | |- context [double_compare ?a (Finite ?q)] =>
          let Hd := fresh in
          assert (Hd : a ≠ NaN)
            by (first [ discriminate
                      | intros ->; destruct Hv as [Hv|Hv];
                        [apply Hv; reflexivity|discriminate Hv] ]);
          destruct (Hordered a q Hd) as [[] ->]
      end; split; reflexivity.
  - intros -> Hty. destruct (eType c); try contradiction;
      repeat split; reflexivity.
  - now destruct (String.compare s (osValue c)).
  - now destruct (String.compare s (osValue c)).
  - now destruct (String.compare s (osValue c)).
Qed.

Lemma ConstraintEvaluator_complementary_witness :
  let c := mkConstraint 0 0 SWQ_EQ CT_Real 0 0 (3 # 2) "" "" in
  let eval v op :=
    ConstraintEvaluator scenario_core (with_operation c op) v in
  (eval (V_int 2) SWQ_GE = true ∧ eval (V_int 2) SWQ_LT = false)
  ∧ (eval (V_double NaN) SWQ_GE = false
     ∧ eval (V_double NaN) SWQ_LT = false
     ∧ eval (V_double NaN) SWQ_NE = true).
Proof.
  cbv zeta. split.
  - destruct (ConstraintEvaluator_complementary scenario_core
                (mkConstraint 0 0 SWQ_EQ CT_Real 0 0 (3 # 2) "" "")
                (V_int 2) "") as (_ & H & _).
    destruct H as [H _]; [left; discriminate|].
    split; [reflexivity|]. apply negb_true_iff. rewrite <- H. reflexivity.
  - destruct (ConstraintEvaluator_complementary scenario_core
                (mkConstraint 0 0 SWQ_EQ CT_Real 0 0 (3 # 2) "" "")
                (V_double NaN) "") as (_ & _ & H & _).
    destruct (H eq_refl ltac:(discriminate)) as (Hne & _ & Hlt & _ & Hge & _).
    auto.
Defined.

(** X2. [CompareStr] on a string view gives what the generic comparison
    [Compare<std::string, std::string>] gives on the same strings, for every
    operation (both return true on an operation that is not a comparison). *)
Theorem CompareStr_agrees_with_CompareGeneric (op : swq_op)
    (val1 val2 : string) :
  CompareStr op val1 val2 = CompareGeneric String.compare op val1 val2.
Proof.
  unfold CompareStr, CompareGeneric.
  rewrite String_eqb_compare, (String.compare_antisym val2 val1).
  destruct op; cbn; try reflexivity;
    destruct (String.compare val1 val2); reflexivity.
Qed.

(** ** Row filter *)

(** X3. [SkipToNextFeatureDueToAttributeFilter] skips a row exactly when one
    of the constraints, taken alone, skips it: the constraints act as a
    conjunction, whatever their order and grouping. *)
Theorem SkipToNextFeature_is_disjunction_of_constraints (core : OGRCore)
    (nFieldCount : Z) (osFIDColumn : string) (cols : list Array)
    (nFeatureIdx nIdx : Z) (constraints more : list Constraint) :
  let skip :=
    SkipToNextFeatureDueToAttributeFilter core nFieldCount osFIDColumn cols
      nFeatureIdx nIdx in
  skip constraints = existsb (λ c, skip [c]) constraints
  ∧ skip (constraints ++ more) = skip constraints || skip more
  ∧ (constraints ≡ₚ more → skip constraints = skip more).
Proof.
  cbv zeta.
  assert (Hone : ∀ cs,
    SkipToNextFeatureDueToAttributeFilter core nFieldCount osFIDColumn cols
      nFeatureIdx nIdx cs
    = existsb (λ c, SkipToNextFeatureDueToAttributeFilter core nFieldCount
                      osFIDColumn cols nFeatureIdx nIdx [c]) cs).
  { induction cs as [|c cs IH]; [reflexivity|].
    cbn [existsb]. rewrite <- IH.
    cbn [SkipToNextFeatureDueToAttributeFilter].
    repeat (match goal with |- context [if ?b then _ else _] =>
              destruct b end; cbn [orb]; try reflexivity). }
  split_and!.
  - apply Hone.
  - rewrite !Hone, existsb_app. reflexivity.
  - intros Hperm. rewrite !Hone.
    generalize (λ c, SkipToNextFeatureDueToAttributeFilter core nFieldCount
                       osFIDColumn cols nFeatureIdx nIdx [c]).
    intros f.
    induction Hperm as [|x l l' _ IH|x y l|l l' l'' _ IH1 _ IH2];
      cbn [existsb].
    + reflexivity.
    + now rewrite IH.
    + now rewrite !orb_assoc, (orb_comm (f y)).
    + now rewrite IH1.
Qed.

(** X4. A null cell passes the [IS NULL] constraint and no other; a cell
    that is not null fails [IS NULL] and passes [IS NOT NULL]. *)
Theorem null_cell_passes_only_ISNULL (core : OGRCore) (nFieldCount : Z)
    (osFIDColumn : string) (cols : list Array) (nFeatureIdx nIdx : Z)
    (c : Constraint) :
  0 ≤ iArrayIdx c →
  let skip op :=
    SkipToNextFeatureDueToAttributeFilter core nFieldCount osFIDColumn cols
      nFeatureIdx nIdx [with_operation c op] in
  if IsNull (column cols (iArrayIdx c)) nIdx
  then ∀ op, skip op = negb (bool_decide (op = SWQ_ISNULL))
  else skip SWQ_ISNULL = true ∧ skip SWQ_ISNOTNULL = false.
Proof.
  intros Hidx. cbv zeta.
  cbn [SkipToNextFeatureDueToAttributeFilter with_operation iArrayIdx
       nOperation].
  destruct (Z.ltb_spec (iArrayIdx c) 0) as [?|_]; [lia|].
  destruct (IsNull (column cols (iArrayIdx c)) nIdx).
  - intros op. destruct (bool_decide (op = SWQ_ISNULL)); [reflexivity|].
    destruct (bool_decide (op = SWQ_ISNOTNULL)); reflexivity.
  - split; reflexivity.
Qed.

Lemma null_cell_passes_only_ISNULL_witness :
  0 ≤ iArrayIdx (mkConstraint 0 0 SWQ_NE CT_String 0 0 0 "a" "a")
  ∧ SkipToNextFeatureDueToAttributeFilter scenario_core 1 ""
      (columns scenario_batch) 1 1
      [mkConstraint 0 0 SWQ_NE CT_String 0 0 0 "a" "a"] = true.
Proof.
  split; [cbn; lia|].
  pose proof (null_cell_passes_only_ISNULL scenario_core 1 ""
                (columns scenario_batch) 1 1
                (mkConstraint 0 0 SWQ_NE CT_String 0 0 0 "a" "a")
                ltac:(cbn; lia)) as H.
  cbv zeta in H. exact (H SWQ_NE).
Defined.

(** ** Predicate Compiler *)

(** Induction on predicate trees, with the hypothesis on all the
    sub-expressions. *)
Lemma swq_expr_node_subs_ind (P : swq_expr_node → Prop) :
  (∀ ft iv fv sv, P (SNT_CONSTANT ft iv fv sv)) →
  (∀ idx, P (SNT_COLUMN idx)) →
  (∀ op subs, Forall P subs → P (SNT_OPERATION op subs)) →
  ∀ n, P n.
Proof.
  intros Hconst Hcol Hop. fix IH 1. intros [ft iv fv sv|idx|op subs].
  - apply Hconst.
  - apply Hcol.
  - apply Hop. induction subs as [|n subs IHsubs]; constructor;
      [apply IH|exact IHsubs].
Qed.

Lemma FillTargetValueFromSrcExpr_keeps (core : OGRCore)
    (fd : OGRFieldDefn) (k c : Constraint) (v : swq_expr_node) :
  FillTargetValueFromSrcExpr core fd k v = Some c →
  iField c = iField k ∧ iArrayIdx c = iArrayIdx k
  ∧ nOperation c = nOperation k.
Proof.
  unfold FillTargetValueFromSrcExpr. destruct v; try discriminate.
  destruct (GetType fd); try discriminate; intros [= <-]; auto.
Qed.

(** X5. Every constraint the compiler emits, whatever the predicate tree,
    carries one of the six comparisons, [IS NULL] or [IS NOT NULL] (the
    operations the row filter evaluates), designates a field of the layer or
    the identifier pseudo-field, and has no array index yet. *)
Theorem ExploreExprNode_emits_evaluable_constraints (core : OGRCore)
    (fields : list OGRFieldDefn) (osFIDColumn : string)
    (poNode : swq_expr_node) :
  Forall (λ c,
            is_constraint_operation (nOperation c) = true
            ∧ (iField c < Z.of_nat (length fields)
               ∨ iField c = Z.of_nat (length fields) + SPF_FID)
            ∧ iArrayIdx c = -1)
         (ExploreExprNode core fields osFIDColumn poNode).
Proof.
  induction poNode as [ft iv fv sv|idx|op subs IH]
    using swq_expr_node_subs_ind; try (cbn; constructor).
  assert (Hcmp : ∀ a b,
    IsComparisonOp op = true →
    Forall (λ c,
              is_constraint_operation (nOperation c) = true
              ∧ (iField c < Z.of_nat (length fields)
                 ∨ iField c = Z.of_nat (length fields) + SPF_FID)
              ∧ iArrayIdx c = -1)
      (match GetColumnSubNode (SNT_OPERATION op [a; b]),
             GetConstantSubNode (SNT_OPERATION op [a; b]) with
       | Some (pos, poColumn), Some poValue =>
           let idx := node_field_index poColumn in
           if (idx <? Z.of_nat (length fields))
              || (idx =? Z.of_nat (length fields) + SPF_FID) then
             match FillTargetValueFromSrcExpr core
                     (if idx =? Z.of_nat (length fields) + SPF_FID
                      then new_OGRFieldDefn (c_str osFIDColumn) OFTInteger64
                      else nth (Z.to_nat idx) fields
                             (new_OGRFieldDefn "" OFTString))
                     (new_Constraint idx op) poValue with
             | Some c =>
                 [mkConstraint (iField c) (iArrayIdx c)
                    (if pos =? 0 then op else reverse_operator op) (eType c)
                    (sValue_Integer c) (sValue_Integer64 c)
                    (sValue_Real c) (sValue_String c) (osValue c)]
             | None => []
             end
           else []
       | _, _ => []
       end)).
  { intros a b Hop.
    destruct (GetColumnSubNode _) as [[pos poColumn]|]; [|constructor].
    destruct (GetConstantSubNode _) as [poValue|]; [|constructor].
    cbv zeta.
    destruct ((node_field_index poColumn <? Z.of_nat (length fields))
              || (node_field_index poColumn
                  =? Z.of_nat (length fields) + SPF_FID)) eqn:Hidx;
      [|constructor].
    destruct (FillTargetValueFromSrcExpr _ _ _ _) as [c|] eqn:Hfill;
      [|constructor].
    apply FillTargetValueFromSrcExpr_keeps in Hfill as (Hf & Ha & _).
    cbn in Hf, Ha. constructor; [|constructor].
    cbn [nOperation iField iArrayIdx]. split_and!.
    - unfold is_constraint_operation.
      destruct (pos =? 0); [now rewrite Hop|].
      now rewrite reverse_operator_mirrored, mirrored_comparison, Hop.
    - rewrite Hf. apply orb_true_iff in Hidx as [H|H]; [left|right]; lia.
    - exact Ha. }
  destruct subs as [|a [|b [|c subs]]].
  - destruct op; cbn; constructor.
  - assert (Hnull : ∀ idx o,
      is_constraint_operation o = true →
      Forall (λ c,
                is_constraint_operation (nOperation c) = true
                ∧ (iField c < Z.of_nat (length fields)
                   ∨ iField c = Z.of_nat (length fields) + SPF_FID)
                ∧ iArrayIdx c = -1)
        (if idx <? Z.of_nat (length fields)
         then [new_Constraint idx o] else [])).
    { intros idx o Ho. destruct (Z.ltb_spec idx (Z.of_nat (length fields)));
        constructor; [|constructor]. cbn. auto. }
    destruct op; cbn; try constructor.
    + destruct a as [| |op' subs']; try constructor.
      destruct op'; try constructor.
      destruct subs' as [|a' [|b' subs']]; try constructor;
        destruct a'; try constructor; now apply Hnull.
    + destruct a; try constructor; now apply Hnull.
  - apply Forall_cons in IH as [IHa IH]. apply Forall_cons in IH as [IHb _].
    destruct op; try (apply (Hcmp a b); reflexivity);
      try (cbn [ExploreExprNode]; apply Forall_app; split; assumption);
      cbn; repeat case_match; constructor.
  - destruct op; cbn; repeat case_match; constructor.
Qed.

(** ** Array indices of the constraints *)

(** X6. [ComputeConstraintsArrayIdx] neither adds, drops nor reorders
    constraints, and rewrites nothing but their array index. *)
Theorem ComputeConstraintsArrayIdx_keeps_bodies (L : LayerDefn)
    (constraints : list Constraint) :
  List.map constraint_body (ComputeConstraintsArrayIdx L constraints)
  = List.map constraint_body constraints.
Proof.
  induction constraints as [|c cs IH]; [reflexivity|].
  cbn [ComputeConstraintsArrayIdx].
  repeat (match goal with |- context [if ?b then _ else _] =>
            destruct b end);
    cbn [List.map]; rewrite ?IH; reflexivity.
Qed.

Lemma ComputeConstraintsArrayIdx_app (L : LayerDefn)
    (before rest : list Constraint) :
  Forall (λ b, stops_reindexing L b = false) before →
  ComputeConstraintsArrayIdx L (before ++ rest)
  = ComputeConstraintsArrayIdx L before ++ ComputeConstraintsArrayIdx L rest.
Proof.
  induction 1 as [|b before Hb _ IH]; [reflexivity|].
  cbn [app ComputeConstraintsArrayIdx]. unfold stops_reindexing in Hb.
  cbn [set_iArrayIdx iArrayIdx].
  destruct (m_bIgnoredFields L); cbn [andb] in Hb.
  - destruct (iField b =? GetFieldCount (ld_schema L) + SPF_FID);
      cbn [andb] in Hb; [rewrite Hb|]; cbn [app]; now rewrite IH.
  - cbn [app]. now rewrite IH.
Qed.

Lemma ComputeConstraintsArrayIdx_stops (L : LayerDefn)
    (before rest : list Constraint) :
  Exists (λ b, stops_reindexing L b = true) before →
  ComputeConstraintsArrayIdx L (before ++ rest)
  = ComputeConstraintsArrayIdx L before ++ rest.
Proof.
  induction before as [|b before IH]; intros Hex;
    [inversion Hex|].
  cbn [app ComputeConstraintsArrayIdx]. cbn [set_iArrayIdx iArrayIdx].
  destruct (stops_reindexing L b) eqn:Hb.
  - unfold stops_reindexing in Hb.
    apply andb_true_iff in Hb as [Hb Hname].
    apply andb_true_iff in Hb as [Hb Hcol].
    apply andb_true_iff in Hb as [-> ->].
    rewrite Hcol, Hname. reflexivity.
  - assert (Hex' : Exists (λ b, stops_reindexing L b = true) before).
    { inversion Hex as [? ? Hb'|]; subst; [congruence|assumption]. }
    specialize (IH Hex'). unfold stops_reindexing in Hb.
    destruct (m_bIgnoredFields L); cbn [andb] in Hb.
    + destruct (iField b =? GetFieldCount (ld_schema L) + SPF_FID);
        cbn [andb] in Hb; [rewrite Hb|]; cbn [app]; now rewrite IH.
    + cbn [app]. now rewrite IH.
Qed.

Lemma ComputeConstraintsArrayIdx_length (L : LayerDefn)
    (constraints : list Constraint) :
  length (ComputeConstraintsArrayIdx L constraints) = length constraints.
Proof.
  induction constraints as [|c cs IH]; [reflexivity|].
  cbn [ComputeConstraintsArrayIdx].
  repeat (match goal with |- context [if ?b then _ else _] =>
            destruct b end);
    cbn [length]; rewrite ?IH; reflexivity.
Qed.

(** The row filter passes over a constraint with a negative array index
    that is not on the identifier. *)
Lemma SkipToNextFeature_passes_over (core : OGRCore) (nFieldCount : Z)
    (osFIDColumn : string) (cols : list Array) (nFeatureIdx nIdx : Z)
    (l1 l2 : list Constraint) (c : Constraint) :
  iArrayIdx c < 0 →
  iField c ≠ nFieldCount + SPF_FID →
  SkipToNextFeatureDueToAttributeFilter core nFieldCount osFIDColumn cols
    nFeatureIdx nIdx (l1 ++ c :: l2)
  = SkipToNextFeatureDueToAttributeFilter core nFieldCount osFIDColumn cols
      nFeatureIdx nIdx (l1 ++ l2).
Proof.
  intros Hidx Hfid. induction l1 as [|x l1 IH].
  - cbn [app SkipToNextFeatureDueToAttributeFilter].
    destruct (Z.ltb_spec (iArrayIdx c) 0) as [_|?]; [|lia].
    destruct (Z.eqb_spec (iField c) (nFieldCount + SPF_FID)) as [?|_];
      [contradiction|].
    reflexivity.
  - cbn [app SkipToNextFeatureDueToAttributeFilter]. rewrite IH.
    reflexivity.
Qed.

(** X7. When fields are ignored, take a constraint on an attribute field
    that has no array left in the batches, anywhere in the list of
    constraints.  If no constraint before it stops the re-indexing,
    [ComputeConstraintsArrayIdx] gives it a negative array index and the
    row filter answers as if the constraint were absent.  If a constraint
    on the identifier before it stops the re-indexing (the identifier
    being read from the row counter), the constraint is left with the
    array index it had; the row filter answers as if it were absent when
    that index is negative, as it is on a constraint just compiled. *)
Theorem constraint_on_ignored_field_not_applied (core : OGRCore)
    (L : LayerDefn) (before after : list Constraint) (c : Constraint)
    (cols : list Array) (nFeatureIdx nIdx : Z) :
  m_bIgnoredFields L = true →
  iField c ≠ GetFieldCount (ld_schema L) + SPF_FID →
  at_ (m_anMapFieldIndexToArrayIndex L) (iField c) < 0 →
  let skip :=
    SkipToNextFeatureDueToAttributeFilter core (GetFieldCount (ld_schema L))
      (m_osFIDColumn L) cols nFeatureIdx nIdx in
  let out := ComputeConstraintsArrayIdx L (before ++ c :: after) in
  (Forall (λ b, stops_reindexing L b = false) before →
   out !! length before
   = Some (set_iArrayIdx c
             (at_ (m_anMapFieldIndexToArrayIndex L) (iField c)))
   ∧ skip out = skip (ComputeConstraintsArrayIdx L (before ++ after)))
  ∧ (Exists (λ b, stops_reindexing L b = true) before →
     out !! length before = Some c
     ∧ (iArrayIdx c < 0 →
        skip out = skip (ComputeConstraintsArrayIdx L (before ++ after)))).
Proof.
  intros Hign Hfid Hidx skip out. subst skip out. split.
  - intros Hbefore.
    rewrite !ComputeConstraintsArrayIdx_app by exact Hbefore.
    assert (Hc : ComputeConstraintsArrayIdx L (c :: after)
                 = set_iArrayIdx c
                     (at_ (m_anMapFieldIndexToArrayIndex L) (iField c))
                   :: ComputeConstraintsArrayIdx L after).
    { cbn [ComputeConstraintsArrayIdx]. rewrite Hign.
      destruct (Z.eqb_spec (iField c)
                  (GetFieldCount (ld_schema L) + SPF_FID)) as [?|_];
        [contradiction|reflexivity]. }
    rewrite Hc. split.
    + rewrite lookup_app_r
        by (rewrite ComputeConstraintsArrayIdx_length; lia).
      rewrite ComputeConstraintsArrayIdx_length, Nat.sub_diag. reflexivity.
    + apply SkipToNextFeature_passes_over; [exact Hidx|exact Hfid].
  - intros Hbefore.
    rewrite !ComputeConstraintsArrayIdx_stops by exact Hbefore. split.
    + rewrite lookup_app_r
        by (rewrite ComputeConstraintsArrayIdx_length; lia).
      rewrite ComputeConstraintsArrayIdx_length, Nat.sub_diag. reflexivity.
    + intros Hneg. apply SkipToNextFeature_passes_over; assumption.
Qed.

Lemma constraint_on_ignored_field_not_applied_witness :
  let c := mkConstraint 0 (-1) SWQ_NE CT_String 0 0 0 "a" "a" in
  let fid := mkConstraint 1 (-1) SWQ_GE CT_Integer64 0 1 0 "" "1" in
  let skip l :=
    SkipToNextFeatureDueToAttributeFilter scenario_core
      (GetFieldCount (ld_schema geometry_only_layer))
      (m_osFIDColumn geometry_only_layer) [] 0 0
      (ComputeConstraintsArrayIdx geometry_only_layer l) in
  m_bIgnoredFields geometry_only_layer = true
  ∧ iField c ≠ GetFieldCount (ld_schema geometry_only_layer) + SPF_FID
  ∧ at_ (m_anMapFieldIndexToArrayIndex geometry_only_layer) (iField c) < 0
  ∧ skip [c] = skip []
  ∧ Exists (λ b, stops_reindexing geometry_only_layer b = true) [fid]
  ∧ ComputeConstraintsArrayIdx geometry_only_layer [fid; c] !! 1%nat
    = Some c.
Proof.
  cbv zeta.
  assert (H1 : m_bIgnoredFields geometry_only_layer = true) by reflexivity.
  assert (H2 : iField (mkConstraint 0 (-1) SWQ_NE CT_String 0 0 0 "a" "a")
               ≠ GetFieldCount (ld_schema geometry_only_layer) + SPF_FID)
    by (vm_compute; discriminate).
  assert (H3 : at_ (m_anMapFieldIndexToArrayIndex geometry_only_layer)
                 (iField (mkConstraint 0 (-1) SWQ_NE CT_String 0 0 0
                            "a" "a")) < 0)
    by reflexivity.
  assert (H4 : Exists (λ b, stops_reindexing geometry_only_layer b = true)
                 [mkConstraint 1 (-1) SWQ_GE CT_Integer64 0 1 0 "" "1"])
    by (constructor; reflexivity).
  split; [exact H1|]. split; [exact H2|]. split; [exact H3|].
  split.
  - exact (proj2 (proj1 (constraint_on_ignored_field_not_applied
                           scenario_core geometry_only_layer [] [] _ [] 0 0
                           H1 H2 H3) ltac:(constructor))).
  - split; [exact H4|].
    exact (proj1 (proj2 (constraint_on_ignored_field_not_applied
                           scenario_core geometry_only_layer
                           [mkConstraint 1 (-1) SWQ_GE CT_Integer64 0 1 0
                              "" "1"] [] _ [] 0 0 H1 H2 H3) H4)).
Defined.

(** ** Row iteration *)

Lemma rows_from_cons (fid : Z) (b : RecordBatch) (idx n : Z) :
  0 < n →
  rows_from fid b idx n
  = (fid, idx, columns b) :: rows_from (fid + 1) b (idx + 1) (n - 1).
Proof.
  intros Hn. unfold rows_from. rewrite seqZ_cons by lia. cbn [List.map].
  rewrite !Z.add_0_r. f_equal.
  replace (seqZ (Z.succ 0) (Z.pred n))
    with (List.map (Z.add 1) (seqZ 0 (n - 1)))
    by (rewrite (fmap_add_seqZ 1 0); f_equal; lia).
  rewrite List.map_map.
  apply map_ext. intros k. now rewrite !Z.add_assoc.
Qed.

Lemma rows_from_nil (fid : Z) (b : RecordBatch) (idx : Z) :
  rows_from fid b idx 0 = [].
Proof. reflexivity. Qed.

Lemma length_all_rows (fid : Z) (batches : list RecordBatch) :
  Z.of_nat (length (all_rows fid batches)) = total_rows batches.
Proof.
  unfold all_rows, total_rows. revert fid.
  induction batches as [|b l IH]; intros fid; cbn [with_base_ids flat_map
    foldr length]; [reflexivity|].
  rewrite length_app, Nat2Z.inj_add, IH. unfold rows_from.
  rewrite length_map, length_seqZ. cbn [fst snd]. lia.
Qed.

(** What a pull installs, the global row counter included. *)
Lemma read_next_or_EOF_installs (L : LayerDefn) (F : Filters) (c : Cursor) :
  -1 ≤ m_iRecordBatch c →
  match ds_batches L !! Z.to_nat (m_iRecordBatch c + 1) with
  | Some b =>
      let c' := read_next_or_EOF L F c in
      m_bEOF c' = false ∧ m_nIdxInBatch c' = 0
      ∧ m_nFeatureIdx c' = m_nFeatureIdx c
      ∧ m_iRecordBatch c' = m_iRecordBatch c + 1
      ∧ m_poBatch c' = Some b ∧ m_poBatchColumns c' = columns b
  | None => m_bEOF (read_next_or_EOF L F c) = true
  end.
Proof.
  intros Hrb. unfold read_next_or_EOF, ReadNextBatch.
  destruct (Z.ltb_spec (m_iRecordBatch c + 1) 0) as [?|_]; [lia|].
  destruct (ds_batches L !! Z.to_nat (m_iRecordBatch c + 1)) as [b|];
    [|reflexivity].
  cbv zeta.
  pose proof (SetBatch_rows L F
                (with_position
                   (with_position c (m_bEOF c) (m_nFeatureIdx c)
                      (m_nIdxInBatch c) (m_iRecordBatch c + 1))
                   (m_bEOF c) (m_nFeatureIdx c) 0 (m_iRecordBatch c + 1))
                (Some b)) as H.
  cbn in H. cbn. tauto.
Qed.

Section RowIterationProperties.

Variable core : OGRCore.
Variable L : LayerDefn.
Variable F : Filters.

(** A pull on a cursor whose batch is consumed: the next batch with all
    its rows, or the end of the data. *)
Lemma pull_next_batch (c : Cursor) (fid : Z) (rem : list Row) :
  m_bEOF c = false →
  -1 ≤ m_iRecordBatch c →
  m_nFeatureIdx c = fid →
  Forall (λ b, 0 < num_rows b)
    (drop (Z.to_nat (m_iRecordBatch c + 1)) (ds_batches L)) →
  rem = all_rows fid (drop (Z.to_nat (m_iRecordBatch c + 1)) (ds_batches L)) →
  (length rem < loop_fuel L)%nat →
  (rem = [] ∧ m_bEOF (read_next_or_EOF L F c) = true)
  ∨ positioned L (read_next_or_EOF L F c) rem.
Proof.
  intros Heof Hrb Hfid Hpos -> Hlen.
  pose proof (read_next_or_EOF_installs L F c Hrb) as Hpull.
  destruct (drop (Z.to_nat (m_iRecordBatch c + 1)) (ds_batches L))
    as [|b rest] eqn:Hdrop.
  - assert (Hlookup : ds_batches L !! Z.to_nat (m_iRecordBatch c + 1) = None).
    { rewrite <- (Nat.add_0_r (Z.to_nat _)), <- lookup_drop, Hdrop.
      reflexivity. }
    rewrite Hlookup in Hpull. left. split; [reflexivity|exact Hpull].
  - assert (Hlookup : ds_batches L !! Z.to_nat (m_iRecordBatch c + 1)
                      = Some b).
    { rewrite <- (Nat.add_0_r (Z.to_nat _)), <- lookup_drop, Hdrop.
      reflexivity. }
    rewrite Hlookup in Hpull. cbv zeta in Hpull.
    destruct Hpull as (Heof' & Hidx & Hfid' & Hrb' & Hb & Hcols).
    apply Forall_cons in Hpos as [Hb0 Hpos].
    assert (Hrest : drop (Z.to_nat (m_iRecordBatch c + 1 + 1)) (ds_batches L)
                    = rest).
    { replace (Z.to_nat (m_iRecordBatch c + 1 + 1))
        with (S (Z.to_nat (m_iRecordBatch c + 1))) by lia.
      rewrite (drop_S _ _ _ Hlookup) in Hdrop. congruence. }
    right. exists b, (num_rows b).
    rewrite Hidx, Hfid', Hrb', Hrest, Hfid.
    split_and!; auto; try lia.
Qed.

(** The cursor on a row: the row it is on, and where the step to the next
    row leads. *)
Lemma positioned_step (c : Cursor) (r : Row) (rem : list Row) :
  positioned L c (r :: rem) →
  r = (m_nFeatureIdx c, m_nIdxInBatch c, m_poBatchColumns c)
  ∧ (∃ b, m_poBatch (next_row c) = Some b)
  ∧ m_bEOF (next_row c) = false
  ∧ ((rem = [] ∧ m_bEOF (pull_if_needed L F (next_row c)) = true)
     ∨ positioned L (pull_if_needed L F (next_row c)) rem).
Proof.
  intros (b & n & Heof & Hb & Hcols & Hn & Hrows & Hrb & Hpos & Hrem & Hlen).
  rewrite rows_from_cons in Hrem by exact Hn. cbn [app] in Hrem.
  injection Hrem as -> ->. rewrite Hcols.
  split; [reflexivity|]. split; [exists b; exact Hb|].
  split; [exact Heof|].
  unfold pull_if_needed, batch_rows.
  cbn [next_row with_position m_poBatch m_nIdxInBatch]. rewrite Hb.
  rewrite bool_decide_true by eauto. cbn [negb orb].
  cbn [length] in Hlen.
  destruct (Z.eqb_spec (m_nIdxInBatch c + 1) (num_rows b)) as [Hlast|Hmore].
  - assert (n = 1) as -> by lia.
    rewrite rows_from_nil. cbn [app].
    apply (pull_next_batch (next_row c) (m_nFeatureIdx c + 1)); auto.
    cbn [length app] in Hlen |- *. rewrite rows_from_nil in Hlen.
    cbn [app] in Hlen. lia.
  - right. exists b, (n - 1).
    cbn [next_row with_position m_bEOF m_poBatch m_poBatchColumns
         m_nIdxInBatch m_nFeatureIdx m_iRecordBatch].
    replace (m_nFeatureIdx c + 1 + (n - 1)) with (m_nFeatureIdx c + n)
      by lia.
    split_and!; auto; lia.
Qed.

Variable breaks : Cursor → bool.
Variable keep : Row → bool.
Hypothesis Hbreaks :
  ∀ c, breaks c
       = keep (m_nFeatureIdx c, m_nIdxInBatch c, m_poBatchColumns c).

(** The row loop stops on the first row that [breaks] accepts, or returns
    at the end of the data. *)
Lemma skip_loop_first_kept (rem : list Row) :
  ∀ (fuel : nat) (c : Cursor),
    positioned L c rem →
    (length rem ≤ fuel)%nat →
    match filter (λ r, keep r = true) rem with
    | [] => ∃ c', skip_loop L F breaks fuel c = ReturnNull c'
                  ∧ m_bEOF c' = true
    | r :: kept =>
        ∃ c' later,
          skip_loop L F breaks fuel c = Break c'
          ∧ positioned L c' (r :: later)
          ∧ filter (λ r, keep r = true) later = kept
    end.
Proof.
  induction rem as [|r rem IH]; intros fuel c Hpos Hfuel.
  - destruct Hpos as (b & n & _ & _ & _ & Hn & _ & _ & _ & Hrem & _).
    rewrite rows_from_cons in Hrem by exact Hn. discriminate Hrem.
  - destruct fuel as [|fuel]; [cbn in Hfuel; lia|].
    destruct (positioned_step c r rem Hpos)
      as (Hr & [b Hb] & Heof1 & Hnext).
    cbn [skip_loop]. rewrite Hbreaks, <- Hr.
    rewrite filter_cons. destruct (decide (keep r = true)) as [Hk|Hk].
    + rewrite Hk. exists c, rem. auto.
    + apply not_true_is_false in Hk. rewrite Hk.
      unfold pull_if_needed in Hnext. rewrite Hb in Hnext.
      rewrite bool_decide_true in Hnext by eauto. cbn [negb orb] in Hnext.
      cbn [length] in Hfuel.
      destruct (m_nIdxInBatch (next_row c) =? batch_rows (next_row c)).
      * destruct Hnext as [[-> Heof]|Hnext].
        -- rewrite Heof. cbn. eauto.
        -- assert (Heof : m_bEOF (read_next_or_EOF L F (next_row c)) = false)
             by (destruct Hnext as (? & ? & ? & _); assumption).
           rewrite Heof. apply IH; [exact Hnext|lia].
      * destruct Hnext as [[-> Heof]|Hnext]; [congruence|].
        apply IH; [exact Hnext|lia].
Qed.

End RowIterationProperties.

Section AttributeFilterIteration.

Variable core : OGRCore.
Variable L : LayerDefn.
Variable F : Filters.
Hypothesis Hgeom : m_poFilterGeom F = None.
Hypothesis Hflag : m_bSpatialFilterIntersectsLayerExtent F = true.

(** One call of [GetNextRawFeature] with no spatial filter: the next row
    that passes the attribute constraints, decoded, or [nullptr] when no
    row is left that passes. *)
Lemma GetNextRawFeature_next_passing_row (c : Cursor) (rem : list Row) :
  between_rows L F c rem →
  match filter (λ r, row_passes core L F r = true) rem with
  | [] => ∃ c', GetNextRawFeature core L F c = RawNull c'
  | r :: kept =>
      ∃ c' later,
        GetNextRawFeature core L F c = RawFeature (decode_row core L r) c'
        ∧ between_rows L F c' later
        ∧ filter (λ r, row_passes core L F r = true) later = kept
  end.
Proof.
  intros [Heof Hrem]. unfold GetNextRawFeature.
  rewrite Heof, Hflag. cbn [negb orb].
  change (if negb (bool_decide (is_Some (m_poBatch c)))
             || (m_nIdxInBatch c =? batch_rows c)
          then read_next_or_EOF L F c else c)
    with (pull_if_needed L F c).
  destruct Hrem as [[-> Heof']|Hpos].
  - rewrite Heof'. cbn. eauto.
  - assert (Heof' : m_bEOF (pull_if_needed L F c) = false)
      by (destruct Hpos as (? & ? & ? & _); assumption).
    rewrite Heof', Hgeom.
    assert (Hdecode : ∀ c' r later,
      positioned L c' (r :: later) →
      RawFeature
        (if m_iFIDArrowColumn L <? 0
         then SetFID (ReadFeature core L (m_nIdxInBatch c')
                        (m_poBatchColumns c')) (m_nFeatureIdx c')
         else ReadFeature core L (m_nIdxInBatch c') (m_poBatchColumns c'))
        (next_row c')
      = RawFeature (decode_row core L r) (next_row c')
      ∧ between_rows L F (next_row c') later).
    { intros c' r later Hc'.
      destruct (positioned_step L F c' r later Hc')
        as (-> & _ & He & Hnext).
      split; [reflexivity|]. split; assumption. }
    destruct (bool_decide (m_asAttributeFilterConstraints F = []))
      eqn:Hnone; cbn [negb].
    + apply bool_decide_eq_true_1 in Hnone.
      assert (Hall : ∀ l : list Row,
                filter (λ r, row_passes core L F r = true) l = l).
      { intros l. induction l as [|[[fid i] cols] l IH]; [reflexivity|].
        rewrite filter_cons_True, IH; [reflexivity|].
        unfold row_passes. now rewrite Hnone. }
      rewrite Hall. destruct rem as [|r rem].
      { destruct Hpos as (b & n & _ & _ & _ & Hn & _ & _ & _ & Hr & _).
        rewrite rows_from_cons in Hr by exact Hn. discriminate Hr. }
      destruct (Hdecode _ r rem Hpos) as [-> Hbetween].
      exists (next_row (pull_if_needed L F c)), rem. auto.
    + pose proof (skip_loop_first_kept L F (passes_constraints core L F)
                    (row_passes core L F) (λ _, eq_refl) rem (loop_fuel L)
                    (pull_if_needed L F c) Hpos) as Hloop.
      assert (Hlen : (length rem ≤ loop_fuel L)%nat).
      { destruct Hpos as (? & ? & _ & _ & _ & _ & _ & _ & _ & _ & Hlen).
        lia. }
      specialize (Hloop Hlen).
      destruct (filter (λ r, row_passes core L F r = true) rem)
        as [|r kept].
      * destruct Hloop as (c' & -> & _). eauto.
      * destruct Hloop as (c' & later & -> & Hc' & Hkept).
        destruct (Hdecode c' r later Hc') as [-> Hbetween].
        exists (next_row c'), later. auto.
Qed.

(** Successive calls return the passing rows one after the other. *)
Lemma read_features_passing_rows (n : nat) :
  ∀ (c : Cursor) (rem : list Row),
    between_rows L F c rem →
    read_features core L F n c
    = take n (List.map (decode_row core L)
                (filter (λ r, row_passes core L F r = true) rem)).
Proof.
  induction n as [|n IH]; intros c rem Hbetween; [reflexivity|].
  pose proof (GetNextRawFeature_next_passing_row c rem Hbetween) as Hnext.
  cbn [read_features].
  destruct (filter (λ r, row_passes core L F r = true) rem) as [|r kept].
  - destruct Hnext as [c' ->]. reflexivity.
  - destruct Hnext as (c' & later & -> & Hc' & <-).
    cbn [List.map take]. f_equal. apply IH. exact Hc'.
Qed.

(** After a rewind the cursor stands before the first row of the
    dataset. *)
Lemma ResetReading_between_rows (c : Cursor) :
  Forall (λ b, 0 < num_rows b) (ds_batches L) →
  cursor_ok L c →
  between_rows L F (ResetReading c) (all_rows 0 (ds_batches L)).
Proof.
  intros Hpos Hok.
  assert (Hlen : (length (all_rows 0 (ds_batches L)) < loop_fuel L)%nat).
  { pose proof (length_all_rows 0 (ds_batches L)) as H.
    pose proof (total_rows_nonneg (ds_batches L)).
    unfold loop_fuel. fold (total_rows (ds_batches L)). lia. }
  unfold ResetReading.
  destruct (Z.eqb_spec (m_iRecordBatch c) 0) as [Hrb|Hrb].
  - destruct (Hok Hrb) as (b0 & Hb0 & Hb & Hcols).
    destruct (ds_batches L) as [|b rest] eqn:Hds; [discriminate|].
    injection Hb0 as ->. apply Forall_cons in Hpos as [Hpos0 Hpos].
    split; [reflexivity|]. right.
    unfold pull_if_needed, batch_rows.
    cbn [with_position m_poBatch m_nIdxInBatch]. rewrite Hb.
    rewrite bool_decide_true by eauto. cbn [negb orb].
    destruct (Z.eqb_spec 0 (num_rows b0)) as [?|_]; [lia|].
    exists b0, (num_rows b0).
    cbn [with_position m_bEOF m_poBatch m_poBatchColumns m_nIdxInBatch
         m_nFeatureIdx m_iRecordBatch].
    rewrite Hrb, Hds. cbn [Z.add Z.to_nat Pos.to_nat Pos.iter_op drop].
    split_and!; auto; try lia.
  - split; [reflexivity|].
    unfold pull_if_needed. cbn [m_poBatch].
    rewrite bool_decide_false by (intros [? ?]; discriminate).
    cbn [negb orb].
    apply (pull_next_batch L F _ 0); auto; cbn; try lia; try reflexivity.
Qed.

(** X8. With no spatial filter, iterating from a rewound cursor yields the
    decoded rows that pass the attribute constraints, all of them, each
    once, in the order of the dataset; with no constraint, every row. Each
    record carries its global row index as identifier when the layer has no
    FID column. *)
Theorem iteration_yields_the_passing_rows (c : Cursor) (n : nat) :
  Forall (λ b, 0 < num_rows b) (ds_batches L) →
  cursor_ok L c →
  read_features core L F n (ResetReading c)
  = take n (List.map (decode_row core L)
              (filter (λ r, row_passes core L F r = true)
                      (all_rows 0 (ds_batches L)))).
Proof.
  intros Hpos Hok. apply read_features_passing_rows.
  apply ResetReading_between_rows; assumption.
Qed.

End AttributeFilterIteration.

Lemma iteration_yields_the_passing_rows_witness :
  m_poFilterGeom (ls_filters scenario_state) = None
  ∧ m_bSpatialFilterIntersectsLayerExtent (ls_filters scenario_state) = true
  ∧ Forall (λ b, 0 < num_rows b) (ds_batches scenario_layer)
  ∧ cursor_ok scenario_layer initial_cursor
  ∧ read_features scenario_core scenario_layer (ls_filters scenario_state)
      10 (ResetReading initial_cursor)
    = [record_c].
Proof.
  assert (Hpos : Forall (λ b, 0 < num_rows b) (ds_batches scenario_layer))
    by (repeat constructor).
  assert (Hok : cursor_ok scenario_layer initial_cursor)
    by (intros H; discriminate H).
  split; [reflexivity|]. split; [reflexivity|]. split; [exact Hpos|].
  split; [exact Hok|].
  rewrite (iteration_yields_the_passing_rows scenario_core scenario_layer
             (ls_filters scenario_state) eq_refl eq_refl initial_cursor 10
             Hpos Hok).
  vm_compute. reflexivity.
Defined.

(** ** Geometry type of a column *)

(** The loop over the rows sees only the readable types of the rows that
    are not null. *)
Lemma process_rows_merge_types
    (readWKB : list Byte.byte → OGRwkbGeometryType)
    (readWKT : string → OGRwkbGeometryType)
    (eEncoding : OGRArrowGeomEncoding) (array : Array) (rows : list Z) :
  ∀ eGeomType,
    process_rows readWKB readWKT eEncoding array rows eGeomType
    = merge_types (readable_types readWKB readWKT eEncoding array rows)
        eGeomType.
Proof.
  unfold readable_types.
  induction rows as [|i rows IH]; intros t; [reflexivity|].
  cbn [process_rows List.filter]. destruct (negb (IsNull array i));
    [|apply IH].
  cbn [List.map List.filter].
  destruct (bool_decide (row_geometry_type _ _ _ _ i ≠ wkbNone_type));
    [|apply IH].
  cbn [merge_types]. destruct (merge_row_type _ _); [apply IH|reflexivity].
Qed.

Lemma proper_type_cases (t : OGRwkbGeometryType) :
  proper_type t → t = wkbNone_type ∨ wkbFlatten t ≠ wkbNone.
Proof.
  intros H. destruct (decide (wkbFlatten t = wkbNone)); [left|right]; auto.
Qed.

(** Merging a readable type keeps the column type a proper type other than
    [wkbNone]. *)
Lemma merge_row_type_proper (g a r : OGRwkbGeometryType) :
  wkbFlatten a ≠ wkbNone → merge_row_type g a = Some r →
  wkbFlatten r ≠ wkbNone.
Proof.
  intros Ha. unfold merge_row_type.
  destruct g as [[] [] []], a as [[] [] []]; cbn in *; intros H;
    try discriminate; try congruence; inversion H; cbn; congruence.
Qed.

(** Two readable rows can be merged in either order. *)
Lemma merge_row_type_swap (g a b : OGRwkbGeometryType) :
  proper_type g → wkbFlatten a ≠ wkbNone → wkbFlatten b ≠ wkbNone →
  (merge_row_type g a ≫= λ g', merge_row_type g' b)
  = (merge_row_type g b ≫= λ g', merge_row_type g' a).
Proof.
  intros Hg Ha Hb. apply proper_type_cases in Hg as [->|Hg].
  - destruct a as [[] [] []], b as [[] [] []]; cbn in *;
      first [congruence | reflexivity].
  - destruct g as [[] [] []]; cbn in Hg; try congruence;
      destruct a as [[] [] []]; cbn in Ha; try congruence;
      destruct b as [[] [] []]; cbn in Hb; first [congruence | reflexivity].
Qed.

Section GeometryColumnTypeProperties.

Variable readWKB : list Byte.byte → OGRwkbGeometryType.
Variable readWKT : string → OGRwkbGeometryType.
Hypothesis HWKB : ∀ data, proper_type (readWKB data).
Hypothesis HWKT : ∀ osWKT, proper_type (readWKT osWKT).

Lemma row_geometry_type_proper eEncoding array i :
  proper_type (row_geometry_type readWKB readWKT eEncoding array i).
Proof.
  unfold row_geometry_type.
  repeat case_match; auto; intros _; reflexivity.
Qed.

Lemma readable_types_readable eEncoding array rows :
  Forall (λ t, wkbFlatten t ≠ wkbNone)
    (readable_types readWKB readWKT eEncoding array rows).
Proof.
  unfold readable_types. apply List.Forall_forall. intros t Ht.
  apply filter_In in Ht as [Ht Hne].
  apply in_map_iff in Ht as (i & <- & _).
  apply bool_decide_eq_true in Hne.
  destruct (proper_type_cases _ (row_geometry_type_proper eEncoding array i));
    [contradiction|assumption].
Qed.

End GeometryColumnTypeProperties.

Lemma merge_row_type_keeps_proper (g a r : OGRwkbGeometryType) :
  wkbFlatten a ≠ wkbNone → merge_row_type g a = Some r → proper_type r.
Proof.
  intros Ha Hr Hnone.
  now destruct (merge_row_type_proper g a r Ha Hr).
Qed.

Lemma merge_types_Permutation (ts1 ts2 : list OGRwkbGeometryType) :
  ts1 ≡ₚ ts2 → ∀ g, proper_type g →
  Forall (λ t, wkbFlatten t ≠ wkbNone) ts1 →
  merge_types ts1 g = merge_types ts2 g.
Proof.
  induction 1 as [|t ts1 ts2 Hperm IH|a b ts|ts1 ts2 ts3 H12 IH12 H23 IH23];
    intros g Hg Hall.
  - reflexivity.
  - cbn. inversion Hall as [|? ? Ht Hts]; subst.
    destruct (merge_row_type g t) as [g'|] eqn:Hm; [|reflexivity].
    apply IH; [eapply merge_row_type_keeps_proper; eauto|assumption].
  - inversion Hall as [|? ? Hb Hall']; subst.
    inversion Hall' as [|? ? Ha _]; subst.
    pose proof (merge_row_type_swap g a b Hg Ha Hb) as Hswap.
    cbn. destruct (merge_row_type g a) as [ga|], (merge_row_type g b) as [gb|];
      cbn in Hswap; try rewrite Hswap; try rewrite <- Hswap; try reflexivity.
  - rewrite IH12 by assumption. apply IH23; [assumption|].
    eapply Permutation_Forall; eauto.
Qed.

(** One row merged into the column type: the new type holds the row and,
    unless it was [wkbNone], the old type. *)
Lemma merge_row_type_holds (g t g' : OGRwkbGeometryType) :
  proper_type g → wkbFlatten t ≠ wkbNone → merge_row_type g t = Some g' →
  (held_by (wkbFlatten t) (wkbFlatten g')
   ∧ (OGR_GT_HasZ t = true → OGR_GT_HasZ g' = true)
   ∧ (OGR_GT_HasM t = true → OGR_GT_HasM g' = true))
  ∧ (g ≠ wkbNone_type →
     held_by (wkbFlatten g) (wkbFlatten g')
     ∧ (OGR_GT_HasZ g = true → OGR_GT_HasZ g' = true)
     ∧ (OGR_GT_HasM g = true → OGR_GT_HasM g' = true)).
Proof.
  intros Hg Ht Hm. unfold held_by.
  apply proper_type_cases in Hg as [->|Hg].
  - destruct t as [[] [] []]; cbn in *; injection Hm as <-; cbn;
      (split; [repeat split; auto | congruence]).
  - destruct g as [[] [] []]; cbn in Hg; try congruence;
      destruct t as [[] [] []]; cbn in Ht; try congruence;
      cbn in Hm; try discriminate; injection Hm as <-; cbn;
      (split; [repeat split; auto | intros _; repeat split; auto]).
Qed.

Lemma held_by_trans (a b c : wkbFlatType) :
  held_by a b → held_by b c → held_by a c.
Proof.
  unfold held_by. intros H1 H2.
  destruct H1 as [?|[[? ?]|[? ?]]], H2 as [?|[[? ?]|[? ?]]]; subst;
    try discriminate; auto.
Qed.

Lemma merge_types_holds (ts : list OGRwkbGeometryType) :
  ∀ g r, proper_type g → Forall (λ t, wkbFlatten t ≠ wkbNone) ts →
  merge_types ts g = Some r →
  Forall (λ t, held_by (wkbFlatten t) (wkbFlatten r)
               ∧ (OGR_GT_HasZ t = true → OGR_GT_HasZ r = true)
               ∧ (OGR_GT_HasM t = true → OGR_GT_HasM r = true)) ts
  ∧ (g ≠ wkbNone_type →
     held_by (wkbFlatten g) (wkbFlatten r)
     ∧ (OGR_GT_HasZ g = true → OGR_GT_HasZ r = true)
     ∧ (OGR_GT_HasM g = true → OGR_GT_HasM r = true)).
Proof.
  induction ts as [|t ts IH]; intros g r Hg Hall Hm.
  - cbn in Hm. inversion Hm; subst. split; [constructor|].
    intros _. split_and!; auto. now left.
  - inversion Hall as [|? ? Ht Hts]; subst. cbn in Hm.
    destruct (merge_row_type g t) as [g'|] eqn:Hstep; [|discriminate].
    pose proof (merge_row_type_holds g t g' Hg Ht Hstep) as [Hrow Hold].
    pose proof (merge_row_type_proper g t g' Ht Hstep) as Hflat.
    assert (g' ≠ wkbNone_type) as Hne by (intros ->; now apply Hflat).
    destruct (IH g' r (merge_row_type_keeps_proper g t g' Ht Hstep) Hts Hm)
      as [Hrest Hg'].
    specialize (Hg' Hne) as (Hh & Hz & Hmm).
    split.
    + constructor; [|assumption].
      destruct Hrow as (Hh1 & Hz1 & Hm1).
      split_and!; eauto using held_by_trans.
    + intros Hgne. destruct (Hold Hgne) as (Hh1 & Hz1 & Hm1).
      split_and!; eauto using held_by_trans.
Qed.

Section GeometryColumnTypeTheorems.

Variable readWKB : list Byte.byte → OGRwkbGeometryType.
Variable readWKT : string → OGRwkbGeometryType.
Hypothesis HWKB : ∀ data, proper_type (readWKB data).
Hypothesis HWKT : ∀ osWKT, proper_type (readWKT osWKT).

(** X9.  The geometry type computed for a column depends on the types read
    from its rows, not on their order: two batches whose readable,
    non-null rows carry the same types, in any order, give the same column
    type from the same starting type. *)
Theorem geometry_column_type_ignores_row_order (L : LayerDefn)
    (b1 b2 : RecordBatch) (iGeomCol iBatchCol1 iBatchCol2 : Z)
    (eGeomType : OGRwkbGeometryType) :
  proper_type eGeomType →
  readable_types readWKB readWKT (GeomEncoding L iGeomCol)
    (column (columns b1) iBatchCol1) (seqZ 0 (num_rows b1))
  ≡ₚ readable_types readWKB readWKT (GeomEncoding L iGeomCol)
       (column (columns b2) iBatchCol2) (seqZ 0 (num_rows b2)) →
  ComputeGeometryColumnTypeProcessBatch readWKB readWKT L b1 iGeomCol
    iBatchCol1 eGeomType
  = ComputeGeometryColumnTypeProcessBatch readWKB readWKT L b2 iGeomCol
      iBatchCol2 eGeomType.
Proof.
  intros Hg Hperm. unfold ComputeGeometryColumnTypeProcessBatch.
  rewrite !process_rows_merge_types.
  rewrite (merge_types_Permutation _ _ Hperm eGeomType Hg);
    [reflexivity|].
  now apply readable_types_readable.
Qed.

(** X10.  Unless the computed column type is [wkbUnknown], it holds every
    row: each non-null row whose type can be read has the flat type of the
    column, or is a line string in a multi line string column or a polygon
    in a multi polygon column, and the column is Z (M) as soon as one row
    is. *)
Theorem geometry_column_type_holds_every_row (L : LayerDefn)
    (poBatch : RecordBatch) (iGeomCol iBatchCol : Z)
    (eGeomType : OGRwkbGeometryType) (i : Z) :
  let array := column (columns poBatch) iBatchCol in
  let eThisGeomType :=
    row_geometry_type readWKB readWKT (GeomEncoding L iGeomCol) array i in
  let result :=
    ComputeGeometryColumnTypeProcessBatch readWKB readWKT L poBatch
      iGeomCol iBatchCol eGeomType in
  proper_type eGeomType →
  wkbFlatten result ≠ wkbUnknown →
  0 ≤ i < num_rows poBatch →
  IsNull array i = false →
  eThisGeomType ≠ wkbNone_type →
  held_by (wkbFlatten eThisGeomType) (wkbFlatten result)
  ∧ (OGR_GT_HasZ eThisGeomType = true → OGR_GT_HasZ result = true)
  ∧ (OGR_GT_HasM eThisGeomType = true → OGR_GT_HasM result = true).
Proof.
  intros array this result Hg Hres Hi Hnull Hthis.
  subst result. unfold ComputeGeometryColumnTypeProcessBatch in *.
  rewrite process_rows_merge_types in *. fold array in Hres |- *.
  destruct (merge_types _ eGeomType) as [r|] eqn:Hm;
    [|now cbn in Hres].
  destruct (merge_types_holds _ _ _ Hg
              (readable_types_readable readWKB readWKT HWKB HWKT _ _ _) Hm)
    as [Hall _].
  rewrite List.Forall_forall in Hall. apply Hall.
  unfold readable_types. apply filter_In. split.
  - apply in_map. apply filter_In. split.
    + apply list_elem_of_In, elem_of_seqZ. lia.
    + now rewrite Hnull.
  - now apply bool_decide_eq_true.
Qed.

End GeometryColumnTypeTheorems.

Lemma sample_wkb_type_proper (data : list Byte.byte) :
  proper_type (sample_wkb_type data).
Proof.
  unfold sample_wkb_type. repeat case_match; try discriminate;
    intros _; reflexivity.
Qed.

Lemma geometry_column_type_ignores_row_order_witness :
  ComputeGeometryColumnTypeProcessBatch sample_wkb_type (λ _, wkbNone_type)
    geometry_only_layer lines_batch 0 0 wkbNone_type
  = ComputeGeometryColumnTypeProcessBatch sample_wkb_type
      (λ _, wkbNone_type) geometry_only_layer lines_batch_reordered 0 0
      wkbNone_type.
Proof.
  apply (geometry_column_type_ignores_row_order sample_wkb_type
           (λ _, wkbNone_type) sample_wkb_type_proper
           (λ _ _, eq_refl) geometry_only_layer lines_batch
           lines_batch_reordered 0 0 0 wkbNone_type).
  - intros _; reflexivity.
  - vm_compute. apply perm_swap.
Defined.

Lemma geometry_column_type_holds_every_row_witness :
  held_by wkbLineString wkbMultiLineString
  ∧ (false = true → false = true) ∧ (false = true → false = true).
Proof.
  apply (geometry_column_type_holds_every_row sample_wkb_type
           (λ _, wkbNone_type) sample_wkb_type_proper
           (λ _ _, eq_refl) geometry_only_layer lines_batch 0 0
           wkbNone_type 0).
  - intros _; reflexivity.
  - vm_compute. discriminate.
  - vm_compute. split; [discriminate|reflexivity].
  - reflexivity.
  - vm_compute. discriminate.
Defined.

(** ** Coded field domains *)

Lemma to_string_Z_inj (i j : Z) : to_string_Z i = to_string_Z j → i = j.
Proof. unfold to_string_Z. apply pretty_Z_inj. Qed.

(** X11.  The domain built from a dictionary enumerates exactly the
    non-null dictionary entries, each under the decimal writing of its
    index and with its string cut at the first NUL character, and no code
    is used twice. *)
Theorem BuildDomainFromBatch_enumerates_dictionary
    (dictionary : Array → Array) (osDomainName : string)
    (poBatch : RecordBatch) (iCol : Z) :
  let dict := dictionary (column (columns poBatch) iCol) in
  let asValues :=
    domain_enumeration
      (BuildDomainFromBatch dictionary osDomainName poBatch iCol) in
  NoDup (List.map pszCode asValues)
  ∧ ∀ code value,
      mkCodedValue code value ∈ asValues
      ↔ ∃ i, 0 ≤ i < string_array_length dict
             ∧ IsNull dict i = false
             ∧ code = to_string_Z i
             ∧ value = c_str (GetString dict i).
Proof.
  intros dict asValues. subst asValues. cbn [BuildDomainFromBatch
    domain_enumeration]. fold dict.
  split.
  - generalize (NoDup_seqZ 0 (string_array_length dict)).
    generalize (seqZ 0 (string_array_length dict)) as rows.
    induction rows as [|i rows IH]; intros Hnd; [constructor|].
    apply NoDup_cons in Hnd as [Hi Hnd]. cbn [flat_map].
    destruct (negb (IsNull dict i)); cbn [app List.map]; [|now apply IH].
    apply NoDup_cons. split; [|now apply IH].
    intros Hin. apply list_elem_of_In, in_map_iff in Hin as (cv & Hc & Hin).
    apply in_flat_map in Hin as (j & Hj & Hcv).
    destruct (negb (IsNull dict j)); [|destruct Hcv].
    destruct Hcv as [<-|[]]. cbn in Hc. apply to_string_Z_inj in Hc as ->.
    now apply Hi, list_elem_of_In.
  - intros code value. rewrite list_elem_of_In, in_flat_map. split.
    + intros (i & Hi & Hcv). exists i.
      apply list_elem_of_In, elem_of_seqZ in Hi.
      destruct (IsNull dict i); cbn in Hcv; [destruct Hcv|].
      destruct Hcv as [Hcv|[]]. injection Hcv as <- <-.
      split_and!; auto; lia.
    + intros (i & Hi & Hnull & -> & ->). exists i. split.
      * apply list_elem_of_In, elem_of_seqZ. lia.
      * rewrite Hnull. now left.
Qed.

(** ** Choice of the Arrow stream implementation *)

Lemma at_resize (st : list Z) (n : nat) (c : Z) :
  (length st ≤ n)%nat → at_ (resize n (-1) st) c = at_ st c.
Proof.
  intros Hn. unfold at_. rewrite !nth_lookup.
  destruct (decide (Z.to_nat c < length st)%nat) as [Hlt|Hge].
  - rewrite lookup_resize by lia. reflexivity.
  - rewrite (lookup_ge_None_2 st) by lia.
    destruct (decide (Z.to_nat c < n)%nat).
    + rewrite lookup_resize_new by lia. reflexivity.
    + rewrite lookup_resize_old by lia. reflexivity.
Qed.

Lemma at_insert (st : list Z) (c c' v : Z) :
  0 ≤ c → 0 ≤ c' → (Z.to_nat c < length st)%nat →
  at_ (<[Z.to_nat c := v]> st) c' = if decide (c' = c) then v else at_ st c'.
Proof.
  intros Hc Hc' Hlen. unfold at_. rewrite !nth_lookup.
  destruct (decide (c' = c)) as [->|Hne].
  - now rewrite list_lookup_insert_eq.
  - rewrite list_lookup_insert_ne by lia. reflexivity.
Qed.

Lemma at_lt_length (st : list Z) (c : Z) :
  0 ≤ c → 0 ≤ at_ st c → (Z.to_nat c < length st)%nat.
Proof.
  intros Hc Hat. unfold at_ in Hat.
  destruct (decide (Z.to_nat c < length st)%nat); [assumption|].
  rewrite nth_overflow in Hat by lia. lia.
Qed.

Lemma b2z_inj (a b : bool) : Z.b2z a = Z.b2z b → a = b.
Proof. now destruct a, b. Qed.

Lemma inconsistent_ignore_state_false (IsIgnored : Z → bool)
    (L : LayerDefn) (fields : list Z) :
  ∀ ignoredState,
    Forall (λ i, 0 ≤ at_ (field_path L i) 0) fields →
    inconsistent_ignore_state IsIgnored L fields ignoredState = false
    ↔ (∀ i, i ∈ fields →
         0 ≤ at_ ignoredState (at_ (field_path L i) 0) →
         at_ ignoredState (at_ (field_path L i) 0) = Z.b2z (IsIgnored i))
      ∧ (∀ i j, i ∈ fields → j ∈ fields →
           at_ (field_path L i) 0 = at_ (field_path L j) 0 →
           IsIgnored i = IsIgnored j).
Proof.
  induction fields as [|i rest IH]; intros st Hall.
  - cbn. split; [|reflexivity]. intros _.
    split; [intros ? Hin|intros ? ? Hin]; now apply elem_of_nil in Hin.
  - inversion Hall as [|? ? Hi Hrest]; subst.
    cbn [inconsistent_ignore_state].
    set (h := at_ (field_path L i) 0) in *.
    set (st' := if Z.of_nat (length st) <=? h
                then resize (Z.to_nat (h + 1)) (-1) st else st).
    assert (∀ c, at_ st' c = at_ st c) as Hst'.
    { intros c. subst st'. destruct (Z.leb_spec (Z.of_nat (length st)) h);
        [apply at_resize; lia|reflexivity]. }
    assert (Z.to_nat h < length st')%nat as Hlen.
    { subst st'. destruct (Z.leb_spec (Z.of_nat (length st)) h);
        [rewrite length_resize|]; lia. }
    rewrite Hst'.
    destruct (Z.ltb_spec (at_ st h) 0) as [Hneg|Hset].
    + rewrite (IH _ Hrest). split.
      * intros [Hstate Hpair]. split.
        -- intros j Hj Hpos. apply elem_of_cons in Hj as [->|Hj];
             [fold h in Hpos; lia|].
           rewrite List.Forall_forall in Hrest.
           pose proof (Hrest j (proj1 (list_elem_of_In _ _) Hj)) as Hhj.
           specialize (Hstate j Hj).
           rewrite at_insert, Hst' in Hstate by assumption.
           destruct (decide (at_ (field_path L j) 0 = h)) as [Heq|Hne];
             [rewrite Heq in Hpos; lia|auto].
        -- intros j k Hj Hk Hjk.
           rewrite List.Forall_forall in Hrest.
           assert (∀ j, j ∈ rest → at_ (field_path L j) 0 = h →
                        IsIgnored i = IsIgnored j) as Hij.
           { intros j' Hj' Heq.
             pose proof (Hrest j' (proj1 (list_elem_of_In _ _) Hj')) as Hhj.
             specialize (Hstate j' Hj').
             rewrite at_insert in Hstate by assumption.
             rewrite decide_True in Hstate by assumption.
             apply b2z_inj, Hstate. destruct (IsIgnored i); cbn; lia. }
           apply elem_of_cons in Hj as [->|Hj];
             apply elem_of_cons in Hk as [->|Hk]; auto.
           symmetry. auto.
      * intros [Hstate Hpair]. split.
        -- intros j Hj Hpos.
           rewrite List.Forall_forall in Hrest.
           pose proof (Hrest j (proj1 (list_elem_of_In _ _) Hj)) as Hhj.
           rewrite at_insert in Hpos |- * by assumption.
           destruct (decide (at_ (field_path L j) 0 = h)) as [Heq|Hne].
           ++ f_equal. apply Hpair;
                [apply list_elem_of_here|now apply list_elem_of_further
                |now symmetry].
           ++ rewrite Hst' in Hpos |- *.
              apply Hstate; [now apply list_elem_of_further|auto].
        -- intros j k Hj Hk. apply Hpair; now apply list_elem_of_further.
    + destruct (Z.eqb_spec (at_ st h) (Z.b2z (IsIgnored i))) as [Heq|Hne];
        cbn [negb].
      * rewrite (IH _ Hrest). split.
        -- intros [Hstate Hpair]. split.
           ++ intros j Hj Hpos. rewrite <- Hst' in Hpos |- *.
              apply elem_of_cons in Hj as [->|Hj]; [now rewrite Hst'|].
              now apply Hstate.
           ++ assert (∀ j, j ∈ rest → at_ (field_path L j) 0 = h →
                           IsIgnored i = IsIgnored j) as Hij.
              { intros j' Hj' Hh. specialize (Hstate j' Hj').
                rewrite Hh, Hst', Heq in Hstate.
                apply b2z_inj, Hstate. destruct (IsIgnored i); cbn; lia. }
              intros j k Hj Hk Hjk.
              apply elem_of_cons in Hj as [->|Hj];
                apply elem_of_cons in Hk as [->|Hk]; auto.
              symmetry. auto.
        -- intros [Hstate Hpair]. split.
           ++ intros j Hj Hpos. rewrite Hst' in Hpos |- *.
              apply Hstate; [now apply list_elem_of_further|auto].
           ++ intros j k Hj Hk. apply Hpair; now apply list_elem_of_further.
      * split; [discriminate|]. intros [Hstate _].
        exfalso. apply Hne.
        apply Hstate; [apply list_elem_of_here|]. fold h. lia.
Qed.

Lemma at_replicate (n : nat) (c : Z) : at_ (replicate n (-1)) c = -1.
Proof.
  unfold at_. rewrite nth_lookup.
  destruct (decide (Z.to_nat c < n)%nat).
  - now rewrite lookup_replicate_2.
  - rewrite (proj1 (lookup_replicate_None _ _ _)) by lia. reflexivity.
Qed.

(** X12.  The layer's own Arrow stream implementation is chosen exactly
    when the base implementation is not forced by configuration, every
    geometry field that is not ignored is WKB or WKT if WKB output is
    requested, attribute fields read from the same Arrow column are all
    ignored or all kept if fields are ignored, and an installed filter can
    be applied to the exported arrays. *)
Theorem UseRecordBatchBaseImplementation_false_iff
    (EQUAL : string → string → bool) (IsIgnored : Z → bool)
    (cfg_OGR_ARROW_STREAM_BASE_IMPL : bool) (pszReqGeomEncoding : string)
    (bCanPostFilter : bool) (L : LayerDefn) (F : Filters) :
  let nFields :=
    Z.of_nat (length (m_anMapFieldIndexToArrowColumn (ld_schema L))) in
  Forall (λ path, 0 ≤ at_ path 0)
    (m_anMapFieldIndexToArrowColumn (ld_schema L)) →
  UseRecordBatchBaseImplementation EQUAL IsIgnored
    cfg_OGR_ARROW_STREAM_BASE_IMPL pszReqGeomEncoding bCanPostFilter L F
  = false
  ↔ cfg_OGR_ARROW_STREAM_BASE_IMPL = false
    ∧ (EQUAL pszReqGeomEncoding "WKB" = true →
       ∀ i, 0 ≤ i < GetGeomFieldCount L →
            gfd_ignored (GetGeomFieldDefn L i) = false →
            GeomEncoding L i = WKB ∨ GeomEncoding L i = WKT)
    ∧ (m_bIgnoredFields L = true →
       ∀ i j, 0 ≤ i < nFields → 0 ≤ j < nFields →
              at_ (field_path L i) 0 = at_ (field_path L j) 0 →
              IsIgnored i = IsIgnored j)
    ∧ (is_Some (m_poAttrQuery F) ∨ is_Some (m_poFilterGeom F) →
       bCanPostFilter = true).
Proof.
  intros nFields Hpaths. unfold UseRecordBatchBaseImplementation.
  assert (Forall (λ i, 0 ≤ at_ (field_path L i) 0) (seqZ 0 nFields))
    as Hheads.
  { apply Forall_seqZ. intros i Hi. unfold field_path.
    rewrite List.Forall_forall in Hpaths. apply Hpaths.
    apply nth_In. subst nFields. lia. }
  pose proof (inconsistent_ignore_state_false IsIgnored L _
                (replicate (length (m_anMapFieldIndexToArrowColumn
                                      (ld_schema L))) (-1)) Hheads)
    as Hloop.
  fold nFields. fold nFields in Hloop.
  assert (incompatible_geometry_encoding L = false
          ↔ ∀ i, 0 ≤ i < GetGeomFieldCount L →
                 gfd_ignored (GetGeomFieldDefn L i) = false →
                 GeomEncoding L i = WKB ∨ GeomEncoding L i = WKT)
    as Hgeom.
  { unfold incompatible_geometry_encoding.
    rewrite <- not_true_iff_false, existsb_exists. split.
    - intros Hno i Hi Hign.
      destruct (decide (GeomEncoding L i = WKB)) as [|HnB]; [now left|].
      destruct (decide (GeomEncoding L i = WKT)) as [|HnT]; [now right|].
      exfalso. apply Hno. exists i. split.
      + apply list_elem_of_In, elem_of_seqZ. lia.
      + rewrite Hign. cbn. now rewrite !bool_decide_eq_true_2.
    - intros Hall (i & Hi & Hbad).
      apply list_elem_of_In, elem_of_seqZ in Hi.
      apply andb_true_iff in Hbad as [Hbad HnT].
      apply andb_true_iff in Hbad as [Hign HnB].
      apply negb_true_iff in Hign.
      apply bool_decide_eq_true in HnB, HnT.
      destruct (Hall i ltac:(lia) Hign); contradiction. }
  assert (inconsistent_ignore_state IsIgnored L (seqZ 0 nFields)
            (replicate (length (m_anMapFieldIndexToArrowColumn
                                  (ld_schema L))) (-1)) = false
          ↔ ∀ i j, 0 ≤ i < nFields → 0 ≤ j < nFields →
                   at_ (field_path L i) 0 = at_ (field_path L j) 0 →
                   IsIgnored i = IsIgnored j) as Hign.
  { rewrite Hloop. split.
    - intros [_ Hpair] i j Hi Hj. apply Hpair; apply elem_of_seqZ; lia.
    - intros Hpair. split.
      + intros i _ Hpos. rewrite at_replicate in Hpos. lia.
      + intros i j Hi Hj. apply elem_of_seqZ in Hi, Hj.
        apply Hpair; lia. }
  clear Hloop.
  assert ((bool_decide (is_Some (m_poAttrQuery F))
           || bool_decide (is_Some (m_poFilterGeom F)))
          && negb bCanPostFilter = false
          ↔ (is_Some (m_poAttrQuery F) ∨ is_Some (m_poFilterGeom F) →
             bCanPostFilter = true)) as Hfilter.
  { rewrite andb_false_iff, orb_false_iff, negb_false_iff,
      !bool_decide_eq_false.
    destruct bCanPostFilter; intuition discriminate. }
  rewrite <- Hfilter. clear Hfilter.
  destruct cfg_OGR_ARROW_STREAM_BASE_IMPL;
    [split; [discriminate|intros [? _]; discriminate]|].
  destruct (EQUAL pszReqGeomEncoding "WKB") eqn:Hreq,
    (incompatible_geometry_encoding L) eqn:Hinc,
    (m_bIgnoredFields L) eqn:Hig,
    (inconsistent_ignore_state _ _ _ _) eqn:Hst,
    ((bool_decide (is_Some (m_poAttrQuery F))
      || bool_decide (is_Some (m_poFilterGeom F)))
     && negb bCanPostFilter) eqn:Hf;
    cbn [andb]; (split;
      [ try discriminate; intros _;
        (split_and!;
         [ reflexivity
         | intros ?; first [discriminate | now apply Hgeom]
         | intros ?; first [discriminate | now apply Hign]
         | reflexivity ])
      | try reflexivity; intros (_ & Hg & Hi & Hf');
        first [ discriminate Hf'
              | specialize (Hg eq_refl); apply Hgeom in Hg; discriminate Hg
              | specialize (Hi eq_refl); apply Hign in Hi; discriminate Hi
              ] ]).
Qed.

Lemma UseRecordBatchBaseImplementation_false_iff_witness :
  UseRecordBatchBaseImplementation String.eqb (λ _, false) false "WKB" true
    struct_fields_layer no_filter = false
  ↔ false = false
    ∧ (String.eqb "WKB" "WKB" = true →
       ∀ i, 0 ≤ i < GetGeomFieldCount struct_fields_layer →
            gfd_ignored (GetGeomFieldDefn struct_fields_layer i) = false →
            GeomEncoding struct_fields_layer i = WKB
            ∨ GeomEncoding struct_fields_layer i = WKT)
    ∧ (m_bIgnoredFields struct_fields_layer = true →
       ∀ i j, 0 ≤ i < 2 → 0 ≤ j < 2 →
              at_ (field_path struct_fields_layer i) 0
              = at_ (field_path struct_fields_layer j) 0 →
              (λ _ : Z, false) i = (λ _ : Z, false) j)
    ∧ (is_Some (m_poAttrQuery no_filter)
       ∨ is_Some (m_poFilterGeom no_filter) → true = true).
Proof.
  apply (UseRecordBatchBaseImplementation_false_iff String.eqb (λ _, false)
           false "WKB" true struct_fields_layer no_filter).
  repeat constructor; vm_compute; discriminate.
Defined.

(** X13.  A layer that reports the fast-extent capability answers
    [GetExtent] on every geometry field at once, forced or not: the call
    succeeds and leaves the reading position, the filters and the cached
    extents as they were. *)
Theorem fast_extent_capability_means_immediate_extent
    (EQUAL : string → string → bool) (IsIgnored : Z → bool)
    (cfg_OGR_ARROW_STREAM_BASE_IMPL : bool) (pszReqGeomEncoding : string)
    (bCanPostFilter : bool) (core : OGRCore) (base : OGRLayerBase)
    (L : LayerDefn) (s : LayerState) (pszCap : string)
    (iGeomField : Z) (bForce : bool) :
  EQUAL pszCap OLCStringsAsUTF8 = false →
  EQUAL pszCap OLCFastGetArrowStream = false →
  TestCapability EQUAL IsIgnored cfg_OGR_ARROW_STREAM_BASE_IMPL
    pszReqGeomEncoding bCanPostFilter L s pszCap = true →
  0 ≤ iGeomField < GetGeomFieldCount L →
  ∃ sExtent,
    GetExtent core base L iGeomField bForce s = ExtentOK sExtent s.
Proof.
  intros Hutf8 Hstream Hcap Hi. unfold TestCapability in Hcap.
  rewrite Hutf8, Hstream in Hcap. cbn [andb] in Hcap.
  destruct (EQUAL pszCap OLCFastGetExtent); [|discriminate].
  rewrite forallb_forall in Hcap.
  specialize (Hcap iGeomField).
  rewrite bool_decide_eq_true in Hcap.
  destruct Hcap as [e He]; [apply list_elem_of_In, elem_of_seqZ; lia|].
  exists e. unfold GetExtent.
  destruct (Z.ltb_spec iGeomField 0); [lia|].
  destruct (Z.leb_spec (GetGeomFieldCount L) iGeomField); [lia|].
  cbn [orb]. now rewrite He.
Qed.

Lemma fast_extent_capability_means_immediate_extent_witness :
  ∃ sExtent,
    GetExtent scenario_core (constant_base EnvNone) struct_fields_layer 0
      false cached_extent_state
    = ExtentOK sExtent cached_extent_state.
Proof.
  apply (fast_extent_capability_means_immediate_extent String.eqb
           (λ _, false) false "" true scenario_core (constant_base EnvNone)
           struct_fields_layer cached_extent_state OLCFastGetExtent 0
           false).
  - reflexivity.
  - reflexivity.
  - reflexivity.
  - split; [lia|reflexivity].
Defined.

(** ** The Arrow stream without filter *)

Section UnfilteredStream.

Variable malloc_ok : Z → bool.
Variable TranslateWKT_chunks :
  list Byte.byte → bool → option (list (list Byte.byte)).
Variable ExportRecordBatch : RecordBatch → option ArrowArray.
Variable PostFilterArrowArray : Filters → option Z → ArrowArray → ArrowArray.
Variable L : LayerDefn.
Variable bGeometryEncodingWKB : bool.
Variable F : Filters.
Hypothesis Hnofilter : filter_active F = false.

(** One call on a cursor with a pending batch: the export of that batch,
    whole, and a cursor at its end. *)
Lemma GetNextArrowArray_unfiltered_step (fuel : nat) (c : Cursor)
    (b : RecordBatch) (rest : list RecordBatch) :
  m_bEOF c = false →
  -1 ≤ m_iRecordBatch c →
  pending_batches L c = b :: rest →
  match plain_export malloc_ok TranslateWKT_chunks ExportRecordBatch L
          bGeometryEncodingWKB b with
  | Some a =>
      ∃ c', GetNextArrowArray_loop malloc_ok TranslateWKT_chunks
              ExportRecordBatch PostFilterArrowArray L bGeometryEncodingWKB
              F (S fuel) c = Ret_array a c'
            ∧ m_bEOF c' = false ∧ -1 ≤ m_iRecordBatch c'
            ∧ pending_batches L c' = rest
  | None =>
      (∃ c', GetNextArrowArray_loop malloc_ok TranslateWKT_chunks
               ExportRecordBatch PostFilterArrowArray L
               bGeometryEncodingWKB F (S fuel) c = Ret_EIO c')
      ∨ (∃ c', GetNextArrowArray_loop malloc_ok TranslateWKT_chunks
                 ExportRecordBatch PostFilterArrowArray L
                 bGeometryEncodingWKB F (S fuel) c = Ret_ENOMEM c')
  end.
Proof.
  intros Heof Hrb Hpending.
  destruct (first_pending_batch L F c b rest Hrb Hpending)
    as (c1 & Hpull & Hb & Heof1 & Hidx & Hrb1 & Hdrop).
  cbn [GetNextArrowArray_loop]. rewrite Heof, Hpull. cbn [negb].
  rewrite Hb. cbn [default]. unfold plain_export.
  cbn -[reencode_geometries Z.add]. rewrite Hnofilter.
  destruct (ExportRecordBatch b) as [out_array|]; [|left; eauto].
  destruct (if bGeometryEncodingWKB then _ else _) as [converted|];
    [|right; eauto].
  eexists. split; [reflexivity|].
  unfold pending_batches.
  cbn [with_position m_bEOF m_iRecordBatch m_poBatch m_nIdxInBatch].
  rewrite Hb, Z.eqb_refl. split_and!; auto. congruence.
Qed.

(** X14.  With no filter installed, successive calls of the layer's own
    [GetNextArrowArray] hand over the pending batches one per call, each
    whole and in the order of the dataset, up to the first batch whose
    export fails; after the last batch the stream ends. *)
Theorem unfiltered_stream_exports_every_batch (n : nat) :
  ∀ c, m_bEOF c = false → -1 ≤ m_iRecordBatch c →
  read_arrays malloc_ok TranslateWKT_chunks ExportRecordBatch
    PostFilterArrowArray L bGeometryEncodingWKB F n c
  = take n (exports_until_error malloc_ok TranslateWKT_chunks
              ExportRecordBatch L bGeometryEncodingWKB
              (pending_batches L c)).
Proof.
  induction n as [|n IH]; intros c Heof Hrb; [reflexivity|].
  cbn [read_arrays]. unfold GetNextArrowArray.
  destruct (pending_batches L c) as [|b rest] eqn:Hpending.
  - destruct (no_pending_batch malloc_ok TranslateWKT_chunks
                ExportRecordBatch PostFilterArrowArray L
                bGeometryEncodingWKB F (S (length (ds_batches L))) c
                Heof Hrb Hpending) as (c' & -> & _).
    reflexivity.
  - pose proof (GetNextArrowArray_unfiltered_step
                  (S (length (ds_batches L))) c b rest Heof Hrb Hpending)
      as Hstep.
    cbn [exports_until_error].
    destruct (plain_export _ _ _ _ _ b) as [a|].
    + destruct Hstep as (c' & -> & Heof' & Hrb' & Hrest).
      cbn [take]. rewrite (IH c' Heof' Hrb'), Hrest. reflexivity.
    + destruct Hstep as [[c' ->]|[c' ->]]; reflexivity.
Qed.

End UnfilteredStream.

Lemma unfiltered_stream_exports_every_batch_witness :
  read_arrays (λ _, true) (λ _ _, None) sample_export (λ _ _ a, a)
    two_batch_layer false no_filter 5 initial_cursor
  = take 5 (exports_until_error (λ _, true) (λ _ _, None) sample_export
              two_batch_layer false
              (pending_batches two_batch_layer initial_cursor)).
Proof.
  apply (unfiltered_stream_exports_every_batch (λ _, true) (λ _ _, None)
           sample_export (λ _ _ a, a) two_batch_layer false no_filter
           eq_refl 5 initial_cursor).
  - reflexivity.
  - vm_compute. discriminate.
Defined.

(** ** Iteration under a spatial filter, GeoArrow encodings *)

Section SpatialFilterIteration.

Variable core : OGRCore.
Variable L : LayerDefn.
Variable F : Filters.
Hypothesis Hgeom : is_Some (m_poFilterGeom F).
Hypothesis Hflag : m_bSpatialFilterIntersectsLayerExtent F = true.
Hypothesis Hcol : 0 ≤ geom_column L (m_iGeomFieldFilter F).
Hypothesis Henc : GeomEncoding L (m_iGeomFieldFilter F) ≠ WKB.

Lemma breaks_multipolygon_row (iCol : Z) (c : Cursor) :
  breaks_multipolygon core L F iCol c
  = breaks_multipolygon core L F iCol
      (cursor_on (m_nFeatureIdx c, m_nIdxInBatch c, m_poBatchColumns c)).
Proof. reflexivity. Qed.

Lemma breaks_generic_row (iCol : Z) (c : Cursor) :
  breaks_generic core L F iCol c
  = breaks_generic core L F iCol
      (cursor_on (m_nFeatureIdx c, m_nIdxInBatch c, m_poBatchColumns c)).
Proof. reflexivity. Qed.

(** The record built on leaving the row loop, and the cursor after it. *)
Lemma decode_at_positioned (c : Cursor) (r : Row) (later : list Row) :
  positioned L c (r :: later) →
  RawFeature
    (if m_iFIDArrowColumn L <? 0
     then SetFID (ReadFeature core L (m_nIdxInBatch c) (m_poBatchColumns c))
            (m_nFeatureIdx c)
     else ReadFeature core L (m_nIdxInBatch c) (m_poBatchColumns c))
    (next_row c)
  = RawFeature (decode_row core L r) (next_row c)
  ∧ between_rows L F (next_row c) later.
Proof.
  intros Hc. destruct (positioned_step L F c r later Hc)
    as (-> & _ & He & Hnext).
  split; [reflexivity|]. split; assumption.
Qed.

(** One call of [GetNextRawFeature]: the next row kept by the exit test,
    decoded, or [nullptr] when no such row is left. *)
Lemma GetNextRawFeature_next_kept_row (c : Cursor) (rem : list Row) :
  between_rows L F c rem →
  match filter (λ r, row_kept core L F r = true) rem with
  | [] => ∃ c', GetNextRawFeature core L F c = RawNull c'
  | r :: kept =>
      ∃ c' later,
        GetNextRawFeature core L F c = RawFeature (decode_row core L r) c'
        ∧ between_rows L F c' later
        ∧ filter (λ r, row_kept core L F r = true) later = kept
  end.
Proof.
  intros [Heof Hrem]. unfold GetNextRawFeature.
  rewrite Heof, Hflag. cbn [negb orb].
  change (if negb (bool_decide (is_Some (m_poBatch c)))
             || (m_nIdxInBatch c =? batch_rows c)
          then read_next_or_EOF L F c else c)
    with (pull_if_needed L F c).
  destruct Hrem as [[-> Heof']|Hpos].
  - rewrite Heof'. cbn. eauto.
  - assert (Heof' : m_bEOF (pull_if_needed L F c) = false)
      by (destruct Hpos as (? & ? & ? & _); assumption).
    rewrite Heof'. destruct Hgeom as [g ->].
    destruct (Z.leb_spec 0 (geom_column L (m_iGeomFieldFilter F)))
      as [_|?]; [|lia].
    rewrite (bool_decide_false _ Henc). cbn [andb].
    assert (Hlen : (length rem ≤ loop_fuel L)%nat).
    { destruct Hpos as (? & ? & _ & _ & _ & _ & _ & _ & _ & _ & Hlen).
      lia. }
    assert (∃ breaks,
              (if bool_decide (GeomEncoding L (m_iGeomFieldFilter F)
                               = GEOARROW_MULTIPOLYGON)
               then skip_loop L F
                      (breaks_multipolygon core L F
                         (geom_column L (m_iGeomFieldFilter F)))
                      (loop_fuel L) (pull_if_needed L F c)
               else skip_loop L F
                      (breaks_generic core L F
                         (geom_column L (m_iGeomFieldFilter F)))
                      (loop_fuel L) (pull_if_needed L F c))
              = skip_loop L F breaks (loop_fuel L) (pull_if_needed L F c)
              ∧ ∀ c, breaks c
                     = row_kept core L F
                         (m_nFeatureIdx c, m_nIdxInBatch c,
                          m_poBatchColumns c))
      as (breaks & -> & Hbreaks).
    { unfold row_kept.
      destruct (bool_decide (GeomEncoding L (m_iGeomFieldFilter F)
                             = GEOARROW_MULTIPOLYGON));
        eexists; split; try reflexivity; intros; reflexivity. }
    pose proof (skip_loop_first_kept L F breaks (row_kept core L F)
                  Hbreaks rem (loop_fuel L) (pull_if_needed L F c) Hpos
                  Hlen) as Hloop.
    destruct (filter (λ r, row_kept core L F r = true) rem) as [|r kept].
    + destruct Hloop as (c' & -> & _). eauto.
    + destruct Hloop as (c' & later & -> & Hc' & Hkept).
      destruct (decode_at_positioned c' r later Hc') as [-> Hbetween].
      exists (next_row c'), later. auto.
Qed.

Lemma read_features_kept_rows (n : nat) :
  ∀ (c : Cursor) (rem : list Row),
    between_rows L F c rem →
    read_features core L F n c
    = take n (List.map (decode_row core L)
                (filter (λ r, row_kept core L F r = true) rem)).
Proof.
  induction n as [|n IH]; intros c rem Hbetween; [reflexivity|].
  pose proof (GetNextRawFeature_next_kept_row c rem Hbetween) as Hnext.
  cbn [read_features].
  destruct (filter (λ r, row_kept core L F r = true) rem) as [|r kept].
  - destruct Hnext as [c' ->]. reflexivity.
  - destruct Hnext as (c' & later & -> & Hc' & <-).
    cbn [List.map take]. f_equal. apply IH. exact Hc'.
Qed.

(** X16.  With a spatial filter on a geometry column that is not WKB,
    iterating from a rewound cursor yields, decoded and in the order of
    the dataset, exactly the rows on which the exit test of the row loop
    holds: the rows whose geometry is neither null nor empty and has an
    envelope intersecting the filter envelope, and also the rows that pass
    the attribute constraints when there are some. *)
Theorem iteration_under_spatial_filter (c : Cursor) (n : nat) :
  Forall (λ b, 0 < num_rows b) (ds_batches L) →
  cursor_ok L c →
  read_features core L F n (ResetReading c)
  = take n (List.map (decode_row core L)
              (filter (λ r, row_kept core L F r = true)
                      (all_rows 0 (ds_batches L)))).
Proof.
  intros Hpos Hok. apply read_features_kept_rows.
  apply ResetReading_between_rows; assumption.
Qed.

End SpatialFilterIteration.

Lemma iteration_under_spatial_filter_witness :
  read_features scenario_core geoarrow_point_layer filter_point_3_4 5
    (ResetReading initial_cursor)
  = take 5 (List.map (decode_row scenario_core geoarrow_point_layer)
              (filter (λ r, row_kept scenario_core geoarrow_point_layer
                              filter_point_3_4 r = true)
                      (all_rows 0 (ds_batches geoarrow_point_layer)))).
Proof.
  apply (iteration_under_spatial_filter scenario_core geoarrow_point_layer
           filter_point_3_4 (mk_is_Some _ _ eq_refl) eq_refl).
  - vm_compute. discriminate.
  - discriminate.
  - repeat constructor.
  - intros Hrb. discriminate Hrb.
Defined.

(** ** A spatial filter outside the layer extent *)

(** X15.  When the extent of the filtered geometry field is known without
    a scan (cached, or from the metadata) and the envelope of the new
    filter geometry does not intersect it, the layer returns no record
    after [SetSpatialFilter], and does so without reading a batch or
    moving the cursor. *)
Theorem spatial_filter_outside_extent_yields_nothing (core : OGRCore)
    (L : LayerDefn) (s : LayerState) (iGeomField : Z)
    (poGeomIn : OGRGeometry) (sLayerExtent : OGREnvelope) (n : nat) :
  0 ≤ iGeomField < GetGeomFieldCount L →
  FastGetExtent L s iGeomField = Some sLayerExtent →
  Intersects (getEnvelope poGeomIn) sLayerExtent = false →
  let s' := SetSpatialFilter L iGeomField (Some poGeomIn) s in
  GetNextRawFeature core L (ls_filters s') (ls_cursor s')
  = RawNull (ls_cursor s')
  ∧ read_features core L (ls_filters s') (S n) (ls_cursor s') = [].
Proof.
  intros Hi Hextent Hmiss s'.
  assert (m_bSpatialFilterIntersectsLayerExtent (ls_filters s') = false)
    as Hflag.
  { subst s'. unfold SetSpatialFilter.
    destruct (Z.ltb_spec iGeomField 0) as [?|_]; [lia|].
    destruct (Z.leb_spec (GetGeomFieldCount L) iGeomField) as [?|_]; [lia|].
    destruct (Z.ltb_spec iGeomField (GetGeomFieldCount L)) as [_|?]; [|lia].
    cbn [orb andb]. rewrite Hextent.
    unfold InstallFilter. cbn.
    destruct (m_poFilterGeom (ls_filters s)); cbn; exact Hmiss. }
  assert (GetNextRawFeature core L (ls_filters s') (ls_cursor s')
          = RawNull (ls_cursor s')) as Hnull.
  { unfold GetNextRawFeature. rewrite Hflag.
    now rewrite orb_true_r. }
  split; [exact Hnull|]. cbn [read_features]. now rewrite Hnull.
Qed.

Lemma spatial_filter_outside_extent_yields_nothing_witness :
  let s' := SetSpatialFilter struct_fields_layer 0
              (Some (OGRPoint_xy 30 40)) cached_extent_state in
  GetNextRawFeature scenario_core struct_fields_layer (ls_filters s')
    (ls_cursor s') = RawNull (ls_cursor s')
  ∧ read_features scenario_core struct_fields_layer (ls_filters s') 1
      (ls_cursor s') = [].
Proof.
  apply (spatial_filter_outside_extent_yields_nothing scenario_core
           struct_fields_layer cached_extent_state 0 (OGRPoint_xy 30 40)
           (Env 1 5 2 6) 0).
  - split; [lia|reflexivity].
  - reflexivity.
  - reflexivity.
Defined.

(** ** The validity bitmap of the re-encoded array *)

Lemma testbit_fold_set_bits (cond : Z → bool) (js : list Z) :
  ∀ byte j0,
    0 ≤ j0 → Forall (λ j, 0 ≤ j) js →
    Z.testbit
      (foldl (λ byte j, if cond j then Z.lor byte (Z.shiftl 1 j) else byte)
             byte js) j0
    = Z.testbit byte j0 || (bool_decide (j0 ∈ js) && cond j0).
Proof.
  induction js as [|j js IH]; intros byte j0 Hj0 Hjs.
  - cbn. now rewrite orb_false_r.
  - apply Forall_cons in Hjs as [Hj Hjs]. cbn [foldl].
    rewrite IH by assumption.
    destruct (decide (j0 = j)) as [->|Hne].
    + rewrite (bool_decide_true (j ∈ j :: js)) by apply list_elem_of_here.
      destruct (cond j) eqn:Hc.
      * rewrite Z.lor_spec, Z.shiftl_1_l, Z.pow2_bits_true by lia.
        cbn. now rewrite !orb_true_r.
      * cbn [andb]. rewrite orb_false_r.
        destruct (bool_decide (j ∈ js)); cbn; now rewrite orb_false_r.
    + assert (bool_decide (j0 ∈ j :: js) = bool_decide (j0 ∈ js)) as ->.
      { apply bool_decide_ext. rewrite elem_of_cons. tauto. }
      destruct (cond j); [|reflexivity].
      rewrite Z.lor_spec, Z.shiftl_1_l, Z.pow2_bits_false by lia.
      now rewrite orb_false_r.
Qed.

(** X17.  The validity bitmap built for the target array holds, at bit
    [i], bit [i + nOffset] of the source bitmap, for every row [i] of the
    array: the bitmap of a sliced source array is re-based to offset
    zero. *)
Theorem copy_validity_rebases_bits (sourceNull : list Z)
    (nOffset nLength i : Z) :
  0 ≤ nOffset → 0 ≤ i < nLength →
  bitmap_bit (copy_validity sourceNull nOffset nLength) i
  = bitmap_bit sourceNull (i + nOffset).
Proof.
  intros Hoff Hi. unfold copy_validity, bitmap_bit.
  assert (0 ≤ i / 8 < (nLength + 7) / 8) as Hk.
  { split; [apply Z.div_pos; lia|].
    apply Z.div_lt_upper_bound; [lia|].
    pose proof (Z.mul_div_le (nLength + 7) 8 ltac:(lia)).
    pose proof (Z.mod_pos_bound (nLength + 7) 8 ltac:(lia)).
    pose proof (Z.div_mod (nLength + 7) 8 ltac:(lia)). lia. }
  assert (∀ f : Z → Z,
            nth (Z.to_nat (i / 8))
              (List.map f (seqZ 0 ((nLength + 7) / 8))) 0 = f (i / 8))
    as Hnth.
  { intros f. rewrite nth_lookup, list_lookup_fmap.
    rewrite lookup_seqZ_lt by lia. cbn. f_equal. lia. }
  destruct (Z.eqb_spec nOffset 0) as [->|Hne].
  - rewrite Hnth, Z.add_0_r. reflexivity.
  - rewrite Hnth.
    pose proof (Z.mod_pos_bound i 8 ltac:(lia)) as Hj.
    rewrite (testbit_fold_set_bits
               (λ j, (8 * (i / 8) + j <? nLength)
                     && Z.testbit
                          (nth (Z.to_nat ((8 * (i / 8) + j + nOffset) / 8))
                               sourceNull 0)
                          ((8 * (i / 8) + j + nOffset) mod 8)))
      by (try lia; apply Forall_seqZ; lia).
    rewrite Z.bits_0. cbn [orb].
    rewrite bool_decide_true by (apply elem_of_seqZ; lia).
    cbn [andb].
    replace (8 * (i / 8) + i mod 8) with i
      by (pose proof (Z.div_mod i 8 ltac:(lia)); lia).
    destruct (Z.ltb_spec i nLength); [reflexivity|lia].
Qed.

Lemma copy_validity_rebases_bits_witness :
  bitmap_bit (copy_validity [5; 3] 3 9) 5 = bitmap_bit [5; 3] (5 + 3).
Proof.
  apply (copy_validity_rebases_bits [5; 3] 3 9 5); lia.
Defined.

(** ** The rows of the re-encoded array *)

Lemma cell_starts_layout (cells : list (list Byte.byte)) :
  ∀ (start : Z) (pre : list Byte.byte) (k : nat),
    Z.of_nat (length pre) = start →
    (k < length cells)%nat →
    source_cell
      (cell_starts start cells
       ++ [start + Z.of_nat (length (concat cells))])
      (pre ++ concat cells) (Z.of_nat k)
    = nth k cells [].
Proof.
  induction cells as [|cell cells IH]; intros start pre k Hpre Hk;
    [cbn in Hk; lia|].
  unfold source_cell in *.
  destruct k as [|k].
  - replace (Z.to_nat (Z.of_nat 0)) with 0%nat by lia.
    replace (Z.to_nat (Z.of_nat 0 + 1)) with 1%nat by lia.
    cbn [cell_starts concat app nth].
    assert (nth 0 (cell_starts (start + Z.of_nat (length cell)) cells
                   ++ [start + Z.of_nat (length (cell ++ concat cells))]) 0
            = start + Z.of_nat (length cell)) as ->.
    { destruct cells; cbn; rewrite ?length_app, ?app_nil_r; cbn; lia. }
    replace (start + Z.of_nat (length cell) - start)
      with (Z.of_nat (length cell)) by lia.
    rewrite Nat2Z.id. subst start. rewrite Nat2Z.id.
    rewrite drop_app_length, take_app_length. reflexivity.
  - replace (Z.to_nat (Z.of_nat (S k))) with (S k) by lia.
    replace (Z.to_nat (Z.of_nat (S k) + 1)) with (S (S k)) by lia.
    cbn [cell_starts concat app nth].
    specialize (IH (start + Z.of_nat (length cell)) (pre ++ cell) k).
    replace (Z.to_nat (Z.of_nat k)) with k in IH by lia.
    replace (Z.to_nat (Z.of_nat k + 1)) with (S k) in IH by lia.
    rewrite <- app_assoc in IH.
    replace (start + Z.of_nat (length (cell ++ concat cells)))
      with (start + Z.of_nat (length cell)
            + Z.of_nat (length (concat cells)))
      by (rewrite length_app; lia).
    apply IH; [rewrite length_app; lia|cbn in Hk; lia].
Qed.

Section RowsOfTheWKBArray.

Variable malloc_ok : Z → bool.
Variable TranslateWKT_chunks :
  list Byte.byte → bool → option (list (list Byte.byte)).

(** The row loop lays the translations of the rows out one after the
    other and writes their start offsets. *)
Lemma translate_rows_cells (targetNull : option (list Z))
    (sourceOffsets : list Z) (sourceBytes : list Byte.byte) (nLength : Z)
    (rows : list Z) :
  ∀ (targetOffsets : list Z) (b : OGRAppendBuffer)
    (targetOffsets' : list Z) (b' : OGRAppendBuffer),
    buffer_ok b →
    translate_rows malloc_ok TranslateWKT_chunks targetNull sourceOffsets
      sourceBytes nLength rows targetOffsets b = inr (targetOffsets', b') →
    ∃ cells,
      Forall2 (λ i cell,
                 row_translation TranslateWKT_chunks targetNull
                   sourceOffsets sourceBytes nLength i = Some cell)
              rows cells
      ∧ buffer_ok b'
      ∧ m_pRawBuffer b' = m_pRawBuffer b ++ concat cells
      ∧ targetOffsets' = targetOffsets ++ cell_starts (m_nSize b) cells.
Proof.
  induction rows as [|i rows IH];
    intros targetOffsets b targetOffsets' b' Hok Hrun; cbn in Hrun.
  - injection Hrun as <- <-. exists []. cbn.
    rewrite !app_nil_r. auto.
  - destruct (GetSize_in_range b Hok) as [Hsize _]. rewrite Hsize in Hrun.
    unfold row_translation.
    destruct (match targetNull with
              | Some bits => negb (bitmap_bit bits i)
              | None => false
              end) eqn:Hnull.
    + destruct (IH _ _ _ _ Hok Hrun) as (cells & Hcells & Hok' & Hraw & Hoffs).
      exists ([] :: cells). cbn [concat app cell_starts length Z.of_nat].
      rewrite Z.add_0_r, <- app_assoc in *. cbn [app] in Hoffs.
      split_and!; auto. constructor; [|exact Hcells].
      now rewrite Hnull.
    + unfold TranslateWKT in Hrun.
      destruct (TranslateWKT_chunks _ _) as [chunks|] eqn:Hchunks;
        [|discriminate].
      pose proof (append_chunks_spec malloc_ok chunks b Hok) as Ha.
      destruct (append_chunks malloc_ok b chunks) as [e|b1];
        [discriminate|].
      destruct Ha as (Hok1 & Hraw1).
      destruct (IH _ _ _ _ Hok1 Hrun) as (cells & Hcells & Hok' & Hraw & Hoffs).
      exists (concat chunks :: cells). cbn [concat app cell_starts].
      assert (m_nSize b1 = m_nSize b + Z.of_nat (length (concat chunks)))
        as Hsize1.
      { destruct Hok as (_ & _ & _ & Hl), Hok1 as (_ & _ & _ & Hl1).
        rewrite <- Hl1, <- Hl, Hraw1, length_app. lia. }
      rewrite <- Hsize1. rewrite <- app_assoc in Hoffs. cbn [app] in Hoffs.
      split_and!; auto.
      * constructor; [|exact Hcells]. rewrite Hnull, Hchunks. reflexivity.
      * rewrite Hraw, Hraw1, <- app_assoc. reflexivity.
Qed.

(** X18.  When the WKB array is built, each of its rows holds the WKB
    translation of the same row of the WKT array: the bytes between the
    target offsets [i] and [i + 1] are what the translator produced for
    the WKT text of row [i], and nothing for a null row. *)
Theorem CreateWKBArrayFromWKTArray_rows_are_translations
    (sourceArray targetArray : ArrowArray) (b : OGRAppendBuffer) (i : Z) :
  let nLength := size_t (aa_length sourceArray) in
  CreateWKBArrayFromWKTArray malloc_ok TranslateWKT_chunks sourceArray
  = inr (targetArray, b) →
  0 ≤ i < nLength →
  row_translation TranslateWKT_chunks (aa_validity targetArray)
    (drop (Z.to_nat (size_t (aa_offset sourceArray)))
          (aa_offsets sourceArray))
    (aa_data sourceArray) nLength i
  = Some (source_cell (aa_offsets targetArray) (aa_data targetArray) i).
Proof.
  intros nLength Hbuild Hi. unfold CreateWKBArrayFromWKTArray in Hbuild.
  fold nLength in Hbuild.
  match type of Hbuild with
  | context [translate_rows _ _ ?tn] => set (targetNull := tn) in *
  end.
  destruct (_ || _ || _); [discriminate|].
  assert (Hok0 : buffer_ok (mkAppendBuffer (initial_capacity nLength) 0 [])).
  { pose proof (initial_capacity_in_range nLength).
    unfold buffer_ok; cbn. lia. }
  destruct (translate_rows _ _ _ _ _ _ _ _ _) as [e|[offs b1]] eqn:Hrun;
    [discriminate|].
  injection Hbuild as <- <-.
  destruct (translate_rows_cells _ _ _ _ _ _ _ _ _ Hok0 Hrun)
    as (cells & Hcells & Hok & Hraw & Hoffs).
  cbn [aa_validity aa_offsets aa_data].
  cbn [m_pRawBuffer m_nSize app] in Hraw, Hoffs.
  destruct (GetSize_in_range b1 Hok) as [-> _].
  assert (m_nSize b1 = 0 + Z.of_nat (length (concat cells))) as ->.
  { destruct Hok as (_ & _ & _ & <-). rewrite Hraw. lia. }
  rewrite Hraw, Hoffs.
  pose proof (Forall2_length _ _ _ Hcells) as Hlen.
  rewrite length_seqZ in Hlen.
  pose proof (cell_starts_layout cells 0 [] (Z.to_nat i) eq_refl
                ltac:(lia)) as Hlayout.
  cbn [app] in Hlayout. rewrite Z2Nat.id in Hlayout by lia.
  rewrite Hlayout.
  assert (seqZ 0 nLength !! Z.to_nat i = Some i) as Hrow.
  { rewrite lookup_seqZ. lia. }
  destruct (Forall2_lookup_l _ _ _ _ _ Hcells Hrow) as (cell & Hcell & ->).
  now rewrite (nth_lookup_Some _ _ _ _ Hcell).
Qed.

End RowsOfTheWKBArray.

Lemma CreateWKBArrayFromWKTArray_rows_are_translations_witness :
  row_translation header_and_text (aa_validity wkb_target_array)
    (drop (Z.to_nat (size_t (aa_offset wkt_source_array)))
          (aa_offsets wkt_source_array))
    (aa_data wkt_source_array) (size_t (aa_length wkt_source_array)) 2
  = Some (source_cell (aa_offsets wkb_target_array)
            (aa_data wkb_target_array) 2).
Proof.
  apply (CreateWKBArrayFromWKTArray_rows_are_translations (λ _, true)
           header_and_text wkt_source_array wkb_target_array
           (mkAppendBuffer 300 5 [x01; x41; x01; x42; x43]) 2).
  - vm_compute. reflexivity.
  - vm_compute. split; [discriminate|reflexivity].
Defined.

(** ** Consistency of the attribute schema *)

Lemma DataType_struct_ind (P : DataType → Prop) :
  (∀ t, (∀ children, t ≠ TStruct children) → P t) →
  (∀ children, Forall (λ c : string * DataType * bool, P c.1.2) children →
               P (TStruct children)) →
  ∀ t, P t.
Proof.
  intros Hother Hstruct.
  fix IH 1. intros t.
  destruct t as [| | | | | | | |children| |];
    try (apply Hother; intros ?; discriminate).
  apply Hstruct.
  induction children as [|[[cname ctype] cnullable] children IHc];
    constructor; [apply IH|exact IHc].
Qed.

Section SchemaProperties.

Variable OGRTimezoneToTZFlag : string → bool → Z.

Lemma MapArrowTypeToOGR_switch_keeps (type : DataType) (field : Field)
    (oField : OGRFieldDefn) (eType : OGRFieldType)
    (eSubType : OGRFieldSubType) :
  let r := MapArrowTypeToOGR_switch OGRTimezoneToTZFlag type field oField
             eType eSubType in
  GetNameRef r.1.2 = GetNameRef oField
  ∧ GetDomainName r.1.2 = GetDomainName oField
  ∧ (IsIntegerArrowType (id type) = true → r.1.1.1.1 = true)
  ∧ (id type = DOUBLE → r.1.1.1.2 = OFTReal).
Proof.
  unfold MapArrowTypeToOGR_switch.
  destruct (id type) eqn:Hid; cbn; try (split_and!; auto; discriminate);
    repeat case_match; cbn; split_and!; auto; discriminate.
Qed.

Lemma merge_gdal_schema_keeps (poGDALFieldDefn : OGRFieldDefn)
    (fieldName : string) (eType : OGRFieldType)
    (eSubType : OGRFieldSubType) (oField : OGRFieldDefn) :
  let r := merge_gdal_schema poGDALFieldDefn fieldName eType eSubType
             oField in
  GetNameRef r.1.2 = GetNameRef oField
  ∧ GetDomainName r.1.2 = GetDomainName oField
  ∧ GetType r.1.2 = GetType oField.
Proof.
  unfold merge_gdal_schema. repeat case_match; cbn; auto.
Qed.

Lemma bbox_field_ok_app (s s' : SchemaState) (idx : Z) (k : string)
    (added : list OGRFieldDefn) :
  m_poFeatureDefn_fields s' = m_poFeatureDefn_fields s ++ added →
  bbox_field_ok s idx k → bbox_field_ok s' idx k.
Proof.
  intros Hfields Hok Hidx. destruct (Hok Hidx) as (f & Hf & Hname & Htype).
  exists f. rewrite Hfields. split_and!; auto.
  now apply lookup_app_l_Some.
Qed.

Lemma bbox_field_ok_new (s' : SchemaState) (fields : list OGRFieldDefn)
    (f : OGRFieldDefn) (k : string) :
  m_poFeatureDefn_fields s' = fields ++ [f] →
  GetNameRef f = k → GetType f = OFTReal →
  bbox_field_ok s' (Z.of_nat (length fields)) k.
Proof.
  intros Hfields Hname Htype _. exists f. rewrite Hfields, Nat2Z.id.
  split_and!; auto. rewrite lookup_app_r by lia.
  now rewrite Nat.sub_diag.
Qed.

(** One call of [MapArrowTypeToOGR]: it adds no field, or one field with
    the path given, and moves a bbox index only to the field it adds. *)
Lemma MapArrowTypeToOGR_step (type : DataType) (field : Field)
    (oField : OGRFieldDefn) (eType : OGRFieldType)
    (eSubType : OGRFieldSubType) (path : list Z)
    (overrides : gmap string OGRFieldDefn) (s : SchemaState) :
  let s' :=
    mr_state (MapArrowTypeToOGR OGRTimezoneToTZFlag type field oField eType
                eSubType path overrides s) in
  GetNameRef oField = c_str (name field) →
  m_domains s' = m_domains s
  ∧ (∃ added,
       m_poFeatureDefn_fields s' = m_poFeatureDefn_fields s ++ added
       ∧ m_anMapFieldIndexToArrowColumn s'
         = m_anMapFieldIndexToArrowColumn s ++ List.map (λ _, path) added
       ∧ Forall (λ f, GetDomainName f = GetDomainName oField) added
       ∧ (IsIntegerArrowType (id type) = true → length added = 1%nat))
  ∧ (bbox_field_ok s (m_iBBOXMinXField s) "bbox.minx" →
     bbox_field_ok s' (m_iBBOXMinXField s') "bbox.minx")
  ∧ (bbox_field_ok s (m_iBBOXMinYField s) "bbox.miny" →
     bbox_field_ok s' (m_iBBOXMinYField s') "bbox.miny")
  ∧ (bbox_field_ok s (m_iBBOXMaxXField s) "bbox.maxx" →
     bbox_field_ok s' (m_iBBOXMaxXField s') "bbox.maxx")
  ∧ (bbox_field_ok s (m_iBBOXMaxYField s) "bbox.maxy" →
     bbox_field_ok s' (m_iBBOXMaxYField s') "bbox.maxy").
Proof.
  intros s' Hname. subst s'. unfold MapArrowTypeToOGR.
  pose proof (MapArrowTypeToOGR_switch_keeps type field oField eType
                eSubType) as Hsw.
  destruct (MapArrowTypeToOGR_switch _ type field oField eType eSubType)
    as [[[[ok eT] eS] oF] diags].
  cbn in Hsw. destruct Hsw as (HswName & HswDom & HswInt & HswReal).
  destruct ok; cbn [negb].
  - set (merged := match overrides !! name field with
                   | Some poGDALFieldDefn =>
                       merge_gdal_schema poGDALFieldDefn (name field) eT eS
                         (SetType eT oF)
                   | None => (eS, SetType eT oF, [])
                   end).
    assert (GetNameRef merged.1.2 = c_str (name field)
            ∧ GetDomainName merged.1.2 = GetDomainName oField
            ∧ GetType merged.1.2 = eT) as (HmName & HmDom & HmType).
    { subst merged. destruct (overrides !! name field) as [g|].
      - destruct (merge_gdal_schema_keeps g (name field) eT eS
                    (SetType eT oF)) as (-> & -> & ->).
        cbn. split_and!; congruence.
      - cbn. split_and!; congruence. }
    destruct merged as [[eS' oF'] dbg]. cbn in HmName, HmDom, HmType.
    cbn [mr_state m_domains m_poFeatureDefn_fields
         m_anMapFieldIndexToArrowColumn m_iBBOXMinXField m_iBBOXMinYField
         m_iBBOXMaxXField m_iBBOXMaxYField].
    set (f := SetNullable (nullable field) (SetSubType eS' oF')).
    assert (GetNameRef f = c_str (name field)) as HfName by exact HmName.
    assert (GetType f = eT) as HfType by exact HmType.
    split; [reflexivity|]. split.
    { exists [f]. cbn. split_and!; auto. }
    assert (∀ k old,
              bbox_field_ok s old k →
              bbox_field_ok
                (mkSchemaState (m_poFeatureDefn_fields s ++ [f])
                   (m_anMapFieldIndexToArrowColumn s ++ [path])
                   0 0 0 0 [] []) old k) as Hold.
    { intros k old. now apply bbox_field_ok_app with (added := [f]). }
    assert (∀ k,
              c_str k = k →
              bool_decide (id type = DOUBLE) && String.eqb (name field) k
              = true →
              bbox_field_ok
                (mkSchemaState (m_poFeatureDefn_fields s ++ [f])
                   (m_anMapFieldIndexToArrowColumn s ++ [path])
                   0 0 0 0 [] []) (GetFieldCount s) k) as Hnew.
    { intros k Hc Hk. apply andb_true_iff in Hk as [Hdouble Hk].
      apply bool_decide_eq_true in Hdouble. apply String.eqb_eq in Hk.
      apply bbox_field_ok_new with (f := f); [reflexivity|congruence|].
      rewrite HfType. auto. }
    pose proof (Hnew "bbox.minx" eq_refl) as Hnew1.
    pose proof (Hnew "bbox.miny" eq_refl) as Hnew2.
    pose proof (Hnew "bbox.maxx" eq_refl) as Hnew3.
    pose proof (Hnew "bbox.maxy" eq_refl) as Hnew4.
    clear Hnew.
    unfold bbox_field_ok in *.
    cbn [m_poFeatureDefn_fields] in Hold, Hnew1, Hnew2, Hnew3, Hnew4 |- *.
    split_and!; intros Hok; repeat case_match; eauto.
  - cbn. split; [reflexivity|]. split.
    { exists []. cbn. rewrite !app_nil_r. split_and!; auto.
      intros Hint. specialize (HswInt Hint). discriminate. }
    split_and!; auto.
Qed.

Lemma schema_extended_refl (path : list Z) (s : SchemaState) :
  schema_extended path s s.
Proof. exists [], []. rewrite !app_nil_r. auto. Qed.

Lemma schema_extended_trans (path path1 path2 : list Z)
    (s s1 s2 : SchemaState) :
  path `prefix_of` path1 → path `prefix_of` path2 →
  schema_extended path1 s s1 → schema_extended path2 s1 s2 →
  schema_extended path s s2.
Proof.
  intros Hp1 Hp2 (f1 & p1 & Hf1 & Hpa1 & Hl1 & Hall1)
    (f2 & p2 & Hf2 & Hpa2 & Hl2 & Hall2).
  exists (f1 ++ f2), (p1 ++ p2).
  rewrite Hf2, Hf1, Hpa2, Hpa1, <- !app_assoc, !length_app.
  split_and!; auto. apply Forall_app. split.
  - eapply Forall_impl; [exact Hall1|]. intros p Hp. cbn in Hp.
    now transitivity path1.
  - eapply Forall_impl; [exact Hall2|]. intros p Hp. cbn in Hp.
    now transitivity path2.
Qed.

(** A call of [MapArrowTypeToOGR] on a consistent schema. *)
Lemma MapArrowTypeToOGR_consistent (type : DataType) (field : Field)
    (oField : OGRFieldDefn) (path : list Z)
    (overrides : gmap string OGRFieldDefn) (s : SchemaState) :
  let s' :=
    mr_state (MapArrowTypeToOGR OGRTimezoneToTZFlag type field oField
                OFTString OFSTNone path overrides s) in
  GetNameRef oField = c_str (name field) →
  schema_consistent s →
  schema_consistent s' ∧ schema_extended path s s'.
Proof.
  intros s' Hname (Hlen & Hdom & Hminx & Hminy & Hmaxx & Hmaxy).
  destruct (MapArrowTypeToOGR_step type field oField OFTString OFSTNone
              path overrides s Hname)
    as (Hd & (added & Hf & Hp & _ & _) & Hb1 & Hb2 & Hb3 & Hb4).
  fold s' in Hd, Hf, Hp, Hb1, Hb2, Hb3, Hb4.
  split.
  - unfold schema_consistent. rewrite Hf, Hp, Hd, !length_app, length_map.
    split_and!; auto.
    eapply Forall_impl; [exact Hdom|]. intros d (Hd0 & f & Hlook & Hname').
    split; [exact Hd0|]. exists f. split; [|exact Hname'].
    now apply lookup_app_l_Some.
  - exists added, (List.map (λ _, path) added).
    rewrite length_map. split_and!; auto.
    apply Forall_forall. intros p Hin.
    apply list_elem_of_In, in_map_iff in Hin as (? & <- & _). reflexivity.
Qed.

(** X19.  [CreateFieldFromSchema] keeps the attribute schema consistent:
    after the call every field still has its path, every registered
    domain still names the field that carries it, and the bbox indices
    still point at Real fields named bbox.minx, bbox.miny, bbox.maxx and
    bbox.maxy.  The call only appends: the fields and paths present
    before are unchanged, and every path added starts with the path of
    the Arrow field given, whatever the nesting of structures. *)
Theorem CreateFieldFromSchema_keeps_schema_consistent (ftype : DataType) :
  ∀ (fname : string) (fnullable : bool) (path : list Z)
    (overrides : gmap string OGRFieldDefn) (s : SchemaState),
    schema_consistent s →
    let s' := CreateFieldFromSchema OGRTimezoneToTZFlag fname ftype
                fnullable path overrides s in
    schema_consistent s' ∧ schema_extended path s s'.
Proof.
  induction ftype as [t Hother|children IH] using DataType_struct_ind;
    intros fname fnullable path overrides s Hs.
  - assert (∀ (type : DataType) (oField : OGRFieldDefn) s,
              GetNameRef oField = c_str fname → schema_consistent s →
              let s' :=
                mr_state (MapArrowTypeToOGR OGRTimezoneToTZFlag type
                            (mkField fname t fnullable) oField OFTString
                            OFSTNone path overrides s) in
              schema_consistent s' ∧ schema_extended path s s') as Hmap.
    { intros type oField s0 Hname Hs0.
      now apply MapArrowTypeToOGR_consistent. }
    destruct t as [| | | | | | | |children|indexType valueType|];
      try (now apply Hmap); [now destruct (Hother children)|].
    cbn [CreateFieldFromSchema].
    destruct (bool_decide (length path = 1%nat)); [|now apply Hmap].
    destruct (bool_decide (id valueType = STRING)
              && IsIntegerArrowType (id indexType)) eqn:Hdict;
      [|split; [exact Hs|apply schema_extended_refl]].
    apply andb_true_iff in Hdict as [_ Hint].
    set (osDomainName := fname +:+ "Domain").
    set (s1 := mkSchemaState _ _ _ _ _ _ _ _).
    destruct Hs as (Hlen & Hdom & Hminx & Hminy & Hmaxx & Hmaxy).
    destruct (MapArrowTypeToOGR_step indexType
                (mkField fname (TDictionary indexType valueType) fnullable)
                (SetDomainName osDomainName
                   (new_OGRFieldDefn (c_str fname) OFTString))
                OFTString OFSTNone path overrides s1 eq_refl)
      as (Hd & (added & Hf & Hp & Hadded & Hone) & Hb1 & Hb2 & Hb3 & Hb4).
    specialize (Hone Hint).
    destruct added as [|f [|? ?]]; try discriminate Hone.
    apply Forall_cons in Hadded as [Hfdom _].
    cbn [List.map] in Hp. subst s1.
    cbn [m_domains m_poFeatureDefn_fields m_anMapFieldIndexToArrowColumn
         m_iBBOXMinXField m_iBBOXMinYField m_iBBOXMaxXField
         m_iBBOXMaxYField] in *.
    split.
    + unfold schema_consistent. rewrite Hf, Hp, Hd, !length_app.
      cbn [length]. split_and!; auto.
      apply Forall_app. split.
      * eapply Forall_impl; [exact Hdom|].
        intros d (Hd0 & f0 & Hlook & Hname').
        split; [exact Hd0|]. exists f0. split; [|exact Hname'].
        now apply lookup_app_l_Some.
      * constructor; [|constructor]. cbn [fst snd]. unfold GetFieldCount.
        split; [lia|]. exists f. rewrite Nat2Z.id.
        split; [|exact Hfdom]. rewrite lookup_app_r by lia.
        now rewrite Nat.sub_diag.
    + exists [f], [path]. split_and!; auto.
  - cbn [CreateFieldFromSchema].
    enough (∀ (cs : list (string * DataType * bool)) (j : Z) s,
              Forall (λ c : string * DataType * bool,
                        ∀ (fname : string) (fnullable : bool)
                          (path : list Z)
                          (overrides : gmap string OGRFieldDefn)
                          (s : SchemaState),
                          schema_consistent s →
                          let s' :=
                            CreateFieldFromSchema OGRTimezoneToTZFlag fname
                              c.1.2 fnullable path overrides s in
                          schema_consistent s' ∧ schema_extended path s s')
                     cs →
              schema_consistent s →
              let s' :=
                (fix subfields (cs : list (string * DataType * bool))
                     (j : Z) (s : SchemaState) : SchemaState :=
                   match cs with
                   | [] => s
                   | (cname, ctype, cnullable) :: cs =>
                       subfields cs (j + 1)
                         (CreateFieldFromSchema OGRTimezoneToTZFlag
                            (fname +:+ "." +:+ cname) ctype
                            (cnullable || fnullable) (path ++ [j])
                            overrides s)
                   end) cs j s in
              schema_consistent s' ∧ schema_extended path s s') as Hloop
      by (apply Hloop; assumption).
    clear IH Hs s. intros cs.
    induction cs as [|[[cname ctype] cnullable] cs IHcs]; intros j s Hall Hs.
    + split; [exact Hs|apply schema_extended_refl].
    + apply Forall_cons in Hall as [Hc Hall]. cbn [fst snd] in Hc.
      destruct (Hc (fname +:+ "." +:+ cname) (cnullable || fnullable)
                  (path ++ [j]) overrides s Hs) as [Hs1 Hext1].
      destruct (IHcs (j + 1) _ Hall Hs1) as [Hs2 Hext2].
      split; [exact Hs2|].
      eapply schema_extended_trans; [| |exact Hext1|exact Hext2].
      * now apply prefix_app_r.
      * reflexivity.
Qed.

End SchemaProperties.

Lemma CreateFieldFromSchema_keeps_schema_consistent_witness :
  let s' := CreateFieldFromSchema (λ _ _, OGR_TZFLAG_UNKNOWN) "bbox"
              (TStruct [("minx", TPrim DOUBLE, false);
                        ("miny", TPrim DOUBLE, false)])
              true [2] ∅ scenario_schema in
  schema_consistent s' ∧ schema_extended [2] scenario_schema s'.
Proof.
  apply (CreateFieldFromSchema_keeps_schema_consistent
           (λ _ _, OGR_TZFLAG_UNKNOWN)
           (TStruct [("minx", TPrim DOUBLE, false);
                     ("miny", TPrim DOUBLE, false)])
           "bbox" true [2] ∅ scenario_schema).
  unfold schema_consistent, bbox_field_ok.
  split_and!; [reflexivity|constructor|..];
    intros H; exfalso; revert H; vm_compute; intros H; apply H;
    reflexivity.
Defined.

(** ** The points of a decoded line string *)




(** ** What the geometry encoding classifier accepts *)

Lemma IsListOfPointType_under_lists (n : nat) :
  ∀ (t : DataType) (z m : bool),
    (IsListOfPointType t (Z.of_nat (S n)) z m).1.1 = true →
    ∃ point, under_lists (S n) t = Some point
             ∧ IsListOfPointType t (Z.of_nat (S n)) z m
               = IsPointType point z m.
Proof.
  induction n as [|n IH]; intros t z m Hok.
  - destruct t; try discriminate Hok. cbn in *. eauto.
  - destruct t; try discriminate Hok.
    cbn [IsListOfPointType] in *.
    destruct (Z.eqb_spec (Z.of_nat (S (S n))) 1) as [?|_]; [lia|].
    replace (Z.of_nat (S (S n)) - 1) with (Z.of_nat (S n)) in * by lia.
    destruct (IH _ z m Hok) as (point & Hpoint & Heq).
    exists point. split; [exact Hpoint|exact Heq].
Qed.

Lemma IsPointType_accepts (t : DataType) (ok z m : bool) :
  IsPointType t false false = (ok, z, m) → ok = true →
  ∃ osValueFieldName value_type nOutDimensionality,
    t = TFixedSizeList osValueFieldName value_type nOutDimensionality
    ∧ id value_type = DOUBLE
    ∧ ((nOutDimensionality = 2 ∧ z = false ∧ m = false)
       ∨ (nOutDimensionality = 3
          ∧ z = bool_decide (osValueFieldName = "xyz")
          ∧ m = bool_decide (osValueFieldName = "xym"))
       ∨ (nOutDimensionality = 4 ∧ z = true ∧ m = true)).
Proof.
  intros Hpt ->. destruct t; try discriminate Hpt.
  cbn in Hpt. eexists _, _, _. split; [reflexivity|].
  destruct (Z.eqb_spec list_size 2) as [->|H2].
  { injection Hpt as Hd <- <-. apply bool_decide_eq_true in Hd.
    split; [exact Hd|left; auto]. }
  destruct (Z.eqb_spec list_size 3) as [->|H3].
  { destruct (String.eqb_spec value_name "xym") as [->|Hxym].
    - injection Hpt as Hd <- <-. apply bool_decide_eq_true in Hd.
      split; [exact Hd|]. right; left. auto.
    - destruct (String.eqb_spec value_name "xyz") as [->|Hxyz].
      + injection Hpt as Hd <- <-. apply bool_decide_eq_true in Hd.
        split; [exact Hd|]. right; left. auto.
      + injection Hpt as Hd <- <-. apply bool_decide_eq_true in Hd.
        split; [exact Hd|]. right; left.
        rewrite !bool_decide_false by assumption. auto. }
  destruct (Z.eqb_spec list_size 4) as [->|H4]; [|discriminate].
  injection Hpt as Hd <- <-. apply bool_decide_eq_true in Hd.
  split; [exact Hd|right; right; auto].
Qed.

(** X21.  When [IsValidGeometryEncoding] accepts a GeoArrow encoding, the
    storage type of the field is, under the number of list levels of the
    encoding, a fixed-size list of 2, 3 or 4 doubles; the geometry type
    returned has the flat type of the encoding, is XY for 2 values, XYZM
    for 4 and, for 3 values, has Z only if the value field is named "xyz"
    and M only if it is named "xym"; nothing is logged. *)
Theorem IsValidGeometryEncoding_accepts_point_lists (field : Field)
    (osEncoding : string) (eEncIn : OGRArrowGeomEncoding) (levels : nat) :
  let r := IsValidGeometryEncoding field osEncoding eEncIn in
  ec_ok r = true →
  list_levels (ec_eEncodingOut r) = Some levels →
  ec_log r = []
  ∧ wkbFlatten (ec_eGeomTypeOut r) = flat_of_encoding (ec_eEncodingOut r)
  ∧ ∃ osValueFieldName value_type nOutDimensionality,
      under_lists levels (storage_type_of field)
      = Some (TFixedSizeList osValueFieldName value_type
                nOutDimensionality)
      ∧ id value_type = DOUBLE
      ∧ ((nOutDimensionality = 2
          ∧ OGR_GT_HasZ (ec_eGeomTypeOut r) = false
          ∧ OGR_GT_HasM (ec_eGeomTypeOut r) = false)
         ∨ (nOutDimensionality = 3
            ∧ OGR_GT_HasZ (ec_eGeomTypeOut r)
              = bool_decide (osValueFieldName = "xyz")
            ∧ OGR_GT_HasM (ec_eGeomTypeOut r)
              = bool_decide (osValueFieldName = "xym"))
         ∨ (nOutDimensionality = 4
            ∧ OGR_GT_HasZ (ec_eGeomTypeOut r) = true
            ∧ OGR_GT_HasM (ec_eGeomTypeOut r) = true)).
Proof.
  intros r Hok Hlevels. subst r. unfold IsValidGeometryEncoding in *.
  fold (storage_type_of field) in *.
  set (t := storage_type_of field) in *.
  assert (∀ (check : bool * bool * bool) flat enc msg n,
            (n = 0%nat → check = IsPointType t false false) →
            (∀ n', n = S n' →
                   check = IsListOfPointType t (Z.of_nat n) false false) →
            list_levels enc = Some n → flat_of_encoding enc = flat →
            let r := geoarrow_case (name field) check flat enc msg eEncIn in
            ec_ok r = true → list_levels (ec_eEncodingOut r) = Some levels →
            ec_log r = []
            ∧ wkbFlatten (ec_eGeomTypeOut r)
              = flat_of_encoding (ec_eEncodingOut r)
            ∧ ∃ osValueFieldName value_type nOutDimensionality,
                under_lists levels t
                = Some (TFixedSizeList osValueFieldName value_type
                          nOutDimensionality)
                ∧ id value_type = DOUBLE
                ∧ ((nOutDimensionality = 2
                    ∧ OGR_GT_HasZ (ec_eGeomTypeOut r) = false
                    ∧ OGR_GT_HasM (ec_eGeomTypeOut r) = false)
                   ∨ (nOutDimensionality = 3
                      ∧ OGR_GT_HasZ (ec_eGeomTypeOut r)
                        = bool_decide (osValueFieldName = "xyz")
                      ∧ OGR_GT_HasM (ec_eGeomTypeOut r)
                        = bool_decide (osValueFieldName = "xym"))
                   ∨ (nOutDimensionality = 4
                      ∧ OGR_GT_HasZ (ec_eGeomTypeOut r) = true
                      ∧ OGR_GT_HasM (ec_eGeomTypeOut r) = true))) as Hcase.
  { intros [[ok z] m] flat enc msg n Hpoint Hlist Hn Hflat r.
    subst r. unfold geoarrow_case. destruct ok; cbn; [|discriminate].
    intros _ Hlv. rewrite Hn in Hlv. injection Hlv as <-.
    split; [reflexivity|]. split; [now rewrite Hflat|].
    destruct n as [|n'].
    - symmetry in Hpoint. specialize (Hpoint eq_refl).
      destruct (IsPointType_accepts t true z m Hpoint eq_refl)
        as (vn & vt & sz & Ht & Hd & Hdim).
      exists vn, vt, sz. cbn [under_lists].
      split_and!; [congruence|exact Hd|exact Hdim].
    - specialize (Hlist n' eq_refl).
      destruct (IsListOfPointType_under_lists n' t false false)
        as (point & Hpt & Heq); [now rewrite <- Hlist|].
      rewrite <- Hlist in Heq. symmetry in Heq.
      destruct (IsPointType_accepts point true z m Heq eq_refl)
        as (vn & vt & sz & Ht & Hd & Hdim).
      exists vn, vt, sz.
      split_and!; [congruence|exact Hd|exact Hdim]. }
  destruct (_ || _ || _).
  { destruct (_ && _); [discriminate|]. discriminate. }
  destruct (_ || _ || _).
  { destruct (_ && _); [discriminate|]. discriminate. }
  repeat (destruct (String.eqb osEncoding _);
          [eapply Hcase; eauto; try reflexivity; intros; discriminate|]).
  discriminate.
Qed.

Lemma IsValidGeometryEncoding_accepts_point_lists_witness :
  let r :=
    IsValidGeometryEncoding
      (mkField "geometry"
         (TList "vertices" (TFixedSizeList "xyz" (TPrim DOUBLE) 3)) true)
      "geoarrow.linestring" WKB in
  ec_log r = []
  ∧ wkbFlatten (ec_eGeomTypeOut r) = flat_of_encoding (ec_eEncodingOut r)
  ∧ ∃ osValueFieldName value_type nOutDimensionality,
      under_lists 1
        (storage_type_of
           (mkField "geometry"
              (TList "vertices" (TFixedSizeList "xyz" (TPrim DOUBLE) 3))
              true))
      = Some (TFixedSizeList osValueFieldName value_type
                nOutDimensionality)
      ∧ id value_type = DOUBLE
      ∧ ((nOutDimensionality = 2
          ∧ OGR_GT_HasZ (ec_eGeomTypeOut r) = false
          ∧ OGR_GT_HasM (ec_eGeomTypeOut r) = false)
         ∨ (nOutDimensionality = 3
            ∧ OGR_GT_HasZ (ec_eGeomTypeOut r)
              = bool_decide (osValueFieldName = "xyz")
            ∧ OGR_GT_HasM (ec_eGeomTypeOut r)
              = bool_decide (osValueFieldName = "xym"))
         ∨ (nOutDimensionality = 4
            ∧ OGR_GT_HasZ (ec_eGeomTypeOut r) = true
            ∧ OGR_GT_HasM (ec_eGeomTypeOut r) = true)).
Proof.
  apply (IsValidGeometryEncoding_accepts_point_lists
           (mkField "geometry"
              (TList "vertices" (TFixedSizeList "xyz" (TPrim DOUBLE) 3))
              true)
           "geoarrow.linestring" WKB 1); reflexivity.
Defined.

(** ** The exported Arrow schema *)

Lemma nth_insert_eq {A : Type} (l : list A) (i : nat) (x d : A) :
  (i < length l)%nat → nth i (<[i := x]> l) d = x.
Proof. intros. now rewrite nth_lookup, list_lookup_insert_eq. Qed.

Lemma nth_insert_ne {A : Type} (l : list A) (i j : nat) (x d : A) :
  i ≠ j → nth j (<[i := x]> l) d = nth j l d.
Proof. intros. now rewrite !nth_lookup, list_lookup_insert_ne. Qed.

Lemma nth_alter_ne {A : Type} (f : A → A) (l : list A) (i j : nat) (d : A) :
  i ≠ j → nth j (alter f i l) d = nth j l d.
Proof. intros. now rewrite !nth_lookup, list_lookup_alter_ne. Qed.

Lemma omap_seqZ_snoc {A : Type} (f : Z → option A) (i : Z) :
  0 ≤ i →
  omap f (seqZ 0 (i + 1))
  = omap f (seqZ 0 i) ++ match f i with Some x => [x] | None => [] end.
Proof.
  intros Hi. rewrite seqZ_app by lia. rewrite omap_app.
  rewrite (seqZ_cons (0 + i) 1), (seqZ_nil _ (Z.pred 1)) by lia.
  cbn. rewrite Z.add_0_l. destruct (f i); reflexivity.
Qed.

Lemma map_seqZ_snoc {A : Type} (f : Z → A) (j : Z) :
  0 ≤ j →
  List.map f (seqZ 0 (j + 1)) = List.map f (seqZ 0 j) ++ [f j].
Proof.
  intros Hj. rewrite seqZ_app by lia. rewrite List.map_app.
  rewrite (seqZ_cons (0 + j) 1), (seqZ_nil _ (Z.pred 1)) by lia.
  cbn. now rewrite Z.add_0_l.
Qed.

Lemma map_seqZ_ext {A : Type} (f g : Z → A) (n : Z) :
  (∀ k, 0 ≤ k < n → f k = g k) →
  List.map f (seqZ 0 n) = List.map g (seqZ 0 n).
Proof.
  intros H. apply map_ext_in. intros k Hk.
  apply list_elem_of_In, elem_of_seqZ in Hk. apply H. lia.
Qed.

Section ArrowSchemaExportProperties.

Variable EQUAL : string → string → bool.
Variable IsIgnored : Z → bool.
Variable pszReqGeomEncoding : string.
Variable CreateSchemaForWKBGeometryColumn :
  OGRGeomFieldDefn → string → string → ArrowSchemaChild.
Variable L : LayerDefn.
Variable fieldDesc : list FieldDesc.
Variable pszExtensionName : string.
Variable exported : list ArrowSchemaChild.

#[local] Abbreviation expected :=
  (expected_child EQUAL IsIgnored pszReqGeomEncoding
     CreateSchemaForWKBGeometryColumn L fieldDesc pszExtensionName exported).
#[local] Abbreviation inv :=
  (export_loop_inv EQUAL IsIgnored pszReqGeomEncoding
     CreateSchemaForWKBGeometryColumn L fieldDesc pszExtensionName exported).

(** The loop moves on after placing the child [c] of column [i] at
    position [j]. *)
Lemma export_loop_inv_place (i j : Z) (s s' : ArrowSchema)
    (c : ArrowSchemaChild) :
  inv i j s → i < Z.of_nat (length exported) →
  expected i = Some c →
  length (as_children s') = length (as_children s) →
  length (as_objects s') = length (as_objects s) →
  child_ptr s' j = i →
  (∀ k, 0 ≤ k → k ≠ j → child_ptr s' k = child_ptr s k) →
  object_at s' i = c →
  (∀ p, 0 ≤ p → p ≠ i → object_at s' p = object_at s p) →
  inv (i + 1) (j + 1) s'.
Proof.
  intros (Hj & Hi & Hlc & Hlo & Hrest & Hout & Hptr & Hsame) Hin Hc
    Hlc' Hlo' Hpj Hpk Hoi Hop.
  unfold export_loop_inv. split_and!; try lia; try congruence.
  - intros k Hk. destruct (Hrest k ltac:(lia)) as [Hp Ho].
    rewrite Hpk, Hop by lia. auto.
  - rewrite map_seqZ_snoc, omap_seqZ_snoc, Hc by lia.
    f_equal.
    + rewrite <- Hout. apply map_seqZ_ext. intros k Hk.
      unfold child_at. rewrite Hpk by lia.
      apply Hop; specialize (Hptr k Hk); lia.
    + unfold child_at. now rewrite Hpj, Hoi.
  - intros k Hk. destruct (decide (k = j)) as [->|Hne]; [lia|].
    rewrite Hpk by lia. specialize (Hptr k ltac:(lia)). lia.
  - intros Hall. rewrite Hsame; [reflexivity|].
    intros k Hk. apply Hall. lia.
Qed.

(** The loop moves on after dropping column [i]. *)
Lemma export_loop_inv_skip (i j : Z) (s s' : ArrowSchema) :
  inv i j s → i < Z.of_nat (length exported) →
  expected i = None →
  as_children s' = as_children s →
  length (as_objects s') = length (as_objects s) →
  (∀ p, 0 ≤ p → p ≠ i → object_at s' p = object_at s p) →
  inv (i + 1) j s'.
Proof.
  intros (Hj & Hi & Hlc & Hlo & Hrest & Hout & Hptr & Hsame) Hin Hc
    Hch Hlo' Hop.
  assert (∀ k, child_ptr s' k = child_ptr s k) as Hpk
    by (intros k; unfold child_ptr; now rewrite Hch).
  unfold export_loop_inv. split_and!; try lia; try congruence.
  - intros k Hk. destruct (Hrest k ltac:(lia)) as [Hp Ho].
    rewrite Hpk, Hop by lia. auto.
  - rewrite omap_seqZ_snoc, Hc, app_nil_r by lia.
    rewrite <- Hout. apply map_seqZ_ext. intros k Hk.
    unfold child_at. rewrite Hpk.
    apply Hop; specialize (Hptr k Hk); lia.
  - intros k Hk. rewrite Hpk. specialize (Hptr k Hk). lia.
  - intros Hall. specialize (Hall i ltac:(lia)). rewrite Hc in Hall.
    now destruct Hall.
Qed.

Lemma child_ptr_copy (s : ArrowSchema) (j i k : Z) :
  0 ≤ j → 0 ≤ k → (Z.to_nat j < length (as_children s))%nat →
  child_ptr (copy_child_ptr s j i) k
  = if decide (k = j) then child_ptr s i else child_ptr s k.
Proof.
  intros Hj Hk Hlen. unfold child_ptr, copy_child_ptr. cbn.
  destruct (decide (k = j)) as [->|Hne].
  - now rewrite nth_insert_eq.
  - rewrite nth_insert_ne by lia. reflexivity.
Qed.

Lemma write_after_release (s : ArrowSchema) (i j : Z)
    (c : ArrowSchemaChild) :
  child_ptr s i = i → child_ptr s j = i → 0 ≤ i →
  (Z.to_nat i < length (as_objects s))%nat →
  let s' := write_child (release_child s i) j c in
  as_children s' = as_children s
  ∧ length (as_objects s') = length (as_objects s)
  ∧ object_at s' i = c
  ∧ ∀ p, 0 ≤ p → p ≠ i → object_at s' p = object_at s p.
Proof.
  intros Hpi Hpj Hi Hlen. unfold write_child, release_child, object_at.
  cbn. unfold child_ptr in *. cbn. rewrite Hpi, Hpj.
  split_and!; [reflexivity|now rewrite length_insert, length_alter| |].
  - rewrite nth_insert_eq by (rewrite length_alter; lia). reflexivity.
  - intros p Hp Hne.
    rewrite nth_insert_ne, nth_alter_ne by lia. reflexivity.
Qed.

(** A geometry column that is kept: its child, or the WKB schema that
    replaces it, ends up at position [j]. *)
Lemma keep_geometry_child_places (i j : Z) (s : ArrowSchema) :
  let d := desc_at fieldDesc i in
  inv i j s → 0 ≤ i < Z.of_nat (length exported) →
  0 ≤ nIdx d → bIsRegularField d = false →
  gfd_ignored (GetGeomFieldDefn L (nIdx d)) = false →
  (handled_in_place EQUAL pszReqGeomEncoding L fieldDesc i = true → j = i) →
  let s' :=
    keep_geometry_child EQUAL pszReqGeomEncoding
      CreateSchemaForWKBGeometryColumn L pszExtensionName (nIdx d) i j s in
  ∃ c, expected i = Some c
       ∧ length (as_children s') = length (as_children s)
       ∧ length (as_objects s') = length (as_objects s)
       ∧ child_ptr s' j = i
       ∧ (∀ k, 0 ≤ k → k ≠ j → child_ptr s' k = child_ptr s k)
       ∧ object_at s' i = c
       ∧ (∀ p, 0 ≤ p → p ≠ i → object_at s' p = object_at s p).
Proof.
  intros d (Hj & _ & Hlc & Hlo & Hrest & _) Hi Hidx Hreg Hign Hplace s'.
  destruct (Hrest i ltac:(lia)) as [Hpi Hoi].
  unfold handled_in_place in Hplace. fold d in Hplace.
  destruct (Z.ltb_spec (nIdx d) 0) as [?|_]; [lia|].
  rewrite Hreg, Hign in Hplace. cbn [negb andb] in Hplace.
  unfold expected_child. fold d.
  destruct (Z.ltb_spec (nIdx d) 0) as [?|_]; [lia|].
  rewrite Hreg, Hign.
  set (original := nth (Z.to_nat i) exported released_child) in *.
  set (gfd := GetGeomFieldDefn L (nIdx d)) in *.
  (* the state after the first block *)
  set (s1 :=
         if EQUAL pszReqGeomEncoding "WKB" then
           if bool_decide (GeomEncoding L (nIdx d) = WKT) then
             write_child (release_child s i) j
               (CreateSchemaForWKBGeometryColumn gfd "z" pszExtensionName)
           else if bool_decide (GeomEncoding L (nIdx d) ≠ WKB) then s
           else copy_child_ptr s j i
         else copy_child_ptr s j i).
  set (c1 := if EQUAL pszReqGeomEncoding "WKB"
                && bool_decide (GeomEncoding L (nIdx d) = WKT)
             then CreateSchemaForWKBGeometryColumn gfd "z" pszExtensionName
             else original).
  assert (length (as_children s1) = length (as_children s)
          ∧ length (as_objects s1) = length (as_objects s)
          ∧ child_ptr s1 j = i
          ∧ (∀ k, 0 ≤ k → k ≠ j → child_ptr s1 k = child_ptr s k)
          ∧ object_at s1 i = c1
          ∧ (∀ p, 0 ≤ p → p ≠ i → object_at s1 p = object_at s p))
    as (Hlc1 & Hlo1 & Hpj1 & Hpk1 & Hoi1 & Hop1).
  { assert (let s1 := copy_child_ptr s j i in
            length (as_children s1) = length (as_children s)
            ∧ length (as_objects s1) = length (as_objects s)
            ∧ child_ptr s1 j = i
            ∧ (∀ k, 0 ≤ k → k ≠ j → child_ptr s1 k = child_ptr s k)
            ∧ object_at s1 i = original
            ∧ (∀ p, 0 ≤ p → p ≠ i → object_at s1 p = object_at s p))
      as Hcopy.
    { cbv zeta. split_and!.
      - cbn. now rewrite length_insert.
      - reflexivity.
      - rewrite child_ptr_copy by lia. now rewrite decide_True.
      - intros k Hk Hne. rewrite child_ptr_copy by lia.
        now rewrite decide_False.
      - exact Hoi.
      - reflexivity. }
    subst s1 c1. destruct (EQUAL pszReqGeomEncoding "WKB");
      cbn [andb] in *; [|exact Hcopy].
    destruct (decide (GeomEncoding L (nIdx d) = WKT)) as [Hwkt|Hwkt].
    - rewrite !(bool_decide_true _ Hwkt).
      assert (j = i) as ->.
      { apply Hplace. apply bool_decide_eq_true. congruence. }
      destruct (write_after_release s i i
                  (CreateSchemaForWKBGeometryColumn gfd "z"
                     pszExtensionName) Hpi Hpi ltac:(lia) ltac:(lia))
        as (Hch & Hlen & Ho & Hothers).
      split_and!; auto; congruence.
    - rewrite !(bool_decide_false _ Hwkt).
      destruct (decide (GeomEncoding L (nIdx d) = WKB)) as [Hwkb|Hwkb].
      + rewrite (bool_decide_false (_ ≠ _)) by tauto. exact Hcopy.
      + rewrite (bool_decide_true (_ ≠ _)) by assumption.
        assert (j = i) as ->.
        { apply Hplace. now apply bool_decide_eq_true. }
        split_and!; auto. }
  subst s'. unfold keep_geometry_child. fold gfd. fold s1.
  assert (child_at s1 j = c1) as Hc1
    by (unfold child_at; now rewrite Hpj1).
  rewrite Hc1.
  destruct ((EQUAL pszReqGeomEncoding "WKB" || EQUAL pszReqGeomEncoding "")
            && bool_decide (GeomEncoding L (nIdx d) = WKB)
            && negb (sc_metadata c1)
            && (String.eqb (sc_format c1) "z"
                || String.eqb (sc_format c1) "Z")) eqn:Hcond.
  - assert (EQUAL pszReqGeomEncoding "WKB" || EQUAL pszReqGeomEncoding ""
            = true
            ∧ bool_decide (GeomEncoding L (nIdx d) = WKB)
              && negb (sc_metadata c1)
              && (String.eqb (sc_format c1) "z"
                  || String.eqb (sc_format c1) "Z") = true)
      as [-> ->].
    { apply andb_true_iff in Hcond as [Hcond Hd].
      apply andb_true_iff in Hcond as [Hcond Hc].
      apply andb_true_iff in Hcond as [Ha Hb].
      split; [exact Ha|]. now rewrite Hb, Hc, Hd. }
    assert (child_ptr s1 i = i) as Hpi1.
    { destruct (decide (i = j)) as [<-|Hne]; [exact Hpj1|].
      rewrite Hpk1 by lia. exact Hpi. }
    destruct (write_after_release s1 i j
                (CreateSchemaForWKBGeometryColumn gfd (sc_format c1)
                   pszExtensionName) Hpi1 Hpj1 ltac:(lia) ltac:(lia))
      as (Hch & Hlen & Ho & Hothers).
    eexists. split; [reflexivity|].
    split_and!; try congruence.
    + unfold child_ptr. now rewrite Hch.
    + intros k Hk Hne. unfold child_ptr. rewrite Hch. now apply Hpk1.
    + intros p Hp Hne. rewrite Hothers by assumption. now apply Hop1.
  - exists c1.
    assert ((if EQUAL pszReqGeomEncoding "WKB"
                || EQUAL pszReqGeomEncoding ""
             then
               if bool_decide (GeomEncoding L (nIdx d) = WKB)
                  && negb (sc_metadata c1)
                  && (String.eqb (sc_format c1) "z"
                      || String.eqb (sc_format c1) "Z")
               then write_child (release_child s1 i) j
                      (CreateSchemaForWKBGeometryColumn gfd (sc_format c1)
                         pszExtensionName)
               else s1
             else s1) = s1) as ->.
    { destruct (EQUAL pszReqGeomEncoding "WKB"
                || EQUAL pszReqGeomEncoding ""); [|reflexivity].
      cbn [andb] in Hcond. now rewrite Hcond. }
    split_and!; auto.
Qed.

Hypothesis Hknown :
  ∀ i, 0 ≤ i < Z.of_nat (length exported) →
       nIdx (desc_at fieldDesc i) < 0 → m_iFIDArrowColumn L = i.
Hypothesis Hplace :
  ∀ i, 0 ≤ i < Z.of_nat (length exported) →
       handled_in_place EQUAL pszReqGeomEncoding L fieldDesc i = true →
       ∀ k, 0 ≤ k < i → is_Some (expected k).

(** The main loop, from any column on. *)
Lemma remove_ignored_children_inv (m : nat) :
  ∀ (i j : Z) (s : ArrowSchema),
    i + Z.of_nat m = Z.of_nat (length exported) → 0 ≤ i →
    inv i j s →
    ∃ j' s',
      remove_ignored_children EQUAL IsIgnored pszReqGeomEncoding
        CreateSchemaForWKBGeometryColumn L fieldDesc pszExtensionName
        (seqZ i (Z.of_nat m)) j s = (0, j', s', [])
      ∧ inv (Z.of_nat (length exported)) j' s'.
Proof.
  induction m as [|m IH]; intros i j s Hm Hi Hinv.
  - rewrite seqZ_nil by lia. cbn. exists j, s.
    replace (Z.of_nat (length exported)) with i by lia. auto.
  - rewrite seqZ_cons by lia.
    replace (Z.pred (Z.of_nat (S m))) with (Z.of_nat m) by lia.
    replace (Z.succ i) with (i + 1) by lia.
    cbn [remove_ignored_children].
    assert (Hinv' := Hinv).
    destruct Hinv' as (Hj & _ & Hlc & Hlo & Hrest & _ & _ & Hsame).
    destruct (Hrest i ltac:(lia)) as [Hpi Hoi].
    assert (handled_in_place EQUAL pszReqGeomEncoding L fieldDesc i = true
            → j = i) as Hji.
    { intros Hin. apply Hsame. apply (Hplace i); [lia|exact Hin]. }
    destruct (Z.ltb_spec (nIdx (desc_at fieldDesc i)) 0) as [Hneg|Hpos].
    + rewrite (Hknown i ltac:(lia) Hneg), Z.eqb_refl.
      assert (j = i) as ->.
      { apply Hji. unfold handled_in_place.
        destruct (Z.ltb_spec (nIdx (desc_at fieldDesc i)) 0); [auto|lia]. }
      apply IH; [lia|lia|].
      apply (export_loop_inv_place i i s s
               (nth (Z.to_nat i) exported released_child)); auto; try lia.
      unfold expected_child.
      destruct (Z.ltb_spec (nIdx (desc_at fieldDesc i)) 0); [auto|lia].
    + destruct (bIsRegularField (desc_at fieldDesc i)) eqn:Hreg;
        cbn [negb].
      * destruct (IsIgnored (nIdx (desc_at fieldDesc i))) eqn:Hign.
        -- apply IH; [lia|lia|].
           apply (export_loop_inv_skip i j s); auto; try lia.
           ++ unfold expected_child.
              destruct (Z.ltb_spec (nIdx (desc_at fieldDesc i)) 0); [lia|].
              now rewrite Hreg, Hign.
           ++ cbn. now rewrite length_alter.
           ++ intros p Hp Hne. unfold object_at, release_child. cbn.
              rewrite Hpi. rewrite nth_alter_ne by lia. reflexivity.
        -- apply IH; [lia|lia|].
           apply (export_loop_inv_place i j s _
                    (nth (Z.to_nat i) exported released_child));
             auto; try lia.
           ++ unfold expected_child.
              destruct (Z.ltb_spec (nIdx (desc_at fieldDesc i)) 0); [lia|].
              now rewrite Hreg, Hign.
           ++ cbn. now rewrite length_insert.
           ++ rewrite child_ptr_copy by lia. now rewrite decide_True.
           ++ intros k Hk Hne. rewrite child_ptr_copy by lia.
              now rewrite decide_False.
      * destruct (gfd_ignored
                    (GetGeomFieldDefn L (nIdx (desc_at fieldDesc i))))
          eqn:Hign.
        -- apply IH; [lia|lia|].
           apply (export_loop_inv_skip i j s); auto; try lia.
           ++ unfold expected_child.
              destruct (Z.ltb_spec (nIdx (desc_at fieldDesc i)) 0); [lia|].
              now rewrite Hreg, Hign.
           ++ cbn. now rewrite length_alter.
           ++ intros p Hp Hne. unfold object_at, release_child. cbn.
              rewrite Hpi. rewrite nth_alter_ne by lia. reflexivity.
        -- apply IH; [lia|lia|].
           destruct (keep_geometry_child_places i j s Hinv ltac:(lia) Hpos
                       Hreg Hign Hji)
             as (c & Hc & Hlc' & Hlo' & Hpj & Hpk & Ho & Hop).
           apply (export_loop_inv_place i j s _ c); auto; lia.
Qed.

End ArrowSchemaExportProperties.

(** X22.  When the export of the Arrow schema succeeds, every column
    without a field is the FID column, and no ignored column comes before
    a column the loop handles in place (the FID column, or a geometry
    column that is not WKB when WKB is requested), then
    [GetArrowSchemaInternal] returns 0 and hands out, in column order, one
    child per column that is not ignored: the exported child of the
    column, replaced by a WKB schema for a WKT geometry column when WKB is
    requested and for a WKB geometry column of format z or Z without
    metadata.  Only the warning on the metadata encoding can be logged. *)
Theorem GetArrowSchemaInternal_exports_kept_columns
    (EQUAL : string → string → bool) (IsIgnored : Z → bool)
    (pszReqGeomEncoding : string)
    (pszGeometryMetadataEncoding : option string)
    (EXTENSION_NAME_OGC_WKB EXTENSION_NAME_GEOARROW_WKB : string)
    (ExportSchema : option (list ArrowSchemaChild))
    (CreateSchemaForWKBGeometryColumn :
       OGRGeomFieldDefn → string → string → ArrowSchemaChild)
    (L : LayerDefn) (exported : list ArrowSchemaChild) :
  let n_children := Z.of_nat (length exported) in
  let fieldDesc := describe_columns L n_children in
  let extension :=
    extension_name EQUAL pszReqGeomEncoding pszGeometryMetadataEncoding
      EXTENSION_NAME_OGC_WKB EXTENSION_NAME_GEOARROW_WKB in
  let expected :=
    expected_child EQUAL IsIgnored pszReqGeomEncoding
      CreateSchemaForWKBGeometryColumn L fieldDesc extension.1 exported in
  ExportSchema = Some exported →
  Forall (λ path, 0 ≤ at_ path 0 < n_children)
    (m_anMapFieldIndexToArrowColumn (ld_schema L)) →
  Forall (λ nArrowCol, 0 ≤ nArrowCol < n_children)
    (m_anMapGeomFieldIndexToArrowColumn L) →
  (∀ i, 0 ≤ i < n_children →
        nIdx (desc_at fieldDesc i) < 0 → m_iFIDArrowColumn L = i) →
  (∀ i, 0 ≤ i < n_children →
        handled_in_place EQUAL pszReqGeomEncoding L fieldDesc i = true →
        ∀ k, 0 ≤ k < i → is_Some (expected k)) →
  ∃ out_schema,
    GetArrowSchemaInternal EQUAL IsIgnored pszReqGeomEncoding
      pszGeometryMetadataEncoding EXTENSION_NAME_OGC_WKB
      EXTENSION_NAME_GEOARROW_WKB ExportSchema
      CreateSchemaForWKBGeometryColumn L
    = (0, Some out_schema, extension.2)
    ∧ exported_children out_schema = omap expected (seqZ 0 n_children).
Proof.
  intros n fieldDesc extension expected -> _ _ Hknown Hplace.
  unfold GetArrowSchemaInternal. fold n. fold fieldDesc. fold extension.
  destruct extension as [pszExtensionName warnings] eqn:Hext.
  cbn [fst snd] in *.
  destruct (remove_ignored_children_inv EQUAL IsIgnored pszReqGeomEncoding
              CreateSchemaForWKBGeometryColumn L fieldDesc pszExtensionName
              exported Hknown Hplace (length exported) 0 0
              (mkArrowSchema n (seqZ 0 n) exported))
    as (j & s & Hrun & Hinv); [lia|lia| |].
  - unfold export_loop_inv. cbn [as_children as_objects].
    split_and!; try lia; try reflexivity.
    + rewrite length_seqZ. subst n. lia.
    + intros k Hk. unfold child_ptr, object_at. cbn.
      rewrite (nth_lookup_Some (seqZ 0 n) (Z.to_nat k) 0 k).
      * auto.
      * rewrite lookup_seqZ. subst n. lia.
  - fold n in Hrun. rewrite Hrun.
    eexists. split; [now rewrite app_nil_r|].
    destruct Hinv as (_ & _ & _ & _ & _ & Hout & _).
    unfold exported_children. cbn [set_n_children as_n_children].
    subst expected n. rewrite <- Hout.
    apply map_seqZ_ext. intros k _. reflexivity.
Qed.

Lemma GetArrowSchemaInternal_exports_kept_columns_witness :
  ∃ out_schema,
    GetArrowSchemaInternal String.eqb (λ _, false) "WKB" None "ogc.wkb"
      "geoarrow.wkb" (Some three_columns) sample_wkb_schema
      wkt_geometry_layer
    = (0, Some out_schema, [])
    ∧ exported_children out_schema
      = [mkSchemaChild "a" "u" false false;
         mkSchemaChild "b" "u" false false;
         mkSchemaChild "geometry" "z" true false].
Proof.
  apply (GetArrowSchemaInternal_exports_kept_columns String.eqb (λ _, false)
           "WKB" None "ogc.wkb" "geoarrow.wkb" (Some three_columns)
           sample_wkb_schema wkt_geometry_layer three_columns eq_refl).
  - repeat constructor; vm_compute; discriminate.
  - repeat constructor; vm_compute; discriminate.
  - intros i Hi.
    assert (i = 0 ∨ i = 1 ∨ i = 2) as [-> | [-> | ->]] by (cbn in Hi; lia);
      vm_compute; intros H; discriminate H.
  - intros i Hi.
    assert (i = 0 ∨ i = 1 ∨ i = 2) as [-> | [-> | ->]] by (cbn in Hi; lia);
      intros Hin k Hk;
      [discriminate Hin|discriminate Hin|].
    assert (k = 0 ∨ k = 1) as [-> | ->] by lia; vm_compute; eauto.
Defined.

(** ** Timestamps *)

Lemma pow2_pos (k : Z) : (0 < pow2 k)%Q.
Proof.
  unfold pow2. destruct (0 <=? k) eqn:Hk.
  - apply Z.leb_le in Hk. unfold Qlt. cbn.
    pose proof (Z.pow_pos_nonneg 2 k). lia.
  - apply Z.leb_gt in Hk. apply Qinv_lt_0_compat. unfold Qlt. cbn.
    pose proof (Z.pow_pos_nonneg 2 (- k)). lia.
Qed.

(** [pow2 s] as a quotient of two powers of two. *)
Lemma pow2_quotient (s : Z) :
  (pow2 s == inject_Z (2 ^ Z.max 0 s) / inject_Z (2 ^ Z.max 0 (- s)))%Q.
Proof.
  unfold pow2. destruct (0 <=? s) eqn:Hs.
  - apply Z.leb_le in Hs. rewrite (Z.max_r 0 s), (Z.max_l 0 (- s)) by lia.
    rewrite Z.pow_0_r. change (inject_Z 1) with 1%Q. field.
  - apply Z.leb_gt in Hs. rewrite (Z.max_l 0 s), (Z.max_r 0 (- s)) by lia.
    rewrite Z.pow_0_r. change (inject_Z 1) with 1%Q. field. intros H.
    assert (0 < 2 ^ (- s)) by (apply Z.pow_pos_nonneg; lia).
    unfold Qeq in H. cbn in H. lia.
Qed.

Lemma pow2_le (a b : Z) : a ≤ b → (pow2 a <= pow2 b)%Q.
Proof.
  intros Hab. rewrite (pow2_quotient a), (pow2_quotient b).
  assert (Ha1 : 0 < 2 ^ Z.max 0 a) by (apply Z.pow_pos_nonneg; lia).
  assert (Ha2 : 0 < 2 ^ Z.max 0 (- a)) by (apply Z.pow_pos_nonneg; lia).
  assert (Hb1 : 0 < 2 ^ Z.max 0 b) by (apply Z.pow_pos_nonneg; lia).
  assert (Hb2 : 0 < 2 ^ Z.max 0 (- b)) by (apply Z.pow_pos_nonneg; lia).
  apply Qle_shift_div_l; [unfold Qlt; cbn; lia|].
  unfold Qdiv. rewrite <- Qmult_assoc, (Qmult_comm (/ _)), Qmult_assoc.
  apply Qle_shift_div_r; [unfold Qlt; cbn; lia|].
  rewrite <- !inject_Z_mult. rewrite <- Zle_Qle.
  rewrite <- !Z.pow_add_r by lia.
  apply Z.pow_le_mono_r; lia.
Qed.

(** [ilog2 n d] is not above the exponent of the leading bit of
    [n / d]. *)
Lemma ilog2_spec (n d : Z) :
  0 < n → 0 < d →
  d * 2 ^ Z.max 0 (ilog2 n d) ≤ n * 2 ^ Z.max 0 (- ilog2 n d).
Proof.
  intros Hn Hd. unfold ilog2.
  set (a := Z.log2 n). set (b := Z.log2 d).
  destruct (Z.leb_spec (d * 2 ^ Z.max 0 (a - b))
              (n * 2 ^ Z.max 0 (- (a - b)))) as [Hle|_]; [exact Hle|].
  pose proof (Z.log2_spec n Hn) as [Hn1 _].
  pose proof (Z.log2_spec d Hd) as [_ Hd2].
  pose proof (Z.log2_nonneg n). pose proof (Z.log2_nonneg d).
  fold a in Hn1. fold b in Hd2.
  replace (Z.succ b) with (b + 1) in Hd2 by lia.
  destruct (Z.le_gt_cases 1 (a - b)) as [Hk|Hk].
  - rewrite (Z.max_r 0 (a - b - 1)), (Z.max_l 0 (- (a - b - 1))) by lia.
    rewrite Z.pow_0_r, Z.mul_1_r.
    assert (Hpow : 2 ^ a = 2 ^ (b + 1) * 2 ^ (a - b - 1)).
    { rewrite <- Z.pow_add_r by lia. f_equal. lia. }
    assert (0 < 2 ^ (a - b - 1)) by (apply Z.pow_pos_nonneg; lia).
    nia.
  - rewrite (Z.max_l 0 (a - b - 1)), (Z.max_r 0 (- (a - b - 1))) by lia.
    rewrite Z.pow_0_r, Z.mul_1_r.
    assert (Hpow : 2 ^ (b + 1) = 2 ^ a * 2 ^ (- (a - b - 1))).
    { rewrite <- Z.pow_add_r by lia. f_equal. lia. }
    assert (0 < 2 ^ (- (a - b - 1))) by (apply Z.pow_pos_nonneg; lia).
    nia.
Qed.

Lemma ilog2_lt (n d E : Z) :
  0 < n → 0 < d → 0 ≤ E → n < d * 2 ^ E → ilog2 n d < E.
Proof.
  intros Hn Hd HE Hlt. pose proof (ilog2_spec n d Hn Hd) as Hk.
  destruct (Z.lt_ge_cases (ilog2 n d) E) as [?|Hge]; [assumption|exfalso].
  rewrite (Z.max_r 0 (ilog2 n d)), (Z.max_l 0 (- ilog2 n d)) in Hk by lia.
  rewrite Z.pow_0_r, Z.mul_1_r in Hk.
  assert (2 ^ E ≤ 2 ^ ilog2 n d) by (apply Z.pow_le_mono_r; lia).
  nia.
Qed.

(** The integer nearest to a quotient is within one half of it. *)
Lemma nearest_quotient (N D : Z) :
  0 < D →
  let f := N / D in
  let r := N mod D in
  let f' := if (D <? 2 * r) || ((2 * r =? D) && Z.odd f) then f + 1
            else f in
  Z.abs (2 * f' * D - 2 * N) ≤ D.
Proof.
  intros HD f r f'. subst f'.
  pose proof (Z.div_mod N D ltac:(lia)) as Hdm.
  pose proof (Z.mod_pos_bound N D HD) as Hr. fold f r in Hdm, Hr.
  destruct (Z.ltb_spec D (2 * r)); cbn [orb]; [nia|].
  destruct (Z.eqb_spec (2 * r) D); cbn [andb]; [destruct (Z.odd f)|]; nia.
Qed.

Lemma scaled_error (f' N D : Z) (P : Q) :
  0 < D → (0 < P)%Q →
  Z.abs (2 * f' * D - 2 * N) ≤ D →
  (Qabs (inject_Z f' * P - inject_Z N / inject_Z D * P) <= P / 2)%Q.
Proof.
  intros HD HP Hnear.
  assert (Heq : (inject_Z f' * P - inject_Z N / inject_Z D * P
                 == (inject_Z f' - (N # Z.to_pos D)) * P)%Q).
  { rewrite (Qmake_Qdiv N (Z.to_pos D)), Z2Pos.id by exact HD. ring. }
  rewrite Heq, Qabs_Qmult, (Qabs_pos P) by (apply Qlt_le_weak, HP).
  unfold Qdiv. rewrite (Qmult_comm P (/ 2)).
  apply Qmult_le_compat_r; [|apply Qlt_le_weak, HP].
  apply Qabs_Qle_condition.
  unfold Qle, Qminus, Qplus, Qopp. cbn. rewrite Z2Pos.id by exact HD.
  lia.
Qed.

(** The rounding error is at most half a unit in the last place: for a
    value below 2^E in magnitude, half of 2^(E - prec). *)
Lemma round_binary_error (prec E : Z) (q : Q) :
  0 ≤ E →
  (Qabs q < inject_Z (2 ^ E))%Q →
  (Qabs (round_binary prec q - q) <= pow2 (E - prec) / 2)%Q.
Proof.
  intros HE Hq. unfold round_binary.
  set (n := Z.abs (Qnum q)). set (d := Z.pos (Qden q)).
  assert (HP : (0 < pow2 (E - prec))%Q) by apply pow2_pos.
  destruct (Z.eqb_spec n 0) as [Hn0|Hn0].
  - assert (Hq0 : (q == 0)%Q).
    { unfold Qeq. cbn. lia. }
    rewrite Hq0. change (0 <= pow2 (E - prec) / 2)%Q.
    apply Qlt_le_weak. apply Qlt_shift_div_l; [reflexivity|].
    rewrite Qmult_0_l. exact HP.
  - assert (Hn : 0 < n) by lia. assert (Hd : 0 < d) by (subst d; lia).
    set (k := ilog2 n d). set (s := k - prec + 1).
    set (N := n * 2 ^ Z.max 0 (- s)). set (D := d * 2 ^ Z.max 0 s).
    assert (Hp1 : 0 < 2 ^ Z.max 0 (- s)) by (apply Z.pow_pos_nonneg; lia).
    assert (Hp2 : 0 < 2 ^ Z.max 0 s) by (apply Z.pow_pos_nonneg; lia).
    assert (HD : 0 < D) by (subst D; nia).
    pose proof (nearest_quotient N D HD) as Hnear. cbv zeta in Hnear.
    set (f' := if (D <? 2 * (N mod D)) || ((2 * (N mod D) =? D)
                                           && Z.odd (N / D))
               then N / D + 1 else N / D) in *.
    assert (Hk : k < E).
    { apply ilog2_lt; try assumption.
      unfold Qlt in Hq. cbn in Hq. rewrite Z.mul_1_r in Hq.
      assert (Qnum (Qabs q) = n) by (destruct q; reflexivity).
      assert (Z.pos (Qden (Qabs q)) = d) by (destruct q; reflexivity).
      lia. }
    assert (Hs : (pow2 s <= pow2 (E - prec))%Q) by (apply pow2_le; lia).
    assert (Hqs : (q == inject_Z (Z.sgn (Qnum q))
                        * (inject_Z N / inject_Z D * pow2 s))%Q).
    { rewrite (pow2_quotient s). subst N D.
      rewrite !inject_Z_mult.
      assert (Hqn : (q == inject_Z (Z.sgn (Qnum q)) * (n # Qden q))%Q).
      { unfold Qeq. cbn. subst n. lia. }
      rewrite Hqn at 1. rewrite (Qmake_Qdiv n (Qden q)). fold d.
      field. split; [|split]; intros H0; unfold Qeq in H0; cbn in H0; lia. }
    assert (Hsgn : (Qabs (inject_Z (Z.sgn (Qnum q))) == 1)%Q).
    { subst n. destruct (Qnum q) as [|p|p]; cbn in *; try lia; reflexivity. }
    revert Hqs Hsgn. generalize (Z.sgn (Qnum q)) as sg. intros sg Hqs Hsgn.
    assert (Hdiff :
      (Qred (inject_Z (sg * f') * pow2 s) - q
       == inject_Z sg
          * (inject_Z f' * pow2 s - inject_Z N / inject_Z D * pow2 s))%Q).
    { rewrite Qred_correct, Hqs, inject_Z_mult. ring. }
    rewrite Hdiff, Qabs_Qmult, Hsgn, Qmult_1_l.
    eapply Qle_trans;
      [apply scaled_error; [exact HD|apply pow2_pos|exact Hnear]|].
    unfold Qdiv. apply Qmult_le_compat_r; [exact Hs|discriminate].
Qed.

(** The seconds of a [struct tm], as a [double] and then as a [float],
    are kept. *)
Lemma whole_seconds_exact (sec : Z) :
  0 ≤ sec ≤ 60 →
  (round_binary 24 (round_binary 53 (inject_Z sec + 0)) == inject_Z sec)%Q.
Proof.
  intros Hsec.
  assert (Hall : forallb (λ z, Qeq_bool
                                 (round_binary 24
                                    (round_binary 53 (inject_Z z + 0)))
                                 (inject_Z z)) (seqZ 0 61) = true)
    by (vm_compute; reflexivity).
  rewrite forallb_forall in Hall.
  apply Qeq_bool_iff, Hall, list_elem_of_In, elem_of_seqZ. lia.
Qed.

Section TimestampProperties.

Variable CPLUnixTimeToYMDHMS : Z → tm.

(** X23.  [TimestampToOGR] hands the whole seconds of the timestamp,
    shifted by the time zone, to the calendar conversion, and stores in
    the seconds field, a [float], the seconds of the calendar time plus
    the fraction of the timestamp.  With the seconds of the calendar time
    between 0 and 60, the field is within 2^-18 (about 3.8 microseconds)
    of the exact sum; it is the exact sum when the timestamp has no
    fraction; and a timestamp in milliseconds is found again by rounding
    the field to the nearest millisecond. *)
Theorem TimestampToOGR_seconds_precision (timestamp : Z)
    (unit : TimeUnit) (nTZFlag : Z) :
  let k := units_per_second unit in
  let whole := Z.quot timestamp k in
  let shift := if nTZFlag >? OGR_TZFLAG_MIXED_TZ
               then (nTZFlag - OGR_TZFLAG_UTC) * 15 * 60 else 0 in
  let dt := CPLUnixTimeToYMDHMS (whole + shift) in
  let d := TimestampToOGR CPLUnixTimeToYMDHMS timestamp unit nTZFlag in
  let exact :=
    (inject_Z (tm_sec dt) + inject_Z (Z.rem timestamp k) / inject_Z k)%Q in
  0 ≤ tm_sec dt ≤ 60 →
  (Qabs (Date_Second d - exact) < 1 # 2 ^ 18)%Q
  ∧ (Z.rem timestamp k = 0 → (Date_Second d == inject_Z (tm_sec dt))%Q)
  ∧ (unit = MILLI →
     Qfloor (Date_Second d * 1000 + (1 # 2))%Q
     = tm_sec dt * 1000 + Z.rem timestamp 1000).
Proof.
  intros k whole shift dt d exact Hsec.
  assert (0 < k) as Hk by (subst k; destruct unit; cbn; lia).
  set (r := Z.rem timestamp k) in *.
  assert (Hr : Z.abs r < k).
  { subst r. pose proof (Z.rem_bound_abs timestamp k ltac:(lia)). lia. }
  (* the field, from the fraction as the code computes it *)
  assert (∃ fp : Q,
            Date_Second d
            = round_binary 24 (round_binary 53 (inject_Z (tm_sec dt) + fp))
            ∧ (r = 0 → fp = 0%Q)
            ∧ (Qabs (fp - inject_Z r / inject_Z k) <= pow2 (0 - 53) / 2)%Q)
    as (fp & Hfield & Hfp0 & Hfp).
  { assert (Hround : ∀ k', k' = k → 
              (Qabs (round_binary 53 (inject_Z r / inject_Z k')
                     - inject_Z r / inject_Z k') <= pow2 (0 - 53) / 2)%Q).
    { intros k' ->. apply round_binary_error; [lia|].
      apply Qabs_Qlt_condition. 
      assert (HkQ : (0 < inject_Z k)%Q) by (unfold Qlt; cbn; lia).
      change (inject_Z (2 ^ 0)) with 1%Q. split.
      - apply Qlt_shift_div_l; [exact HkQ|]. unfold Qlt. cbn. lia.
      - apply Qlt_shift_div_r; [exact HkQ|]. unfold Qlt. cbn. lia. }
    subst d dt whole shift r k. unfold TimestampToOGR.
    destruct unit; cbn [units_per_second] in *;
      rewrite ?Z.quot_1_r;
      destruct (nTZFlag >? OGR_TZFLAG_MIXED_TZ);
      rewrite ?Z.add_0_r; cbn [Date_Second].
    1,2: exists 0%Q; split; [reflexivity|]; split; [reflexivity|];
         rewrite Z.rem_1_r; vm_compute; discriminate.
    all: eexists; (split; [rewrite ?Z.mul_assoc; reflexivity|]);
      (split; [intros ->; reflexivity|]).
    all: first [ exact (Hround 1000 eq_refl)
               | exact (Hround (1000 * 1000) eq_refl)
               | exact (Hround (1000 * 1000 * 1000) eq_refl) ]. }
  set (S := inject_Z (tm_sec dt)) in *.
  set (x := (inject_Z r / inject_Z k)%Q) in *.
  assert (HS : (0 <= S)%Q ∧ (S <= 60)%Q).
  { subst S. split; [change 0%Q with (inject_Z 0)
                    |change 60%Q with (inject_Z 60)];
      rewrite <- Zle_Qle; lia. }
  assert (Hx : (-1 < x)%Q ∧ (x < 1)%Q).
  { assert (HkQ : (0 < inject_Z k)%Q) by (unfold Qlt; cbn; lia).
    subst x. split.
    - apply Qlt_shift_div_l; [exact HkQ|]. unfold Qlt. cbn. lia.
    - apply Qlt_shift_div_r; [exact HkQ|]. unfold Qlt. cbn. lia. }
  assert (He1 : (pow2 (0 - 53) / 2 <= 1 # 18014398509481984)%Q)
    by (vm_compute; discriminate).
  assert (He2 : (pow2 (6 - 53) / 2 <= 1 # 281474976710656)%Q)
    by (vm_compute; discriminate).
  assert (He3 : (pow2 (6 - 24) / 2 <= 1 # 524288)%Q)
    by (vm_compute; discriminate).
  apply Qabs_Qle_condition in Hfp as [Hfp1 Hfp2].
  set (y0 := (S + fp)%Q) in *.
  assert (Hy0 : (Qabs y0 < inject_Z (2 ^ 6))%Q).
  { change (inject_Z (2 ^ 6)) with 64%Q. apply Qabs_Qlt_condition.
    subst y0. destruct HS, Hx. split; lra. }
  pose proof (round_binary_error 53 6 y0 ltac:(lia) Hy0) as Hy.
  set (y := round_binary 53 y0) in *.
  apply Qabs_Qle_condition in Hy as [Hy1 Hy2].
  assert (Hy64 : (Qabs y < inject_Z (2 ^ 6))%Q).
  { change (inject_Z (2 ^ 6)) with 64%Q. apply Qabs_Qlt_condition.
    subst y0. destruct HS, Hx. split; lra. }
  pose proof (round_binary_error 24 6 y ltac:(lia) Hy64) as Hz.
  rewrite <- Hfield in Hz. set (z := Date_Second d) in *.
  apply Qabs_Qle_condition in Hz as [Hz1 Hz2].
  assert (Hclose : (- (1 # 262144) < z - exact)%Q
                   ∧ (z - exact < 1 # 262144)%Q).
  { subst exact y0. destruct HS, Hx. split; lra. }
  split_and!.
  - apply Qabs_Qlt_condition. exact Hclose.
  - intros H0. subst z. rewrite Hfield. subst y y0.
    rewrite (Hfp0 H0). apply whole_seconds_exact. exact Hsec.
  - intros ->. change (Z.rem timestamp 1000) with r.
    set (M := tm_sec dt * 1000 + r).
    assert (HM : (inject_Z M == 1000 * exact)%Q).
    { subst M exact x S. rewrite inject_Z_plus, inject_Z_mult.
      change (inject_Z k) with 1000%Q.
      change (inject_Z 1000) with 1000%Q. field. }
    set (v := (z * 1000 + (1 # 2))%Q).
    assert (Hv1 : (inject_Z M <= v)%Q).
    { rewrite HM. subst v. destruct Hclose. lra. }
    assert (Hv2 : (v < inject_Z (M + 1))%Q).
    { rewrite inject_Z_plus, HM. subst v. change (inject_Z 1) with 1%Q.
      destruct Hclose. lra. }
    apply Qfloor_resp_le in Hv1. rewrite Qfloor_Z in Hv1.
    pose proof (Qfloor_le v) as Hfl.
    assert (Hlt : (inject_Z (Qfloor v) < inject_Z (M + 1))%Q)
      by (eapply Qle_lt_trans; eassumption).
    rewrite <- Zlt_Qlt in Hlt. lia.
Qed.

End TimestampProperties.

Lemma TimestampToOGR_seconds_precision_witness :
  let d := TimestampToOGR seconds_only 59999999 MICRO OGR_TZFLAG_UTC in
  0 ≤ tm_sec (seconds_only (59 + 0)) ≤ 60
  ∧ (Qabs (Date_Second d
           - (inject_Z (tm_sec (seconds_only (59 + 0)))
              + inject_Z 999999 / inject_Z (1000 * 1000)))
     < 1 # 2 ^ 18)%Q
  ∧ (Date_Second d == 60)%Q.
Proof.
  cbv zeta.
  assert (Hsec : 0 ≤ tm_sec (seconds_only (59 + 0)) ≤ 60)
    by (vm_compute; split; discriminate).
  split; [exact Hsec|]. split.
  - exact (proj1 (TimestampToOGR_seconds_precision seconds_only 59999999
                    MICRO OGR_TZFLAG_UTC Hsec)).
  - vm_compute. reflexivity.
Defined.

(** ** Iteration under a spatial filter, WKB encoding *)

Lemma SetBatch_cached_arrays (L : LayerDefn) (F : Filters) (c c' : Cursor)
    (b b' : RecordBatch) :
  columns b = columns b' →
  cached_arrays (SetBatch L F c (Some b))
  = cached_arrays (SetBatch L F c' (Some b')).
Proof.
  intros Hcols. unfold SetBatch. rewrite Hcols.
  repeat case_match; try reflexivity; congruence.
Qed.

Lemma breaks_WKB_ext (core : OGRCore) (L : LayerDefn) (F : Filters)
    (c1 c2 : Cursor) :
  cached_arrays c1 = cached_arrays c2 →
  m_nFeatureIdx c1 = m_nFeatureIdx c2 →
  m_nIdxInBatch c1 = m_nIdxInBatch c2 →
  m_poBatchColumns c1 = m_poBatchColumns c2 →
  breaks_WKB core L F c1 = breaks_WKB core L F c2.
Proof.
  destruct c1, c2. unfold cached_arrays. cbn.
  intros [= -> -> -> -> -> -> ->] -> -> ->. reflexivity.
Qed.

Lemma SetBatch_cols (L : LayerDefn) (F : Filters) (c : Cursor)
    (b : RecordBatch) :
  let c' := SetBatch L F c (Some b) in
  m_nFeatureIdx c' = m_nFeatureIdx c ∧ m_nIdxInBatch c' = m_nIdxInBatch c
  ∧ m_poBatch c' = Some b ∧ m_poBatchColumns c' = columns b.
Proof. unfold SetBatch. repeat case_match; cbn; auto. Qed.

Section CachedArrays.

Variable core : OGRCore.
Variable L : LayerDefn.
Variable F : Filters.

Lemma cache_ok_next_row (c : Cursor) :
  (∃ b, m_poBatch c = Some b) → cache_ok L F c → cache_ok L F (next_row c).
Proof.
  intros [b Hb]. unfold cache_ok.
  cbn [next_row with_position m_poBatch]. rewrite Hb.
  intros Hc.
  rewrite (SetBatch_cached_arrays L F _ c b b eq_refl). rewrite <- Hc.
  reflexivity.
Qed.

Lemma cache_ok_pull (c : Cursor) :
  m_bEOF (read_next_or_EOF L F c) = false →
  cache_ok L F (read_next_or_EOF L F c).
Proof.
  unfold read_next_or_EOF, ReadNextBatch.
  destruct (m_iRecordBatch c + 1 <? 0); [discriminate|].
  destruct (ds_batches L !! Z.to_nat (m_iRecordBatch c + 1)) as [b|];
    [|discriminate].
  intros _. unfold cache_ok.
  set (c0 := with_position _ _ _ _ _).
  destruct (SetBatch_cols L F c0 b) as (_ & _ & Hb & _).
  cbn [set_EOF with_position m_poBatch]. rewrite Hb.
  rewrite (SetBatch_cached_arrays L F _ c0 b b eq_refl). reflexivity.
Qed.

(** On a cursor whose cache is up to date, the exit test of the WKB loop
    is the test on the row. *)
Lemma breaks_WKB_row (c : Cursor) (b : RecordBatch) :
  m_poBatch c = Some b → m_poBatchColumns c = columns b →
  cache_ok L F c →
  breaks_WKB core L F c
  = row_kept_WKB core L F
      (m_nFeatureIdx c, m_nIdxInBatch c, m_poBatchColumns c).
Proof.
  intros Hb Hcols Hc. unfold row_kept_WKB, cache_ok in *.
  rewrite Hb in Hc.
  destruct (SetBatch_cols L F
              (cursor_on (m_nFeatureIdx c, m_nIdxInBatch c,
                          m_poBatchColumns c))
              (mkBatch 0 (m_poBatchColumns c))) as (Hfid & Hidx & _ & Hcol).
  cbv zeta in Hfid, Hidx, Hcol. cbn [snd fst] in *.
  apply breaks_WKB_ext.
  - rewrite Hc. apply SetBatch_cached_arrays. now rewrite Hcols.
  - now rewrite Hfid.
  - now rewrite Hidx.
  - now rewrite Hcol.
Qed.

Variable breaks : Cursor → bool.
Variable keep : Row → bool.
Hypothesis Hbreaks :
  ∀ c b, m_poBatch c = Some b → m_poBatchColumns c = columns b →
         cache_ok L F c →
         breaks c = keep (m_nFeatureIdx c, m_nIdxInBatch c,
                          m_poBatchColumns c).

(** The row loop with an exit test that reads the cached arrays: it
    stops on the first row the test accepts, with the cache up to date. *)
Lemma skip_loop_first_kept_cached (rem : list Row) :
  ∀ (fuel : nat) (c : Cursor),
    positioned L c rem → cache_ok L F c →
    (length rem ≤ fuel)%nat →
    match filter (λ r, keep r = true) rem with
    | [] => ∃ c', skip_loop L F breaks fuel c = ReturnNull c'
                  ∧ m_bEOF c' = true
    | r :: kept =>
        ∃ c' later,
          skip_loop L F breaks fuel c = Break c'
          ∧ positioned L c' (r :: later) ∧ cache_ok L F c'
          ∧ filter (λ r, keep r = true) later = kept
    end.
Proof.
  induction rem as [|r rem IH]; intros fuel c Hpos Hcache Hfuel.
  - destruct Hpos as (b & n & _ & _ & _ & Hn & _ & _ & _ & Hrem & _).
    rewrite rows_from_cons in Hrem by exact Hn. discriminate Hrem.
  - destruct fuel as [|fuel]; [cbn in Hfuel; lia|].
    destruct (positioned_step L F c r rem Hpos)
      as (Hr & [b Hb] & Heof1 & Hnext).
    assert (∃ b0, m_poBatch c = Some b0 ∧ m_poBatchColumns c = columns b0)
      as (b0 & Hb0 & Hcols0).
    { destruct Hpos as (b0 & ? & _ & Hb0 & Hc0 & _). eauto. }
    cbn [skip_loop]. rewrite (Hbreaks c b0 Hb0 Hcols0 Hcache), <- Hr.
    rewrite filter_cons. destruct (decide (keep r = true)) as [Hk|Hk].
    + rewrite Hk. exists c, rem. auto.
    + apply not_true_is_false in Hk. rewrite Hk.
      assert (cache_ok L F (next_row c)) as Hcache1
        by (apply cache_ok_next_row; eauto).
      unfold pull_if_needed in Hnext. rewrite Hb in Hnext.
      rewrite bool_decide_true in Hnext by eauto. cbn [negb orb] in Hnext.
      cbn [length] in Hfuel.
      destruct (m_nIdxInBatch (next_row c) =? batch_rows (next_row c)).
      * destruct Hnext as [[-> Heof]|Hnext].
        -- rewrite Heof. cbn. eauto.
        -- assert (Heof : m_bEOF (read_next_or_EOF L F (next_row c)) = false)
             by (destruct Hnext as (? & ? & ? & _); assumption).
           rewrite Heof.
           apply IH; [exact Hnext|now apply cache_ok_pull|lia].
      * destruct Hnext as [[-> Heof]|Hnext]; [congruence|].
        apply IH; [exact Hnext|exact Hcache1|lia].
Qed.

End CachedArrays.

Section SpatialFilterWKB.

Variable core : OGRCore.
Variable L : LayerDefn.
Variable F : Filters.
Hypothesis Hgeom : is_Some (m_poFilterGeom F).
Hypothesis Hflag : m_bSpatialFilterIntersectsLayerExtent F = true.
Hypothesis Hcol : 0 ≤ geom_column L (m_iGeomFieldFilter F).
Hypothesis Henc : GeomEncoding L (m_iGeomFieldFilter F) = WKB.

(** Between two rows, with the cache up to date once the next batch is
    pulled. *)
Lemma GetNextRawFeature_next_kept_WKB (c : Cursor) (rem : list Row) :
  between_rows L F c rem →
  (m_bEOF (pull_if_needed L F c) = false →
   cache_ok L F (pull_if_needed L F c)) →
  match filter (λ r, row_kept_WKB core L F r = true) rem with
  | [] => ∃ c', GetNextRawFeature core L F c = RawNull c'
  | r :: kept =>
      ∃ c' later,
        GetNextRawFeature core L F c = RawFeature (decode_row core L r) c'
        ∧ between_rows L F c' later
        ∧ (m_bEOF (pull_if_needed L F c') = false →
           cache_ok L F (pull_if_needed L F c'))
        ∧ filter (λ r, row_kept_WKB core L F r = true) later = kept
  end.
Proof.
  intros [Heof Hrem] Hcache. unfold GetNextRawFeature.
  rewrite Heof, Hflag. cbn [negb orb].
  change (if negb (bool_decide (is_Some (m_poBatch c)))
             || (m_nIdxInBatch c =? batch_rows c)
          then read_next_or_EOF L F c else c)
    with (pull_if_needed L F c).
  destruct Hrem as [[-> Heof']|Hpos].
  - rewrite Heof'. cbn. eauto.
  - assert (Heof' : m_bEOF (pull_if_needed L F c) = false)
      by (destruct Hpos as (? & ? & ? & _); assumption).
    rewrite Heof'. destruct Hgeom as [g ->].
    destruct (Z.leb_spec 0 (geom_column L (m_iGeomFieldFilter F)))
      as [_|?]; [|lia].
    rewrite (bool_decide_true _ Henc). cbn [andb].
    assert (Hlen : (length rem ≤ loop_fuel L)%nat).
    { destruct Hpos as (? & ? & _ & _ & _ & _ & _ & _ & _ & _ & Hlen).
      lia. }
    pose proof (skip_loop_first_kept_cached L F (breaks_WKB core L F)
                  (row_kept_WKB core L F) (breaks_WKB_row core L F) rem
                  (loop_fuel L) (pull_if_needed L F c) Hpos
                  (Hcache Heof') Hlen) as Hloop.
    destruct (filter (λ r, row_kept_WKB core L F r = true) rem)
      as [|r kept].
    + destruct Hloop as (c' & -> & _). eauto.
    + destruct Hloop as (c' & later & -> & Hc' & Hcache' & Hkept).
      destruct (positioned_step L F c' r later Hc')
        as (-> & Hb & He & Hnext).
      exists (next_row c'), later. split; [reflexivity|].
      split; [split; assumption|]. split; [|exact Hkept].
      intros Hlive. unfold pull_if_needed in *.
      destruct (negb (bool_decide (is_Some (m_poBatch (next_row c'))))
                || (m_nIdxInBatch (next_row c') =? batch_rows (next_row c'))).
      * now apply cache_ok_pull.
      * apply cache_ok_next_row; [|exact Hcache'].
        destruct Hc' as (b' & ? & _ & Hb' & _). eauto.
Qed.

Lemma read_features_kept_WKB (n : nat) :
  ∀ (c : Cursor) (rem : list Row),
    between_rows L F c rem →
    (m_bEOF (pull_if_needed L F c) = false →
     cache_ok L F (pull_if_needed L F c)) →
    read_features core L F n c
    = take n (List.map (decode_row core L)
                (filter (λ r, row_kept_WKB core L F r = true) rem)).
Proof.
  induction n as [|n IH]; intros c rem Hbetween Hcache; [reflexivity|].
  pose proof (GetNextRawFeature_next_kept_WKB c rem Hbetween Hcache)
    as Hnext.
  cbn [read_features].
  destruct (filter (λ r, row_kept_WKB core L F r = true) rem) as [|r kept].
  - destruct Hnext as [c' ->]. reflexivity.
  - destruct Hnext as (c' & later & -> & Hc' & Hcache' & <-).
    cbn [List.map take]. f_equal. apply IH; assumption.
Qed.

(** X24.  With a spatial filter installed on a WKB geometry column,
    iterating from a rewound cursor yields, decoded and in the order of
    the dataset, exactly the rows on which the exit test of the WKB row
    loop holds: the rows whose geometry is not null and whose bounding
    box (from the bbox columns when they are cached and not null, else
    read from the WKB) intersects the filter envelope or cannot be read,
    and also the rows that pass the attribute constraints when there are
    some. *)
Theorem iteration_under_spatial_filter_WKB (c : Cursor) (n : nat) :
  Forall (λ b, 0 < num_rows b) (ds_batches L) →
  cursor_ok L c →
  (m_iRecordBatch c = 0 → cache_ok L F c) →
  read_features core L F n (ResetReading c)
  = take n (List.map (decode_row core L)
              (filter (λ r, row_kept_WKB core L F r = true)
                      (all_rows 0 (ds_batches L)))).
Proof.
  intros Hpos Hok Hcache. apply read_features_kept_WKB.
  - apply ResetReading_between_rows; assumption.
  - intros Hlive. unfold pull_if_needed in *.
    destruct (negb (bool_decide (is_Some (m_poBatch (ResetReading c))))
              || (m_nIdxInBatch (ResetReading c)
                  =? batch_rows (ResetReading c))) eqn:Hneed.
    + now apply cache_ok_pull.
    + unfold ResetReading in *.
      destruct (Z.eqb_spec (m_iRecordBatch c) 0) as [Hrb|Hrb].
      * specialize (Hcache Hrb). unfold cache_ok in *.
        destruct (Hok Hrb) as (b & _ & Hb & _).
        cbn [with_position m_poBatch]. rewrite Hb in *.
        rewrite (SetBatch_cached_arrays L F _ c b b eq_refl).
        rewrite <- Hcache. reflexivity.
      * cbn [m_poBatch] in Hneed.
        rewrite bool_decide_false in Hneed
          by (intros [? ?]; discriminate).
        discriminate Hneed.
Qed.

End SpatialFilterWKB.

Lemma iteration_under_spatial_filter_WKB_witness :
  read_features scenario_core scenario_layer (ls_filters spatial_only_state)
    5 (ResetReading initial_cursor)
  = take 5 (List.map (decode_row scenario_core scenario_layer)
              (filter (λ r, row_kept_WKB scenario_core scenario_layer
                              (ls_filters spatial_only_state) r = true)
                      (all_rows 0 (ds_batches scenario_layer)))).
Proof.
  apply (iteration_under_spatial_filter_WKB scenario_core scenario_layer
           (ls_filters spatial_only_state) (mk_is_Some _ _ eq_refl)
           eq_refl).
  - vm_compute. discriminate.
  - reflexivity.
  - repeat constructor.
  - intros Hrb. discriminate Hrb.
  - intros Hrb. discriminate Hrb.
Defined.

(** ** The fast extent pass against the full decode *)



(** Without the hypothesis on the holes the two extents differ: when the
    second ring lies outside the first, the fast pass misses it. *)
Example fast_pass_misses_outside_ring :
  let L := multipolygon_layer ring_outside in
  extent_of (GetExtent scenario_core (constant_base EnvNone) L 0 true
               initial_state) = Some (Env 0 10 0 10)
  ∧ extent_by_full_decode scenario_core L 0 = Env 0 20 0 10.
Proof. split; vm_compute; reflexivity. Qed.
